(* ===== verification/_CoqProject ===== *)
-Q . S2P
Prelude.v
Go.v
Rely.v
Shard.v
Ws.v
Codec.v
CodecSpec.v
CodecProps.v
Info.v
Proto.v
State.v
Relation.v
Manager.v
Binder.v
Topic.v
FrameOut.v
TaskPost.v
Process.v
Queue.v
Worker.v
Customer.v
Server.v
Rules.v
Consistency.v
Commands.v
Casts.v
Queries.v
Loop.v
Lifecycle.v
Forward.v
Owner.v
OwnerReg.v
OwnerOut.v
OwnerLock.v
OwnerCmds.v
OwnerTask.v
OwnerEvents.v
Opening.v
Messages.v
Traffic.v
Handshake.v
Workers.v
OwnerTraffic.v
Demo.v
Views.v
CastProps.v
TaskProps.v
LifeProps.v
ServerProps.v
WorkerProps.v
ProcessProps.v
QueueInv.v
QueueRun.v
QueueProps.v
Pool.v
Channels.v
EventQueue.v
EventHist.v
EventProps.v
Amqp.v
AmqpProps.v
Net.v
Config.v
Logging.v
ConfigProps.v
Startup.v
StartupProps.v
Accept.v
SlicePool.v
Races.v
Interleave.v
InterleaveRun.v
Main.v
MainProps.v
Metrics.v
ObjPool.v
Byteslice.v
Ids.v
Helpers.v
Boot.v
