(* ===== verification/Prelude.v ===== *)
(** netsvr: a WebSocket gateway in Go, and a verification of it.

    * The program

    netsvr keeps the WebSocket connections of customers and leaves the business logic
    to other processes. A connection is served by an event loop (src/internal/wsServer)
    that decodes frames and starts tasks (src/internal/customer/websocket.go); three
    registries (src/internal/customer/manager, binder, topic) say who is online, bound
    to a customerId and subscribed to a topic. Business processes connect over TCP:
    a task connection sends commands and questions (src/internal/task), a worker
    connection receives the events of the customers (src/internal/worker). Events also
    go out by HTTP (src/internal/callback), Redis and AMQP (src/internal/queue). The
    settings (src/configs) are checked once at the start.

    * How it is modelled

    [Go] is the language of the model: a goroutine is a tree of atomic actions on the
    shared state, [run] executes one alone, [gstep] interleaves many, [schedule] is an
    executable scheduler, [wp] the rule for programs. [State] is the shared state of the
    gateway: a heap of connections by pointer, the registries, the environment (the clock
    and the answers of the libraries, as lists that are consumed), and a log of effects.
    Every handler of the source is a definition of type [prog], with its guards, early
    returns and errors; a panic is [APanic], a lock that is held blocks. A deferred recover
    turns a panic into a mark in the tree and a return ([Caught]), and a loop that has used
    up the turns the model allows it is an outcome of its own ([NoFuel]) that no recover
    catches: [wps] and [safe] let neither through. Integers are Z with their width written
    out ([u32], [i32], [u64], [i64]). The components that have an interleaving of their own
    (the ring of pkg/queue, the event queues, the pools, the log, main) have a step relation
    each, over their own state.

    * Files, and what they model

    - [Prelude]: integers, bytes, lists, [MapOrder] (the order in which a Go map is ranged
      over is a parameter), the closure [star] of a step relation; [Go]: goroutines.
    - [Ws]: frame.go, write.go and cipher.go of the vendored github.com/gobwas/ws.
    - [Codec], [CodecSpec], [CodecProps]: wsServer/codec.go and messagePayload.go, the
      frame decoder; [Server], [Handshake], [Traffic], [ServerProps]: the opening handshake
      and wsServer/server.go.
    - [Info]: wsServer/info.go (identity, rate window, topics, session), uniqIdGen; the
      record [config] holds the settings that the handlers read. [Ids]: the templates of
      the identifiers and how they are read back.
    - [Shard], [Relation], [Manager], [Binder], [Topic]: the registries, 256 shards each,
      one action for each critical section.
    - [FrameOut]: customer/frame.go and func.go, the write path.
    - [Customer], [Lifecycle], [Forward], [Opening], [Messages], [LifeProps]:
      customer/websocket.go and callback.go, the life of a connection.
    - [Proto]: the messages of netsvr-protocol-go, as records; the encoding is the class
      [Proto]. [TaskPost], [Process]: task/process, one definition for each file, and the
      loop of a task connection; [Rules], [Consistency], [Commands], [Casts], [Queries],
      [Loop], [Views] are their lemmas, [TaskProps], [CastProps], [ProcessProps] their
      theorems.
    - [Worker], [Workers], [WorkerProps]: src/internal/worker.
    - [Rely], [Owner], [OwnerReg], [OwnerOut], [OwnerLock], [OwnerCmds], [OwnerTask],
      [OwnerEvents], [OwnerTraffic], [Interleave], [InterleaveRun]: the handlers side by side.
    - [Queue], [QueueInv], [QueueRun], [QueueProps]: pkg/queue/queue.go, every atomic
      step; the rest, [Worker] and the event queues, uses the queue by its specification
      [fifo], each call as one step.
    - [EventQueue], [EventHist], [EventProps]: the packets of src/internal/queue/internal
      and the queue on Redis; [Amqp], [Pool], [Channels], [AmqpProps]: the queue on AMQP
      with its monitor and its pools. [EventHist] is the part of the proofs that both
      queues share, against the interface [History].
    - [Net], [Config], [ConfigProps]: configs/config.go and utils/utils.go; [Startup],
      [StartupProps]: limit/manager.go and the two queue managers, from the settings to the
      configuration that the handlers read ([to_config], [boot]).
    - [Logging]: pkg/log and internal/log, the writer in the background. [Main],
      [MainProps]: pkg/quit and cmd/netsvr.go with the start and the stop of the three servers
      and the queues: main and the goroutines it starts are lists of operations, and a step
      of the process is one operation of one of them, a signal, a step of the log, or
      something that others log or do to a queue; a panic ends the process with 2.
    - [Metrics]: internal/metrics; [ObjPool]: internal/objPool, bufReader.go and the pool of
      worker/packet.go; [Byteslice]: the library's pool of byte slices and the buffers of the
      callbacks; [SlicePool]: utils/slicePool; [Accept]: the accept loops of
      task/tcp.go and worker/tcp.go; [Helpers]: the text of dropped events, utils/buffer,
      pkg/wd; [Boot]: the initialisation of the packages, from the working directory to the
      settings and the templates that main begins with.
    - [Demo]: a concrete gateway for the witnesses; [Races]: runs that break consistency.

    * What is shown

    - The decoder inverts the client's framing whatever the segmentation, terminates, and
      accepts only what it should; its two defects are theorems of [CodecProps]. The event
      loop hands messages over in order, and upgrades exactly the acceptable requests.
    - The invariant [Inv] of [Consistency]: a registry entry exists exactly for the
      connections that are online and carry the customerId or the topic. Every command,
      the opening and the closing keep it, and each does exactly what it says, in terms of
      who is online, bound and subscribed and of what each connection is sent. A task
      connection cannot make the gateway panic or hang, whatever it sends ([Process_total],
      of the loop without its recover). These theorems are about operations that run alone.
    - A business connection for events, from its start, puts what it accepts on the wire in
      order and in whole packets, whoever sends and closes meanwhile ([loopSend_serves]).
    - Any number of handlers in any interleaving ([Interleave]): none panics, recovered or
      not, no loop uses up its turns, they do not block each other for ever and every run of
      them ends ([handlers_end]); the three registries and the lists of the business
      connections for events stay well formed, and those connections whose opening was over
      at the start ([tracked]) are in the manager and the binder under their own names
      whenever their lock is free, and gone once closed ([handlers_settle]). The proof
      gives every goroutine tokens (a lock, the close event of a connection, the serving of
      a business connection, the bytes of a connection or of a business connection for events
      that are read) and a contract ([Rely.safe]); what is outside the pool (the network, the
      goroutines that write, the clock) is the relation [surroundings]. The event loop of a
      connection is in the pool too, through its opening handshake (an opened connection,
      not one of [tracked]) and through the bytes that come once it is upgraded, if none of
      their frames declares a length that wraps around. Connections that open meanwhile are
      in the pool without being promised to be in step, because an opening races with a
      close and with an update; these and the race on the topics are the runs of [Races].
    - The ring does what a bounded queue does, one call at a time; under any interleaving it
      is first in first out without loss, and no wake-up is lost.
    - Every event sent to Redis or AMQP is accounted for once, by what Redis answered and
      what the library took, and the metrics say so; the pools of AMQP never open more than
      their size, share nothing and never block a goroutine that gives back, nor does the
      making of a channel on a borrowed connection, heartbeats of both pools included; what
      is counted as succeeded over the life of a channel is what the broker confirmed, and
      each packet is counted once, if the records are received in order, all of them and
      before their confirmations.
    - Accepted settings are well formed and stable; the start makes a queue for exactly the
      events that are configured. The initialisation of the packages exits for the reasons
      that are checked or for want of a random number, panics for two that are not, and
      else main finds everything in place ([Boot]).
    - The log file gets what was accepted, in order, and everything when the program stops
      and logs no more; the process stops in one order, ends once, with 2 where main closes
      a server that was never made, and is never stuck ([MainProps]), though what main logs
      last and what still waits in the queues is lost.
    - The table of the meters refines the map in which the handlers count; pooled objects
      are handed out clean and to one user; a callback sends the bytes of its own message if
      the HTTP library is through with them when it returns, and else may send another's
      ([Byteslice]); identifiers are read back as their parts, and are the same only when
      all of these are.

    * Bounds and fuel

    [decode], the loop of [OnTraffic], that of [Process] and the reading loop of a worker
    connection have fuel from the length of what has arrived: every round that goes on
    takes bytes. [decode_terminates] and [OnTraffic_total] show that it is enough, and for
    the two loops under a recover [Process_total] and [handlers_end] do, which exclude
    [NoFuel]. The sending goroutine of a worker connection is run turn by turn, and for any
    number of turns beyond those that its queue holds once that is closed. Everything else is
    structural. The counter of the connections wraps at 2^32, and [broadcastBulk_correct]
    asks that it has not; the sequence numbers of the ring wrap at 2^64, and the theorems on
    it ask that fewer have been used.

    * What is a parameter, and what is left out

    Parameters: the order of maps ([MapOrder]), DEFLATE ([Deflate]), protobuf ([Proto]),
    package net ([Network], with [IPText] for what is relied on and the module [NetText] as
    an instance), and, as answers in lists or functions, the clock, the token bucket of
    golang.org/x/time/rate, the pool of goroutines, HTTP, go-redis, amqp091-go, gnet, the
    file system and the command line, the random numbers, the order in which packages that
    do not import each other are initialised, and the TOML decoder. The float64 of
    [Duration.Seconds] is computed exactly ([Config.Seconds]).

    Not modelled: how zerolog, gops and the TOML decoder work; the rates of
    the meters, which the library measures; the timer wheel (a delayed task may run at any
    time); the options of the engine, and what the Autobahn server answers, which exists for
    a conformance test; the parser of sub-protocols and the file test of utils.go, which
    nothing calls; the programs under src/test. *)
From Stdlib Require Export ZArith Lia Ascii.
From Stdlib Require String.
From stdpp Require Export base option numbers list gmap strings fin_maps.

Declare Scope netsvr_scope.
Delimit Scope netsvr_scope with netsvr.
#[global] Open Scope Z_scope.

(** ** Machine integers.

    A Go integer of width [w] is a [Z]; every operation that can leave the
    range is followed by the wrap-around below. *)

Definition u8 (z : Z) : Z := z mod 2 ^ 8.
Definition u16 (z : Z) : Z := z mod 2 ^ 16.
Definition u32 (z : Z) : Z := z mod 2 ^ 32.
Definition u64 (z : Z) : Z := z mod 2 ^ 64.
Definition i32 (z : Z) : Z := (z + 2 ^ 31) mod 2 ^ 32 - 2 ^ 31.
Definition i64 (z : Z) : Z := (z + 2 ^ 63) mod 2 ^ 64 - 2 ^ 63.

Lemma u32_range z : 0 <= u32 z < 2 ^ 32.
Proof. apply Z.mod_pos_bound. lia. Qed.

Lemma u64_range z : 0 <= u64 z < 2 ^ 64.
Proof. apply Z.mod_pos_bound. lia. Qed.

Lemma u32_small z : 0 <= z < 2 ^ 32 -> u32 z = z.
Proof. apply Z.mod_small. Qed.

Lemma u64_small z : 0 <= z < 2 ^ 64 -> u64 z = z.
Proof. apply Z.mod_small. Qed.

Lemma i64_small z : - 2 ^ 63 <= z < 2 ^ 63 -> i64 z = z.
Proof. intros ?. unfold i64. rewrite Z.mod_small; lia. Qed.

Lemma i32_small z : - 2 ^ 31 <= z < 2 ^ 31 -> i32 z = z.
Proof. intros ?. unfold i32. rewrite Z.mod_small; lia. Qed.

Lemma u32_idemp z : u32 (u32 z) = u32 z.
Proof. apply u32_small, u32_range. Qed.

(** ** Byte strings.

    A Go [[]byte] is a list of [Z]; [wf_bytes] says every element is a byte. *)

Abbreviation bytes := (list Z).

Definition is_byte (b : Z) : Prop := 0 <= b < 256.
Definition wf_bytes (l : bytes) : Prop := Forall is_byte l.

(** The test of a concrete byte string. *)
Definition all_bytes (l : bytes) : bool := forallb (fun b => (0 <=? b) && (b <? 256)) l.

Lemma all_bytes_wf l : all_bytes l = true -> wf_bytes l.
Proof.
  unfold all_bytes, wf_bytes. rewrite forallb_forall, Forall_forall. intros Hl b Hb.
  specialize (Hl b (proj1 (list_elem_of_In _ _) Hb)).
  apply andb_true_iff in Hl as [? ?]. unfold is_byte. lia.
Qed.

(** [len], the Go built-in, on slices. *)
Definition len {A} (l : list A) : Z := Z.of_nat (length l).

Lemma len_nonneg {A} (l : list A) : 0 <= len l.
Proof. unfold len. lia. Qed.

Lemma len_app {A} (l k : list A) : len (l ++ k) = len l + len k.
Proof. unfold len. rewrite length_app. lia. Qed.

Lemma len_cons {A} (x : A) (l : list A) : len (x :: l) = 1 + len l.
Proof. unfold len. cbn [length]. lia. Qed.

Lemma len_nil {A} : len (@nil A) = 0.
Proof. reflexivity. Qed.

(** Big-endian decoding and encoding ([encoding/binary].[BigEndian]). *)

Definition be (l : bytes) : Z := foldl (fun acc b => acc * 256 + b) 0 l.

Fixpoint put_be (n : nat) (v : Z) : bytes :=
  match n with
  | O => []
  | S n' => put_be n' (v / 256) ++ [v mod 256]
  end.

Lemma length_put_be n v : length (put_be n v) = n.
Proof.
  revert v; induction n as [|n IH]; intros v; cbn; [done|].
  rewrite length_app, IH. cbn. lia.
Qed.

Lemma wf_put_be n v : wf_bytes (put_be n v).
Proof.
  revert v; induction n as [|n IH]; intros v; cbn; [constructor|].
  apply Forall_app; split; [apply IH|].
  constructor; [|constructor]. unfold is_byte. apply Z.mod_pos_bound. lia.
Qed.

Lemma be_snoc l b : be (l ++ [b]) = be l * 256 + b.
Proof. unfold be. rewrite foldl_app. done. Qed.

Lemma be_put_be n v : be (put_be n v) = v mod 256 ^ Z.of_nat n.
Proof.
  revert v; induction n as [|n IH]; intros v.
  { cbn. rewrite Z.mod_1_r. done. }
  cbn [put_be]. rewrite be_snoc, IH, Nat2Z.inj_succ, Z.pow_succ_r by lia.
  rewrite Z.rem_mul_r by (try apply Z.pow_nonzero; lia). lia.
Qed.

Lemma be_bound l : wf_bytes l -> 0 <= be l < 256 ^ len l.
Proof.
  induction l as [|b l IH] using rev_ind; intros H.
  { change (0 <= 0 < 1). lia. }
  apply Forall_app in H as [Hl Hb]. inversion Hb as [|? ? Hbb]; subst.
  specialize (IH Hl). rewrite be_snoc, len_app, Z.pow_add_r by (unfold len; lia).
  change (len [b]) with 1. rewrite Z.pow_1_r. unfold is_byte in Hbb. lia.
Qed.

Lemma put_be_be l : wf_bytes l -> put_be (length l) (be l) = l.
Proof.
  induction l as [|b l IH] using rev_ind; intros H; [done|].
  apply Forall_app in H as [Hl Hb]. inversion Hb as [|? ? Hbb]; subst.
  rewrite length_app, Nat.add_comm. cbn [length Nat.add put_be].
  rewrite be_snoc. unfold is_byte in Hbb.
  replace ((be l * 256 + b) / 256) with (be l) by (rewrite Z.div_add_l by lia; rewrite Z.div_small; lia).
  replace ((be l * 256 + b) mod 256) with b
    by (rewrite Z.add_comm, Z.mod_add, Z.mod_small; lia).
  by rewrite IH.
Qed.

(** ** Strings: a Go string is a sequence of bytes. *)

Definition str_bytes (s : string) : bytes :=
  (fun c => Z.of_N (N_of_ascii c)) <$> String.list_ascii_of_string s.

Lemma wf_str_bytes s : wf_bytes (str_bytes s).
Proof.
  apply Forall_fmap, Forall_forall. intros c _. unfold is_byte. cbn.
  pose proof (N_ascii_bounded c). lia.
Qed.

(** The test [s == ""]. *)
Definition is_empty (s : string) : bool := bool_decide (s = EmptyString).

Lemma is_empty_true s : is_empty s = true <-> s = EmptyString.
Proof. unfold is_empty. by rewrite bool_decide_eq_true. Qed.

Lemma is_empty_false s : is_empty s = false <-> s <> EmptyString.
Proof. unfold is_empty. by rewrite bool_decide_eq_false. Qed.

(** ** Map iteration.

    [range] over a Go map visits every entry once in an unspecified order:
    the development is stated for every such order. *)

Class MapOrder : Type := {
  range_map : forall {K A} `{Countable K}, gmap K A -> list (K * A);
  range_map_perm : forall {K A} `{Countable K} (m : gmap K A),
    Permutation (range_map m) (map_to_list m);
}.

(** One such order, for the concrete instances. *)
Definition stored_order : MapOrder := {|
  range_map := fun K A _ _ m => map_to_list m;
  range_map_perm := fun K A _ _ m => Permutation_refl _;
|}.

Section Range.
Context {MO : MapOrder} {K A : Type} `{Countable K}.

Lemma elem_of_range (m : gmap K A) k x :
  (k, x) ∈ range_map m <-> m !! k = Some x.
Proof. rewrite (range_map_perm m). apply elem_of_map_to_list. Qed.

Lemma length_range (m : gmap K A) : length (range_map m) = size m.
Proof. rewrite (range_map_perm m). apply length_map_to_list. Qed.

Lemma NoDup_fst_range (m : gmap K A) : NoDup (range_map m).*1.
Proof. rewrite (range_map_perm m). apply NoDup_fst_map_to_list. Qed.

Lemma range_empty : range_map (∅ : gmap K A) = [].
Proof. apply length_zero_iff_nil. rewrite length_range. apply map_size_empty. Qed.

Lemma elem_of_range_fst (m : gmap K A) k :
  k ∈ (range_map m).*1 <-> is_Some (m !! k).
Proof.
  rewrite list_elem_of_fmap. split.
  - intros ([k' x] & -> & Hin). exists x. by apply elem_of_range.
  - intros [x Hx]. exists (k, x). split; [done|]. by apply elem_of_range.
Qed.
End Range.

(** ** Folds shared by the components. *)

Lemma foldl_ind {A B} (P : A -> Prop) (f : A -> B -> A) l a :
  P a -> (forall x b, P x -> P (f x b)) -> P (foldl f a l).
Proof. revert a; induction l as [|b l IH]; intros a Ha Hf; cbn; auto. Qed.

Lemma foldl_ext {A B} (f g : A -> B -> A) l a :
  (forall x b, b ∈ l -> f x b = g x b) -> foldl f a l = foldl g a l.
Proof.
  revert a; induction l as [|b l IH]; intros a Hfg; cbn; [done|].
  rewrite Hfg by constructor. apply IH. intros. apply Hfg. by constructor.
Qed.

(** ** Reflexive transitive closure of a step relation. *)

Inductive star {S} (step : S -> S -> Prop) : S -> S -> Prop :=
  | star_nil s : star step s s
  | star_cons s1 s2 s3 : step s1 s2 -> star step s2 s3 -> star step s1 s3.

Lemma star_invariant {S} (step : S -> S -> Prop) (I : S -> Prop) s s' :
  (forall x y, I x -> step x y -> I y) -> star step s s' -> I s -> I s'.
Proof. intros Hstep Hs. induction Hs; eauto. Qed.

Lemma star_app {S} (step : S -> S -> Prop) a b c :
  star step a b -> star step b c -> star step a c.
Proof. intros H1 H2. induction H1; eauto using star. Qed.

Lemma star_one {S} (step : S -> S -> Prop) a b : step a b -> star step a b.
Proof. eauto using star. Qed.

(** ** Automation. *)

Create HintDb netsvr.
Create Rewrite HintDb netsvr.
#[export] Hint Resolve u32_range u64_range wf_put_be wf_str_bytes star_one : netsvr.
#[export] Hint Constructors star : netsvr.
#[export] Hint Rewrite @length_put_be @len_app @len_cons @len_nil @range_empty : netsvr.

(** Linear arithmetic with division and remainder. *)
Ltac divlia := Z.to_euclidean_division_equations; lia.

(** Destructs every boolean test of the goal and the hypotheses into a
    proposition, then closes arithmetic. *)
Ltac bool_case :=
  repeat match goal with
    | |- context [Z.eqb ?a ?b] => destruct (Z.eqb_spec a b)
    | |- context [Z.ltb ?a ?b] => destruct (Z.ltb_spec a b)
    | |- context [Z.leb ?a ?b] => destruct (Z.leb_spec a b)
    | |- context [Nat.eqb ?a ?b] => destruct (Nat.eqb_spec a b)
    | |- context [Nat.ltb ?a ?b] => destruct (Nat.ltb_spec a b)
    | |- context [Nat.leb ?a ?b] => destruct (Nat.leb_spec a b)
    | |- context [bool_decide ?P] => destruct (bool_decide_reflect P)
    end.
