(* ===== verification/Go.v ===== *)
(** Goroutines as resumptions: a program is a tree of atomic actions on a shared state [W].
    An action may block (a lock that is held), panic (a run time error) or succeed with a
    value and a new state; a program may start another goroutine. Two ends are told apart: a
    panic, which a deferred [recover] turns into a report ([Caught]) and a return, and a loop
    of the model that has used up its turns ([NoFuel]), which nothing hides: the theorems
    show that it does not take place. [run] executes a goroutine alone, from start to end;
    [gstep] interleaves the atomic actions of a pool of goroutines. *)

From S2P Require Export Prelude.

(** The result of one atomic action. *)
Inductive ares (W B : Type) : Type :=
  | AOk (b : B) (w : W)
  | ABlock
  | APanic.
Arguments AOk {W B} _ _.
Arguments ABlock {W B}.
Arguments APanic {W B}.

Inductive go (W A : Type) : Type :=
  | Ret (a : A)
  | Panic
  | NoFuel                     (* a loop has used up the turns the model gives it *)
  | Act (B : Type) (f : W -> ares W B) (k : B -> go W A)
  | Spawn (t : go W unit) (k : go W A)
  | Caught (k : go W A).       (* a panic was recovered and reported; then [k] *)
Arguments Ret {W A} _.
Arguments Panic {W A}.
Arguments NoFuel {W A}.
Arguments Act {W A B} _ _.
Arguments Spawn {W A} _ _.
Arguments Caught {W A} _.

Fixpoint bind {W A B} (m : go W A) (g : A -> go W B) : go W B :=
  match m with
  | Ret a => g a
  | Panic => Panic
  | NoFuel => NoFuel
  | Act f k => Act f (fun b => bind (k b) g)
  | Spawn t k => Spawn t (bind k g)
  | Caught k => Caught (bind k g)
  end.

Notation "x <- m ;; k" := (bind m (fun x => k))
  (at level 100, m at next level, right associativity) : netsvr_scope.
Notation "m ;; k" := (bind m (fun _ => k))
  (at level 100, right associativity) : netsvr_scope.
#[global] Open Scope netsvr_scope.

(** An action that always succeeds. *)
Definition act {W A} (f : W -> A * W) : go W A :=
  Act (fun w => let '(a, w') := f w in AOk a w') Ret.

Definition modify {W} (f : W -> W) : go W unit := act (fun w => (tt, f w)).
Definition gets {W A} (f : W -> A) : go W A := act (fun w => (f w, w)).

(** [go fn()]. *)
Definition spawn {W} (t : go W unit) : go W unit := Spawn t (Ret tt).

(** [for _, x := range l { body }]. *)
Fixpoint for_each {W X} (l : list X) (body : X -> go W unit) : go W unit :=
  match l with
  | [] => Ret tt
  | x :: l' => body x ;; for_each l' body
  end.

(** [for _, x := range l { body }] with a variable of the enclosing function
    updated by the body. *)
Fixpoint for_fold {W X A} (l : list X) (a : A) (body : A -> X -> go W A) : go W A :=
  match l with
  | [] => Ret a
  | x :: l' => a' <- body a x ;; for_fold l' a' body
  end.

(** A loop whose body may leave the whole function: [true] goes on with the
    next element, [false] is the [return]. *)
Fixpoint for_while {W X} (l : list X) (body : X -> go W bool) : go W bool :=
  match l with
  | [] => Ret true
  | x :: l' => c <- body x ;; if (c : bool) then for_while l' body else Ret false
  end.

(** ** One goroutine alone.

    [Saved] is an end like [Done] of a goroutine that has recovered from a panic on the
    way, [Spent] the end of one whose loop used up its turns. *)

Inductive outcome (W A : Type) : Type :=
  | Done (a : A) (w : W) (started : list (go W unit))
  | Saved (a : A) (w : W) (started : list (go W unit))
  | Panicked (w : W)
  | Blocked (w : W)
  | Spent (w : W).
Arguments Done {W A} _ _ _.
Arguments Saved {W A} _ _ _.
Arguments Panicked {W A} _.
Arguments Blocked {W A} _.
Arguments Spent {W A} _.

(** The outcome of a goroutine that has recovered before. *)
Definition saved {W A} (o : outcome W A) : outcome W A :=
  match o with Done a w ts => Saved a w ts | o => o end.

(** The outcome of a goroutine that has started others before. *)
Definition started {W A} (ts : list (go W unit)) (o : outcome W A) : outcome W A :=
  match o with
  | Done a w ts' => Done a w (ts ++ ts')
  | Saved a w ts' => Saved a w (ts ++ ts')
  | o => o
  end.

Fixpoint run {W A} (m : go W A) (w : W) : outcome W A :=
  match m with
  | Ret a => Done a w []
  | Panic => Panicked w
  | NoFuel => Spent w
  | Act f k =>
      match f w with
      | AOk b w' => run (k b) w'
      | ABlock => Blocked w
      | APanic => Panicked w
      end
  | Spawn t k => started [t] (run k w)
  | Caught k => saved (run k w)
  end.

(** A call whose frame has a deferred [recover]: a panic ends it, and is reported. *)
Fixpoint recover {W} (m : go W unit) : go W unit :=
  match m with
  | Ret a => Ret a
  | Panic => Caught (Ret tt)
  | NoFuel => NoFuel
  | Act f k =>
      Act (fun w => match f w with
                    | AOk b w' => AOk (Some b) w'
                    | ABlock => ABlock
                    | APanic => AOk None w
                    end)
          (fun ob => match ob with Some b => recover (k b) | None => Caught (Ret tt) end)
  | Spawn t k => Spawn t (recover k)
  | Caught k => Caught (recover k)
  end.

(** Total correctness of a goroutine run alone: it neither blocks nor panics, nor does
    it recover from a panic, its loops do not use up their turns, and it ends with [Q],
    the goroutines it started included. *)
Definition wps {W A} (m : go W A) (w : W) (Q : A -> W -> list (go W unit) -> Prop) : Prop :=
  match run m w with
  | Done a w' ts => Q a w' ts
  | _ => False
  end.

(** The same for a goroutine that starts no other. *)
Definition wp {W A} (m : go W A) (w : W) (Q : A -> W -> Prop) : Prop :=
  wps m w (fun a w' ts => ts = [] /\ Q a w').

Section Run.
Context {W : Type}.

Lemma run_bind {A B} (m : go W A) (g : A -> go W B) w :
  run (bind m g) w =
  match run m w with
  | Done a w' ts => started ts (run (g a) w')
  | Saved a w' ts => saved (started ts (run (g a) w'))
  | Panicked w' => Panicked w'
  | Blocked w' => Blocked w'
  | Spent w' => Spent w'
  end.
Proof.
  revert w; induction m as [? a|?|?|? C f k IH|? t IHt k IH|? k IH]; intros w; cbn.
  - by destruct (run (g a) w).
  - done.
  - done.
  - destruct (f w); [apply IH|done|done].
  - rewrite IH. destruct (run k w) as [a w' ts|a w' ts| | |]; cbn; [..|done|done|done]; by destruct (run (g a) w').
  - rewrite IH. destruct (run k w) as [a w' ts|a w' ts| | |]; cbn; [..|done|done|done]; by destruct (run (g a) w').
Qed.

(** Equality of runs is a congruence, and the monad's laws hold up to it. *)
Lemma run_bind_ext {A B} (m m' : go W A) (g g' : A -> go W B) w :
  run m w = run m' w -> (forall a w1, run (g a) w1 = run (g' a) w1) -> run (bind m g) w = run (bind m' g') w.
Proof. intros Hm Hg. rewrite !run_bind, Hm. destruct (run m' w); [by rewrite Hg..|done|done|done]. Qed.

Lemma run_bind_assoc {A B C} (m : go W A) (f : A -> go W B) (g : B -> go W C) w :
  run (bind (bind m f) g) w = run (a <- m ;; bind (f a) g) w.
Proof.
  revert w; induction m as [? a|?|?|? D k c IH|? t _ k IH|? k IH]; intros w; cbn; [done..| | |].
  - destruct (k w); [apply IH|done|done].
  - by rewrite IH.
  - by rewrite IH.
Qed.

Lemma run_bind_done {A B} (m : go W A) (g : A -> go W B) w a w' :
  run m w = Done a w' [] -> run (bind m g) w = run (g a) w'.
Proof. intros E. rewrite run_bind, E. by destruct (run (g a) w'). Qed.

Lemma wps_mono {A} (m : go W A) w (Q Q' : A -> W -> list (go W unit) -> Prop) :
  wps m w Q -> (forall a w' ts, Q a w' ts -> Q' a w' ts) -> wps m w Q'.
Proof. unfold wps. destruct (run m w); auto. Qed.

Lemma wp_mono {A} (m : go W A) w (Q Q' : A -> W -> Prop) :
  wp m w Q -> (forall a w', Q a w' -> Q' a w') -> wp m w Q'.
Proof. intros H HQ. eapply wps_mono; [exact H|]. cbn. intros a w' ts [? ?]. eauto. Qed.

Lemma wps_bind {A B} (m : go W A) (g : A -> go W B) w Q :
  wps m w (fun a w' ts => wps (g a) w' (fun b w'' ts' => Q b w'' (ts ++ ts'))) ->
  wps (bind m g) w Q.
Proof.
  unfold wps. rewrite run_bind. destruct (run m w) as [a w' ts| | | |]; [|done..].
  destruct (run (g a) w'); done.
Qed.

Lemma wp_ret {A} (a : A) w (Q : A -> W -> Prop) : Q a w -> wp (Ret a) w Q.
Proof. intros HQ. unfold wp, wps. cbn. done. Qed.

Lemma wp_bind {A B} (m : go W A) (g : A -> go W B) w Q :
  wp m w (fun a w' => wp (g a) w' Q) -> wp (bind m g) w Q.
Proof.
  intros H. apply wps_bind. eapply wps_mono; [exact H|].
  cbn. intros a w' ts [-> H']. eapply wps_mono; [exact H'|]. done.
Qed.

Lemma wp_act {A} (f : W -> A * W) w (Q : A -> W -> Prop) :
  Q (f w).1 (f w).2 -> wp (act f) w Q.
Proof. intros HQ. unfold wp, wps. cbn. destruct (f w); cbn in *. done. Qed.

Lemma wp_modify (f : W -> W) w (Q : unit -> W -> Prop) :
  Q tt (f w) -> wp (modify f) w Q.
Proof. intros HQ. by apply wp_act. Qed.

Lemma wp_gets {A} (f : W -> A) w (Q : A -> W -> Prop) :
  Q (f w) w -> wp (gets f) w Q.
Proof. intros HQ. by apply wp_act. Qed.

Lemma wp_for_each {X} (l : list X) (body : X -> go W unit) w
    (I : list X -> W -> Prop) :
  I l w ->
  (forall x l' w', I (x :: l') w' -> wp (body x) w' (fun _ => I l')) ->
  wp (for_each l body) w (fun _ => I []).
Proof.
  revert w; induction l as [|x l IH]; intros w HI Hbody; cbn.
  { by apply wp_ret. }
  apply wp_bind. eapply wp_mono; [by apply Hbody|]. cbn. intros _ w' HI'.
  by apply IH.
Qed.

(** A loop whose body only updates the state. *)
Lemma wp_for_each_modify {X} (l : list X) (F : X -> W -> W) (skip : X -> bool) w
    (Q : unit -> W -> Prop) :
  Q tt (foldl (fun w x => if skip x then w else F x w) w l) ->
  wp (for_each l (fun x => if skip x then Ret tt else modify (F x))) w Q.
Proof.
  revert w; induction l as [|x l IH]; intros w HQ; cbn.
  { by apply wp_ret. }
  apply wp_bind. cbn in HQ. destruct (skip x).
  - apply wp_ret. by apply IH.
  - apply wp_modify. by apply IH.
Qed.

(** A loop whose body only reads the state. *)
Lemma wp_for_fold_gets {X A R} (l : list X) (a : A) (skip : X -> bool)
    (h : X -> W -> R) (c : A -> X -> R -> A) w (Q : A -> W -> Prop) :
  Q (foldl (fun a x => if skip x then a else c a x (h x w)) a l) w ->
  wp (for_fold l a (fun a x => if skip x then Ret a
                               else r <- gets (h x) ;; Ret (c a x r))) w Q.
Proof.
  revert a; induction l as [|x l IH]; intros a HQ; cbn [for_fold].
  { by apply wp_ret. }
  apply wp_bind. cbn in HQ. destruct (skip x).
  - apply wp_ret. by apply IH.
  - apply wp_bind, wp_gets, wp_ret. by apply IH.
Qed.

Lemma wps_spawn (t : go W unit) w (Q : unit -> W -> list (go W unit) -> Prop) :
  Q tt w [t] -> wps (spawn t) w Q.
Proof. done. Qed.

Lemma wp_wps {A} (m : go W A) w (Q : A -> W -> list (go W unit) -> Prop) :
  wp m w (fun a w' => Q a w' []) -> wps m w Q.
Proof. intros H. eapply wps_mono; [exact H|]. cbn. intros a w' ts [-> HQ]. done. Qed.

Lemma wp_run {A} (m : go W A) w (Q : A -> W -> Prop) :
  wp m w Q -> exists a w', run m w = Done a w' [] /\ Q a w'.
Proof.
  unfold wp, wps. destruct (run m w) as [a w' ts| | | |]; [|done..].
  intros [-> HQ]. eauto.
Qed.
End Run.

(** ** A pool of goroutines.

    A step runs the next atomic action of one goroutine; the environment may
    change the state between two actions as [env] allows. *)

Section Pool.
Context {W : Type} (env : W -> W -> Prop).

Abbreviation pool := (list (go W unit)).

Inductive gstep : pool * W -> pool * W -> Prop :=
  | gs_act i B (f : W -> ares W B) k b ts w w' :
      ts !! i = Some (Act f k) -> f w = AOk b w' ->
      gstep (ts, w) (<[i := k b]> ts, w')
  | gs_spawn i t k ts w :
      ts !! i = Some (Spawn t k) ->
      gstep (ts, w) (<[i := k]> ts ++ [t], w)
  | gs_caught i k ts w :
      ts !! i = Some (Caught k) ->
      gstep (ts, w) (<[i := k]> ts, w)
  | gs_env ts w w' : env w w' -> gstep (ts, w) (ts, w').

(** An executable scheduler: the goroutines to run, in order.  [None] when
    the chosen goroutine has no step. *)
Fixpoint schedule (sc : list nat) (ts : pool) (w : W) : option (pool * W) :=
  match sc with
  | [] => Some (ts, w)
  | i :: sc' =>
      match ts !! i with
      | Some (Act f k) =>
          match f w with
          | AOk b w' => schedule sc' (<[i := k b]> ts) w'
          | _ => None
          end
      | Some (Spawn t k) => schedule sc' (<[i := k]> ts ++ [t]) w
      | Some (Caught k) => schedule sc' (<[i := k]> ts) w
      | _ => None
      end
  end.

Lemma schedule_star sc ts w ts' w' :
  schedule sc ts w = Some (ts', w') -> star gstep (ts, w) (ts', w').
Proof.
  revert ts w; induction sc as [|i sc IH]; intros ts w H; cbn in H.
  { simplify_eq. constructor. }
  destruct (ts !! i) as [[a| | |B f k|t k|k]|] eqn:Hi; try done.
  - destruct (f w) as [b w1| |] eqn:Hf; try done.
    eapply star_cons; [by eapply gs_act|]. by apply IH.
  - eapply star_cons; [by eapply gs_spawn|]. by apply IH.
  - eapply star_cons; [by eapply gs_caught|]. by apply IH.
Qed.

(** A goroutine alone in its place of the pool runs to its end. *)
Lemma run_steps m i ts w a w' :
  ts !! i = Some m -> run m w = Done a w' [] ->
  star gstep (ts, w) (<[i := Ret a]> ts, w').
Proof.
  revert m ts w; fix IH 1; intros [b| | |C f k|t k|k] ts w Hi Hrun; cbn in Hrun.
  - simplify_eq. rewrite list_insert_id by done. constructor.
  - done.
  - done.
  - destruct (f w) as [b w1| |] eqn:Hf; try done.
    eapply star_cons; [by eapply gs_act|].
    replace (<[i:=Ret a]> ts) with (<[i:=Ret a]> (<[i:=k b]> ts)) by apply list_insert_insert_eq.
    apply (IH (k b)); [|done]. apply list_lookup_insert_eq. by eapply lookup_lt_Some.
  - by destruct (run k w).
  - by destruct (run k w).
Qed.
End Pool.

(** Applies the [wp] rule for the first action of the program. *)
Ltac wp_pure :=
  match goal with
  | |- wp (bind _ _) _ _ => apply wp_bind
  | |- wp (Ret _) _ _ => apply wp_ret
  | |- wp (modify _) _ _ => apply wp_modify
  | |- wp (gets _) _ _ => apply wp_gets
  | |- wp (act _) _ _ => apply wp_act
  end; cbn beta iota.
