(* ===== verification/Rely.v ===== *)
(** Reasoning about goroutines that run side by side: the contract of one goroutine, and
    then of a pool of them.

    Each goroutine owns some tokens: a lock it has taken, the close event of a
    connection, its own network connection.  A discipline says what holds of the
    state and of all tokens between two atomic actions ([d_inv]) and what the owner of
    some tokens may rely on while the others run ([d_rely]).  [safe] is the contract of
    one goroutine: each of its actions keeps the invariant and respects what the owners
    of the other tokens rely on, none panics (a [recover] has nothing to do), no loop uses
    up its turns, and none waits while a lock is owned.
    The theorems of [Pool] put any number of such goroutines together. *)

From stdpp Require Import gmap.
From S2P Require Export Go.

Class Discipline (W T : Type) `{Countable T} := {
  d_inv : W -> gset T -> Prop;
  d_rely : gset T -> W * gset T -> W * gset T -> Prop;
  d_lock : T -> Prop;
  d_rely_refl h s : d_rely h s s;
  d_rely_trans h s1 s2 s3 : d_rely h s1 s2 -> d_rely h s2 s3 -> d_rely h s1 s3;
  d_rely_mono h h' s1 s2 : h ⊆ h' -> d_rely h' s1 s2 -> d_rely h s1 s2;
}.

Section Safe.
Context {W T : Type} `{DT : Discipline W T}.

Abbreviation gstate := (W * gset T)%type.

(** Owns no lock. *)
Definition lock_free (h : gset T) : Prop := forall t, t ∈ h -> ~ d_lock t.

(** An action that turns the tokens [h] into [h'], with [G] all the tokens. *)
Definition keeps (h h' G : gset T) (w w' : W) : Prop :=
  h' ## G ∖ h /\ d_inv w' (G ∖ h ∪ h') /\
  forall ho, ho ⊆ G ∖ h -> d_rely ho (w, G) (w', G ∖ h ∪ h').

(** The contract of a goroutine that owns [h] and has last seen the state [s]. *)
Fixpoint safe {A : Type} (m : go W A) (h : gset T) (s : gstate) (Q : A -> gset T -> gstate -> Prop) : Prop :=
  match m with
  | Ret a => Q a h s
  | Panic | NoFuel | Caught _ => False
  | Act f k =>
      forall w G, d_rely h s (w, G) -> d_inv w G -> h ⊆ G ->
        match f w with
        | AOk b w' => exists h', keeps h h' G w w' /\ safe (k b) h' (w', G ∖ h ∪ h') Q
        | ABlock => lock_free h /\ exists t, t ∈ G /\ d_lock t
        | APanic => False
        end
  | Spawn t k => exists ht, ht ⊆ h /\ safe t ht s (fun _ h' _ => h' = ∅) /\ safe k (h ∖ ht) s Q
  end.

Lemma safe_mono {A} (m : go W A) h s (Q Q' : A -> gset T -> gstate -> Prop) :
  safe m h s Q -> (forall a h' s', Q a h' s' -> Q' a h' s') -> safe m h s Q'.
Proof.
  revert h s Q Q'; induction m as [? a|?|?|? B f k IH|? t _ k IH|? k IH]; intros h s Q Q' Hm HQ; cbn in *.
  - by apply HQ.
  - done.
  - done.
  - intros w G Hr Hi Hh. specialize (Hm w G Hr Hi Hh). destruct (f w); [|done|done].
    destruct Hm as (h' & Hk & Hm). exists h'. split; [done|]. by eapply IH.
  - destruct Hm as (ht & Hht & Ht & Hk). exists ht. split_and!; [done|done|]. by eapply IH.
  - done.
Qed.

Lemma safe_bind {A B} (m : go W A) (g : A -> go W B) h s Q :
  safe m h s (fun a h' s' => safe (g a) h' s' Q) -> safe (bind m g) h s Q.
Proof.
  revert h s; induction m as [? a|?|?|? C f k IH|? t _ k IH|? k IH]; intros h s Hm; cbn in *.
  - done.
  - done.
  - done.
  - intros w G Hr Hi Hh. specialize (Hm w G Hr Hi Hh). destruct (f w); [|done|done].
    destruct Hm as (h' & Hk & Hm). exists h'. split; [done|]. by apply IH.
  - destruct Hm as (ht & Hht & Ht & Hk). exists ht. split_and!; [done|done|]. by apply IH.
  - done.
Qed.

Lemma safe_assoc {A B C} (m : go W A) (f : A -> go W B) (g : B -> go W C) h s Q :
  safe (bind (bind m f) g) h s Q -> safe (bind m (fun a => bind (f a) g)) h s Q.
Proof.
  revert h s; induction m as [? a|?|?|? D k c IH|? t _ k IH|? k IH]; intros h s Hm; cbn in *.
  - done.
  - done.
  - done.
  - intros w G Hr Hi Hh. specialize (Hm w G Hr Hi Hh). destruct (k w); [|done|done].
    destruct Hm as (h' & Hk & Hm). exists h'. split; [done|]. by apply IH.
  - destruct Hm as (ht & Hht & Ht & Hk). exists ht. split_and!; [done|done|]. by apply IH.
  - done.
Qed.

Lemma safe_ret {A} (a : A) h s (Q : A -> gset T -> gstate -> Prop) : Q a h s -> safe (Ret a) h s Q.
Proof. done. Qed.

(** What nobody undoes is not undone by the goroutine either. *)
Lemma safe_grows {A} (m : go W A) h s (Q : A -> gset T -> gstate -> Prop) :
  safe m h s Q -> safe m h s (fun a h' s' => d_rely ∅ s s' /\ Q a h' s').
Proof.
  assert (forall h s s', d_rely h s s' -> d_rely ∅ s s') as Hnil by (intros; eapply d_rely_mono; [|done]; set_solver).
  enough (forall s0, d_rely ∅ s0 s -> safe m h s Q -> safe m h s (fun a h' s' => d_rely ∅ s0 s' /\ Q a h' s')) as Hm
    by (intros; apply Hm; [apply d_rely_refl|done]).
  revert h s Q; induction m as [? a|?|?|? B f k IH|? t _ k IH|? k IH]; intros h s Q s0 H0 Hm; cbn in *.
  - done.
  - done.
  - done.
  - intros w G Hr Hi Hh. specialize (Hm w G Hr Hi Hh). destruct (f w); [|done|done].
    destruct Hm as (h' & Hk & Hm). exists h'. split; [done|]. apply IH; [|done].
    destruct Hk as (_ & _ & Hk). eapply d_rely_trans; [exact H0|].
    eapply d_rely_trans; [by eapply Hnil|]. apply Hk. set_solver.
  - destruct Hm as (ht & Hht & Ht & Hk). exists ht. split_and!; [done|done|]. by apply IH.
  - done.
Qed.

(** A goroutine that does not panic is not changed by its [recover]. *)
Lemma safe_recover (m : go W unit) h s (Q : unit -> gset T -> gstate -> Prop) :
  safe m h s Q -> safe (recover m) h s Q.
Proof.
  revert m h s. fix IH 1. intros [a| | |B f k|t k|k] h s Hm; cbn in *.
  - by destruct a.
  - done.
  - done.
  - intros w G Hr Hi Hh. specialize (Hm w G Hr Hi Hh). destruct (f w); [|done|done].
    destruct Hm as (h' & Hk & Hm). exists h'. split; [done|]. by apply IH.
  - destruct Hm as (ht & Hht & Ht & Hk). exists ht. split_and!; [done|done|]. by apply IH.
  - done.
Qed.

Lemma safe_spawn (t : go W unit) h s (Q : unit -> gset T -> gstate -> Prop) :
  safe t ∅ s (fun _ h' _ => h' = ∅) -> Q tt h s -> safe (spawn t) h s Q.
Proof.
  intros Ht HQ. exists ∅. split_and!; [set_solver|done|]. by rewrite difference_empty_L.
Qed.

(** ** Goroutines that give back what they own and disturb nobody *)

Definition calm {A} (h : gset T) (s : gstate) (m : go W A) (P : A -> gstate -> Prop) : Prop :=
  safe m h s (fun a h' s' => h' = h /\ d_rely h s s' /\ P a s').

Lemma calm_ret {A} h s (a : A) (P : A -> gstate -> Prop) : P a s -> calm h s (Ret a) P.
Proof. intros HP. split_and!; [done|apply d_rely_refl|done]. Qed.

Lemma calm_mono {A} h s (m : go W A) (P P' : A -> gstate -> Prop) :
  calm h s m P -> (forall a s', d_rely h s s' -> P a s' -> P' a s') -> calm h s m P'.
Proof. intros Hm HP. eapply safe_mono; [exact Hm|]. cbn. intros a h' s' (-> & Hr & Ha). eauto. Qed.

Lemma calm_bind {A B} h s (m : go W A) (g : A -> go W B) (P : A -> gstate -> Prop) P' :
  calm h s m P ->
  (forall a s', d_rely h s s' -> P a s' -> calm h s' (g a) P') -> calm h s (bind m g) P'.
Proof.
  intros Hm Hg. apply safe_bind. eapply safe_mono; [exact Hm|]. cbn. intros a h' s' (-> & Hr & Ha).
  eapply safe_mono; [by apply (Hg a s')|]. cbn. intros b h' s2 (-> & Hr2 & Hb).
  split_and!; [done|by eapply d_rely_trans|done].
Qed.

(** A calm part of a goroutine that does more. *)
Lemma safe_calm_bind {A B} h s (m : go W A) (g : A -> go W B) (P : A -> gstate -> Prop) Q :
  calm h s m P ->
  (forall a s', d_rely h s s' -> P a s' -> safe (g a) h s' Q) -> safe (bind m g) h s Q.
Proof.
  intros Hm Hg. apply safe_bind. eapply safe_mono; [exact Hm|]. cbn. intros a h' s' (-> & Hr & Ha). by apply Hg.
Qed.

(** What a goroutine does not use, and is no lock, stays its own. *)
Lemma safe_frame {A} (m : go W A) h hf s (Q : A -> gset T -> gstate -> Prop) :
  lock_free hf -> h ## hf -> safe m h s Q ->
  safe m (h ∪ hf) s (fun a x s' => exists h', x = h' ∪ hf /\ d_rely hf s s' /\ Q a h' s').
Proof.
  intros Hfree.
  enough (forall s0, d_rely hf s0 s -> h ## hf -> safe m h s Q ->
            safe m (h ∪ hf) s (fun a x s' => exists h', x = h' ∪ hf /\ d_rely hf s0 s' /\ Q a h' s')) as Hm
    by (intros; apply Hm; [apply d_rely_refl|done|done]).
  revert h s Q; induction m as [? a|?|?|? B f k IH|? t _ k IH|? k IH]; intros h s Q s0 H0 Hdis Hm; cbn in *.
  - by exists h.
  - done.
  - done.
  - intros w G Hr Hi Hh. assert (h ⊆ G) as Hh1 by set_solver. assert (hf ⊆ G ∖ h) as Hh2 by set_solver.
    assert (d_rely h s (w, G)) as Hr1 by (eapply d_rely_mono; [|exact Hr]; set_solver).
    assert (d_rely hf s (w, G)) as Hr2 by (eapply d_rely_mono; [|exact Hr]; set_solver).
    specialize (Hm w G Hr1 Hi Hh1). destruct (f w) as [b w'| |]; [| |done].
    + destruct Hm as (h' & (K1 & K2 & K3) & Hm). exists (h' ∪ hf).
      assert (G ∖ (h ∪ hf) ∪ (h' ∪ hf) = G ∖ h ∪ h') as E.
      { apply set_eq. intros x. destruct (decide (x ∈ hf)); set_solver. }
      unfold keeps. rewrite E. split; [split_and!|].
      * set_solver.
      * done.
      * intros ho Hho. apply K3. set_solver.
      * apply IH; [|set_solver|done]. eapply d_rely_trans; [exact H0|].
        eapply d_rely_trans; [exact Hr2|]. by apply K3.
    + destruct Hm as [Hl Ht]. split; [|done]. intros t [Hin|Hin]%elem_of_union; auto.
  - destruct Hm as (ht & Hht & Ht & Hk). exists ht. split_and!; [set_solver|done|].
    assert ((h ∪ hf) ∖ ht = h ∖ ht ∪ hf) as -> by (apply set_eq; set_solver). apply IH; [done|set_solver|done].
  - done.
Qed.

Lemma calm_frame {A} h s (m : go W A) (P : A -> gstate -> Prop) : lock_free h -> calm ∅ s m P -> calm h s m P.
Proof.
  intros Hf Hm. rewrite <- (union_empty_l_L h). eapply safe_mono; [apply safe_frame; [done|set_solver|exact Hm]|].
  cbn. intros a x s' (h' & -> & Hr & -> & _ & HP). split_and!; [done| |done]. by rewrite union_empty_l_L.
Qed.

(** One action that leaves the tokens as they are. *)
Lemma calm_act {A} h s (f : W -> ares W A) (P : A -> gstate -> Prop) :
  (forall w G, d_rely h s (w, G) -> d_inv w G -> h ⊆ G ->
     match f w with
     | AOk b w' => d_inv w' G /\ (forall ho, ho ⊆ G -> d_rely ho (w, G) (w', G)) /\ P b (w', G)
     | ABlock => lock_free h /\ exists t, t ∈ G /\ d_lock t
     | APanic => False
     end) -> calm h s (Act f Ret) P.
Proof.
  intros Hf w G Hr Hi Hh. specialize (Hf w G Hr Hi Hh). destruct (f w) as [b w'| |]; [|done|done].
  destruct Hf as (Hi' & Hr' & HP). exists h.
  assert (G ∖ h ∪ h = G) as E by (by rewrite union_comm_L, <- union_difference_L).
  unfold keeps. rewrite E. split_and!.
  - set_solver.
  - done.
  - intros ho Hho. apply Hr'. set_solver.
  - cbn. split_and!; [done| |done]. eapply d_rely_trans; [done|]. by apply Hr'.
Qed.

Lemma calm_do {A} h s (f : W -> A * W) (P : A -> gstate -> Prop) :
  (forall w G, d_rely h s (w, G) -> d_inv w G -> h ⊆ G ->
     d_inv (f w).2 G /\ (forall ho, ho ⊆ G -> d_rely ho (w, G) ((f w).2, G)) /\ P (f w).1 ((f w).2, G)) ->
  calm h s (act f) P.
Proof.
  intros Hf. apply calm_act. intros w G Hr Hi Hh. specialize (Hf w G Hr Hi Hh). by destruct (f w).
Qed.

Lemma calm_modify h s (f : W -> W) (P : unit -> gstate -> Prop) :
  (forall w G, d_rely h s (w, G) -> d_inv w G -> h ⊆ G ->
     d_inv (f w) G /\ (forall ho, ho ⊆ G -> d_rely ho (w, G) (f w, G)) /\ P tt (f w, G)) ->
  calm h s (modify f) P.
Proof. intros Hf. by apply calm_do. Qed.

Lemma calm_gets {A} h s (f : W -> A) (P : A -> gstate -> Prop) :
  (forall w G, d_rely h s (w, G) -> d_inv w G -> h ⊆ G -> P (f w) (w, G)) -> calm h s (gets f) P.
Proof.
  intros Hf. apply calm_do. intros w G Hr Hi Hh. cbn. split_and!; [done| |by apply Hf].
  intros ho _. apply d_rely_refl.
Qed.

Lemma calm_spawn (t : go W unit) h s (P : unit -> gstate -> Prop) :
  calm ∅ s t (fun _ _ => True) -> P tt s -> calm h s (spawn t) P.
Proof.
  intros Ht HP. apply safe_spawn.
  - eapply safe_mono; [exact Ht|]. by intros ? ? ? (-> & _).
  - split_and!; [done|apply d_rely_refl|done].
Qed.

Lemma calm_recover (m : go W unit) h s (P : unit -> gstate -> Prop) :
  calm h s m P -> calm h s (recover m) P.
Proof. apply safe_recover. Qed.

(** Loops, with what holds between two turns. *)
Lemma calm_for_each {X} h s (l : list X) (body : X -> go W unit) (J : gstate -> Prop) :
  J s -> (forall x s', x ∈ l -> d_rely h s s' -> J s' -> calm h s' (body x) (fun _ => J)) ->
  calm h s (for_each l body) (fun _ => J).
Proof.
  revert s; induction l as [|x l IH]; intros s HJ Hb; cbn; [by apply (calm_ret h s tt (fun _ => J))|].
  eapply calm_bind; [apply Hb; [constructor|apply d_rely_refl|done]|].
  cbn. intros _ s' Hr HJ'. apply IH; [done|]. intros y s2 Hy Hr2 HJ2.
  apply Hb; [by constructor|by eapply d_rely_trans|done].
Qed.

Lemma calm_for_fold {X A} h s (l : list X) (a : A) (body : A -> X -> go W A) (J : A -> gstate -> Prop) :
  J a s -> (forall a x s', x ∈ l -> d_rely h s s' -> J a s' -> calm h s' (body a x) J) ->
  calm h s (for_fold l a body) J.
Proof.
  revert a s; induction l as [|x l IH]; intros a s HJ Hb; cbn; [by apply calm_ret|].
  eapply calm_bind; [apply Hb; [constructor|apply d_rely_refl|done]|].
  cbn. intros a' s' Hr HJ'. apply IH; [done|]. intros a2 y s2 Hy Hr2 HJ2.
  apply Hb; [by constructor|by eapply d_rely_trans|done].
Qed.

Lemma calm_for_while {X} h s (l : list X) (body : X -> go W bool) :
  (forall x s', x ∈ l -> d_rely h s s' -> calm h s' (body x) (fun _ _ => True)) ->
  calm h s (for_while l body) (fun _ _ => True).
Proof.
  revert s; induction l as [|x l IH]; intros s Hb; cbn; [by apply (calm_ret h s true (fun _ _ => True))|].
  eapply calm_bind; [apply Hb; [constructor|apply d_rely_refl]|].
  cbn. intros [] s' Hr _; [|by apply (calm_ret h s' false (fun _ _ => True))]. apply IH. intros y s2 Hy Hr2.
  apply Hb; [by constructor|by eapply d_rely_trans].
Qed.
End Safe.

(** ** Pools of goroutines: what the contract of each one gives for all of them together,
    whatever the order of their actions.  No action panics, the invariant holds
    between any two of them, some goroutine can always go on until all have ended,
    and no run goes on for ever. *)

(** ** Every run ends *)

Definition no_env {W} (_ _ : W) : Prop := False.

(** What a goroutine becomes by one step, whatever the state. *)
Definition becomes {W} (m : go W unit) (new : list (go W unit)) : Prop :=
  match m with
  | Act f k => exists b, new = [k b]
  | Spawn t k => new = [k; t]
  | Caught k => new = [k]
  | _ => False
  end.

(** The same in a pool, up to its order. *)
Definition smaller {W} (us ts : list (go W unit)) : Prop :=
  exists m new rest, becomes m new /\ ts ≡ₚ m :: rest /\ us ≡ₚ new ++ rest.

Lemma Permutation_cons_cases {A} (x y : A) l k :
  x :: l ≡ₚ y :: k -> (x = y /\ l ≡ₚ k) \/ exists r, l ≡ₚ y :: r /\ k ≡ₚ x :: r.
Proof.
  intros Hp. assert (y ∈ x :: l) as Hy by (rewrite Hp; constructor).
  apply elem_of_cons in Hy as [->|Hy].
  - left. split; [done|]. by eapply Permutation_cons_inv.
  - right. apply elem_of_Permutation in Hy as [r Hr]. exists r. split; [done|].
    apply (Permutation_cons_inv (a := y)). rewrite <- Hp, Hr. constructor.
Qed.

Lemma delete_insert_list {A} (l : list A) i x : delete i (<[i := x]> l) = delete i l.
Proof. revert i; induction l as [|y l IH]; intros [|i]; cbn; [done..|]. by f_equal/=. Qed.

Section Ends.
Context {W : Type}.
Abbreviation ends := (Acc (@smaller W)).

Lemma ends_perm ts us : ts ≡ₚ us -> ends ts -> ends us.
Proof.
  intros Hp [Hts]. constructor. intros vs (m & new & rest & Hb & Hu & Hv). apply Hts.
  exists m, new, rest. by rewrite Hp.
Qed.

Lemma ends_cons m ts : ends ts -> ends (m :: ts).
Proof.
  revert m ts. fix IH 1. intros m ts Hts. induction Hts as [ts Hts IHts].
  constructor. intros vs (m' & new & rest & Hb & Hu & Hv).
  apply Permutation_cons_cases in Hu as [[<- Hr]|(r & Hr & Hr')].
  - assert (ends rest) as Hrest by (by apply (ends_perm ts); [|constructor]).
    eapply ends_perm; [symmetry; exact Hv|]. clear Hv vs IHts Hts Hr.
    destruct m as [a| | |B f k|t k|k].
    + done.
    + done.
    + done.
    + destruct Hb as [b ->]. by apply IH.
    + rewrite Hb. by apply IH, IH.
    + rewrite Hb. by apply IH.
  - eapply ends_perm; [symmetry; exact Hv|].
    apply (ends_perm (m :: new ++ r)); [rewrite Hr'; by rewrite Permutation_middle|].
    apply IHts. by exists m', new, r.
Qed.

Lemma ends_pool ts : ends ts.
Proof.
  induction ts as [|m ts IH]; [|by apply ends_cons].
  constructor. intros vs (m & new & rest & _ & Hu & _). by apply Permutation_nil_cons in Hu.
Qed.

Lemma gstep_smaller (ts ts' : list (go W unit)) (w w' : W) : gstep no_env (ts, w) (ts', w') -> smaller ts' ts.
Proof.
  assert (forall i m x, ts !! i = Some m -> ts ≡ₚ m :: delete i ts /\ <[i := x]> ts ≡ₚ x :: delete i ts) as Hat.
  { intros i m x Hi. split; [by apply delete_Permutation|].
    rewrite (delete_Permutation (<[i := x]> ts) i x), delete_insert_list; [done|].
    apply list_lookup_insert_eq. by eapply lookup_lt_Some. }
  intros Hs. inversion Hs as [i B f k b ts0 w0 w1 Hi Hf|i t k ts0 w0 Hi|i k ts0 w0 Hi|]; simplify_eq; [..|done].
  - destruct (Hat i _ (k b) Hi) as [H1 H2]. exists (Act f k), [k b], (delete i ts). split_and!; [by exists b|done|done].
  - destruct (Hat i _ k Hi) as [H1 H2]. exists (Spawn t k), [k; t], (delete i ts). split_and!; [done|done|].
    rewrite H2. cbn. f_equiv. by rewrite Permutation_app_comm.
  - destruct (Hat i _ k Hi) as [H1 H2]. by exists (Caught k), [k], (delete i ts).
Qed.

(** No run of goroutines goes on for ever. *)
Lemma runs_end (ts : list (go W unit)) (w : W) : Acc (fun q p => gstep no_env p q) (ts, w).
Proof.
  revert w. induction (ends_pool ts) as [ts _ IH]. intros w. constructor. intros [ts' w'] Hs.
  apply IH. by eapply gstep_smaller.
Qed.
End Ends.

(** ** Pools of safe goroutines *)

Section Pools.
Context {W T : Type} `{DT : Discipline W T}.

(** The steps of the world around the goroutines respect what they rely on. *)
Definition env_ok (env : W -> W -> Prop) : Prop :=
  forall w w' G, env w w' -> d_inv w G ->
    d_inv w' G /\ forall h, h ⊆ G -> d_rely h (w, G) (w', G).

(** No two goroutines own the same token; the tokens [rest] are owned by none. *)
Record pool_ok (rest : gset T) (ts : list (go W unit)) (w : W) (own : nat -> gset T) (G : gset T) : Prop := {
  po_inv : d_inv w G;
  po_tokens t : t ∈ G <-> t ∈ rest \/ exists i, (i < length ts)%nat /\ t ∈ own i;
  po_apart i j : (i < length ts)%nat -> (j < length ts)%nat -> i <> j -> own i ## own j;
  po_rest i : (i < length ts)%nat -> own i ## rest;
  po_safe i m : ts !! i = Some m ->
    exists s, d_rely (own i) s (w, G) /\ safe m (own i) s (fun _ h _ => h = ∅);
}.

Definition pool_safe (rest : gset T) (p : list (go W unit) * W) : Prop :=
  exists own G, pool_ok rest p.1 p.2 own G.

Lemma po_own rest ts w own G i :
  pool_ok rest ts w own G -> (i < length ts)%nat -> own i ⊆ G.
Proof. intros Hp Hi t Ht. apply (po_tokens _ _ _ _ _ Hp). eauto. Qed.

(** What the others own is not touched by an action of [i]. *)
Lemma po_others rest ts w own G i j :
  pool_ok rest ts w own G -> (i < length ts)%nat -> (j < length ts)%nat -> i <> j -> own j ⊆ G ∖ own i.
Proof.
  intros Hp Hi Hj Hne t Ht. apply elem_of_difference. split; [by eapply po_own|].
  intros Ht'. by apply (po_apart _ _ _ _ _ Hp i j Hi Hj Hne t).
Qed.

Lemma pool_act rest ts w own G i B (f : W -> ares W B) k b w' :
  pool_ok rest ts w own G -> ts !! i = Some (Act f k) -> f w = AOk b w' ->
  pool_safe rest (<[i := k b]> ts, w').
Proof.
  intros Hp Hi Hf. pose proof (lookup_lt_Some _ _ _ Hi) as Hlt.
  destruct (po_safe _ _ _ _ _ Hp i _ Hi) as (s & Hr & Hs). cbn in Hs.
  specialize (Hs w G Hr (po_inv _ _ _ _ _ Hp) (po_own _ _ _ _ _ _ Hp Hlt)). rewrite Hf in Hs.
  destruct Hs as (h' & (Hdis & Hinv & Hrely) & Hs).
  set (own' j := if decide (j = i) then h' else own j).
  assert (own' i = h') as Ei by (unfold own'; by rewrite decide_True).
  assert (forall j, j <> i -> own' j = own j) as Ej by (intros j Hj; unfold own'; by rewrite decide_False).
  exists own', (G ∖ own i ∪ h'). cbn [fst snd]. split; rewrite ?length_insert.
  - done.
  - intros t. rewrite elem_of_union, elem_of_difference, (po_tokens _ _ _ _ _ Hp). split.
    + intros [[[Ht|(j & Hj & Ht)] Hn]|Ht]; [by left|right|right; exists i; by rewrite Ei].
      exists j. rewrite Ej; [done|]. by intros ->.
    + intros [Ht|(j & Hj & Ht)].
      * left. split; [by left|]. intros Ht'. by apply (po_rest _ _ _ _ _ Hp i Hlt t).
      * destruct (decide (j = i)) as [->|Hne]; [right; by rewrite <- Ei|left].
        rewrite Ej in Ht by done. split; [by right; exists j|].
        intros Ht'. by apply (po_apart _ _ _ _ _ Hp i j Hlt Hj (not_eq_sym Hne) t).
  - intros j1 j2 H1 H2 Hne t Ht1 Ht2.
    destruct (decide (j1 = i)) as [->|N1], (decide (j2 = i)) as [->|N2]; [done|..];
      rewrite ?Ei, ?(Ej j1), ?(Ej j2) in * by done.
    + apply (Hdis t); [done|]. by apply (po_others _ _ _ _ _ i j2 Hp Hlt H2).
    + apply (Hdis t); [done|]. by apply (po_others _ _ _ _ _ i j1 Hp Hlt H1).
    + by apply (po_apart _ _ _ _ _ Hp j1 j2 H1 H2 Hne t).
  - intros j Hj t Ht Ht'. destruct (decide (j = i)) as [->|Hne].
    + rewrite Ei in Ht. apply (Hdis t); [done|]. apply elem_of_difference.
      split; [apply (po_tokens _ _ _ _ _ Hp); by left|]. intros Hin. by apply (po_rest _ _ _ _ _ Hp i Hlt t).
    + rewrite Ej in Ht by done. by apply (po_rest _ _ _ _ _ Hp j Hj t).
  - intros j m Hj. destruct (decide (j = i)) as [->|Hne].
    + rewrite list_lookup_insert_eq in Hj by done. simplify_eq. rewrite Ei.
      eexists. split; [apply d_rely_refl|done].
    + rewrite list_lookup_insert_ne in Hj by done. rewrite Ej by done.
      destruct (po_safe _ _ _ _ _ Hp j _ Hj) as (s' & Hr' & Hs'). exists s'. split; [|done].
      eapply d_rely_trans; [exact Hr'|]. apply Hrely.
      apply (po_others _ _ _ _ _ i j Hp); [done|by eapply lookup_lt_Some|done].
Qed.

Lemma pool_spawn rest ts w own G i t k :
  pool_ok rest ts w own G -> ts !! i = Some (Spawn t k) -> pool_safe rest (<[i := k]> ts ++ [t], w).
Proof.
  intros Hp Hi. pose proof (lookup_lt_Some _ _ _ Hi) as Hlt.
  destruct (po_safe _ _ _ _ _ Hp i _ Hi) as (s & Hr & ht & Hht & Ht & Hk).
  set (n := length ts).
  set (own' j := if decide (j = n) then ht else if decide (j = i) then own i ∖ ht else own j).
  assert (own' n = ht) as En by (unfold own'; by rewrite decide_True).
  assert (own' i = own i ∖ ht) as Ei by (unfold own', n; rewrite decide_False by lia; by rewrite decide_True).
  assert (forall j, j <> n -> j <> i -> own' j = own j) as Ej
    by (intros j Hj1 Hj2; unfold own'; by rewrite !decide_False).
  assert (forall j, (j < n)%nat -> own' j ⊆ own j) as Hsub.
  { intros j Hj. destruct (decide (j = i)) as [->|Hne]; [rewrite Ei; set_solver|]. rewrite Ej; [done|lia|done]. }
  assert (forall j, (j < length (<[i := k]> ts ++ [t]))%nat -> j = n \/ (j < n)%nat) as Hlen
    by (intros j; rewrite length_app, length_insert; cbn; unfold n; lia).
  clearbody own'.
  exists own', G. cbn [fst snd]. split.
  - apply Hp.
  - intros x. rewrite (po_tokens _ _ _ _ _ Hp). rewrite length_app, length_insert. cbn. split.
    + intros [Hx|(j & Hj & Hx)]; [by left|right]. destruct (decide (x ∈ ht)) as [Hxt|Hxt].
      * exists n. rewrite En. split; [unfold n; lia|done].
      * exists j. split; [lia|]. destruct (decide (j = i)) as [->|Hne]; [rewrite Ei; set_solver|].
        rewrite Ej; [done|unfold n; lia|done].
    + intros [Hx|(j & Hj & Hx)]; [by left|right]. destruct (decide (j = n)) as [->|Hne].
      * exists i. split; [done|]. rewrite En in Hx. by apply Hht.
      * exists j. assert (j < n)%nat as Hjn by (unfold n in *; lia). split; [exact Hjn|]. by apply Hsub.
  - intros j1 j2 H1 H2 Hne.
    assert (forall j, (j < n)%nat -> own' n ## own' j) as Hnew.
    { intros j Hj. rewrite En. destruct (decide (j = i)) as [->|Hji]; [rewrite Ei; set_solver|].
      pose proof (po_apart _ _ _ _ _ Hp i j Hlt Hj (not_eq_sym Hji)). specialize (Hsub j Hj). set_solver. }
    destruct (Hlen _ H1) as [->|L1], (Hlen _ H2) as [->|L2]; [done|by apply Hnew|symmetry; by apply Hnew|].
    pose proof (po_apart _ _ _ _ _ Hp j1 j2 L1 L2 Hne). pose proof (Hsub j1 L1). pose proof (Hsub j2 L2). set_solver.
  - intros j Hj. destruct (Hlen _ Hj) as [->|Lj].
    + rewrite En. pose proof (po_rest _ _ _ _ _ Hp i Hlt). set_solver.
    + pose proof (po_rest _ _ _ _ _ Hp j Lj). specialize (Hsub j Lj). set_solver.
  - intros j m Hj. apply lookup_snoc_Some in Hj as [[Hj Hm]|[-> <-]].
    + rewrite length_insert in Hj. destruct (decide (j = i)) as [->|Hne].
      * rewrite list_lookup_insert_eq in Hm by done. simplify_eq. rewrite Ei.
        exists s. split; [|done]. eapply d_rely_mono; [|exact Hr]. set_solver.
      * rewrite list_lookup_insert_ne in Hm by done. rewrite Ej; [|unfold n; lia|done].
        by apply (po_safe _ _ _ _ _ Hp).
    + rewrite length_insert. fold n. rewrite En. exists s. split; [|done]. by eapply d_rely_mono.
Qed.

Lemma pool_step env rest p q : env_ok env -> gstep env p q -> pool_safe rest p -> pool_safe rest q.
Proof.
  intros Henv Hs (own & G & Hp). destruct Hs as [i B f k b ts w w' Hi Hf|i t k ts w Hi|i k ts w Hi|ts w w' He]; cbn in Hp.
  - by eapply pool_act.
  - by eapply pool_spawn.
  - by destruct (po_safe _ _ _ _ _ Hp i _ Hi) as (s & _ & []).
  - destruct (Henv w w' G He (po_inv _ _ _ _ _ Hp)) as [Hinv Hr]. exists own, G. destruct Hp as [P1 P2 P3 P4 P5].
    split; cbn; try done. intros i m Hi. destruct (P5 i m Hi) as (s & Hrs & Hs). exists s. split; [|done].
    eapply d_rely_trans; [exact Hrs|]. apply Hr. intros x Hx. apply P2. right. exists i.
    split; [by eapply lookup_lt_Some|done].
Qed.

Lemma pool_star env rest p q : env_ok env -> star (gstep env) p q -> pool_safe rest p -> pool_safe rest q.
Proof. intros Henv Hs. induction Hs; [done|]. intros Hp. eauto using pool_step. Qed.

(** No action panics, nobody has just recovered from a panic, and no loop has used up the
    turns the model gives it. *)
Definition no_panic (p : list (go W unit) * W) : Prop :=
  forall i m, p.1 !! i = Some m ->
    match m with Panic | NoFuel | Caught _ => False | Act f _ => f p.2 <> APanic | _ => True end.

Definition over (ts : list (go W unit)) : Prop := forall i m, ts !! i = Some m -> m = Ret tt.

Lemma pool_no_panic rest p : pool_safe rest p -> no_panic p.
Proof.
  intros (own & G & Hp) i m Hi. destruct (po_safe _ _ _ _ _ Hp i m Hi) as (s & Hr & Hs).
  destruct m as [a| | |B f k|t k|k]; [done|done|done| |done|done]. cbn in Hs.
  specialize (Hs p.2 G Hr (po_inv _ _ _ _ _ Hp) (po_own _ _ _ _ _ _ Hp (lookup_lt_Some _ _ _ Hi))).
  by destruct (f p.2).
Qed.

(** A goroutine that waits does so for the owner of a lock, and the owner of a lock
    does not wait. *)
Lemma pool_goes_on rest ts w :
  pool_safe rest (ts, w) -> lock_free rest -> over ts \/ exists q, gstep no_env (ts, w) q.
Proof.
  intros (own & G & Hp) Hrest. cbn in Hp.
  assert (forall i m, ts !! i = Some m -> (exists t, t ∈ own i /\ d_lock t) -> exists q, gstep no_env (ts, w) q) as Howner.
  { intros i m Hi (t & Ht & Hlock). destruct (po_safe _ _ _ _ _ Hp i m Hi) as (s & Hr & Hs).
    destruct m as [a| | |B f k|u k|k]; cbn in Hs; [|done|done|..|done].
    - rewrite Hs in Ht. set_solver.
    - specialize (Hs w G Hr (po_inv _ _ _ _ _ Hp) (po_own _ _ _ _ _ _ Hp (lookup_lt_Some _ _ _ Hi))).
      destruct (f w) as [b w'| |] eqn:Hf; [|by destruct (proj1 Hs t Ht)|done].
      eexists. by eapply gs_act.
    - eexists. by eapply gs_spawn. }
  assert (forall l k, ts = l ++ k -> over k \/ exists q, gstep no_env (ts, w) q) as Hall.
  { intros l k. revert l. induction k as [|m k IH]; intros l Hl.
    { left. intros i m Hi. done. }
    assert (ts !! length l = Some m) as Hi by (rewrite Hl; by apply list_lookup_middle).
    destruct (IH (l ++ [m])) as [Hk|Hk]; [by rewrite <- app_assoc| |by right].
    destruct (po_safe _ _ _ _ _ Hp _ m Hi) as (s & Hr & Hs). destruct m as [[]| | |B f k1|u k1|k1]; cbn in Hs; [|done|done|..|done].
    - left. intros [|i] m Hm; cbn in Hm; [congruence|by eapply Hk].
    - specialize (Hs w G Hr (po_inv _ _ _ _ _ Hp) (po_own _ _ _ _ _ _ Hp (lookup_lt_Some _ _ _ Hi))).
      right. destruct (f w) as [b w'| |] eqn:Hf; [eexists; by eapply gs_act| |done].
      destruct Hs as (_ & t & Ht & Hlock). apply (po_tokens _ _ _ _ _ Hp) in Ht as [Ht|(j & Hj & Ht)].
      + by destruct (Hrest t Ht).
      + destruct (lookup_lt_is_Some_2 ts j Hj) as [mj Hmj]. apply (Howner j mj Hmj). eauto.
    - right. eexists. by eapply gs_spawn. }
  by apply (Hall []).
Qed.

(** When all have ended, only the tokens nobody owned are left. *)
Lemma pool_over rest ts w : pool_safe rest (ts, w) -> over ts -> d_inv w rest.
Proof.
  intros (own & G & Hp) Hover. cbn in Hp. assert (G = rest) as <-; [|apply Hp].
  apply set_eq. intros t. rewrite (po_tokens _ _ _ _ _ Hp). split; [|by left].
  intros [Ht|(i & Hi & Ht)]; [done|]. destruct (lookup_lt_is_Some_2 ts i Hi) as [m Hm].
  destruct (po_safe _ _ _ _ _ Hp i m Hm) as (s & _ & Hs). rewrite (Hover i m Hm) in Hs. cbn in Hs.
  rewrite Hs in Ht. set_solver.
Qed.

(** Goroutines that start, each with its tokens. *)
Lemma pool_start rest (l : list (go W unit * gset T)) w G :
  d_inv w G ->
  (forall t, t ∈ G <-> t ∈ rest \/ t ∈ ⋃ l.*2) ->
  (forall i j x y, l !! i = Some x -> l !! j = Some y -> i <> j -> x.2 ## y.2) ->
  Forall (fun x => x.2 ## rest /\ safe x.1 x.2 (w, G) (fun _ h _ => h = ∅)) l ->
  pool_safe rest (l.*1, w).
Proof.
  intros Hinv HG Hapart Hl. set (own i := default ∅ (snd <$> l !! i)).
  assert (forall i x, l !! i = Some x -> own i = x.2) as Hown by (intros i x Hi; unfold own; by rewrite Hi).
  assert (forall i, (i < length l.*1)%nat -> exists x, l !! i = Some x) as Hlt
    by (intros i Hi; rewrite length_fmap in Hi; by apply lookup_lt_is_Some_2).
  exists own, G. cbn. split.
  - done.
  - intros t. rewrite HG. apply or_iff_compat_l. rewrite elem_of_union_list. split.
    + intros (X & HX & Ht). apply list_elem_of_fmap in HX as (x & -> & Hx).
      apply list_elem_of_lookup in Hx as [i Hi]. exists i. rewrite length_fmap, (Hown i x Hi).
      split; [by eapply lookup_lt_Some|done].
    + intros (i & Hi & Ht). destruct (Hlt i Hi) as [x Hx]. rewrite (Hown i x Hx) in Ht.
      exists x.2. split; [|done]. apply list_elem_of_fmap. exists x. split; [done|]. by eapply list_elem_of_lookup_2.
  - intros i j Hi Hj Hne. destruct (Hlt i Hi) as [x Hx], (Hlt j Hj) as [y Hy].
    rewrite (Hown i x Hx), (Hown j y Hy). by eapply Hapart.
  - intros i Hi. destruct (Hlt i Hi) as [x Hx]. rewrite (Hown i x Hx).
    rewrite Forall_forall in Hl. apply Hl. by eapply list_elem_of_lookup_2.
  - intros i m Hi. apply list_lookup_fmap_Some in Hi as (x & -> & Hx). rewrite (Hown i x Hx).
    exists (w, G). split; [apply d_rely_refl|]. rewrite Forall_forall in Hl. apply Hl. by eapply list_elem_of_lookup_2.
Qed.
End Pools.
