(* ===== verification/Shard.v ===== *)
(** The sharded string-keyed map shared by the three registries of
    src/internal/customer (manager, binder, topic): 256 shards selected by the
    FNV hash of the key, keys grouped by shard before the shards are visited.
    The refinement lemmas give, for every operation, its effect on the one map
    the shards stand for. *)

From S2P Require Export Go.

Definition shardCount : nat := 256.
Definition shardMask : Z := 255.

(** The hash loop, byte by byte, in 32-bit arithmetic. *)
Definition fnv (s : string) : Z :=
  foldl (fun hash c => Z.lxor (u32 (hash * 16777619)) c) 2166136261 (str_bytes s).

Definition shard_index (s : string) : nat := Z.to_nat (Z.land (fnv s) shardMask).

Lemma shard_index_lt s : (shard_index s < shardCount)%nat.
Proof.
  unfold shard_index, shardCount, shardMask.
  change 255 with (Z.ones 8). rewrite Z.land_ones by lia.
  pose proof (Z.mod_pos_bound (fnv s) (2 ^ 8)). lia.
Qed.
#[export] Hint Resolve shard_index_lt : netsvr.

(** [shardGroups]: the non-empty keys, in order, by shard. *)
Definition group_add (g : list (list string)) (key : string) : list (list string) :=
  if is_empty key then g else alter (fun l => l ++ [key]) (shard_index key) g.

Definition shardGroups (keys : list string) : list (list string) :=
  foldl group_add (replicate shardCount []) keys.

(** [for idx, list := range shardGroups]. *)
Definition groups (keys : list string) : list (nat * list string) :=
  imap pair (shardGroups keys).

Definition no_keys (x : nat * list string) : bool :=
  match x.2 with [] => true | _ => false end.

Definition in_shard (i : nat) (key : string) : Prop := key <> EmptyString /\ shard_index key = i.

#[export] Instance in_shard_dec i key : Decision (in_shard i key).
Proof. unfold in_shard. apply _. Defined.

Lemma shardGroups_lookup keys i :
  (i < shardCount)%nat ->
  shardGroups keys !! i = Some (filter (in_shard i) keys).
Proof.
  intros Hi. unfold shardGroups.
  enough (forall g l, g !! i = Some l ->
            foldl group_add g keys !! i = Some (l ++ filter (in_shard i) keys)) as H.
  { apply (H _ []). by apply lookup_replicate_2. }
  induction keys as [|key keys IH]; intros g l Hg; cbn [foldl].
  { by rewrite app_nil_r. }
  unfold group_add at 2. rewrite filter_cons.
  destruct (is_empty key) eqn:E.
  - apply is_empty_true in E. rewrite decide_False by (unfold in_shard; naive_solver). eauto.
  - apply is_empty_false in E. destruct (decide (shard_index key = i)) as [Hk|Hk].
    + rewrite decide_True by done.
      rewrite (IH _ (l ++ [key])); [by rewrite <- app_assoc|].
      rewrite Hk, list_lookup_alter_eq, Hg. done.
    + rewrite decide_False by (unfold in_shard; naive_solver).
      apply IH. by rewrite list_lookup_alter_ne.
Qed.

Lemma length_shardGroups keys : length (shardGroups keys) = shardCount.
Proof.
  unfold shardGroups. apply (foldl_ind (fun g => length g = shardCount)).
  - apply length_replicate.
  - intros g k Hg. unfold group_add. destruct (is_empty k); [done|].
    by rewrite length_alter.
Qed.

Lemma groups_lookup keys i :
  (i < shardCount)%nat -> groups keys !! i = Some (i, filter (in_shard i) keys).
Proof.
  intros Hi. unfold groups. rewrite list_lookup_imap, shardGroups_lookup by done. done.
Qed.

Lemma length_groups keys : length (groups keys) = shardCount.
Proof. unfold groups. by rewrite length_imap, length_shardGroups. Qed.

Section Shards.
Context {V : Type}.

Abbreviation shards := (list (gmap string V)).

Definition empty_shards : shards := replicate shardCount ∅.

Definition shard (s : shards) (i : nat) : gmap string V := default ∅ (s !! i).

(** Every key lies in the shard its hash selects. *)
Definition wf_shards (s : shards) : Prop :=
  length s = shardCount /\
  forall i m k, s !! i = Some m -> is_Some (m !! k) -> shard_index k = i.

(** The lookup of the one map the shards stand for. *)
Definition shard_lookup (s : shards) (k : string) : option V :=
  shard s (shard_index k) !! k.

Definition flat (s : shards) : gmap string V := ⋃ s.

Lemma wf_empty_shards : wf_shards empty_shards.
Proof.
  split; [apply length_replicate|].
  intros i m k Hm Hk. apply lookup_replicate in Hm as [-> _].
  rewrite lookup_empty in Hk. by destruct Hk.
Qed.

Lemma shard_at s i : wf_shards s -> (i < shardCount)%nat -> s !! i = Some (shard s i).
Proof.
  intros [Hlen _] Hi. unfold shard.
  destruct (s !! i) eqn:E; [done|]. apply lookup_ge_None in E. lia.
Qed.

(** Any entry of any shard is what [shard_lookup] finds. *)
Lemma shard_entry s i m k v :
  wf_shards s -> s !! i = Some m -> m !! k = Some v -> shard_lookup s k = Some v.
Proof.
  intros Hwf Hm Hk. unfold shard_lookup, shard.
  rewrite (proj2 Hwf i m k Hm) by eauto. by rewrite Hm.
Qed.

Lemma flat_Some s k v : flat s !! k = Some v -> exists i m, s !! i = Some m /\ m !! k = Some v.
Proof.
  unfold flat. induction s as [|m s IH]; cbn; intros Hv.
  { by rewrite lookup_empty in Hv. }
  apply lookup_union_Some_raw in Hv as [Hv|[_ Hv]].
  - by exists 0%nat, m.
  - destruct (IH Hv) as (i & m' & ? & ?). by exists (S i), m'.
Qed.

Lemma flat_None s k i m : flat s !! k = None -> s !! i = Some m -> m !! k = None.
Proof.
  unfold flat. revert i; induction s as [|m' s IH]; intros i Hn Hi; [done|].
  cbn in Hn. apply lookup_union_None in Hn as [Hn1 Hn2].
  destruct i as [|i]; cbn in Hi; [congruence|eauto].
Qed.

Lemma flat_lookup s k : wf_shards s -> flat s !! k = shard_lookup s k.
Proof.
  intros Hwf. destruct (flat s !! k) as [v|] eqn:E.
  - apply flat_Some in E as (i & m & ? & ?). symmetry. by eapply shard_entry.
  - symmetry. eapply flat_None; [done|]. apply shard_at; auto with netsvr.
Qed.

(** Updating one shard. *)
Lemma wf_alter s i f :
  wf_shards s ->
  (forall m k, is_Some (f m !! k) -> is_Some (m !! k) \/ shard_index k = i) ->
  wf_shards (alter f i s).
Proof.
  intros [Hlen Hwf] Hf. split; [by rewrite length_alter|].
  intros j m k Hm Hk. destruct (decide (i = j)) as [<-|Hne].
  - rewrite list_lookup_alter_eq in Hm. destruct (s !! i) as [m'|] eqn:E; [|done].
    cbn in Hm. injection Hm as <-. destruct (Hf _ _ Hk) as [Hk'|]; eauto.
  - rewrite list_lookup_alter_ne in Hm by done. eauto.
Qed.

Lemma shard_alter s i j f :
  wf_shards s -> (i < shardCount)%nat ->
  shard (alter f i s) j = if decide (i = j) then f (shard s i) else shard s j.
Proof.
  intros Hwf Hi. unfold shard at 1. case_decide as Hij.
  - subst j. rewrite list_lookup_alter_eq, (shard_at s i) by done. done.
  - by rewrite list_lookup_alter_ne.
Qed.

Lemma lookup_alter_shard s i f k :
  wf_shards s -> (i < shardCount)%nat ->
  shard_lookup (alter f i s) k =
    if decide (shard_index k = i) then f (shard s i) !! k else shard_lookup s k.
Proof.
  intros Hwf Hi. unfold shard_lookup. rewrite shard_alter by done.
  repeat case_decide; congruence.
Qed.

(** ** Updates of many keys, grouped by shard. *)
Section Bulk.
(** [f] updates one key of a shard; [g] is what becomes of its entry. *)
Context (f : gmap string V -> string -> gmap string V) (g : option V -> option V).
Hypothesis f_lookup : forall m t k,
  f m t !! k = if decide (t = k) then g (m !! k) else m !! k.
Hypothesis g_idemp : forall o, g (g o) = g o.

Definition bulk (keys : list string) (s : shards) : shards :=
  foldl (fun s x => if no_keys x then s
                    else alter (fun m => foldl f m x.2) x.1 s) s (groups keys).

Lemma foldl_f_lookup l m k :
  foldl f m l !! k = if decide (k ∈ l) then g (m !! k) else m !! k.
Proof.
  revert m; induction l as [|t l IH]; intros m; cbn [foldl].
  { rewrite decide_False by set_solver. done. }
  rewrite IH, f_lookup.
  repeat case_decide; set_solver.
Qed.

Lemma bulk_spec keys s :
  wf_shards s ->
  wf_shards (bulk keys s) /\
  forall k, shard_lookup (bulk keys s) k =
    if decide (k ∈ keys /\ k <> EmptyString) then g (shard_lookup s k)
    else shard_lookup s k.
Proof.
  intros Hwf. unfold bulk.
  (* after the first [n] groups, exactly the keys of the first [n] shards are updated *)
  enough (forall n, (n <= shardCount)%nat ->
    let s' := foldl (fun s x => if no_keys x then s
                 else alter (fun m => foldl f m x.2) x.1 s) s (take n (groups keys)) in
    wf_shards s' /\
    forall k, shard_lookup s' k =
      if decide ((k ∈ keys /\ k <> EmptyString) /\ (shard_index k < n)%nat)
      then g (shard_lookup s k) else shard_lookup s k) as H.
  { destruct (H shardCount) as [H1 H2]; [lia|].
    rewrite <- (length_groups keys), firstn_all in H1, H2.
    split; [done|]. intros k. rewrite H2. rewrite length_groups.
    pose proof (shard_index_lt k). repeat case_decide; naive_solver. }
  induction n as [|n IH]; intros Hn.
  { cbn. split; [done|]. intros k. rewrite decide_False by lia. done. }
  destruct (IH ltac:(lia)) as [Hwf' Hlk]. clear IH.
  rewrite (take_S_r _ _ (n, filter (in_shard n) keys)) by (apply groups_lookup; lia).
  rewrite foldl_app. cbn [foldl].
  set (s' := foldl _ _ (take n (groups keys))) in *.
  assert (forall k, k ∈ filter (in_shard n) keys <->
            (k ∈ keys /\ k <> EmptyString) /\ shard_index k = n) as Hin.
  { intros k. rewrite list_elem_of_filter. unfold in_shard. naive_solver. }
  assert (no_keys (n, filter (in_shard n) keys) = true -> forall k,
            ~ ((k ∈ keys /\ k <> EmptyString) /\ shard_index k = n)) as Hnone.
  { unfold no_keys. cbn. intros Hf k Hk. apply Hin in Hk.
    destruct (filter _ keys); [set_solver|done]. }
  destruct (no_keys _) eqn:Enk; cbn [fst snd].
  - split; [done|]. intros k. rewrite Hlk. specialize (Hnone eq_refl k).
    apply decide_ext. clear -Hnone.
    assert ((shard_index k < S n)%nat <-> (shard_index k < n)%nat \/ shard_index k = n) by lia.
    tauto.
  - split.
    + apply wf_alter; [done|]. intros m k. rewrite foldl_f_lookup.
      case_decide as Hd; [|auto]. apply Hin in Hd. naive_solver.
    + intros k. rewrite lookup_alter_shard by (done || lia).
      rewrite foldl_f_lookup. pose proof (Hlk k) as Hk. unfold shard_lookup in Hk at 1.
      destruct (decide (shard_index k = n)) as [Hidx|Hidx].
      * rewrite Hidx in Hk. rewrite Hk.
        rewrite (decide_False (P := (_ /\ _) /\ (n < n)%nat)) by lia.
        apply decide_ext. rewrite Hin.
        assert ((shard_index k < S n)%nat <-> shard_index k = n) by lia. tauto.
      * rewrite Hlk. apply decide_ext.
        assert ((shard_index k < S n)%nat <-> (shard_index k < n)%nat) by lia. tauto.
Qed.
End Bulk.

(** ** Reading every shard. *)
Section All.
Context {MO : MapOrder}.

(** The entries met by a loop over all the shards. *)
Definition entries (s : shards) : list (string * V) :=
  mjoin (range_map <$> s).

Lemma elem_of_entries s k v :
  wf_shards s -> (k, v) ∈ entries s <-> shard_lookup s k = Some v.
Proof.
  intros Hwf. unfold entries. rewrite list_elem_of_join. split.
  - intros (l & Hin & Hl). apply list_elem_of_fmap in Hl as (m & -> & Hm).
    apply elem_of_range in Hin. apply list_elem_of_lookup in Hm as [i Hi].
    by eapply shard_entry.
  - intros Hk. exists (range_map (shard s (shard_index k))). split.
    + by apply elem_of_range.
    + apply list_elem_of_fmap. eexists. split; [done|].
      eapply list_elem_of_lookup_2, shard_at; eauto with netsvr.
Qed.

Lemma NoDup_entries s : wf_shards s -> NoDup (entries s).*1.
Proof.
  intros [_ Hwf]. unfold entries. revert Hwf.
  assert (forall n, (forall i m k, s !! i = Some m -> is_Some (m !! k) -> shard_index k = (n + i)%nat) ->
            NoDup (mjoin (range_map <$> s)).*1) as H; [|intros; by apply (H 0%nat)].
  induction s as [|m s IH]; intros n Hwf; cbn.
  { constructor. }
  rewrite fmap_app. apply NoDup_app. split_and!.
  - apply NoDup_fst_range.
  - intros k Hk Hk'. apply elem_of_range_fst in Hk.
    pose proof (Hwf 0%nat m k eq_refl Hk) as H0.
    apply list_elem_of_fmap in Hk' as ([k' v] & Heq & Hin). cbn in Heq. subst k'.
    apply list_elem_of_join in Hin as (l & Hin & Hl).
    apply list_elem_of_fmap in Hl as (m' & -> & Hm').
    apply list_elem_of_lookup in Hm' as [i Hi]. apply elem_of_range in Hin.
    pose proof (Hwf (S i) m' k Hi ltac:(eauto)). lia.
  - apply (IH (S n)). intros i m' k Hi Hk.
    rewrite (Hwf (S i) m' k Hi Hk). lia.
Qed.

Lemma entries_perm s : wf_shards s -> Permutation (entries s) (map_to_list (flat s)).
Proof.
  intros Hwf. apply NoDup_Permutation.
  - eapply NoDup_fmap_1. by apply NoDup_entries.
  - apply NoDup_map_to_list.
  - intros [k v]. rewrite elem_of_entries, elem_of_map_to_list, flat_lookup by done. done.
Qed.
End All.

(** [Len]: the sizes of the shards, added up. *)
Definition total_len (s : shards) : Z := foldl (fun total m => total + Z.of_nat (size m)) 0 s.

Lemma total_len_flat s : wf_shards s -> total_len s = Z.of_nat (size (flat s)).
Proof.
  intros Hwf.
  assert (forall z (l : shards), foldl (fun total m => total + Z.of_nat (size m)) z l
            = z + Z.of_nat (length (mjoin (map_to_list <$> l)))) as H.
  { intros z l; revert z; induction l as [|m l IH]; intros z; [cbn; lia|].
    cbn [foldl]. rewrite fmap_cons, IH.
    change (mjoin (?x :: ?k)) with (x ++ mjoin k).
    rewrite length_app, length_map_to_list. lia. }
  unfold total_len. rewrite H, Z.add_0_l. f_equal.
  pose proof (entries_perm (MO := stored_order) s Hwf) as Hp.
  apply Permutation_length in Hp. rewrite length_map_to_list in Hp. exact Hp.
Qed.
End Shards.

Arguments empty_shards V : assert.
