(* ===== verification/Ws.v ===== *)
(** The parts of the WebSocket framing library (vendored
    github.com/gobwas/ws: frame.go, write.go, cipher.go) the gateway calls:
    opcodes and status codes, the server-side frame encoder, the body of a close
    frame and the masking cipher. *)

From S2P Require Export Prelude.

(** ** Opcodes ([ws.OpCode], a byte). *)

Definition OpContinuation : Z := 0.
Definition OpText : Z := 1.
Definition OpBinary : Z := 2.
Definition OpClose : Z := 8.
Definition OpPing : Z := 9.
Definition OpPong : Z := 10.

Definition IsControl (c : Z) : bool := negb (Z.land c 8 =? 0).
Definition IsData (c : Z) : bool := Z.land c 8 =? 0.
Definition IsReserved (c : Z) : bool :=
  ((3 <=? c) && (c <=? 7)) || ((11 <=? c) && (c <=? 15)).

(** ** Status codes ([ws.StatusCode], a uint16). *)

Definition StatusGoingAway : Z := 1001.
Definition StatusProtocolError : Z := 1002.
Definition StatusUnsupportedData : Z := 1003.
Definition StatusNoMeaningYet : Z := 1004.
Definition StatusNoStatusRcvd : Z := 1005.
Definition StatusAbnormalClosure : Z := 1006.
Definition StatusInvalidFramePayloadData : Z := 1007.
Definition StatusPolicyViolation : Z := 1008.
Definition StatusMessageTooBig : Z := 1009.
Definition StatusInternalServerError : Z := 1011.

Definition In_range (s lo hi : Z) : bool := (lo <=? s) && (s <=? hi).

(** ** Frames. *)

Record Header := mkHeader {
  Fin : bool;
  Rsv : Z;
  OpCode : Z;
  Masked : bool;
  Mask : bytes;
  Length : Z;
}.

Record wsFrame := mkFrame { fheader : Header; fpayload : bytes }.

Definition len7 : Z := 125.
Definition len16 : Z := 65535.
Definition len64 : Z := 2 ^ 63 - 1.

(** [WriteHeader]: the bytes written, [None] for [ErrHeaderLengthUnexpected]. *)
Definition WriteHeader (h : Header) : option bytes :=
  let b0 := Z.lor (Z.lor (if Fin h then 128 else 0) (u8 (Z.shiftl (Rsv h) 4))) (OpCode h) in
  let m := if Masked h then 128 else 0 in
  let mask := if Masked h then Mask h else [] in
  if Length h <=? len7 then Some (b0 :: Z.lor (u8 (Length h)) m :: mask)
  else if Length h <=? len16 then Some (b0 :: Z.lor 126 m :: put_be 2 (u16 (Length h)) ++ mask)
  else if Length h <=? len64 then Some (b0 :: Z.lor 127 m :: put_be 8 (u64 (Length h)) ++ mask)
  else None.

Definition NewFrame (op : Z) (fin : bool) (p : bytes) : wsFrame :=
  mkFrame (mkHeader fin 0 op false [] (len p)) p.

(** [WriteFrame] into a buffer: the whole wire image. *)
Definition WriteFrame (f : wsFrame) : option bytes :=
  match WriteHeader (fheader f) with
  | Some h => Some (h ++ fpayload f)
  | None => None
  end.

Definition MaxControlFramePayloadSize : Z := 125.

Definition NewCloseFrameBody (code : Z) (reason : bytes) : bytes :=
  let crop := Z.min (MaxControlFramePayloadSize - 2) (len reason) in
  put_be 2 (u16 code) ++ take (Z.to_nat crop) reason.

Lemma length_NewCloseFrameBody code reason :
  len (NewCloseFrameBody code reason) = Z.min (2 + len reason) MaxControlFramePayloadSize.
Proof.
  unfold NewCloseFrameBody, MaxControlFramePayloadSize, len.
  rewrite length_app, length_put_be, length_take. lia.
Qed.

(** ** The masking cipher ([Cipher], cipher.go), in place. *)
Module Cipher.

Definition mask_at (mask : bytes) (i : Z) : Z := nth (Z.to_nat (i mod 4)) mask 0.

(** [for i := lo; i < hi; i++ { payload[i] ^= mask[(mpos+i)%4] }]. *)
Definition xor_range (mask : bytes) (mpos : Z) (lo hi : nat) (payload : bytes) : bytes :=
  imap (fun i b => if (lo <=? i)%nat && (i <? hi)%nat
                   then Z.lxor b (mask_at mask (mpos + Z.of_nat i)) else b) payload.

Fixpoint le (l : bytes) : Z :=
  match l with [] => 0 | b :: l' => b + 256 * le l' end.

Fixpoint put_le (n : nat) (v : Z) : bytes :=
  match n with O => [] | S n' => v mod 256 :: put_le n' (v / 256) end.

(** The main loop: 16 bytes a round, as two 64-bit words. *)
Fixpoint chunks (n : nat) (m2 : Z) (payload : bytes) : bytes :=
  match n with
  | O => payload
  | S n' =>
      put_le 8 (Z.lxor (le (take 8 payload)) m2)
      ++ put_le 8 (Z.lxor (le (take 8 (drop 8 payload))) m2)
      ++ chunks n' m2 (drop 16 payload)
  end.

Definition remain (mpos : Z) : Z :=
  if mpos =? 0 then 0 else if mpos =? 1 then 3 else if mpos =? 2 then 2 else 1.

Definition Cipher (payload mask : bytes) (offset : Z) : bytes :=
  let n := len payload in
  if n <? 8 then xor_range mask offset 0 (length payload) payload
  else
    let mpos := offset mod 4 in
    let ln := remain mpos in
    let rn := (n - ln) mod 16 in
    let p1 := xor_range mask mpos 0 (Z.to_nat ln) payload in
    let p2 := xor_range mask mpos (Z.to_nat (n - rn)) (Z.to_nat n) p1 in
    let m := le mask in
    let m2 := Z.lor (u64 (Z.shiftl m 32)) m in
    let rounds := Z.shiftr (n - ln - rn) 4 in
    take (Z.to_nat ln) p2 ++ chunks (Z.to_nat rounds) m2 (drop (Z.to_nat ln) p2).

(** The reference: every byte against its mask byte. *)
Definition cipher_spec (payload mask : bytes) (offset : Z) : bytes :=
  imap (fun i b => Z.lxor b (mask_at mask (offset + Z.of_nat i))) payload.

Lemma length_xor_range mask mpos lo hi p : length (xor_range mask mpos lo hi p) = length p.
Proof. apply length_imap. Qed.

Lemma length_cipher_spec p mask off : length (cipher_spec p mask off) = length p.
Proof. apply length_imap. Qed.

Lemma wf_xor a b : is_byte a -> is_byte b -> is_byte (Z.lxor a b).
Proof.
  unfold is_byte. intros Ha Hb.
  assert (forall z, 0 <= z < 256 <-> z = z mod 256) as E.
  { intros z. pose proof (Z.mod_pos_bound z 256). split; [intros; by rewrite Z.mod_small|lia]. }
  apply E. apply E in Ha, Hb. change 256 with (2 ^ 8) in *.
  rewrite <- Z.land_ones in * by lia. rewrite Ha, Hb at 1.
  apply Z.bits_inj'. intros i Hi.
  rewrite !Z.lxor_spec, !Z.land_spec, !Z.lxor_spec.
  destruct (Z.testbit a i), (Z.testbit b i), (Z.testbit (Z.ones 8) i); done.
Qed.

Lemma testbit_high u k i : 0 <= u < 2 ^ k -> 0 <= k <= i -> Z.testbit u i = false.
Proof.
  intros Hu Hi. destruct (Z.eqb_spec u 0) as [->|]; [apply Z.bits_0|].
  apply Z.bits_above_log2; [lia|].
  apply Z.log2_lt_pow2; [lia|]. apply (Z.lt_le_trans _ (2 ^ k)); [lia|].
  apply Z.pow_le_mono_r; lia.
Qed.

Lemma lor_low_high u v k :
  0 <= k -> 0 <= u < 2 ^ k -> u + 2 ^ k * v = Z.lor u (Z.shiftl v k).
Proof.
  intros Hk Hu. rewrite <- Z.add_nocarry_lor.
  { rewrite Z.shiftl_mul_pow2 by lia. lia. }
  apply Z.bits_inj'. intros i Hi. rewrite Z.land_spec, Z.bits_0.
  destruct (Z.ltb_spec i k).
  - rewrite Z.shiftl_spec_low by lia. by rewrite andb_false_r.
  - by rewrite (testbit_high u k i) by lia.
Qed.

Lemma lxor_words x y p q :
  is_byte x -> is_byte y ->
  Z.lxor (x + 256 * p) (y + 256 * q) = Z.lxor x y + 256 * Z.lxor p q.
Proof.
  intros Hx Hy. pose proof (wf_xor x y Hx Hy) as Hxy. unfold is_byte in *.
  change 256 with (2 ^ 8) in *. rewrite !lor_low_high by lia.
  apply Z.bits_inj'. intros i Hi.
  rewrite !Z.lxor_spec, !Z.lor_spec, Z.lxor_spec.
  destruct (Z.ltb_spec i 8).
  - rewrite !Z.shiftl_spec_low by lia. by rewrite !orb_false_r.
  - rewrite !Z.shiftl_spec, Z.lxor_spec by lia.
    by rewrite !(testbit_high _ 8 i) by lia.
Qed.

Lemma le_xor a b :
  length a = length b -> wf_bytes a -> wf_bytes b ->
  Z.lxor (le a) (le b) = le (zip_with Z.lxor a b).
Proof.
  revert b; induction a as [|x a IH]; intros [|y b] Hl Ha Hb; try done; cbn.
  inversion Ha; inversion Hb; subst. rewrite lxor_words by done.
  rewrite IH; [done|cbn in Hl; lia|done|done].
Qed.

Lemma put_le_le l : wf_bytes l -> put_le (length l) (le l) = l.
Proof.
  induction 1 as [|b l Hb Hl IH]; [done|]. cbn. unfold is_byte in Hb.
  rewrite (Z.mul_comm 256), Z.mod_add, Z.mod_small, Z.div_add, Z.div_small by lia.
  by rewrite Z.add_0_l, IH.
Qed.

Lemma wf_zip_xor a b : wf_bytes a -> wf_bytes b -> wf_bytes (zip_with Z.lxor a b).
Proof.
  intros Ha. revert b. induction Ha as [|x a Hx Ha IH]; intros b Hb; [constructor|].
  destruct Hb; constructor; auto using wf_xor. by apply IH.
Qed.

Lemma put_le_xor a b n :
  length a = n -> length b = n -> wf_bytes a -> wf_bytes b ->
  put_le n (Z.lxor (le a) (le b)) = zip_with Z.lxor a b.
Proof.
  intros <- Hl Ha Hb. rewrite le_xor by done.
  transitivity (put_le (length (zip_with Z.lxor a b)) (le (zip_with Z.lxor a b))).
  - f_equal. rewrite length_zip_with. lia.
  - by apply put_le_le, wf_zip_xor.
Qed.

Lemma le_app a b : le (a ++ b) = le a + 256 ^ len a * le b.
Proof.
  induction a as [|x a IH]; cbn [app le].
  { change (len (@nil Z)) with 0. lia. }
  rewrite IH, len_cons, Z.pow_add_r by (lia || apply len_nonneg). lia.
Qed.

Lemma le_bound l : wf_bytes l -> 0 <= le l < 256 ^ len l.
Proof.
  induction 1 as [|b l Hb Hl IH]; [cbn [le]; change (len (@nil Z)) with 0; lia|].
  cbn [le]. rewrite len_cons, Z.pow_add_r by (lia || apply len_nonneg).
  unfold is_byte in Hb. lia.
Qed.

(** [m2] is the mask twice, as one 64-bit word. *)
Lemma m2_le mask :
  wf_bytes mask -> length mask = 4%nat ->
  Z.lor (u64 (Z.shiftl (le mask) 32)) (le mask) = le (mask ++ mask).
Proof.
  intros Hwf Hl. pose proof (le_bound mask Hwf) as Hb. unfold len in Hb. rewrite Hl in Hb.
  change (256 ^ Z.of_nat 4) with (2 ^ 32) in Hb.
  rewrite u64_small by (rewrite Z.shiftl_mul_pow2; lia).
  rewrite Z.lor_comm, <- lor_low_high, le_app by lia. unfold len. rewrite Hl. done.
Qed.

Lemma mask_at_add mask i k : mask_at mask (i + 4 * k) = mask_at mask i.
Proof. unfold mask_at. by rewrite (Z.mul_comm 4), Z.mod_add by lia. Qed.

(** One word of the payload against the doubled mask. *)
Lemma word_xor p mask :
  length p = 8%nat -> length mask = 4%nat ->
  zip_with Z.lxor p (mask ++ mask) =
    imap (fun i b => Z.lxor b (mask_at mask (Z.of_nat i))) p.
Proof.
  intros Hp Hm.
  destruct mask as [|m0 [|m1 [|m2 [|m3 [|]]]]]; try done.
  do 9 (destruct p as [|? p]; try done).
Qed.

Lemma chunks_spec n mask p :
  wf_bytes p -> wf_bytes mask -> length mask = 4%nat -> length p = (16 * n)%nat ->
  chunks n (le (mask ++ mask)) p = imap (fun i b => Z.lxor b (mask_at mask (Z.of_nat i))) p.
Proof.
  intros Hp Hmask Hm. revert p Hp; induction n as [|n IH]; intros p Hp Hlen.
  { destruct p; [done|cbn in Hlen; lia]. }
  assert (p = take 8 p ++ take 8 (drop 8 p) ++ drop 16 p) as E.
  { replace (drop 16 p) with (drop 8 (drop 8 p)) by apply drop_drop.
    by rewrite !take_drop. }
  assert (wf_bytes (take 8 p) /\ wf_bytes (take 8 (drop 8 p)) /\ wf_bytes (drop 16 p)) as (H1 & H2 & H3).
  { unfold wf_bytes in *. split_and!; auto using Forall_take, Forall_drop. }
  assert (length (take 8 p) = 8%nat /\ length (take 8 (drop 8 p)) = 8%nat
          /\ length (drop 16 p) = (16 * n)%nat) as (L1 & L2 & L3).
  { rewrite !length_take, !length_drop. lia. }
  cbn [chunks]. rewrite IH by done.
  rewrite !put_le_xor by
    (done || (unfold wf_bytes; by apply Forall_app) || (rewrite length_app; lia)).
  rewrite !word_xor by done.
  symmetry. rewrite E at 1. rewrite !imap_app, L1, L2.
  f_equal. f_equal; apply imap_ext; intros i x _; cbn beta; unfold compose; f_equal.
  - rewrite <- (mask_at_add mask (Z.of_nat i) 2). f_equal. lia.
  - rewrite <- (mask_at_add mask (Z.of_nat i) 4). f_equal. lia.
Qed.

Lemma chunks_app n m2 a b :
  length a = (16 * n)%nat -> chunks n m2 (a ++ b) = chunks n m2 a ++ b.
Proof.
  revert a; induction n as [|n IH]; intros a Ha.
  { destruct a; [done|cbn in Ha; lia]. }
  cbn [chunks]. rewrite (drop_app_le a b 8), (drop_app_le a b 16), (take_app_le a b 8) by lia.
  rewrite (take_app_le (drop 8 a) b 8) by (rewrite length_drop; lia).
  rewrite IH by (rewrite length_drop; lia). by rewrite !app_assoc.
Qed.

Lemma wf_mask_at mask i : wf_bytes mask -> is_byte (mask_at mask i).
Proof.
  intros Hm. unfold mask_at.
  destruct (nth_in_or_default (Z.to_nat (i mod 4)) mask 0) as [Hin| ->].
  - apply list_elem_of_In in Hin. revert Hin. by apply Forall_forall.
  - unfold is_byte. lia.
Qed.

Lemma wf_xor_range mask mpos lo hi p :
  wf_bytes mask -> wf_bytes p -> wf_bytes (xor_range mask mpos lo hi p).
Proof.
  intros Hm Hp. unfold wf_bytes in *. apply Forall_lookup. intros i x Hx.
  unfold xor_range in Hx. rewrite list_lookup_imap in Hx.
  destruct (p !! i) as [y|] eqn:E; [|done]. cbn in Hx. injection Hx as <-.
  pose proof (Forall_lookup_1 _ _ _ _ Hp E).
  destruct (_ && _); auto using wf_xor, wf_mask_at.
Qed.

Lemma mask_at_mod mask i off : mask_at mask (off mod 4 + i) = mask_at mask (off + i).
Proof. unfold mask_at. by rewrite Z.add_mod_idemp_l by lia. Qed.

Lemma remain_spec off : 0 <= remain (off mod 4) <= 3 /\ (off mod 4 + remain (off mod 4)) mod 4 = 0.
Proof.
  pose proof (Z.mod_pos_bound off 4 ltac:(lia)).
  unfold remain. assert (off mod 4 = 0 \/ off mod 4 = 1 \/ off mod 4 = 2 \/ off mod 4 = 3)
    as [->|[->|[->| ->]]] by lia; split; cbn; done || lia.
Qed.

(** Both ends are done byte by byte: the first [lo] bytes and those from [hi] on. *)
Lemma ends_lookup payload mask offset lo hi i x :
  payload !! i = Some x -> (lo <= hi)%nat ->
  xor_range mask (offset mod 4) hi (length payload) (xor_range mask (offset mod 4) 0 lo payload) !! i =
  Some (if (i <? lo)%nat || (hi <=? i)%nat then Z.lxor x (mask_at mask (offset + Z.of_nat i)) else x).
Proof.
  intros Ex Hlo. pose proof (lookup_lt_Some _ _ _ Ex) as Hi. unfold xor_range.
  rewrite !list_lookup_imap, Ex. cbn [fmap option_fmap option_map]. f_equal.
  rewrite mask_at_mod. bool_case; cbn [andb orb]; done || lia.
Qed.

(** The words between them start where the mask does. *)
Lemma mask_at_middle mask offset (ln : Z) i :
  (offset mod 4 + ln) mod 4 = 0 -> 0 <= ln <= Z.of_nat i ->
  mask_at mask (Z.of_nat (i - Z.to_nat ln)) = mask_at mask (offset + Z.of_nat i).
Proof.
  intros Hm Hi. rewrite <- mask_at_mod.
  assert (offset mod 4 + Z.of_nat i = Z.of_nat (i - Z.to_nat ln) + 4 * ((offset mod 4 + ln) / 4)) as ->.
  { pose proof (Z.div_mod (offset mod 4 + ln) 4 ltac:(lia)). lia. }
  symmetry. apply mask_at_add.
Qed.

(** The optimised cipher computes the byte-wise one. *)
Lemma Cipher_bytewise payload mask offset :
  wf_bytes payload -> wf_bytes mask -> length mask = 4%nat -> 0 <= offset ->
  Cipher payload mask offset = cipher_spec payload mask offset.
Proof.
  intros Hp Hmask Hm Hoff. unfold Cipher.
  destruct (Z.ltb_spec (len payload) 8) as [Hs|Hs].
  { unfold xor_range, cipher_spec. apply imap_ext. intros i x Hi.
    apply lookup_lt_Some in Hi. bool_case; try lia; done. }
  destruct (remain_spec offset) as [Hr0 Hr1].
  set (ln := remain (offset mod 4)) in *.
  pose proof (Z.mod_pos_bound (len payload - ln) 16 ltac:(lia)) as Hrn.
  set (rn := (len payload - ln) mod 16) in *.
  assert (exists q, 0 <= q /\ len payload - ln - rn = 16 * q) as (q & Hq & Eq).
  { exists ((len payload - ln) / 16). unfold rn.
    pose proof (Z.div_mod (len payload - ln) 16 ltac:(lia)).
    split; [apply Z.div_pos; lia|lia]. }
  rewrite Eq, Z.shiftr_div_pow2 by lia. change (2 ^ 4) with 16. rewrite (Z.mul_comm 16), Z.div_mul, m2_le by (done || lia).
  set (p2 := xor_range _ _ _ _ (xor_range _ _ _ _ payload)).
  assert (length p2 = length payload) as Lp2 by (unfold p2; by rewrite !length_xor_range).
  assert (wf_bytes p2) as Hwf2 by (unfold p2; auto using wf_xor_range).
  unfold len in *.
  set (mid := take (Z.to_nat (16 * q)) (drop (Z.to_nat ln) p2)).
  assert (length mid = (16 * Z.to_nat q)%nat) as Lmid by (unfold mid; rewrite length_take, length_drop; lia).
  rewrite <- (take_drop (Z.to_nat (16 * q)) (drop (Z.to_nat ln) p2)). fold mid.
  rewrite chunks_app, chunks_spec by
    (done || (unfold mid, wf_bytes in *; auto using Forall_take, Forall_drop)).
  apply list_eq. intros i. unfold cipher_spec. rewrite list_lookup_imap.
  destruct (payload !! i) as [x|] eqn:Ex; cbn [fmap option_fmap option_map].
  2:{ apply lookup_ge_None in Ex. apply lookup_ge_None.
      rewrite !length_app, length_imap, Lmid, length_take, !length_drop. lia. }
  pose proof (lookup_lt_Some _ _ _ Ex) as Hi.
  assert (p2 !! i = Some (if (i <? Z.to_nat ln)%nat || (Z.to_nat (Z.of_nat (length payload) - rn) <=? i)%nat
            then Z.lxor x (mask_at mask (offset + Z.of_nat i)) else x)) as Ep2.
  { unfold p2. rewrite Nat2Z.id. apply ends_lookup; [done|lia]. }
  destruct (decide (i < Z.to_nat ln)%nat) as [Hc|Hc].
  { rewrite lookup_app_l by (rewrite length_take; lia).
    rewrite lookup_take_lt, Ep2 by done. f_equal. bool_case; cbn [andb orb]; done || lia. }
  rewrite lookup_app_r by (rewrite length_take; lia). rewrite length_take, Nat.min_l by lia.
  destruct (decide (i < Z.to_nat ln + Z.to_nat (16 * q))%nat) as [Hd|Hd].
  - rewrite lookup_app_l by (rewrite length_imap, Lmid; lia). rewrite list_lookup_imap. unfold mid at 1.
    rewrite lookup_take_lt, lookup_drop by lia. replace (Z.to_nat ln + (i - Z.to_nat ln))%nat with i by lia.
    rewrite Ep2. cbn [fmap option_fmap option_map]. rewrite (mask_at_middle mask offset ln) by (done || lia).
    f_equal. bool_case; cbn [andb orb]; done || lia.
  - rewrite lookup_app_r by (rewrite length_imap, Lmid; lia). rewrite length_imap, Lmid, !lookup_drop.
    replace (Z.to_nat ln + (Z.to_nat (16 * q) + (i - Z.to_nat ln - 16 * Z.to_nat q)))%nat with i by lia.
    rewrite Ep2. f_equal. bool_case; cbn [andb orb]; done || lia.
Qed.
End Cipher.
