(* ===== verification/Codec.v ===== *)
(** The per-connection codec of src/internal/wsServer: [messagePayload.go] (the
    fragments of a message), [codec.go] (the flags, the frame decoder, the
    opening handshake). *)

From S2P Require Export Ws.

(** ** Errors and the event-loop connection. *)

Inductive goerr : Type :=
  | ErrShortBuffer            (* io.ErrShortBuffer *)
  | ErrNew (msg : string)     (* errors.New *)
  | ErrNet.                   (* any other error of the network layer *)

#[export] Instance goerr_eq_dec : EqDecision goerr.
Proof. solve_decision. Defined.

(** The event-loop side of a [gnet.Conn]: [inbound] is what [Peek(-1)] returns
    and [InboundBuffered] counts; the error fields are what the next calls of the
    library report. *)
Record gnetConn := mkGnet {
  inbound : bytes;
  peek_err : option goerr;
  discard_err : bool;
}.

Definition with_inbound (g : gnetConn) (b : bytes) : gnetConn :=
  mkGnet b (peek_err g) (discard_err g).

(** ** messagePayload.go *)

Record messagePayload := mkPayload { fragments : list bytes }.

Definition newMessagePayload : messagePayload := mkPayload [].

Definition payload_reset (r : messagePayload) : messagePayload := mkPayload [].

Definition payload_append (r : messagePayload) (fragment mask : bytes) : messagePayload :=
  mkPayload (fragments r ++ [Cipher.Cipher fragment mask 0]).

(** [copy(ret[offset:], frag)]. *)
Definition copy_at (ret : bytes) (offset : nat) (frag : bytes) : bytes :=
  take offset ret ++ take (length ret - offset) frag ++ drop (offset + length frag) ret.

Definition merge (r : messagePayload) : bytes :=
  match fragments r with
  | [] => []
  | [frag] => frag
  | frags =>
      let totalLen := foldl (fun n frag => (n + length frag)%nat) 0%nat frags in
      (foldl (fun '(ret, offset) frag => (copy_at ret offset frag, (offset + length frag)%nat))
             (replicate totalLen 0, 0%nat) frags).1
  end.

(** ** The codec. *)

Record codec := mkCodec {
  preMessagePayload : option messagePayload;
  currMessagePayload : messagePayload;
  closed : Z;              (* uint32 *)
  flags : Z;               (* byte: bit 0 upgraded, bit 1 compression *)
  preMessageOpCode : Z;    (* byte, 255 for none *)
  currMessageOpCode : Z;
  messageRsv : Z;
}.

Definition newCodec : codec := mkCodec None newMessagePayload 0 0 255 255 0.

Definition with_closed (c : codec) (v : Z) : codec :=
  mkCodec (preMessagePayload c) (currMessagePayload c) v (flags c)
          (preMessageOpCode c) (currMessageOpCode c) (messageRsv c).
Definition with_flags (c : codec) (v : Z) : codec :=
  mkCodec (preMessagePayload c) (currMessagePayload c) (closed c) v
          (preMessageOpCode c) (currMessageOpCode c) (messageRsv c).
Definition with_payload (c : codec) (p : messagePayload) : codec :=
  mkCodec (preMessagePayload c) p (closed c) (flags c)
          (preMessageOpCode c) (currMessageOpCode c) (messageRsv c).

(** [atomic.CompareAndSwapUint32(&r.closed, 0, 1)]. *)
Definition SetClosedFlagOnSafe (c : codec) : bool * codec :=
  if closed c =? 0 then (true, with_closed c 1) else (false, c).

Definition IsClosedOnSafe (c : codec) : bool := closed c =? 1.

Definition setUpgraded (c : codec) (upgraded : bool) : codec :=
  with_flags c (if upgraded then Z.lor (flags c) 1 else Z.ldiff (flags c) 1).

Definition isUpgraded (c : codec) : bool := negb (Z.land (flags c) 1 =? 0).

Definition setCompression (c : codec) (compression : bool) : codec :=
  with_flags c (if compression then Z.lor (flags c) 2 else Z.ldiff (flags c) 2).

Definition IsCompressOnSafe (c : codec) : bool := negb (Z.land (flags c) 2 =? 0).

Definition resetCurrMessage (c : codec) : codec :=
  let p := payload_reset (currMessagePayload c) in
  if preMessageOpCode c =? 255
  then mkCodec (preMessagePayload c) p (closed c) (flags c) (preMessageOpCode c) 255 0
  else mkCodec None (default p (preMessagePayload c)) (closed c) (flags c)
               255 (preMessageOpCode c) (messageRsv c).

(** ** [unicode/utf8].[Valid]. *)

Definition cont (b : Z) : bool := (128 <=? b) && (b <=? 191).

Definition in_byte_range (lo hi b : Z) : bool := (lo <=? b) && (b <=? hi).

Fixpoint utf8_valid (l : bytes) : bool :=
  match l with
  | [] => true
  | a :: l1 =>
      if in_byte_range 0 127 a then utf8_valid l1 else
      match l1 with
      | [] => false
      | b :: l2 =>
          if in_byte_range 194 223 a then cont b && utf8_valid l2 else
          match l2 with
          | [] => false
          | c :: l3 =>
              let b_ok := if a =? 224 then in_byte_range 160 191 b
                          else if a =? 237 then in_byte_range 128 159 b
                          else cont b in
              if in_byte_range 224 239 a then b_ok && cont c && utf8_valid l3 else
              match l3 with
              | [] => false
              | d :: l4 =>
                  let b_ok := if a =? 240 then in_byte_range 144 191 b
                              else if a =? 244 then in_byte_range 128 143 b
                              else cont b in
                  in_byte_range 240 244 a && b_ok && cont c && cont d && utf8_valid l4
              end
          end
      end
  end.

(** ** The deflate library (compress/flate behind wsflate's helpers). *)

Class Deflate : Type := {
  compress : bytes -> option bytes;
  decompress : bytes -> option bytes;
  decompress_compress : forall b c, compress b = Some c -> decompress c = Some b;
}.

(** ** The frame decoder ([decode]). *)

(** What [decode] returns: a message payload, or a status and an error; a panic
    of the run time ends the process. *)
Inductive decoded : Type :=
  | DMsg (payload : bytes)
  | DErr (status : Z) (e : goerr)
  | DPanic.

(** One round of the loop of [decode]: leave the function, or go on. *)
Inductive round : Type :=
  | Leave (r : decoded) (c : codec) (g : gnetConn)
  | Again (c : codec) (g : gnetConn).

(** [l[lo:hi]]: out of range is a panic. *)
Definition slice (l : bytes) (lo hi : Z) : option bytes :=
  if (0 <=? lo) && (lo <=? hi) && (hi <=? len l)
  then Some (take (Z.to_nat (hi - lo)) (drop (Z.to_nat lo) l)) else None.

Definition byte_at (l : bytes) (i : nat) : Z := nth i l 0.

Definition short : decoded := DErr 0 ErrShortBuffer.
Definition protocol_error (msg : string) : decoded := DErr StatusProtocolError (ErrNew msg).
Definition invalid_data (msg : string) : decoded :=
  DErr StatusInvalidFramePayloadData (ErrNew msg).

Definition valid_op (op : Z) : bool :=
  (op =? OpContinuation) || (op =? OpText) || (op =? OpBinary)
  || (op =? OpClose) || (op =? OpPing) || (op =? OpPong).

Definition invalid_close_code (code : Z) : bool :=
  In_range code 0 999 || (code =? StatusNoMeaningYet) || (code =? StatusNoStatusRcvd)
  || (code =? StatusAbnormalClosure) || (code =? 1016) || (code =? 1100)
  || (code =? 2000) || (code =? 2999).

(** The checks on a complete message, once its last frame has arrived. *)
Definition complete `{Deflate} (c : codec) : decoded :=
  let payload := merge (currMessagePayload c) in
  let inflated :=
    if IsCompressOnSafe c && (messageRsv c =? 4) then decompress payload else Some payload in
  if currMessageOpCode c =? OpText then
    match inflated with
    | None => invalid_data "invalid deflate stream"
    | Some p => if utf8_valid p then DMsg p
                else invalid_data "invalid utf8 in text message"
    end
  else if currMessageOpCode c =? OpBinary then
    match inflated with
    | None => invalid_data "invalid deflate stream"
    | Some p => DMsg p
    end
  else if (currMessageOpCode c =? OpClose) && (0 <? len payload) then
    let pl := len payload in
    if (pl =? 1) || (125 <? pl) then protocol_error "close frame payload length invalid"
    else if invalid_close_code (be (take 2 payload))
    then protocol_error "invalid close status code"
    else if (2 <? pl) && negb (utf8_valid (drop 2 payload))
    then invalid_data "invalid utf8 in text message"
    else DMsg payload
  else DMsg payload.

(** A control frame between two fragments puts the data message aside. *)
Definition set_aside (c : codec) : codec :=
  mkCodec (Some (currMessagePayload c)) newMessagePayload (closed c) (flags c)
          (currMessageOpCode c) 255 (messageRsv c).

(** The checks on a frame that follows the first frame of a message; the codec
    on success. *)
Definition check_following (c : codec) (op rsv : Z) : codec + decoded :=
  if currMessageOpCode c =? 255 then inl c
  else if IsControl (currMessageOpCode c)
  then inr (protocol_error "control message MUST NOT be fragmented")
  else if IsControl op then inl (set_aside c)
  else if negb (op =? OpContinuation)
  then inr (protocol_error "non-first fragment must be continuation")
  else if IsCompressOnSafe c && negb (rsv =? 0)
  then inr (protocol_error "RSV1 must be 0")
  else inl c.

(** Remembers the opcode and RSV bits of the first frame of a message. *)
Definition check_first (c : codec) (op rsv : Z) : codec * option decoded :=
  if negb (currMessageOpCode c =? 255) then (c, None)
  else if IsCompressOnSafe c && negb (rsv =? 4) && negb (rsv =? 0)
  then (c, Some (protocol_error "RSV1 must be 0 or 4"))
  else
    let c' := mkCodec (preMessagePayload c) (currMessagePayload c) (closed c) (flags c)
                      (preMessageOpCode c) (currMessageOpCode c) rsv in
    if op =? OpContinuation
    then (c', Some (protocol_error "unexpected continuation frame: no message to continue"))
    else (mkCodec (preMessagePayload c) (currMessagePayload c) (closed c) (flags c)
                  (preMessageOpCode c) op rsv, None).

Definition decode_round `{Deflate} (c : codec) (g : gnetConn) : round :=
  match peek_err g with
  | Some ErrShortBuffer => Leave short c g
  | Some e => Leave (DErr StatusInternalServerError e) c g
  | None =>
  let peek := inbound g in
  if len peek <? 2 then Leave short c g else
  let fin := negb (Z.land (byte_at peek 0) 128 =? 0) in
  let rsv := Z.shiftr (Z.land (byte_at peek 0) 112) 4 in
  let op := Z.land (byte_at peek 0) 15 in
  if negb (valid_op op) then Leave (protocol_error "unsupported opcode") c g else
  if negb (rsv =? 0) && negb (IsCompressOnSafe c)
  then Leave (protocol_error "RSV1 bits must be 0 without extensions") c g else
  if negb (rsv =? 0) && IsControl op
  then Leave (protocol_error "RSV1 must be 0") c g else
  match check_following c op rsv with
  | inr e => Leave e c g
  | inl c =>
  if Z.land (byte_at peek 1) 128 =? 0
  then Leave (protocol_error "client must mask data") c g else
  let length := Z.land (byte_at peek 1) 127 in
  let extra := if length <? 126 then 4 else if length =? 126 then 6 else 12 in
  if len peek <? 2 + extra then Leave short c g else
  let body := drop 2 peek in
  (* the extended length, and the rest of the buffer from the mask on *)
  let ext :=
    if length =? 126 then Some (be (take 2 body), drop 2 body)
    else if length =? 127 then
      if negb (Z.land (byte_at body 0) 128 =? 0) then None
      else Some (i64 (be (take 8 body)), drop 8 body)
    else Some (length, body) in
  match ext with
  | None => Leave (protocol_error "the most significant bit must be 0") c g
  | Some (hlen, body) =>
  if IsControl op && (125 <? hlen)
  then Leave (protocol_error "control frame too long") c g else
  if len body <? i64 (hlen + 4) then Leave short c g else
  let mask := take 4 body in
  match check_first c op rsv with
  | (c, Some e) => Leave e c g
  | (c, None) =>
  match slice body 4 (i64 (4 + hlen)) with
  | None => Leave DPanic c g
  | Some fragment =>
  let c := with_payload c (payload_append (currMessagePayload c) fragment mask) in
  if discard_err g then Leave (DErr StatusInternalServerError ErrNet) c g else
  let g := with_inbound g (drop (Z.to_nat (i64 (2 + extra + hlen))) peek) in
  if fin then Leave (complete c) c g else Again c g
  end end end end end.

(** The loop; [fuel] rounds at most. *)
Fixpoint decode_fuel `{Deflate} (fuel : nat) (c : codec) (g : gnetConn)
    : option (decoded * codec * gnetConn) :=
  match fuel with
  | O => None
  | S n =>
      match decode_round c g with
      | Leave r c' g' => Some (r, c', g')
      | Again c' g' => decode_fuel n c' g'
      end
  end.

(** Every round that goes on discards at least six bytes, so the length of the
    buffer bounds the rounds (lemma [decode_total] below). *)
Definition decode `{Deflate} (c : codec) (g : gnetConn) : option (decoded * codec * gnetConn) :=
  decode_fuel (S (length (inbound g))) c g.
