(* ===== verification/CodecSpec.v ===== *)
(** Correctness of the frame decoder ([Codec.decode]): it inverts the client
    side of the framing library, it is total, it waits for incomplete frames
    without consuming anything, and the one input class that makes it panic. *)

From S2P Require Export Codec.

(** ** The reference encoder: a masked client frame. *)

Definition client_frame (fin : bool) (rsv op : Z) (mask payload : bytes) : bytes :=
  match WriteHeader (mkHeader fin rsv op true mask (len payload)) with
  | Some h => h ++ Cipher.cipher_spec payload mask 0
  | None => []
  end.

(** ** Bit-level lemmas on the two header bytes, by enumeration. *)

Lemma byte_cases (P : Z -> bool) lo hi x :
  forallb P (seqZ lo (hi - lo)) = true -> lo <= x < hi -> P x = true.
Proof.
  intros H Hx. rewrite forallb_forall in H. apply H.
  apply list_elem_of_In, elem_of_seqZ. lia.
Qed.

Definition b1_ok (n : Z) : bool :=
  (Z.land (Z.lor n 128) 128 =? 128) && (Z.land (Z.lor n 128) 127 =? n) && (Z.land n 128 =? 0).

Lemma len_byte n : 0 <= n < 128 ->
  Z.land (Z.lor n 128) 128 = 128 /\ Z.land (Z.lor n 128) 127 = n /\ Z.land n 128 = 0.
Proof.
  intros Hn. assert (b1_ok n = true) as H by (revert Hn; apply byte_cases; vm_compute; done).
  unfold b1_ok in H. rewrite !andb_true_iff, !Z.eqb_eq in H. tauto.
Qed.

Definition b0_ok (fin : bool) (op rsv : Z) : bool :=
  let b0 := Z.lor (Z.lor (if fin then 128 else 0) (u8 (Z.shiftl rsv 4))) op in
  Bool.eqb (negb (Z.land b0 128 =? 0)) fin
  && (Z.shiftr (Z.land b0 112) 4 =? rsv) && (Z.land b0 15 =? op).

Lemma head_byte (fin : bool) rsv op :
  0 <= rsv < 8 -> valid_op op = true ->
  let b0 := Z.lor (Z.lor (if fin then 128 else 0) (u8 (Z.shiftl rsv 4))) op in
  negb (Z.land b0 128 =? 0) = fin /\ Z.shiftr (Z.land b0 112) 4 = rsv /\ Z.land b0 15 = op.
Proof.
  intros Hrsv Hop b0.
  assert (b0_ok fin op rsv = true) as H.
  { revert Hrsv. apply byte_cases.
    unfold valid_op in Hop. rewrite !orb_true_iff, !Z.eqb_eq in Hop.
    destruct fin; destruct Hop as [[[[[->| ->]| ->]| ->]| ->]| ->]; vm_compute; done. }
  unfold b0_ok in H. rewrite !andb_true_iff, !Z.eqb_eq in H.
  destruct H as [[H1 H2] H3]. apply Bool.eqb_prop in H1. done.
Qed.

Lemma put_be_cons n v : put_be (S n) v = (v / 256 ^ Z.of_nat n) mod 256 :: put_be n v.
Proof.
  revert v; induction n as [|n IH]; intros v.
  { cbn. rewrite Z.div_1_r. done. }
  cbn [put_be]. cbn [put_be] in IH. rewrite IH. cbn [app]. f_equal.
  rewrite Zdiv_Zdiv by (try apply Z.pow_nonneg; lia).
  rewrite Nat2Z.inj_succ, Z.pow_succ_r by lia. done.
Qed.

Lemma cipher_involutive p mask :
  wf_bytes p -> wf_bytes mask -> length mask = 4%nat ->
  Cipher.Cipher (Cipher.cipher_spec p mask 0) mask 0 = p.
Proof.
  intros Hp Hm Hl.
  assert (wf_bytes (Cipher.cipher_spec p mask 0)) as Hwf.
  { unfold wf_bytes. apply Forall_lookup. intros i x Hx.
    unfold Cipher.cipher_spec in Hx. rewrite list_lookup_imap in Hx.
    destruct (p !! i) as [y|] eqn:E; [|done]. cbn in Hx. injection Hx as <-.
    apply Cipher.wf_xor; [by eapply Forall_lookup_1 in E|]. by apply Cipher.wf_mask_at. }
  rewrite Cipher.Cipher_bytewise by done.
  apply list_eq. intros i. unfold Cipher.cipher_spec. rewrite !list_lookup_imap.
  destruct (p !! i) as [y|]; [|done]. cbn [fmap option_fmap option_map]. f_equal.
  by rewrite Z.lxor_assoc, Z.lxor_nilpotent, Z.lxor_0_r.
Qed.

(** ** What the decoder reads from the head of a client frame. *)

Definition payload_fits (payload : bytes) : Prop := len payload < 2 ^ 63 - 4.

Section Frame.
Context (fin : bool) (rsv op : Z) (mask payload rest : bytes).
Hypothesis Hrsv : 0 <= rsv < 8.
Hypothesis Hop : valid_op op = true.
Hypothesis Hmask : wf_bytes mask.
Hypothesis Hmask4 : length mask = 4%nat.
Hypothesis Hpayload : wf_bytes payload.
Hypothesis Hfits : payload_fits payload.

Definition enciphered : bytes := Cipher.cipher_spec payload mask 0.

Lemma len_enciphered : len enciphered = len payload.
Proof. unfold enciphered, len. by rewrite Cipher.length_cipher_spec. Qed.

Definition b0 : Z := Z.lor (Z.lor (if fin then 128 else 0) (u8 (Z.shiftl rsv 4))) op.

(** The length in the second byte, and its extension. *)
Definition length_field (l : Z) (ext : bytes) : Prop :=
  (len payload <= 125 /\ l = len payload /\ ext = []) \/
  (125 < len payload <= 65535 /\ l = 126 /\ ext = put_be 2 (len payload)) \/
  (65535 < len payload /\ l = 127 /\ ext = put_be 8 (len payload)).

(** The three shapes of the wire image. *)
Lemma client_frame_shape :
  exists l ext, client_frame fin rsv op mask payload = b0 :: Z.lor l 128 :: ext ++ mask ++ enciphered /\ length_field l ext.
Proof.
  pose proof (len_nonneg payload). unfold payload_fits, length_field in *.
  unfold client_frame, WriteHeader, len7, len16, len64.
  cbn [Fin Rsv OpCode Masked Mask Length].
  destruct (Z.leb_spec (len payload) 125).
  { exists (len payload), [].
    replace (u8 (len payload)) with (len payload) by (unfold u8; rewrite Z.mod_small; lia).
    split; [done|]. auto. }
  destruct (Z.leb_spec (len payload) 65535).
  { exists 126, (put_be 2 (len payload)).
    replace (u16 (len payload)) with (len payload) by (unfold u16; rewrite Z.mod_small; lia).
    split; [cbn [app]; by rewrite <- !app_assoc|]. right; left. split; [lia|done]. }
  destruct (Z.leb_spec (len payload) (2 ^ 63 - 1)); [|lia].
  exists 127, (put_be 8 (len payload)). rewrite u64_small by lia.
  split; [cbn [app]; by rewrite <- !app_assoc|]. right; right. split; [lia|done].
Qed.

Lemma length_field_l l ext : length_field l ext -> 0 <= l < 128.
Proof. pose proof (len_nonneg payload). unfold length_field, payload_fits in *. lia. Qed.

Lemma length_field_ext l ext : length_field l ext -> len ext + 4 = (if l <? 126 then 4 else if l =? 126 then 6 else 12).
Proof.
  intros [(? & -> & ->)|[(? & -> & ->)|(? & -> & ->)]];
    unfold len in *; rewrite ?length_put_be; cbn [length]; bool_case; try lia; done.
Qed.

(** The decoder reads the length back. *)
Lemma length_field_read l ext tl :
  length_field l ext ->
  (if l =? 126 then Some (be (take 2 (ext ++ tl)), drop 2 (ext ++ tl))
   else if l =? 127
   then if negb (Z.land (byte_at (ext ++ tl) 0) 128 =? 0) then None
        else Some (i64 (be (take 8 (ext ++ tl))), drop 8 (ext ++ tl))
   else Some (l, ext ++ tl)) = Some (len payload, tl).
Proof.
  unfold payload_fits in Hfits. pose proof (len_nonneg payload) as Hnn.
  intros [(? & -> & ->)|[(? & -> & ->)|(? & -> & ->)]].
  - bool_case; try lia. done.
  - cbn [Z.eqb Pos.eqb]. rewrite take_app_length', drop_app_length' by (by rewrite length_put_be).
    rewrite be_put_be, Z.mod_small by (cbn; lia). done.
  - cbn [Z.eqb Pos.eqb]. rewrite take_app_length', drop_app_length' by (by rewrite length_put_be).
    rewrite be_put_be, Z.mod_small, i64_small by (cbn; lia). rewrite put_be_cons. cbn [app byte_at nth].
    destruct (len_byte ((len payload / 256 ^ Z.of_nat 7) mod 256)) as (_ & _ & ->); [|done].
    change (256 ^ Z.of_nat 7) with (2 ^ 56). assert (0 <= len payload / 2 ^ 56 < 128).
    { split; [apply Z.div_pos; lia|]. apply Z.div_lt_upper_bound; lia. }
    rewrite Z.mod_small; lia.
Qed.

Lemma len_mask : len mask = 4.
Proof. unfold len. by rewrite Hmask4. Qed.

(** The payload behind the mask, and what is left behind the frame. *)
Lemma slice_payload : slice (mask ++ enciphered ++ rest) 4 (4 + len payload) = Some enciphered.
Proof.
  pose proof (len_nonneg payload). pose proof (len_nonneg rest). unfold slice. rewrite !len_app, len_enciphered, len_mask.
  bool_case; try lia. cbn [andb]. f_equal. rewrite drop_app_length' by (rewrite Hmask4; done).
  rewrite take_app_length'; [done|]. pose proof len_enciphered. unfold len in *. lia.
Qed.

Lemma drop_frame x y ext : drop (Z.to_nat (2 + (len ext + 4) + len payload)) (x :: y :: ext ++ mask ++ enciphered ++ rest) = rest.
Proof.
  replace (x :: y :: ext ++ mask ++ enciphered ++ rest) with ((x :: y :: ext ++ mask ++ enciphered) ++ rest)
    by (cbn [app]; by rewrite <- !app_assoc).
  rewrite drop_app_length'; [done|]. pose proof len_enciphered. cbn [length]. rewrite !length_app. unfold len in *. lia.
Qed.

(** One round of [decode] on a buffer that starts with the frame. *)
Lemma decode_round_frame `{Deflate} c c1 c2 g :
  inbound g = client_frame fin rsv op mask payload ++ rest ->
  peek_err g = None -> discard_err g = false ->
  (rsv = 0 \/ (IsCompressOnSafe c = true /\ IsControl op = false)) ->
  (IsControl op = true -> len payload <= 125) ->
  check_following c op rsv = inl c1 ->
  check_first c1 op rsv = (c2, None) ->
  len (inbound g) < 2 ^ 63 ->
  decode_round c g =
    let c3 := with_payload c2 (mkPayload (fragments (currMessagePayload c2) ++ [payload])) in
    let g' := with_inbound g rest in
    if fin then Leave (complete c3) c3 g' else Again c3 g'.
Proof.
  intros Hin Hperr Hderr Hrsv0 Hctl Hfol Hfirst Hlen.
  destruct client_frame_shape as (l & ext & Hshape & Hcases).
  destruct (head_byte fin rsv op Hrsv Hop) as (Hfin & Hr & Ho). fold b0 in Hfin, Hr, Ho.
  destruct (len_byte l (length_field_l l ext Hcases)) as (Hb1 & Hb2 & _).
  rewrite Hshape in Hin. cbn [app] in Hin. rewrite <- !app_assoc in Hin.
  unfold decode_round. rewrite Hperr, Hin. cbv zeta.
  assert (len (b0 :: Z.lor l 128 :: ext ++ mask ++ enciphered ++ rest) = 2 + len ext + 4 + len payload + len rest) as Hlenb.
  { rewrite !len_cons, !len_app, len_enciphered, len_mask. lia. }
  pose proof (len_nonneg payload). pose proof (len_nonneg ext). pose proof (len_nonneg rest).
  rewrite Hin, Hlenb in Hlen. rewrite Hlenb.
  destruct (Z.ltb_spec (2 + len ext + 4 + len payload + len rest) 2); [lia|].
  cbn [byte_at nth]. rewrite Hfin, Hr, Ho, Hop, Hb1, Hb2. cbn [negb].
  assert (negb (rsv =? 0) && negb (IsCompressOnSafe c) = false) as ->.
  { destruct Hrsv0 as [-> | [-> _] ]; [done|]. by rewrite andb_false_r. }
  assert (negb (rsv =? 0) && IsControl op = false) as ->.
  { destruct Hrsv0 as [->|[_ ->]]; [done|]. by rewrite andb_false_r. }
  rewrite Hfol, <- (length_field_ext l ext) by done.
  destruct (Z.ltb_spec (2 + len ext + 4 + len payload + len rest) (2 + (len ext + 4))); [lia|].
  change (drop 2 (b0 :: Z.lor l 128 :: ext ++ mask ++ enciphered ++ rest)) with (ext ++ mask ++ enciphered ++ rest).
  rewrite length_field_read by done.
  assert (IsControl op && (125 <? len payload) = false) as ->.
  { destruct (IsControl op) eqn:E; [|done]. specialize (Hctl eq_refl). bool_case; [lia|done]. }
  rewrite !i64_small by lia. rewrite !len_app, len_enciphered, len_mask.
  destruct (Z.ltb_spec (4 + (len payload + len rest)) (len payload + 4)); [lia|].
  rewrite take_app_length' by done. rewrite Hfirst, slice_payload. unfold payload_append.
  replace (Cipher.Cipher enciphered mask 0) with payload by (symmetry; by apply cipher_involutive).
  by rewrite Hderr, drop_frame.
Qed.
End Frame.

(** ** A round on a buffer and on the same buffer followed by more bytes. *)

Lemma i64_range z : - 2 ^ 63 <= i64 z < 2 ^ 63.
Proof. unfold i64. pose proof (Z.mod_pos_bound (z + 2 ^ 63) (2 ^ 64)). lia. Qed.

Lemma i64_add_le z e : 0 <= e -> i64 (z + e) <= i64 z + e.
Proof.
  intros He. unfold i64.
  replace (z + e + 2 ^ 63) with (z + 2 ^ 63 + e) by lia.
  rewrite <- (Z.add_mod_idemp_l (z + 2 ^ 63)) by lia.
  pose proof (Z.mod_pos_bound (z + 2 ^ 63) (2 ^ 64)).
  pose proof (Z.mod_le ((z + 2 ^ 63) mod 2 ^ 64 + e) (2 ^ 64)). lia.
Qed.

Lemma byte_at_app l k i : (i < length l)%nat -> byte_at (l ++ k) i = byte_at l i.
Proof. intros Hi. unfold byte_at. by rewrite app_nth1. Qed.

Lemma slice_app l k lo hi : hi <= len l -> slice (l ++ k) lo hi = slice l lo hi.
Proof.
  intros Hhi. unfold slice. rewrite len_app. pose proof (len_nonneg k).
  destruct (Z.leb_spec 0 lo); [|done]. destruct (Z.leb_spec lo hi); [|done].
  cbn [andb]. bool_case; try lia. f_equal. unfold len in *.
  rewrite drop_app_le, take_app_le by (rewrite ?length_drop; lia). done.
Qed.

Definition more (g : gnetConn) (b : bytes) : gnetConn := with_inbound g (inbound g ++ b).

Definition round_more (r : round) (b : bytes) : round :=
  match r with
  | Leave d c g => Leave d c (more g b)
  | Again c g => Again c (more g b)
  end.

(** The decoder's first checks, which look at the two header bytes only. *)
Definition head_checks (c : codec) (x0 x1 : Z) : codec * option decoded :=
  let rsv := Z.shiftr (Z.land x0 112) 4 in
  let op := Z.land x0 15 in
  if negb (valid_op op) then (c, Some (protocol_error "unsupported opcode")) else
  if negb (rsv =? 0) && negb (IsCompressOnSafe c)
  then (c, Some (protocol_error "RSV1 bits must be 0 without extensions")) else
  if negb (rsv =? 0) && IsControl op then (c, Some (protocol_error "RSV1 must be 0")) else
  match check_following c op rsv with
  | inr e => (c, Some e)
  | inl c1 => if Z.land x1 128 =? 0
              then (c1, Some (protocol_error "client must mask data")) else (c1, None)
  end.

Definition header_extra (length : Z) : Z :=
  if length <? 126 then 4 else if length =? 126 then 6 else 12.

(** The extended length and the buffer from the mask on. *)
Definition read_length (length : Z) (body : bytes) : option (Z * bytes) :=
  if length =? 126 then Some (be (take 2 body), drop 2 body)
  else if length =? 127 then
    if negb (Z.land (byte_at body 0) 128 =? 0) then None
    else Some (i64 (be (take 8 body)), drop 8 body)
  else Some (length, body).

Lemma read_length_app length body k :
  header_extra length <= len body ->
  read_length length (body ++ k) =
    (fun x => (x.1, x.2 ++ k)) <$> read_length length body.
Proof.
  unfold header_extra, read_length, len. intros Hl.
  destruct (Z.eqb_spec length 126) as [->|].
  { cbn in Hl. by rewrite take_app_le, drop_app_le by lia. }
  destruct (Z.eqb_spec length 127) as [->|]; [|done]. cbn in Hl.
  rewrite byte_at_app by lia. destruct (negb _); [done|].
  by rewrite take_app_le, drop_app_le by lia.
Qed.

(** [decode_round] in terms of the two. *)
Lemma decode_round_eq `{Deflate} c g :
  decode_round c g =
  match peek_err g with
  | Some ErrShortBuffer => Leave short c g
  | Some e => Leave (DErr StatusInternalServerError e) c g
  | None =>
  let peek := inbound g in
  if len peek <? 2 then Leave short c g else
  let op := Z.land (byte_at peek 0) 15 in
  let rsv := Z.shiftr (Z.land (byte_at peek 0) 112) 4 in
  match head_checks c (byte_at peek 0) (byte_at peek 1) with
  | (c1, Some e) => Leave e c1 g
  | (c1, None) =>
  let length := Z.land (byte_at peek 1) 127 in
  if len peek <? 2 + header_extra length then Leave short c1 g else
  match read_length length (drop 2 peek) with
  | None => Leave (protocol_error "the most significant bit must be 0") c1 g
  | Some (hlen, body) =>
  if IsControl op && (125 <? hlen)
  then Leave (protocol_error "control frame too long") c1 g else
  if len body <? i64 (hlen + 4) then Leave short c1 g else
  match check_first c1 op rsv with
  | (c2, Some e) => Leave e c2 g
  | (c2, None) =>
  match slice body 4 (i64 (4 + hlen)) with
  | None => Leave DPanic c2 g
  | Some fragment =>
  let c3 := with_payload c2 (payload_append (currMessagePayload c2) fragment (take 4 body)) in
  if discard_err g then Leave (DErr StatusInternalServerError ErrNet) c3 g else
  let g' := with_inbound g (drop (Z.to_nat (i64 (2 + header_extra length + hlen))) peek) in
  if negb (Z.land (byte_at peek 0) 128 =? 0) then Leave (complete c3) c3 g' else Again c3 g'
  end end end end end.
Proof.
  unfold decode_round. destruct (peek_err g) as [[]|]; [done..|].
  cbv zeta. destruct (len (inbound g) <? 2); [done|].
  unfold head_checks.
  set (rsv := Z.shiftr (Z.land (byte_at (inbound g) 0) 112) 4).
  set (op := Z.land (byte_at (inbound g) 0) 15).
  destruct (negb (valid_op op)); [done|].
  destruct (negb (rsv =? 0) && negb (IsCompressOnSafe c)); [done|].
  destruct (negb (rsv =? 0) && IsControl op); [done|].
  destruct (check_following c op rsv) as [c1|e]; [|done].
  destruct (Z.land (byte_at (inbound g) 1) 128 =? 0); done.
Qed.

Lemma read_length_body length body hlen rest :
  length <= 127 -> header_extra length <= len body ->
  read_length length body = Some (hlen, rest) ->
  len rest = len body - (header_extra length - 4).
Proof.
  intros H127. unfold read_length, header_extra, len.
  destruct (Z.eqb_spec length 126) as [->|].
  { cbn [Z.ltb Z.compare Pos.compare Pos.compare_cont]. intros Hl [= <- <-].
    rewrite length_drop. lia. }
  destruct (Z.eqb_spec length 127) as [->|].
  { cbn [Z.ltb Z.compare Pos.compare Pos.compare_cont]. intros Hl.
    destruct (negb _); [done|]. intros [= <- <-]. rewrite length_drop. lia. }
  intros Hl [= <- <-]. revert Hl. bool_case; lia.
Qed.

Lemma land_127 x : Z.land x 127 <= 127.
Proof.
  change 127 with (Z.ones 7). rewrite Z.land_ones by lia.
  pose proof (Z.mod_pos_bound x (2 ^ 7)). change (Z.ones 7) with 127. lia.
Qed.

Lemma header_extra_bounds length : 4 <= header_extra length <= 12.
Proof. unfold header_extra. bool_case; lia. Qed.

Lemma slice_bounds l lo hi x : slice l lo hi = Some x -> 0 <= lo <= hi /\ hi <= len l.
Proof. unfold slice. bool_case; cbn; intros; try done; lia. Qed.

(** More bytes do not change a round that did not wait for them. *)
Lemma decode_round_more `{Deflate} c g b :
  (forall c' g', decode_round c g <> Leave short c' g') ->
  decode_round c (more g b) = round_more (decode_round c g) b.
Proof.
  rewrite !decode_round_eq. unfold more. cbn [peek_err inbound discard_err with_inbound].
  destruct (peek_err g) as [[]|]; [naive_solver..|]. cbv zeta.
  set (peek := inbound g). rewrite len_app. pose proof (len_nonneg b) as Hb.
  destruct (Z.ltb_spec (len peek) 2) as [H2|H2]; [naive_solver|].
  destruct (Z.ltb_spec (len peek + len b) 2); [lia|].
  assert (byte_at (peek ++ b) 0 = byte_at peek 0 /\ byte_at (peek ++ b) 1 = byte_at peek 1)
    as [-> ->] by (split; apply byte_at_app; unfold len in H2; lia).
  destruct (head_checks c _ _) as [c1 [e|]]; [done|].
  set (length := Z.land (byte_at peek 1) 127).
  pose proof (header_extra_bounds length) as Hex.
  destruct (Z.ltb_spec (len peek) (2 + header_extra length)); [naive_solver|].
  destruct (Z.ltb_spec (len peek + len b) (2 + header_extra length)); [lia|].
  assert (len (drop 2 peek) = len peek - 2) as Hd by (unfold len; rewrite length_drop; unfold len in H2; lia).
  rewrite drop_app_le by (unfold len in H2; lia).
  rewrite read_length_app by lia.
  destruct (read_length length (drop 2 peek)) as [[hlen body]|] eqn:Hrl; [|done].
  apply read_length_body in Hrl; [|apply land_127|lia]. cbn [fmap option_fmap option_map fst snd].
  destruct (IsControl _ && _); [done|].
  rewrite len_app.
  destruct (Z.ltb_spec (len body) (i64 (hlen + 4))); [naive_solver|].
  destruct (Z.ltb_spec (len body + len b) (i64 (hlen + 4))); [lia|].
  destruct (check_first c1 _ _) as [c2 [e|]]; [done|].
  rewrite (Z.add_comm 4 hlen), slice_app by lia.
  destruct (slice body 4 (i64 (hlen + 4))) as [fragment|] eqn:Hs; [|done].
  apply slice_bounds in Hs.
  rewrite take_app_le by (unfold len in *; lia).
  intros _. destruct (discard_err g); [done|].
  rewrite drop_app_le.
  { by destruct (negb _). }
  pose proof (i64_add_le (hlen + 4) (2 + header_extra length - 4)) as Hle.
  replace (hlen + 4 + (2 + header_extra length - 4)) with (2 + header_extra length + hlen) in Hle by lia.
  unfold len in *. lia.
Qed.

(** Only the two length tests wait for more bytes. *)
Lemma check_following_not_short c op rsv e : check_following c op rsv = inr e -> e <> short.
Proof. unfold check_following. repeat case_match; intros; by simplify_eq. Qed.

Lemma check_first_not_short c op rsv c' e : check_first c op rsv = (c', Some e) -> e <> short.
Proof. unfold check_first. repeat case_match; intros; by simplify_eq. Qed.

Lemma head_checks_not_short c x0 x1 c' e : head_checks c x0 x1 = (c', Some e) -> e <> short.
Proof.
  unfold head_checks. set (rsv := Z.shiftr _ _). set (op := Z.land x0 15).
  destruct (negb (valid_op op)); [intros; by simplify_eq|].
  destruct (negb (rsv =? 0) && negb (IsCompressOnSafe c)); [intros; by simplify_eq|].
  destruct (negb (rsv =? 0) && IsControl op); [intros; by simplify_eq|].
  destruct (check_following c op rsv) as [c1|e'] eqn:E.
  - destruct (Z.land x1 128 =? 0); intros; by simplify_eq.
  - intros [= <- <-]. by eapply check_following_not_short.
Qed.

Lemma complete_not_short `{Deflate} c : complete c <> short.
Proof. unfold complete. repeat case_match; done. Qed.

(** A round that waits leaves the buffer as it is, and a later round with more
    bytes ends as if they had been there from the start. *)
Lemma decode_round_resume `{Deflate} c g c' g' b :
  decode_round c g = Leave short c' g' ->
  g' = g /\ decode_round c' (more g b) = decode_round c (more g b).
Proof.
  intros Hr.
  assert (forall x0 x1 c1, head_checks c x0 x1 = (c1, None) ->
            c1 = c \/ (head_checks c1 x0 x1 = (c1, None))) as Hhc.
  { unfold head_checks. intros x0 x1 c1. set (rsv := Z.shiftr _ _). set (op := Z.land x0 15).
    destruct (negb (valid_op op)) eqn:E1; [done|].
    destruct (negb (rsv =? 0) && negb (IsCompressOnSafe c)) eqn:E2; [done|].
    destruct (negb (rsv =? 0) && IsControl op) eqn:E3; [done|].
    destruct (check_following c op rsv) as [c2|] eqn:Hf; [|done].
    destruct (Z.land x1 128 =? 0); [done|]. intros [= <-].
    unfold check_following in Hf.
    destruct (currMessageOpCode c =? 255); [simplify_eq; by left|].
    destruct (IsControl (currMessageOpCode c)); [done|].
    destruct (IsControl op).
    { simplify_eq. right. change (IsCompressOnSafe (set_aside c)) with (IsCompressOnSafe c).
      by rewrite E2. }
    left. destruct (negb (op =? OpContinuation)); [done|].
    destruct (IsCompressOnSafe c && negb (rsv =? 0)); by simplify_eq. }
  assert (forall c1, decode_round c g = Leave short c1 g ->
           (c1 = c \/ (peek_err g = None /\ 2 <= len (inbound g)
            /\ head_checks c (byte_at (inbound g) 0) (byte_at (inbound g) 1) = (c1, None)))
           -> decode_round c1 (more g b) = decode_round c (more g b)) as Hmain.
  { intros c1 _ [->|(Hp & H2 & Hh)]; [done|].
    destruct (Hhc _ _ _ Hh) as [->|Hh1]; [done|].
    rewrite !decode_round_eq. unfold more. cbn [peek_err inbound discard_err with_inbound].
    rewrite Hp. cbv zeta. rewrite !byte_at_app by (unfold len in H2; lia).
    rewrite Hh, Hh1, len_app. pose proof (len_nonneg b).
    destruct (Z.ltb_spec (len (inbound g) + len b) 2); [lia|done]. }
  assert (g' = g /\ (c' = c \/ (peek_err g = None /\ 2 <= len (inbound g)
            /\ head_checks c (byte_at (inbound g) 0) (byte_at (inbound g) 1) = (c', None))))
    as [-> Hc]; [|auto].
  revert Hr. rewrite decode_round_eq. cbv zeta.
  destruct (peek_err g) as [[]|]; [naive_solver..|].
  destruct (Z.ltb_spec (len (inbound g)) 2); [naive_solver|].
  destruct (head_checks c _ _) as [c1 [e|]] eqn:Hh.
  { intros [= -> <- <-]. by apply head_checks_not_short in Hh. }
  destruct (len (inbound g) <? 2 + _); [naive_solver|].
  destruct (read_length _ _) as [[hlen body]|]; [|done].
  destruct (IsControl _ && _); [done|].
  destruct (len body <? _); [naive_solver|].
  destruct (check_first c1 _ _) as [c2 [e|]] eqn:Hf.
  { intros [= -> <- <-]. by apply check_first_not_short in Hf. }
  destruct (slice _ _ _); [|done]. destruct (discard_err g); [done|].
  destruct (negb _); [|done]. intros [= Hx _ _]. by apply complete_not_short in Hx.
Qed.

(** ** The loop. *)

(** The inbound buffer holds bytes and fits the address space. *)
Definition wf_inbound (g : gnetConn) : Prop := wf_bytes (inbound g) /\ len (inbound g) < 2 ^ 63.

Lemma wf_drop n l : wf_bytes l -> wf_bytes (drop n l).
Proof. apply Forall_drop. Qed.

Lemma wf_take n l : wf_bytes l -> wf_bytes (take n l).
Proof. apply Forall_take. Qed.
#[export] Hint Resolve wf_drop wf_take : netsvr.

Lemma wf_byte_at l i : wf_bytes l -> is_byte (byte_at l i).
Proof.
  intros Hl. unfold byte_at. destruct (nth_in_or_default i l 0) as [Hin| ->].
  - apply list_elem_of_In in Hin. revert Hin. by apply Forall_forall.
  - unfold is_byte. lia.
Qed.

Lemma read_length_range length body hlen rest :
  0 <= length <= 127 -> wf_bytes body -> 8 <= len body \/ length <> 127 ->
  read_length length body = Some (hlen, rest) -> 0 <= hlen < 2 ^ 63.
Proof.
  intros Hl Hwf H8. unfold read_length.
  pose proof (be_bound (take 2 body) (wf_take _ _ Hwf)) as B2.
  pose proof (be_bound (take 8 body) (wf_take _ _ Hwf)) as B8.
  destruct (length =? 126).
  { intros [= <- <-]. split; [lia|]. destruct B2 as [_ B2].
    eapply Z.lt_le_trans; [exact B2|]. apply (Z.le_trans _ (256 ^ 2)); [|lia].
    apply Z.pow_le_mono_r; [lia|]. unfold len. rewrite length_take. lia. }
  destruct (Z.eqb_spec length 127) as [->|]; [|intros [= <- <-]; lia].
  destruct (Z.eqb_spec (Z.land (byte_at body 0) 128) 0) as [Hmsb|]; [|done].
  intros [= <- <-]. destruct H8 as [H8|]; [|done].
  assert (be (take 8 body) < 2 ^ 63) as Hlt; [|rewrite i64_small; lia].
  destruct body as [|x body]; [unfold len in H8; cbn in H8; lia|].
  cbn [byte_at nth] in Hmsb. inversion Hwf as [|? ? Hx Hwf']; subst. unfold is_byte in Hx.
  assert (x < 128) as Hx'.
  { destruct (Z.ltb_spec x 128); [done|]. exfalso.
    assert (negb (Z.land x 128 =? 0) = true) as Hbad.
    { apply (byte_cases (fun x => negb (Z.land x 128 =? 0)) 128 256); [vm_compute; done|lia]. }
    rewrite Hmsb in Hbad. done. }
  cbn [take]. pose proof (be_bound (take 7 body) (wf_take _ _ Hwf')) as B7.
  assert (forall l a, foldl (fun acc b => acc * 256 + b) a l = a * 256 ^ len l + be l) as Hf.
  { intros l; induction l as [|y l IH] using rev_ind; intros a.
    { change (len (@nil Z)) with 0. cbn. lia. }
    rewrite foldl_app, be_snoc, len_app. cbn [foldl]. rewrite IH.
    rewrite Z.pow_add_r by (apply len_nonneg || (unfold len; lia)).
    change (len [y]) with 1. lia. }
  unfold be. cbn [foldl]. rewrite Hf.
  assert (len (take 7 body) = 7) as E7.
  { unfold len in *. cbn in H8. rewrite length_take. lia. }
  rewrite E7 in *. lia.
Qed.

(** What a call leaves in the buffer is a suffix of it. *)
Definition round_rest (r : round) : gnetConn :=
  match r with Leave _ _ g | Again _ g => g end.

Lemma decode_round_suffix `{Deflate} c g :
  exists x, inbound g = x ++ inbound (round_rest (decode_round c g)).
Proof.
  assert (forall n, exists x, inbound g = x ++ drop n (inbound g)) as Hdrop
    by (intros n; exists (take n (inbound g)); by rewrite take_drop).
  pose proof (Hdrop 0%nat) as H0. rewrite drop_0 in H0.
  rewrite decode_round_eq. cbv zeta. repeat case_match; cbn [round_rest inbound with_inbound]; auto.
Qed.

Lemma decode_fuel_suffix `{Deflate} n c g d c' g' :
  decode_fuel n c g = Some (d, c', g') -> exists x, inbound g = x ++ inbound g'.
Proof.
  revert c g; induction n as [|n IH]; intros c g Hd; [done|]. cbn [decode_fuel] in Hd.
  pose proof (decode_round_suffix c g) as Hs.
  destruct (decode_round c g) as [r c1 g1|c1 g1]; cbn [round_rest] in Hs.
  - by simplify_eq.
  - destruct (IH _ _ Hd) as [y Hy]. destruct Hs as [x Hx].
    exists (x ++ y). by rewrite Hx, Hy, app_assoc.
Qed.

(** Where the panics of a round do not come from. *)
Lemma check_following_no_panic c op rsv e : check_following c op rsv = inr e -> e <> DPanic.
Proof. unfold check_following. repeat case_match; intros; by simplify_eq. Qed.

Lemma check_first_no_panic c op rsv c' e : check_first c op rsv = (c', Some e) -> e <> DPanic.
Proof. unfold check_first. repeat case_match; intros; by simplify_eq. Qed.

Lemma head_checks_no_panic c x0 x1 c' e : head_checks c x0 x1 = (c', Some e) -> e <> DPanic.
Proof.
  unfold head_checks. set (rsv := Z.shiftr _ _). set (op := Z.land x0 15).
  destruct (negb (valid_op op)); [intros; by simplify_eq|].
  destruct (negb (rsv =? 0) && negb (IsCompressOnSafe c)); [intros; by simplify_eq|].
  destruct (negb (rsv =? 0) && IsControl op); [intros; by simplify_eq|].
  destruct (check_following c op rsv) as [c1|e'] eqn:E.
  - destruct (Z.land x1 128 =? 0); intros; by simplify_eq.
  - intros [= <- <-]. by eapply check_following_no_panic.
Qed.

Lemma complete_no_panic `{Deflate} c : complete c <> DPanic.
Proof. unfold complete. repeat case_match; done. Qed.

(** Only an 8-byte length reaches the top of the signed range. *)
Lemma read_length_big length body hlen rest :
  length <= 127 -> wf_bytes body -> 2 ^ 62 <= hlen < 2 ^ 63 ->
  read_length length body = Some (hlen, rest) ->
  length = 127 /\ be (take 8 body) = hlen.
Proof.
  intros Hl Hwf Hbig. unfold read_length.
  pose proof (be_bound (take 2 body) (wf_take _ _ Hwf)) as B2.
  pose proof (be_bound (take 8 body) (wf_take _ _ Hwf)) as B8.
  destruct (length =? 126).
  { intros [= <- <-]. exfalso.
    assert (256 ^ len (take 2 body) <= 256 ^ 2)
      by (apply Z.pow_le_mono_r; [lia|]; unfold len; rewrite length_take; lia). lia. }
  destruct (Z.eqb_spec length 127) as [->|]; [|intros [= <- <-]; lia].
  destruct (negb _); [done|]. intros [= Hi <-]. split; [done|].
  assert (256 ^ len (take 8 body) <= 2 ^ 64).
  { change (2 ^ 64) with (256 ^ 8). apply Z.pow_le_mono_r; [lia|].
    unfold len; rewrite length_take; lia. }
  unfold i64 in Hi. destruct (Z.ltb_spec (be (take 8 body)) (2 ^ 63)).
  - rewrite Z.mod_small in Hi; lia.
  - exfalso. replace (be (take 8 body) + 2 ^ 63) with (be (take 8 body) - 2 ^ 63 + 1 * 2 ^ 64) in Hi by lia.
    rewrite Z.mod_add, Z.mod_small in Hi by lia. lia.
Qed.

(** The head checks, when they pass or fail. *)
Lemma check_first_no_msg c op rsv c' e m : check_first c op rsv = (c', Some e) -> e <> DMsg m.
Proof. unfold check_first. repeat case_match; intros; by simplify_eq. Qed.

Lemma check_following_no_msg c op rsv e m : check_following c op rsv = inr e -> e <> DMsg m.
Proof. unfold check_following. repeat case_match; intros; by simplify_eq. Qed.

Lemma head_checks_ok c x0 x1 c1 :
  head_checks c x0 x1 = (c1, None) ->
  let op := Z.land x0 15 in
  let rsv := Z.shiftr (Z.land x0 112) 4 in
  valid_op op = true /\ Z.land x1 128 <> 0 /\
  (rsv <> 0 -> IsCompressOnSafe c = true /\ IsControl op = false) /\
  check_following c op rsv = inl c1.
Proof.
  unfold head_checks. set (rsv := Z.shiftr _ _). set (op := Z.land x0 15).
  destruct (valid_op op); [|done]. cbn [negb].
  destruct (Z.eqb_spec rsv 0), (IsCompressOnSafe c), (IsControl op); cbn [negb andb]; try done;
    destruct (check_following c op rsv); try done;
    destruct (Z.eqb_spec (Z.land x1 128) 0); try done; intros [= <-]; done.
Qed.

Lemma head_checks_no_msg c x0 x1 c' e m : head_checks c x0 x1 = (c', Some e) -> e <> DMsg m.
Proof.
  unfold head_checks. set (rsv := Z.shiftr _ _). set (op := Z.land x0 15).
  destruct (negb (valid_op op)); [intros; by simplify_eq|].
  destruct (negb (rsv =? 0) && negb (IsCompressOnSafe c)); [intros; by simplify_eq|].
  destruct (negb (rsv =? 0) && IsControl op); [intros; by simplify_eq|].
  destruct (check_following c op rsv) as [c1|e'] eqn:E.
  - destruct (Z.land x1 128 =? 0); intros; by simplify_eq.
  - intros [= <- <-]. by eapply check_following_no_msg.
Qed.

(** Data frames: a continuation exactly inside a message. *)
Lemma follow_first_ok c op rsv c1 c2 :
  check_following c op rsv = inl c1 -> check_first c1 op rsv = (c2, None) ->
  IsControl op = false -> op = OpContinuation <-> currMessageOpCode c <> 255.
Proof.
  unfold check_following, check_first. intros Hf Hc Hop. rewrite Hop in Hf.
  destruct (Z.eqb_spec (currMessageOpCode c) 255) as [E|E].
  - injection Hf as <-. rewrite E in Hc. cbn [Z.eqb Pos.eqb negb] in Hc.
    destruct (Z.eqb_spec op OpContinuation); [|done].
    by destruct (IsCompressOnSafe c && _ && _).
  - destruct (IsControl (currMessageOpCode c)); [done|].
    destruct (Z.eqb_spec op OpContinuation); [done|]. done.
Qed.

(** A round that took a frame out of the buffer. *)
Definition consumed (g : gnetConn) (r : round) : Prop :=
  match r with
  | Again _ _ => True
  | Leave (DMsg _) _ _ => True
  | _ => False
  end.

(** A round that takes a frame consumes bytes. *)
Lemma decode_round_takes `{Deflate} c g :
  wf_inbound g -> consumed g (decode_round c g) ->
  wf_inbound (round_rest (decode_round c g)) /\
  (length (inbound (round_rest (decode_round c g))) < length (inbound g))%nat.
Proof.
  intros [Hwf Hlen]. rewrite decode_round_eq. cbv zeta.
  destruct (peek_err g) as [[]|]; [done..|].
  destruct (len (inbound g) <? 2); [done|].
  destruct (head_checks c _ _) as [c1 [e|]] eqn:Hchk.
  { intros Hc. exfalso. destruct e; try done. by eapply head_checks_no_msg. }
  set (l := Z.land (byte_at (inbound g) 1) 127).
  pose proof (header_extra_bounds l) as Hex.
  destruct (Z.ltb_spec (len (inbound g)) (2 + header_extra l)) as [|Hge]; [done|].
  assert (len (drop 2 (inbound g)) = len (inbound g) - 2) as Hd
    by (unfold len in *; rewrite length_drop; lia).
  destruct (read_length l (drop 2 (inbound g))) as [[hlen body]|] eqn:Hrl; [|done].
  pose proof (land_127 (byte_at (inbound g) 1)) as Hl. fold l in Hl.
  assert (0 <= hlen < 2 ^ 63) as Hh.
  { eapply read_length_range in Hrl; [done| |auto with netsvr|].
    - split; [|done]. apply Z.land_nonneg. by right.
    - destruct (Z.eqb_spec l 127) as [E|]; [left|by right].
      rewrite Hd. unfold header_extra in Hge. rewrite E in Hge. cbn in Hge. lia. }
  apply read_length_body in Hrl; [|done|lia].
  destruct (IsControl _ && _); [done|].
  destruct (len body <? i64 (hlen + 4)); [done|].
  destruct (check_first c1 _ _) as [c2 [e|]] eqn:Hf.
  { intros Hc. exfalso. destruct e; try done. by eapply check_first_no_msg. }
  destruct (slice body 4 (i64 (4 + hlen))) as [fragment|] eqn:Hs; [|done].
  apply slice_bounds in Hs.
  destruct (discard_err g); [done|]. intros _.
  assert (forall c3 (b : bool), round_rest (if b then Leave (complete c3) c3 (with_inbound g (drop (Z.to_nat (i64 (2 + header_extra l + hlen))) (inbound g)))
            else Again c3 (with_inbound g (drop (Z.to_nat (i64 (2 + header_extra l + hlen))) (inbound g)))) =
          with_inbound g (drop (Z.to_nat (i64 (2 + header_extra l + hlen))) (inbound g))) as E by (by intros c3 []).
  rewrite E. clear E. unfold wf_inbound. cbn [inbound with_inbound].
  assert (0 < i64 (2 + header_extra l + hlen)) as Hpos.
  { assert (4 + hlen < 2 ^ 63) as Hsmall.
    { destruct (Z.ltb_spec (4 + hlen) (2 ^ 63)); [done|]. exfalso. unfold i64 in Hs.
      replace (4 + hlen + 2 ^ 63) with (4 + hlen - 2 ^ 63 + 1 * 2 ^ 64) in Hs by lia.
      rewrite Z.mod_add, Z.mod_small in Hs by lia. lia. }
    rewrite i64_small in Hs by lia. rewrite i64_small; lia. }
  split; [split; [auto with netsvr|]|].
  - unfold len in *. rewrite length_drop. lia.
  - rewrite length_drop. unfold len in *. lia.
Qed.

(** A round that goes on consumes bytes. *)
Lemma decode_round_again `{Deflate} c g c' g' :
  wf_inbound g -> decode_round c g = Again c' g' ->
  wf_inbound g' /\ (length (inbound g') < length (inbound g))%nat.
Proof. intros Hg E. pose proof (decode_round_takes c g Hg) as Ht. rewrite E in Ht. by apply Ht. Qed.

(** The one way to the panic of a round. *)
Lemma decode_round_overflow `{Deflate} c g c' g' :
  wf_inbound g -> decode_round c g = Leave DPanic c' g' ->
  Z.land (byte_at (inbound g) 1) 127 = 127 /\
  2 ^ 63 - 4 <= be (take 8 (drop 2 (inbound g))) < 2 ^ 63.
Proof.
  intros [Hwf Hlen]. rewrite decode_round_eq. cbv zeta.
  destruct (peek_err g) as [[]|]; [done..|].
  destruct (len (inbound g) <? 2); [done|].
  destruct (head_checks c _ _) as [c1 [e|]] eqn:Hh.
  { intros [= -> _ _]. by apply head_checks_no_panic in Hh. }
  set (l := Z.land (byte_at (inbound g) 1) 127).
  pose proof (header_extra_bounds l) as Hex.
  destruct (Z.ltb_spec (len (inbound g)) (2 + header_extra l)) as [|Hge]; [done|].
  assert (len (drop 2 (inbound g)) = len (inbound g) - 2) as Hd
    by (unfold len in *; rewrite length_drop; lia).
  destruct (read_length l (drop 2 (inbound g))) as [[hlen body]|] eqn:Hrl; [|done].
  pose proof (land_127 (byte_at (inbound g) 1)) as Hl. fold l in Hl.
  assert (0 <= hlen < 2 ^ 63) as Hh1.
  { eapply read_length_range in Hrl; [done| |auto with netsvr|].
    - split; [|done]. apply Z.land_nonneg. by right.
    - destruct (Z.eqb_spec l 127) as [E|]; [left|by right].
      rewrite Hd. unfold header_extra in Hge. rewrite E in Hge. cbn in Hge. lia. }
  destruct (IsControl _ && _); [done|].
  destruct (Z.ltb_spec (len body) (i64 (hlen + 4))) as [|Hbody]; [done|].
  destruct (check_first c1 _ _) as [c2 [e|]] eqn:Hf.
  { intros [= -> _ _]. by apply check_first_no_panic in Hf. }
  destruct (slice body 4 (i64 (4 + hlen))) as [fragment|] eqn:Hs.
  { repeat case_match; try done. intros [= Hx _ _]. by apply complete_no_panic in Hx. }
  intros _.
  assert (2 ^ 63 - 4 <= hlen) as Hbig.
  { destruct (Z.leb_spec (2 ^ 63 - 4) hlen); [done|]. exfalso.
    rewrite i64_small in Hbody, Hs by lia. unfold slice in Hs.
    revert Hs. bool_case; try done; lia. }
  eapply read_length_big in Hrl; [|done|auto with netsvr|lia].
  destruct Hrl as [-> ->]. split; [done|]. lia.
Qed.

Section Loop.
Context `{Deflate}.

Lemma decode_fuel_mono n m c g r :
  decode_fuel n c g = Some r -> (n <= m)%nat -> decode_fuel m c g = Some r.
Proof.
  revert m c g; induction n as [|n IH]; intros m c g Hr Hm; [done|].
  destruct m as [|m]; [lia|]. cbn in *.
  destruct (decode_round c g); [done|]. apply IH; [done|lia].
Qed.

Lemma decode_fuel_total n c g :
  wf_inbound g -> (length (inbound g) < n)%nat -> is_Some (decode_fuel n c g).
Proof.
  revert c g; induction n as [|n IH]; intros c g Hwf Hn; [lia|]. cbn.
  destruct (decode_round c g) as [r c' g'|c' g'] eqn:E; [eauto|].
  apply decode_round_again in E as [Hwf' Hlt]; [|done]. apply IH; [done|lia].
Qed.

Lemma decode_is_Some c g : wf_inbound g -> is_Some (decode c g).
Proof. intros Hwf. apply decode_fuel_total; [done|lia]. Qed.

(** Whatever fuel answers, [decode] answers the same. *)
Lemma decode_unique n c g r : wf_inbound g -> decode_fuel n c g = Some r -> decode c g = Some r.
Proof.
  intros Hwf Hr. destruct (decode_is_Some c g Hwf) as [r' Hr']. rewrite Hr'. f_equal.
  unfold decode in Hr'.
  apply (decode_fuel_mono _ (n + S (length (inbound g)))) in Hr, Hr'; [|lia..].
  congruence.
Qed.

(** More bytes: a decode that waited, continued. *)
Lemma decode_fuel_resume n m c g c' g' b r :
  decode_fuel n c g = Some (short, c', g') ->
  decode_fuel m c' (more g' b) = Some r ->
  decode_fuel (n + m) c (more g b) = Some r.
Proof.
  revert c g; induction n as [|n IH]; intros c g Hn Hm; [done|]. cbn [decode_fuel] in Hn.
  destruct (decode_round c g) as [r' c1 g1|c1 g1] eqn:E.
  - injection Hn as -> -> ->. apply (decode_round_resume _ _ _ _ b) in E as [-> E].
    apply (decode_fuel_mono m); [|lia].
    destruct m as [|m]; [done|]. cbn [decode_fuel] in *. by rewrite <- E.
  - cbn [Nat.add decode_fuel]. rewrite decode_round_more, E by (rewrite E; done).
    cbn. by apply IH.
Qed.

(** More bytes: a decode that did not wait is not changed. *)
Lemma decode_fuel_more n c g d c' g' b :
  decode_fuel n c g = Some (d, c', g') -> d <> short ->
  decode_fuel n c (more g b) = Some (d, c', more g' b).
Proof.
  revert c g; induction n as [|n IH]; intros c g Hn Hd; [done|]. cbn [decode_fuel] in *.
  destruct (decode_round c g) as [r' c1 g1|c1 g1] eqn:E;
    rewrite decode_round_more, E by (rewrite E; intros; congruence); cbn.
  - by simplify_eq.
  - by apply IH.
Qed.
End Loop.

(** ** The encoder of a whole message, in fragments. *)

Fixpoint cont_frames (frags : list (bytes * bytes)) : bytes :=
  match frags with
  | [] => []
  | (m, p) :: r =>
      client_frame (match r with [] => true | _ => false end) 0 OpContinuation m p ++ cont_frames r
  end.

Definition message_frames (op rsv : Z) (frag : bytes * bytes) (frags : list (bytes * bytes)) : bytes :=
  client_frame (match frags with [] => true | _ => false end) rsv op frag.1 frag.2
  ++ cont_frames frags.

Definition wf_frag (x : bytes * bytes) : Prop :=
  wf_bytes x.1 /\ length x.1 = 4%nat /\ wf_bytes x.2 /\ payload_fits x.2.

Section Messages.
Context `{Deflate}.

(** The codec after the last frame of a message with these fragments. *)
Definition finished (c : codec) (op rsv : Z) (ps : list bytes) : codec :=
  mkCodec (preMessagePayload c) (mkPayload (fragments (currMessagePayload c) ++ ps)) (closed c) (flags c)
          (preMessageOpCode c) op rsv.

Lemma decode_cont_frames frags c g rest :
  Forall wf_frag frags -> frags <> [] ->
  currMessageOpCode c = OpText \/ currMessageOpCode c = OpBinary ->
  inbound g = cont_frames frags ++ rest -> peek_err g = None -> discard_err g = false ->
  len (inbound g) < 2 ^ 63 ->
  exists n, decode_fuel n c g =
    let c' := finished c (currMessageOpCode c) (messageRsv c) frags.*2 in
    Some (complete c', c', with_inbound g rest).
Proof.
  revert c g; induction frags as [|[m p] frags IH]; intros c g Hwf Hne Hop Hin Hpe Hde Hlen; [done|].
  inversion Hwf as [|? ? (Hm & Hm4 & Hp & Hfits) Hwf']; subst.
  cbn [cont_frames] in Hin. rewrite <- app_assoc in Hin. cbn [fst snd] in *.
  assert (check_following c OpContinuation 0 = inl c) as Hfol.
  { unfold check_following. destruct Hop as [-> | ->]; cbn; by rewrite andb_false_r. }
  assert (check_first c OpContinuation 0 = (c, None)) as Hfst.
  { unfold check_first. by destruct Hop as [-> | ->]. }
  pose proof (decode_round_frame _ 0 OpContinuation m p (cont_frames frags ++ rest)
    ltac:(lia) eq_refl Hm Hm4 Hp Hfits c c c g Hin Hpe Hde (or_introl eq_refl)
    ltac:(done) Hfol Hfst Hlen) as Hround. cbv zeta in Hround.
  set (c1 := with_payload c _) in Hround.
  destruct frags as [|frag frags].
  - exists 1%nat. cbn [decode_fuel]. rewrite Hround. done.
  - destruct (IH c1 (with_inbound g (cont_frames (frag :: frags) ++ rest))) as [n Hn]; try done.
    { cbn [inbound with_inbound]. rewrite Hin, len_app in Hlen.
      pose proof (len_nonneg (client_frame false 0 OpContinuation m p)). lia. }
    exists (S n). cbn [decode_fuel]. rewrite Hround, Hn. unfold c1, finished. cbn.
    by rewrite <- app_assoc.
Qed.

(** A whole data message, on a codec between two messages. *)
Lemma decode_message_frames op rsv frag frags c g rest :
  op = OpText \/ op = OpBinary -> rsv = 0 \/ (rsv = 4 /\ IsCompressOnSafe c = true) ->
  wf_frag frag -> Forall wf_frag frags ->
  currMessageOpCode c = 255 ->
  inbound g = message_frames op rsv frag frags ++ rest ->
  peek_err g = None -> discard_err g = false -> wf_inbound g ->
  decode c g =
    let c' := finished c op rsv (frag.2 :: frags.*2) in
    Some (complete c', c', with_inbound g rest).
Proof.
  intros Hop Hrsv (Hm & Hm4 & Hp & Hfits) Hwf Hcur Hin Hpe Hde Hg.
  destruct frag as [m p]. cbn [fst snd] in *.
  unfold message_frames in Hin. rewrite <- app_assoc in Hin. cbn [fst snd] in Hin.
  assert (check_following c op rsv = inl c) as Hfol by (unfold check_following; by rewrite Hcur).
  set (c0 := mkCodec (preMessagePayload c) (currMessagePayload c) (closed c) (flags c)
                     (preMessageOpCode c) op rsv).
  assert (check_first c op rsv = (c0, None)) as Hfst.
  { unfold check_first. rewrite Hcur. cbn [Z.eqb Pos.eqb negb].
    assert (IsCompressOnSafe c && negb (rsv =? 4) && negb (rsv =? 0) = false) as ->.
    { destruct Hrsv as [-> | [-> _] ]; by rewrite ?andb_false_r. }
    by destruct Hop as [-> | ->]. }
  pose proof (decode_round_frame (match frags with [] => true | _ => false end) rsv op m p
    (cont_frames frags ++ rest)
    ltac:(destruct Hrsv as [-> | [-> _] ]; lia) ltac:(destruct Hop as [-> | ->]; done)
    Hm Hm4 Hp Hfits c c c0 g Hin Hpe Hde
    ltac:(destruct Hrsv as [-> | [-> ?] ]; [by left | right; split; [done|by destruct Hop as [-> | ->]]])
    ltac:(destruct Hop as [-> | ->]; done) Hfol Hfst (proj2 Hg)) as Hround. cbv zeta in Hround.
  destruct frags as [|frag frags].
  - apply (decode_unique 1); [done|]. cbn [decode_fuel]. rewrite Hround. done.
  - set (c1 := with_payload c0 _) in Hround.
    destruct (decode_cont_frames (frag :: frags) c1
                (with_inbound g (cont_frames (frag :: frags) ++ rest)) rest) as [n Hn]; try done.
    { cbn [inbound with_inbound]. destruct Hg as [_ Hlen]. rewrite Hin, len_app in Hlen.
      pose proof (len_nonneg (client_frame false rsv op m p)). lia. }
    apply (decode_unique (S n)); [done|]. cbn [decode_fuel]. rewrite Hround, Hn.
    unfold c1, finished. cbn. by rewrite <- app_assoc.
Qed.

(** A control frame in one piece, possibly between two fragments. *)
Lemma decode_control_frame op m p c g rest :
  op = OpPing \/ op = OpPong ->
  wf_frag (m, p) -> len p <= 125 ->
  currMessageOpCode c = 255 \/ IsControl (currMessageOpCode c) = false ->
  inbound g = client_frame true 0 op m p ++ rest ->
  peek_err g = None -> discard_err g = false -> wf_inbound g ->
  decode c g =
    let c0 := if currMessageOpCode c =? 255 then c else set_aside c in
    let c' := finished c0 op 0 [p] in
    Some (DMsg (merge (currMessagePayload c')), c', with_inbound g rest).
Proof.
  intros Hop (Hm & Hm4 & Hp & Hfits) Hlp Hcur Hin Hpe Hde Hg. cbn [fst snd] in *.
  set (c0 := if currMessageOpCode c =? 255 then c else set_aside c).
  assert (check_following c op 0 = inl c0) as Hfol.
  { unfold check_following, c0. destruct (Z.eqb_spec (currMessageOpCode c) 255); [done|].
    destruct Hcur as [?|Hnc]; [done|rewrite Hnc]. by destruct Hop as [-> | ->]. }
  assert (currMessageOpCode c0 = 255) as H0.
  { unfold c0. destruct (Z.eqb_spec (currMessageOpCode c) 255); done. }
  assert (check_first c0 op 0 =
    (mkCodec (preMessagePayload c0) (currMessagePayload c0) (closed c0) (flags c0)
             (preMessageOpCode c0) op 0, None)) as Hfst.
  { unfold check_first. rewrite H0. cbn [Z.eqb Pos.eqb negb]. rewrite andb_false_r.
    by destruct Hop as [-> | ->]. }
  apply (decode_unique 1); [done|]. cbn [decode_fuel].
  rewrite (decode_round_frame true 0 op m p rest ltac:(lia)
    ltac:(destruct Hop as [-> | ->]; done) Hm Hm4 Hp Hfits c c0 _ g Hin Hpe Hde
    (or_introl eq_refl) ltac:(done) Hfol Hfst (proj2 Hg)).
  cbv zeta. unfold finished, complete. cbn [currMessageOpCode with_payload].
  by destruct Hop as [-> | ->].
Qed.
End Messages.

Lemma foldl_totalLen frags n :
  foldl (fun n (frag : bytes) => (n + length frag)%nat) n frags = (n + length (mjoin frags))%nat.
Proof.
  revert n; induction frags as [|f frags IH]; intros n; cbn [foldl]; [cbn; lia|].
  rewrite IH. change (mjoin (f :: frags)) with (f ++ mjoin frags). rewrite length_app. lia.
Qed.

(** [merge] concatenates. *)
Lemma merge_join r : merge r = mjoin (fragments r).
Proof.
  unfold merge. destruct (fragments r) as [|f [|f' frags]]; [done| |].
  { cbn. by rewrite app_nil_r. }
  set (l := f :: f' :: frags). rewrite foldl_totalLen, Nat.add_0_l.
  enough (forall l done k, k = length (mjoin l) ->
    (foldl (fun '(ret, offset) frag => (copy_at ret offset frag, (offset + length frag)%nat))
       (done ++ replicate k 0, length done) l).1 = done ++ mjoin l) as H
    by (apply (H l [] _ eq_refl)).
  clear. intros l; induction l as [|f l IH]; intros dn k Hk; cbn [foldl].
  { cbn in Hk. subst k. done. }
  change (mjoin (f :: l)) with (f ++ mjoin l) in *. rewrite length_app in Hk.
  assert (copy_at (dn ++ replicate k 0) (length dn) f = (dn ++ f) ++ replicate (length (mjoin l)) 0) as ->.
  { unfold copy_at. rewrite take_app_length, length_app, length_replicate.
    rewrite (take_ge f) by lia. rewrite <- app_assoc. do 2 f_equal.
    rewrite drop_app_ge, drop_replicate by lia. f_equal. lia. }
  rewrite <- length_app, IH by done. by rewrite app_assoc.
Qed.
