(* ===== verification/CodecProps.v ===== *)
(** The properties of the frame decoder, from the lemmas of [CodecSpec]: what a
    client sent is what the gateway delivers, whatever the segmentation of the
    stream; every call returns; what an accepted frame looks like; the two
    defects of the decoder. *)

From S2P Require Export CodecSpec.

(** A codec between two messages. *)
Definition idle (c : codec) : Prop :=
  preMessagePayload c = None /\ currMessagePayload c = newMessagePayload /\
  preMessageOpCode c = 255 /\ currMessageOpCode c = 255 /\ messageRsv c = 0.

(** [data] as the bytes a client puts in the frames. *)
Definition wire `{Deflate} (deflated : bool) (data w : bytes) : Prop :=
  if deflated then compress data = Some w else data = w.

Section Props.
Context `{Deflate}.

(** The data the application gets from the codec that [finished] a message. *)
Lemma complete_finished c op (deflated : bool) data ps :
  idle c -> op = OpText \/ op = OpBinary ->
  (deflated = true -> IsCompressOnSafe c = true) ->
  wire deflated data (mjoin ps) ->
  (op = OpText -> utf8_valid data = true) ->
  complete (finished c op (if deflated then 4 else 0) ps) = DMsg data.
Proof.
  intros (_ & Hp & _) Hop Hdef Hw Hutf.
  unfold complete. rewrite merge_join. unfold finished. cbn [currMessagePayload fragments messageRsv currMessageOpCode].
  rewrite Hp. cbn [newMessagePayload fragments app].
  change (IsCompressOnSafe (mkCodec _ _ _ (flags c) _ _ _)) with (IsCompressOnSafe c).
  destruct deflated; cbn [wire] in Hw.
  - rewrite Hdef by done. cbn [andb Z.eqb Pos.eqb]. rewrite (decompress_compress _ _ Hw).
    destruct Hop as [-> | ->]; cbn [Z.eqb Pos.eqb OpText OpBinary]; [by rewrite Hutf|done].
  - rewrite andb_false_r. subst data.
    destruct Hop as [-> | ->]; cbn [Z.eqb Pos.eqb OpText OpBinary]; [by rewrite Hutf|done].
Qed.

Lemma reset_finished c op rsv ps : idle c -> resetCurrMessage (finished c op rsv ps) = c.
Proof.
  intros (H1 & H2 & H3 & H4 & H5). destruct c; cbn in *. subst.
  unfold resetCurrMessage, finished. cbn. done.
Qed.

Lemma decode_again c g c' g' r :
  wf_inbound g -> decode_round c g = Again c' g' -> decode c' g' = Some r -> decode c g = Some r.
Proof.
  intros Hwf Hr Hd. apply (decode_unique (S (S (length (inbound g'))))); [done|].
  cbn [decode_fuel]. rewrite Hr. exact Hd.
Qed.

Lemma wf_inbound_suffix g x rest :
  wf_inbound g -> inbound g = x ++ rest -> wf_inbound (with_inbound g rest).
Proof.
  intros [Hwf Hlen] Hin. unfold wf_inbound. cbn. rewrite Hin in Hwf, Hlen.
  apply Forall_app in Hwf as [_ Hwf]. rewrite len_app in Hlen.
  pose proof (len_nonneg x). split; [done|lia].
Qed.

(** A ping or pong between the first fragment of a message and the rest. *)
Lemma decode_interleaved c g op rsv frag frags ctl ping rest :
  idle c -> op = OpText \/ op = OpBinary ->
  rsv = 0 \/ (rsv = 4 /\ IsCompressOnSafe c = true) ->
  ctl = OpPing \/ ctl = OpPong -> wf_frag ping -> len ping.2 <= 125 ->
  wf_frag frag -> Forall wf_frag frags -> frags <> [] ->
  inbound g = client_frame false rsv op frag.1 frag.2
              ++ client_frame true 0 ctl ping.1 ping.2 ++ cont_frames frags ++ rest ->
  peek_err g = None -> discard_err g = false -> wf_inbound g ->
  exists c1,
    let g1 := with_inbound g (cont_frames frags ++ rest) in
    let c2 := finished c op 0 (frag.2 :: frags.*2) in
    decode c g = Some (DMsg ping.2, c1, g1) /\ currMessageOpCode c1 = ctl /\
    decode (resetCurrMessage c1) g1 = Some (complete c2, c2, with_inbound g rest).
Proof.
  intros Hidle Hop Hrsv Hctl Hping Hlp (Hm & Hm4 & Hp & Hfits) Hfr Hne Hin Hpe Hde Hg.
  destruct Hidle as (I1 & I2 & I3 & I4 & I5).
  destruct frag as [m p], ping as [mp pp]. cbn [fst snd] in *.
  set (c0 := mkCodec (preMessagePayload c) (currMessagePayload c) (closed c) (flags c)
                     (preMessageOpCode c) op rsv).
  assert (check_following c op rsv = inl c) as Hfol by (unfold check_following; by rewrite I4).
  assert (check_first c op rsv = (c0, None)) as Hfst.
  { unfold check_first. rewrite I4. cbn [Z.eqb Pos.eqb negb].
    assert (IsCompressOnSafe c && negb (rsv =? 4) && negb (rsv =? 0) = false) as ->
      by (destruct Hrsv as [-> | [-> _] ]; by rewrite ?andb_false_r).
    by destruct Hop as [-> | ->]. }
  pose proof (decode_round_frame false rsv op m p
    (client_frame true 0 ctl mp pp ++ cont_frames frags ++ rest)
    ltac:(destruct Hrsv as [-> | [-> _] ]; lia) ltac:(destruct Hop as [-> | ->]; done)
    Hm Hm4 Hp Hfits c c c0 g Hin Hpe Hde
    ltac:(destruct Hrsv as [-> | [-> ?] ]; [by left | right; split; [done|by destruct Hop as [-> | ->]]])
    ltac:(destruct Hop as [-> | ->]; done) Hfol Hfst (proj2 Hg)) as Hround. cbv zeta in Hround.
  set (c1 := with_payload c0 _) in Hround. set (g1 := with_inbound g _) in Hround.
  pose proof (wf_inbound_suffix _ _ _ Hg Hin) as Hg1. fold g1 in Hg1.
  assert (IsControl (currMessageOpCode c1) = false) as Hnc
    by (unfold c1, c0; cbn [currMessageOpCode with_payload]; destruct Hop as [-> | ->]; reflexivity).
  pose proof (decode_control_frame ctl mp pp c1 g1 (cont_frames frags ++ rest) Hctl Hping Hlp
    (or_intror Hnc) eq_refl Hpe Hde Hg1) as Hctlf. cbv zeta in Hctlf.
  assert ((currMessageOpCode c1 =? 255) = false) as E by (unfold c1, c0; cbn [currMessageOpCode with_payload]; destruct Hop as [-> | ->]; reflexivity).
  rewrite E in Hctlf. clear E. set (c1' := finished (set_aside c1) ctl 0 [pp]) in Hctlf.
  assert (merge (currMessagePayload c1') = pp) as Hmp by (rewrite merge_join; cbn; apply app_nil_r).
  rewrite Hmp in Hctlf.
  exists c1'. cbv zeta. split_and!; [exact (decode_again _ _ _ _ _ Hg Hround Hctlf)|done|].
  set (cr := resetCurrMessage c1').
  assert (cr = mkCodec None (mkPayload [p]) (closed c) (flags c) 255 op 0) as Ecr.
  { unfold cr, c1', c1, c0, resetCurrMessage, finished, set_aside. cbn.
    rewrite I2. destruct Hop as [-> | ->]; done. }
  assert (wf_inbound (with_inbound g (cont_frames frags ++ rest))) as Hg2.
  { rewrite app_assoc in Hin. exact (wf_inbound_suffix _ _ _ Hg Hin). }
  destruct (decode_cont_frames frags cr (with_inbound g (cont_frames frags ++ rest)) rest)
    as [n Hn]; try done.
  { rewrite Ecr. cbn. destruct Hop as [-> | ->]; [by left|by right]. }
  { apply Hg2. }
  cbv zeta in Hn. apply (decode_unique n); [done|]. rewrite Hn, Ecr.
  unfold finished. cbn. rewrite I1, I2, I3. done.
Qed.
End Props.

(** A whole message, decoded. *)
Lemma decode_message `{Deflate} c g op (deflated : bool) data frag frags rest :
  idle c -> op = OpText \/ op = OpBinary ->
  (deflated = true -> IsCompressOnSafe c = true) ->
  wire deflated data (mjoin (frag.2 :: frags.*2)) ->
  (op = OpText -> utf8_valid data = true) ->
  wf_frag frag -> Forall wf_frag frags ->
  inbound g = message_frames op (if deflated then 4 else 0) frag frags ++ rest ->
  peek_err g = None -> discard_err g = false -> wf_inbound g ->
  exists c', decode c g = Some (DMsg data, c', with_inbound g rest)
             /\ currMessageOpCode c' = op /\ resetCurrMessage c' = c.
Proof.
  intros Hidle Hop Hdef Hw Hutf Hf Hfs Hin Hpe Hde Hg.
  rewrite (decode_message_frames op (if deflated then 4 else 0) frag frags c g rest);
    [|done|destruct deflated; [right; auto|by left]|done|done|apply Hidle|done..].
  exists (finished c op (if deflated then 4 else 0) (frag.2 :: frags.*2)).
  split; [|split; [reflexivity|by apply reset_finished]].
  cbv zeta. by rewrite (complete_finished c op deflated data).
Qed.

(** ** The concrete instances of the witnesses. *)

(** A deflate library that stores: one marker byte before the data. *)
Definition stored_deflate : Deflate := {|
  compress := fun b => Some (1 :: b);
  decompress := fun b => match b with 1 :: d => Some d | _ => None end;
  decompress_compress := fun b c E =>
    match E in _ = o return match o with Some c => match c with 1 :: d => Some d | _ => None end = Some b
                                      | None => True end with
    | eq_refl => eq_refl
    end;
|}.

Definition text_hi : bytes := [104; 105].
Definition demo_mask : bytes := [1; 2; 3; 4].
Definition demo_codec : codec := mkCodec None newMessagePayload 0 3 255 255 0.
Definition demo_conn (b : bytes) : gnetConn := mkGnet b None false.

Lemma check_wf_inbound g :
  all_bytes (inbound g) = true -> (len (inbound g) <? 2 ^ 63) = true -> wf_inbound g.
Proof. intros Ha Hl. split; [by apply all_bytes_wf|lia]. Qed.

Lemma check_wf_frag x :
  all_bytes x.1 = true -> length x.1 = 4%nat -> all_bytes x.2 = true ->
  (len x.2 <? 2 ^ 63 - 4) = true -> wf_frag x.
Proof. intros H1 H2 H3 H4. split_and!; auto using all_bytes_wf. unfold payload_fits. lia. Qed.

(** Discharges the side conditions of a theorem at a concrete input. *)
Ltac concrete :=
  first
    [ done
    | apply check_wf_inbound; vm_compute; done
    | apply check_wf_frag; vm_compute; done
    | repeat apply Forall_cons_2; try apply Forall_nil_2; apply check_wf_frag; vm_compute; done
    | by left
    | by right ].

(** ** The theorems. *)

(** C4: a text or binary message that a client sends - masked, in any number of
    fragments, deflated when the handshake agreed on it - is returned by one
    call of [decode] as the data the client sent; what follows it stays in the
    buffer, and after [resetCurrMessage] the codec is as it was. *)
Theorem decode_message_roundtrip `{Deflate} c g op (deflated : bool) data frag frags rest :
  idle c -> op = OpText \/ op = OpBinary ->
  (deflated = true -> IsCompressOnSafe c = true) ->
  wire deflated data (mjoin (frag.2 :: frags.*2)) ->
  (op = OpText -> utf8_valid data = true) ->
  wf_frag frag -> Forall wf_frag frags ->
  inbound g = message_frames op (if deflated then 4 else 0) frag frags ++ rest ->
  peek_err g = None -> discard_err g = false -> wf_inbound g ->
  exists c', decode c g = Some (DMsg data, c', with_inbound g rest)
             /\ currMessageOpCode c' = op /\ resetCurrMessage c' = c.
Proof. apply decode_message. Qed.

Lemma decode_message_roundtrip_witness :
  exists c',
    @decode stored_deflate demo_codec
      (demo_conn (message_frames OpText 4 (demo_mask, [1; 104]) [(demo_mask, [105])] ++ [129]))
    = Some (DMsg text_hi, c', demo_conn [129])
    /\ currMessageOpCode c' = OpText /\ resetCurrMessage c' = demo_codec.
Proof.
  apply (@decode_message_roundtrip stored_deflate demo_codec
    (demo_conn (message_frames OpText 4 (demo_mask, [1; 104]) [(demo_mask, [105])] ++ [129]))
    OpText true text_hi (demo_mask, [1; 104]) [(demo_mask, [105])] [129]); concrete.
Defined.

(** C32: the decoder does not depend on how the stream is cut: what a call gives
    on the bytes that have arrived, and the next call on those and more, is what
    one call gives on all of them. *)
Theorem decode_segmentation `{Deflate} c g b d c' g' :
  wf_inbound (more g b) ->
  decode c g = Some (d, c', g') ->
  (d = short -> decode c' (more g' b) = decode c (more g b)) /\
  (d <> short -> decode c (more g b) = Some (d, c', more g' b)).
Proof.
  intros Hwf Hd. unfold decode in Hd. split; intros Hs.
  - subst d. assert (wf_inbound (more g' b)) as Hwf'.
    { eapply decode_fuel_suffix in Hd as [x Hx].
      apply (wf_inbound_suffix (more g b) x); [done|].
      cbn. by rewrite Hx, app_assoc. }
    destruct (decode_is_Some c' (more g' b) Hwf') as [r Hr].
    rewrite Hr. symmetry. unfold decode in Hr.
    eapply decode_unique; [done|]. by eapply decode_fuel_resume.
  - eapply decode_unique; [done|]. by apply decode_fuel_more.
Qed.

(** C34: every call of [decode] returns. *)
Theorem decode_terminates `{Deflate} c g : wf_inbound g -> exists r, decode c g = Some r.
Proof. intros Hg. by apply decode_is_Some. Qed.

Lemma decode_terminates_witness :
  exists r, @decode stored_deflate demo_codec
              (demo_conn (message_frames OpText 4 (demo_mask, [1; 104]) [(demo_mask, [105])])) = Some r.
Proof. apply (@decode_terminates stored_deflate). concrete. Defined.

Lemma decode_segmentation_witness :
  let b := client_frame true 0 OpText demo_mask text_hi in
  @decode stored_deflate demo_codec (more (demo_conn (take 5 b)) (drop 5 b))
  = Some (DMsg text_hi, finished demo_codec OpText 0 [text_hi], demo_conn []).
Proof.
  cbv zeta. set (b := client_frame true 0 OpText demo_mask text_hi).
  assert (wf_inbound (more (demo_conn (take 5 b)) (drop 5 b))) as Hwf by concrete.
  assert (@decode stored_deflate demo_codec (demo_conn (take 5 b))
          = Some (short, demo_codec, demo_conn (take 5 b))) as Hd by (vm_compute; reflexivity).
  refine (eq_trans (eq_sym (proj1 (@decode_segmentation stored_deflate _ _ _ _ _ _ Hwf Hd) eq_refl)) _).
  vm_compute. reflexivity.
Defined.

(** the run time panic of [decode], the only one: a frame that declares
    a 64-bit length of the last four below 2^63. *)
Theorem decode_panic_only_on_overflow `{Deflate} c g c' g' :
  wf_inbound g -> decode_round c g = Leave DPanic c' g' ->
  Z.land (byte_at (inbound g) 1) 127 = 127 /\
  2 ^ 63 - 4 <= be (take 8 (drop 2 (inbound g))) < 2 ^ 63.
Proof. apply decode_round_overflow. Qed.

(** A masked text frame that declares [v] bytes of payload and holds none. *)
Definition huge_frame (v : Z) : bytes := 129 :: 255 :: put_be 8 v ++ demo_mask.

Lemma decode_panic_only_on_overflow_witness :
  Z.land (byte_at (huge_frame (2 ^ 63 - 1)) 1) 127 = 127 /\
  2 ^ 63 - 4 <= be (take 8 (drop 2 (huge_frame (2 ^ 63 - 1)))) < 2 ^ 63.
Proof.
  set (g := demo_conn (huge_frame (2 ^ 63 - 1))).
  apply (@decode_panic_only_on_overflow stored_deflate newCodec g
           (mkCodec None newMessagePayload 0 0 255 OpText 0) g); [concrete|].
  vm_compute. reflexivity.
Defined.

Lemma read_length_put_be v r : 0 <= v < 2 ^ 63 -> read_length 127 (put_be 8 v ++ r) = Some (v, r).
Proof.
  intros Hv. unfold read_length. cbn [Z.eqb Pos.eqb].
  rewrite take_app_length', drop_app_length' by (by rewrite length_put_be).
  rewrite be_put_be, Z.mod_small, i64_small by (cbn; lia).
  rewrite (put_be_cons 7 v). cbn [app byte_at nth].
  assert (0 <= v / 256 ^ Z.of_nat 7 < 128) as Hmsb.
  { change (256 ^ Z.of_nat 7) with (2 ^ 56).
    split; [apply Z.div_pos; lia|apply Z.div_lt_upper_bound; lia]. }
  destruct (len_byte ((v / 256 ^ Z.of_nat 7) mod 256)) as (_ & _ & ->);
    [rewrite Z.mod_small; lia|done].
Qed.

Lemma i64_overflow v : 2 ^ 63 - 4 <= v < 2 ^ 63 -> i64 (v + 4) < 0 /\ i64 (4 + v) < 0.
Proof.
  intros Hv. rewrite (Z.add_comm 4 v). unfold i64.
  replace (v + 4 + 2 ^ 63) with (v + 4 - 2 ^ 63 + 1 * 2 ^ 64) by lia.
  rewrite Z.mod_add, Z.mod_small by lia. lia.
Qed.

(** fourteen bytes from any client - a frame that declares a length of
    2^63-4 or more - make the decoder slice out of range, whatever follows. *)
Theorem decode_huge_length_panics `{Deflate} v b :
  2 ^ 63 - 4 <= v < 2 ^ 63 -> wf_bytes b -> len b < 2 ^ 62 ->
  exists c' g', decode newCodec (demo_conn (huge_frame v ++ b)) = Some (DPanic, c', g').
Proof.
  intros Hv Hb Hlen. set (g := demo_conn (huge_frame v ++ b)).
  exists (mkCodec None newMessagePayload 0 0 255 OpText 0), g.
  assert (len (huge_frame v ++ b) = 14 + len b) as Hl.
  { rewrite len_app. unfold huge_frame. rewrite !len_cons, len_app.
    change (len demo_mask) with 4. unfold len at 1. rewrite length_put_be. lia. }
  assert (wf_inbound g) as Hg.
  { split; [|unfold g, demo_conn; cbn [inbound]; lia].
    apply Forall_app; split; [|done]. unfold huge_frame.
    apply Forall_cons_2; [unfold is_byte; lia|]. apply Forall_cons_2; [unfold is_byte; lia|].
    apply Forall_app; split; [apply wf_put_be|by apply all_bytes_wf]. }
  apply (decode_unique 1); [done|]. cbn [decode_fuel].
  rewrite decode_round_eq. unfold g, demo_conn. cbn [peek_err inbound discard_err]. cbv zeta.
  rewrite Hl. pose proof (len_nonneg b).
  assert (byte_at (huge_frame v ++ b) 0 = 129 /\ byte_at (huge_frame v ++ b) 1 = 255) as [-> ->] by done.
  change (head_checks newCodec 129 255) with (newCodec, @None decoded).
  change (Z.land 255 127) with 127. change (Z.land 129 15) with 1. change (header_extra 127) with 12.
  change (drop 2 (huge_frame v ++ b)) with ((put_be 8 v ++ demo_mask) ++ b). rewrite <- app_assoc.
  destruct (Z.ltb_spec (14 + len b) 2); [lia|].
  destruct (Z.ltb_spec (14 + len b) (2 + 12)); [lia|].
  rewrite read_length_put_be by lia.
  destruct (i64_overflow v Hv) as [Hneg Hneg'].
  change (IsControl 1) with false. cbn [andb].
  destruct (Z.ltb_spec (len (demo_mask ++ b)) (i64 (v + 4)));
    [pose proof (len_nonneg (demo_mask ++ b)); lia|].
  change (check_first newCodec 1 (Z.shiftr (Z.land 129 112) 4))
    with (mkCodec None newMessagePayload 0 0 255 OpText 0, @None decoded).
  unfold slice. destruct (Z.leb_spec 4 (i64 (4 + v))); [lia|]. by rewrite andb_false_r.
Qed.

Lemma decode_huge_length_panics_witness :
  exists c' g', @decode stored_deflate newCodec (demo_conn (huge_frame (2 ^ 63 - 1) ++ [])) = Some (DPanic, c', g').
Proof.
  apply (@decode_huge_length_panics stored_deflate); [lia|concrete|vm_compute; reflexivity].
Defined.

(** C33: a frame the decoder takes obeys the protocol: a known opcode, masked, no
    RSV bit without the extension or on a control frame, at most 125 bytes in a
    control frame, a continuation only inside a message, a new data message only
    between two messages. *)
Theorem decode_round_accepts `{Deflate} c g :
  consumed g (decode_round c g) ->
  let b0 := byte_at (inbound g) 0 in
  let op := Z.land b0 15 in
  let rsv := Z.shiftr (Z.land b0 112) 4 in
  valid_op op = true /\ Z.land (byte_at (inbound g) 1) 128 <> 0 /\
  (rsv <> 0 -> IsCompressOnSafe c = true /\ IsControl op = false) /\
  (IsControl op = true -> exists hlen body,
    read_length (Z.land (byte_at (inbound g) 1) 127) (drop 2 (inbound g)) = Some (hlen, body) /\
    hlen <= 125) /\
  (IsControl op = false -> (op = OpContinuation <-> currMessageOpCode c <> 255)).
Proof.
  rewrite decode_round_eq. cbv zeta.
  destruct (peek_err g) as [[]|]; [done..|].
  destruct (len (inbound g) <? 2); [done|].
  set (x0 := byte_at (inbound g) 0). set (x1 := byte_at (inbound g) 1).
  destruct (head_checks c x0 x1) as [c1 [e|]] eqn:Hh.
  { intros Hc. exfalso. destruct e; try done. by eapply head_checks_no_msg. }
  destruct (head_checks_ok _ _ _ _ Hh) as (Hv & Hm & Hr & Hf).
  destruct (len (inbound g) <? 2 + header_extra _); [done|].
  destruct (read_length _ _) as [[hlen body]|] eqn:Hrl; [|done].
  destruct (IsControl (Z.land x0 15) && (125 <? hlen)) eqn:Hctl; [done|].
  destruct (len body <? i64 (hlen + 4)); [done|].
  destruct (check_first c1 _ _) as [c2 [e|]] eqn:Hfi.
  { intros Hc. exfalso. destruct e; try done. by eapply check_first_no_msg. }
  intros _. split_and!; [done|done|done| |].
  - intros Hcx. rewrite Hcx in Hctl. cbn [andb] in Hctl.
    exists hlen, body. split; [done|]. lia.
  - intros Hd. by eapply follow_first_ok.
Qed.

Lemma decode_round_accepts_witness :
  exists hlen body, read_length 2 (drop 2 (client_frame true 0 OpPing demo_mask text_hi))
                    = Some (hlen, body) /\ hlen <= 125.
Proof.
  apply (@decode_round_accepts stored_deflate demo_codec
          (demo_conn (client_frame true 0 OpPing demo_mask text_hi))); vm_compute; done.
Defined.

(** A ping or pong between the first fragment of a message and the rest is
    delivered at once, and a message sent without compression is not disturbed:
    the next call returns it whole. *)
Theorem decode_interleaved_plain `{Deflate} c g op frag frags ctl ping rest data :
  idle c -> op = OpText \/ op = OpBinary -> ctl = OpPing \/ ctl = OpPong ->
  wf_frag ping -> len ping.2 <= 125 -> wf_frag frag -> Forall wf_frag frags -> frags <> [] ->
  data = mjoin (frag.2 :: frags.*2) -> (op = OpText -> utf8_valid data = true) ->
  inbound g = client_frame false 0 op frag.1 frag.2
              ++ client_frame true 0 ctl ping.1 ping.2 ++ cont_frames frags ++ rest ->
  peek_err g = None -> discard_err g = false -> wf_inbound g ->
  exists c1 c2,
    let g1 := with_inbound g (cont_frames frags ++ rest) in
    decode c g = Some (DMsg ping.2, c1, g1) /\ currMessageOpCode c1 = ctl /\
    decode (resetCurrMessage c1) g1 = Some (DMsg data, c2, with_inbound g rest) /\
    resetCurrMessage c2 = c.
Proof.
  intros Hidle Hop Hctl Hping Hlp Hfrag Hfrags Hne Hdata Hutf Hin Hpe Hde Hg.
  destruct (decode_interleaved c g op 0 frag frags ctl ping rest) as (c1 & Hd1 & Hc1 & Hd2);
    [done|done|by left|done..|].
  exists c1, (finished c op 0 (frag.2 :: frags.*2)). cbv zeta.
  split_and!; [done|done| |by apply reset_finished].
  rewrite Hd2. cbv zeta. by rewrite (complete_finished c op false data).
Qed.

Definition interleaved (rsv op : Z) (p1 p2 : bytes) : bytes :=
  client_frame false rsv op demo_mask p1 ++ client_frame true 0 OpPing demo_mask [1]
  ++ cont_frames [(demo_mask, p2)] ++ [].

Lemma decode_interleaved_plain_witness :
  exists c1 c2,
    let g1 := demo_conn (cont_frames [(demo_mask, [105])] ++ []) in
    @decode stored_deflate demo_codec (demo_conn (interleaved 0 OpText [104] [105]))
    = Some (DMsg [1], c1, g1) /\ currMessageOpCode c1 = OpPing /\
    @decode stored_deflate (resetCurrMessage c1) g1 = Some (DMsg text_hi, c2, demo_conn []) /\
    resetCurrMessage c2 = demo_codec.
Proof.
  apply (@decode_interleaved_plain stored_deflate demo_codec
    (demo_conn (interleaved 0 OpText [104] [105])) OpText (demo_mask, [104]) [(demo_mask, [105])]
    OpPing (demo_mask, [1]) [] text_hi); concrete.
Defined.

(** the same ping inside a message sent with compression makes the decoder
    forget that it is compressed: the next call delivers the compressed bytes as
    the message (here for binary messages), never the data the client sent. *)
Theorem decode_interleaved_compressed_lost `{Deflate} c g frag frags ctl ping rest data z :
  idle c -> IsCompressOnSafe c = true -> ctl = OpPing \/ ctl = OpPong ->
  wf_frag ping -> len ping.2 <= 125 -> wf_frag frag -> Forall wf_frag frags -> frags <> [] ->
  compress data = Some z -> z = mjoin (frag.2 :: frags.*2) ->
  inbound g = client_frame false 4 OpBinary frag.1 frag.2
              ++ client_frame true 0 ctl ping.1 ping.2 ++ cont_frames frags ++ rest ->
  peek_err g = None -> discard_err g = false -> wf_inbound g ->
  exists c1 c2,
    let g1 := with_inbound g (cont_frames frags ++ rest) in
    decode c g = Some (DMsg ping.2, c1, g1) /\
    decode (resetCurrMessage c1) g1 = Some (DMsg z, c2, with_inbound g rest).
Proof.
  intros Hidle Hcomp Hctl Hping Hlp Hfrag Hfrags Hne Hz Hjoin Hin Hpe Hde Hg.
  destruct (decode_interleaved c g OpBinary 4 frag frags ctl ping rest) as (c1 & Hd1 & _ & Hd2);
    [done|by right|by right|done..|].
  exists c1, (finished c OpBinary 0 (frag.2 :: frags.*2)). cbv zeta. split; [done|].
  rewrite Hd2. cbv zeta. by rewrite (complete_finished c OpBinary false z); [|done|by right|..].
Qed.

Lemma decode_interleaved_compressed_lost_witness :
  exists c1 c2,
    let g1 := demo_conn (cont_frames [(demo_mask, [105])] ++ []) in
    @decode stored_deflate demo_codec (demo_conn (interleaved 4 OpBinary [1; 104] [105]))
    = Some (DMsg [1], c1, g1) /\
    @decode stored_deflate (resetCurrMessage c1) g1 = Some (DMsg (1 :: text_hi), c2, demo_conn []).
Proof.
  apply (@decode_interleaved_compressed_lost stored_deflate demo_codec
    (demo_conn (interleaved 4 OpBinary [1; 104] [105])) (demo_mask, [1; 104]) [(demo_mask, [105])]
    OpPing (demo_mask, [1]) [] text_hi (1 :: text_hi)); concrete.
Defined.
