(* ===== verification/Info.v ===== *)
(** The per-connection record of src/internal/wsServer/info.go and the
    generator of its identifiers, src/internal/wsServer/uniqIdGen. *)

From S2P Require Export Codec.

(** ** configs.Config: the fields the operations below read. *)

Record config := mkConfig {
  cf_Autobahn : bool;
  cf_HandlePattern : string;
  cf_AllowOrigin : list string;
  cf_MaxOnlineNum : Z;
  cf_HeartbeatIntervalSecond : Z;       (* uint32 *)
  cf_CustomerReceivePackLimit : Z;      (* int *)
  cf_SendMessageType : Z;               (* ws.OpCode *)
  cf_CustomerHeartbeatMessage : bytes;
  cf_LimitWindowSizeSeconds : Z;        (* int64 *)
  cf_LimitWindowMaxRequests : Z;        (* int32 *)
  cf_LimitZeroWindowMaxRequests : Z;    (* int32 *)
  cf_OnOpenApi : string;
  cf_OnMessageApi : string;
  cf_OnCloseApi : string;
  cf_WorkerListenAddress : string;
  cf_WorkerReceivePackLimit : Z;        (* uint32 *)
  cf_WorkerSendChanCap : Z;
  cf_WorkerHeartbeatMessage : bytes;
  cf_TaskReceivePackLimit : Z;          (* uint32 *)
  cf_TaskHeartbeatMessage : bytes;
  cf_AMQPEvents : list Z;               (* the events with an AMQP queue *)
  cf_RedisEvents : list Z;              (* the events with a Redis queue *)
}.

(** ** uniqIdGen.New *)

Module UniqIdGen.

Definition hexDigits : list ascii := String.list_ascii_of_string "0123456789abcdef".

Definition hexDigit (v : Z) : ascii := nth (Z.to_nat v) hexDigits "0"%char.

(** [encodeUint32ToHex]: byte [i] is the byte [val >> (24 - i*8)]. *)
Definition encodeUint32ToHex (val : Z) : list ascii :=
  mjoin ((fun i => let b := u8 (Z.shiftr val (24 - i * 8)) in
                   [hexDigit (Z.shiftr b 4); hexDigit (Z.land b 15)]) <$> [0; 1; 2; 3]).

(** [New]: the identifier and the counter after it, from the hexadecimal
    template, the time in seconds and the counter. *)
Definition New (templateHex : list ascii) (timestamp incrId : Z) : (string * Z) * Z :=
  let incr := u32 (incrId + 1) in
  let b := take 12 templateHex ++ encodeUint32ToHex (u32 timestamp) ++ encodeUint32ToHex incr in
  ((String.string_of_list_ascii b, Z.lor (u64 (Z.shiftl (u64 timestamp) 32)) incr), incr).

(** The reader of the eight digits, for the theorems. *)
Definition digit_value (c : ascii) : Z :=
  match list_find (fun d => d = c) hexDigits with Some (i, _) => Z.of_nat i | None => -1 end.

Definition hex_value (l : list ascii) : Z := foldl (fun acc c => acc * 16 + digit_value c) 0 l.

Lemma digit_value_hexDigit v : 0 <= v < 16 -> digit_value (hexDigit v) = v.
Proof.
  intros Hv.
  assert (In v (seqZ 0 16)) as Hin by (apply list_elem_of_In, elem_of_seqZ; lia).
  revert Hin. cbn. intros Hin. repeat (destruct Hin as [<-|Hin]; [reflexivity|]). done.
Qed.

Lemma hex_value_app l c : hex_value (l ++ [c]) = hex_value l * 16 + digit_value c.
Proof. unfold hex_value. by rewrite foldl_app. Qed.

Lemma byte_at_position val i :
  0 <= val < 2 ^ 32 -> 0 <= i <= 3 ->
  u8 (Z.shiftr val (24 - i * 8)) = val / 2 ^ (24 - i * 8) mod 256.
Proof. intros Hv Hi. unfold u8. rewrite Z.shiftr_div_pow2 by lia. done. Qed.

(** Two digits read back as their byte. *)
Lemma hex_value_byte l b :
  0 <= b < 256 ->
  hex_value (l ++ [hexDigit (Z.shiftr b 4); hexDigit (Z.land b 15)]) = hex_value l * 256 + b.
Proof.
  intros Hb. change [?x; ?y] with ([x] ++ [y]). rewrite app_assoc, !hex_value_app.
  change 15 with (Z.ones 4). rewrite Z.land_ones, Z.shiftr_div_pow2 by lia.
  change (2 ^ 4) with 16. rewrite !digit_value_hexDigit; divlia.
Qed.

(** The digits determine the number. *)
Lemma hex_value_encode val : 0 <= val < 2 ^ 32 -> hex_value (encodeUint32ToHex val) = val.
Proof.
  intros Hv. set (d := fun b => [hexDigit (Z.shiftr b 4); hexDigit (Z.land b 15)]).
  set (b := fun i => u8 (Z.shiftr val (24 - i * 8))).
  change (encodeUint32ToHex val) with (((([] ++ d (b 0)) ++ d (b 1)) ++ d (b 2)) ++ d (b 3)).
  assert (forall i, 0 <= u8 (Z.shiftr val (24 - i * 8)) < 256) as Hb
    by (intros i; apply Z.mod_pos_bound; lia).
  unfold d. rewrite !hex_value_byte by apply Hb. unfold b. rewrite !byte_at_position by lia.
  change (hex_value []) with 0. change (2 ^ (24 - 0 * 8)) with (2 ^ 24).
  change (2 ^ (24 - 1 * 8)) with (2 ^ 16). change (2 ^ (24 - 2 * 8)) with (2 ^ 8).
  change (2 ^ (24 - 3 * 8)) with 1. divlia.
Qed.

Lemma length_encode val : length (encodeUint32ToHex val) = 8%nat.
Proof. reflexivity. Qed.

Lemma encode_inj v w :
  0 <= v < 2 ^ 32 -> 0 <= w < 2 ^ 32 -> encodeUint32ToHex v = encodeUint32ToHex w -> v = w.
Proof. intros Hv Hw E. rewrite <- (hex_value_encode v Hv), <- (hex_value_encode w Hw). by rewrite E. Qed.

Lemma id_value timestamp incr :
  0 <= incr < 2 ^ 32 ->
  Z.lor (u64 (Z.shiftl (u64 timestamp) 32)) incr = u32 timestamp * 2 ^ 32 + incr.
Proof.
  intros Hi. rewrite Z.shiftl_mul_pow2 by lia.
  assert (u64 (u64 timestamp * 2 ^ 32) = Z.shiftl (u32 timestamp) 32) as ->.
  { rewrite Z.shiftl_mul_pow2 by lia. unfold u64, u32. divlia. }
  assert (Z.land (Z.shiftl (u32 timestamp) 32) incr = 0) as Hland.
  { apply Z.bits_inj_iff'. intros n Hn. rewrite Z.land_spec, Z.bits_0, Z.shiftl_spec by lia.
    destruct (Z.ltb_spec n 32); [by rewrite Z.testbit_neg_r by lia|].
    replace incr with (incr mod 2 ^ 32) by (apply Z.mod_small; lia).
    by rewrite Z.mod_pow2_bits_high, andb_false_r by lia. }
  rewrite <- Z.lxor_lor, <- Z.add_nocarry_lxor by done.
  by rewrite Z.shiftl_mul_pow2 by lia.
Qed.

End UniqIdGen.

(** ** The info record.

    [rwMutex] is the flag [locked]: the sections under the read lock are single
    actions, so only the writer that holds the lock over several actions shows. *)

Record info := mkInfo {
  locked : bool;
  id : Z;                              (* uint64 *)
  limitWindowStart : Z;                (* int64 *)
  uniqId : string;
  customerId : string;
  session : string;
  topics : option (gmap string unit);  (* a Go map: nil or a map *)
  limitWindowRequests : Z;             (* int32 *)
  lastActiveTime : Z;                  (* uint32 *)
}.

Definition newInfo (cf : config) (templateHex : list ascii) (now incrId : Z) : info * Z :=
  let '((uniqId, id), incr) := UniqIdGen.New templateHex now incrId in
  (mkInfo false id 0 uniqId EmptyString EmptyString None
          (i32 (0 - cf_LimitZeroWindowMaxRequests cf)) (u32 now), incr).

Definition with_locked (r : info) (b : bool) : info :=
  mkInfo b (id r) (limitWindowStart r) (uniqId r) (customerId r) (session r) (topics r)
         (limitWindowRequests r) (lastActiveTime r).
Definition with_window (r : info) (start requests : Z) : info :=
  mkInfo (locked r) (id r) start (uniqId r) (customerId r) (session r) (topics r)
         requests (lastActiveTime r).
Definition with_topics (r : info) (t : option (gmap string unit)) : info :=
  mkInfo (locked r) (id r) (limitWindowStart r) (uniqId r) (customerId r) (session r) t
         (limitWindowRequests r) (lastActiveTime r).

Definition UpdateLastActiveTimeOnSafe (now : Z) (r : info) : info :=
  mkInfo (locked r) (id r) (limitWindowStart r) (uniqId r) (customerId r) (session r) (topics r)
         (limitWindowRequests r) (u32 now).

Definition SetCustomerId (customerId : string) (r : info) : info :=
  mkInfo (locked r) (id r) (limitWindowStart r) (uniqId r) customerId (session r) (topics r)
         (limitWindowRequests r) (lastActiveTime r).

Definition SetSession (session : string) (r : info) : info :=
  mkInfo (locked r) (id r) (limitWindowStart r) (uniqId r) (customerId r) session (topics r)
         (limitWindowRequests r) (lastActiveTime r).

(** [Allow]: the fixed-window limiter of the connection. *)
Definition Allow (cf : config) (now : Z) (r : info) : bool * info :=
  if limitWindowRequests r <? 0
  then (true, with_window r (limitWindowStart r) (i32 (limitWindowRequests r + 1)))
  else
    let r := if cf_LimitWindowSizeSeconds cf <? i64 (now - limitWindowStart r)
             then with_window r now 0 else r in
    if limitWindowRequests r <? cf_LimitWindowMaxRequests cf
    then (true, with_window r (limitWindowStart r) (i32 (limitWindowRequests r + 1)))
    else (false, r).

Definition IsLogin (r : info) : bool := negb (is_empty (session r)) || negb (is_empty (customerId r)).

(** [len(r.topics)]. *)
Definition topic_count (r : info) : nat := match topics r with Some m => size m | None => 0 end.

Definition subscribed (r : info) (topic : string) : bool :=
  match topics r with Some m => bool_decide (is_Some (m !! topic)) | None => false end.

Definition PullTopics (r : info) : option (gmap string unit) * info := (topics r, with_topics r None).

Definition SubscribeTopics (l : list string) (r : info) : info :=
  let m := default ∅ (topics r) in
  with_topics r (Some (foldl (fun m topic =>
    if is_empty topic then m
    else match m !! topic with Some _ => m | None => <[topic := tt]> m end) m l)).

Definition UnsubscribeTopics (l : list string) (r : info) : info :=
  match topics r with
  | None => r                                   (* delete on a nil map *)
  | Some m => with_topics r (Some (foldl (fun m topic => delete topic m) m l))
  end.

Definition UnsubscribeTopic (topic : string) (r : info) : bool * info :=
  match topics r with
  | Some m => match m !! topic with
              | Some _ => (true, with_topics r (Some (delete topic m)))
              | None => (false, r)
              end
  | None => (false, r)
  end.

Section Topics.
Context {MO : MapOrder}.

Definition getTopics (r : info) : list string :=
  match topics r with Some m => (range_map m).*1 | None => [] end.

Lemma elem_of_getTopics r t : t ∈ getTopics r <-> subscribed r t = true.
Proof.
  unfold getTopics, subscribed. destruct (topics r) as [m|].
  - by rewrite elem_of_range_fst, bool_decide_eq_true.
  - split; [by intros ?%elem_of_nil|done].
Qed.

End Topics.

(** The set of topics after each operation. *)
Lemma subscribed_SubscribeTopics l r t :
  subscribed (SubscribeTopics l r) t = subscribed r t || bool_decide (t ∈ l /\ t <> EmptyString).
Proof.
  unfold SubscribeTopics, subscribed at 1. cbn [topics with_topics].
  assert (forall m : gmap string unit, bool_decide (is_Some (foldl (fun m topic =>
    if is_empty topic then m
    else match m !! topic with Some _ => m | None => <[topic := tt]> m end) m l !! t))
    = bool_decide (is_Some (m !! t)) || bool_decide (t ∈ l /\ t <> EmptyString)) as H.
  { induction l as [|k l IH]; intros m; cbn [foldl].
    { rewrite (bool_decide_eq_false_2 (t ∈ [] /\ _)) by set_solver. by rewrite orb_false_r. }
    rewrite IH. apply Bool.eq_iff_eq_true. rewrite !orb_true_iff, !bool_decide_eq_true, elem_of_cons.
    destruct (is_empty k) eqn:Ek.
    { apply is_empty_true in Ek. naive_solver. }
    apply is_empty_false in Ek. destruct (m !! k) eqn:Em.
    - split; [naive_solver|]. intros [?|[[->|?] ?]]; [naive_solver|left; eauto|naive_solver].
    - rewrite lookup_insert_is_Some. destruct (decide (k = t)); naive_solver. }
  rewrite H. unfold subscribed. destruct (topics r); [done|]. cbn [default].
  rewrite (bool_decide_eq_false_2 (is_Some (∅ !! t))); [done|]. rewrite lookup_empty. by intros [].
Qed.

Lemma subscribed_UnsubscribeTopics l r t :
  subscribed (UnsubscribeTopics l r) t = subscribed r t && bool_decide (t ∉ l).
Proof.
  unfold UnsubscribeTopics, subscribed. destruct (topics r) as [m|] eqn:E; [|by cbn; rewrite E].
  cbn [topics with_topics].
  clear E. revert m; induction l as [|k l IH]; intros m; cbn [foldl].
  { rewrite (bool_decide_eq_true_2 (t ∉ [])) by set_solver. by rewrite andb_true_r. }
  rewrite IH. apply Bool.eq_iff_eq_true.
  rewrite !andb_true_iff, !bool_decide_eq_true, lookup_delete_is_Some, not_elem_of_cons. naive_solver.
Qed.

Lemma UnsubscribeTopic_spec t r :
  (UnsubscribeTopic t r).1 = subscribed r t /\
  forall k, subscribed (UnsubscribeTopic t r).2 k = subscribed r k && bool_decide (k <> t).
Proof.
  unfold UnsubscribeTopic, subscribed. destruct (topics r) as [m|] eqn:E.
  - destruct (m !! t) eqn:Et; cbn [fst snd topics with_topics]; rewrite ?E.
    + split; [by rewrite bool_decide_eq_true_2 by eauto|]. intros k.
      apply Bool.eq_iff_eq_true. rewrite !andb_true_iff, !bool_decide_eq_true, lookup_delete_is_Some.
      naive_solver.
    + split; [rewrite bool_decide_eq_false_2; [done|by intros []]|]. intros k.
      apply Bool.eq_iff_eq_true. rewrite !andb_true_iff, !bool_decide_eq_true.
      split; [|naive_solver]. intros Hk. split; [done|]. intros ->. rewrite Et in Hk. by destruct Hk.
  - cbn. rewrite E. done.
Qed.

(** ** The limiter over a sequence of calls. *)

Fixpoint run_allow (cf : config) (times : list Z) (r : info) : list bool * info :=
  match times with
  | [] => ([], r)
  | now :: times' =>
      let '(b, r1) := Allow cf now r in
      let '(bs, r2) := run_allow cf times' r1 in
      (b :: bs, r2)
  end.

(** How many calls went through. *)
Definition allowed (bs : list bool) : Z := len (filter (fun b => b = true) bs).

Lemma allowed_cons b bs : allowed (b :: bs) = (if b then 1 else 0) + allowed bs.
Proof. unfold allowed, len. rewrite filter_cons. case_decide; destruct b; try done; cbn [length]; lia. Qed.

Lemma allowed_nonneg bs : 0 <= allowed bs.
Proof. unfold allowed, len. lia. Qed.

(** A call inside the current window. *)
Lemma Allow_same_window cf now r :
  0 <= limitWindowRequests r < 2 ^ 31 -> cf_LimitWindowMaxRequests cf < 2 ^ 31 ->
  i64 (now - limitWindowStart r) <= cf_LimitWindowSizeSeconds cf ->
  Allow cf now r =
    if limitWindowRequests r <? cf_LimitWindowMaxRequests cf
    then (true, with_window r (limitWindowStart r) (limitWindowRequests r + 1)) else (false, r).
Proof.
  intros Hreq Hmax Hnow. unfold Allow.
  destruct (Z.ltb_spec (limitWindowRequests r) 0); [lia|].
  destruct (Z.ltb_spec (cf_LimitWindowSizeSeconds cf) (i64 (now - limitWindowStart r))); [lia|].
  destruct (Z.ltb_spec (limitWindowRequests r) (cf_LimitWindowMaxRequests cf)); [|done].
  by rewrite i32_small by lia.
Qed.

(** Inside one window the limiter lets through exactly the requests that are
    left of [LimitWindowMaxRequests], however many calls there are. *)
Theorem run_allow_window cf times r :
  0 <= limitWindowRequests r < 2 ^ 31 -> cf_LimitWindowMaxRequests cf < 2 ^ 31 ->
  Forall (fun now => i64 (now - limitWindowStart r) <= cf_LimitWindowSizeSeconds cf) times ->
  allowed (run_allow cf times r).1 =
    Z.min (len times) (Z.max 0 (cf_LimitWindowMaxRequests cf - limitWindowRequests r)).
Proof.
  intros Hreq Hmax Ht. revert r Hreq Ht.
  induction times as [|now times IH]; intros r Hreq Ht; cbn [run_allow].
  { change (allowed [] = Z.min 0 (Z.max 0 (cf_LimitWindowMaxRequests cf - limitWindowRequests r))).
    change (allowed []) with 0. lia. }
  inversion Ht as [|? ? Hnow Ht']; subst. rewrite Allow_same_window by done.
  pose proof (len_nonneg times) as Hn. rewrite len_cons.
  destruct (Z.ltb_spec (limitWindowRequests r) (cf_LimitWindowMaxRequests cf)) as [Hlt|Hge].
  - set (r1 := with_window r _ _).
    specialize (IH r1 ltac:(cbn; lia) Ht'). destruct (run_allow cf times r1) as [bs r2].
    cbn [fst] in *. rewrite allowed_cons, IH. cbn [limitWindowRequests with_window r1]. lia.
  - specialize (IH r Hreq Ht'). destruct (run_allow cf times r) as [bs r2].
    cbn [fst] in *. rewrite allowed_cons, IH. lia.
Qed.

Definition demo_config : config :=
  mkConfig false "/" [] 100 60 64 OpText [104] 1 3 2
           EmptyString EmptyString EmptyString EmptyString 1024 16 [112] 1024 [113] [] [].

Lemma run_allow_window_witness :
  allowed (run_allow demo_config [10; 10; 11; 10; 11]
             (mkInfo false 1 10 "u" "" "" None 1 10)).1 = 2.
Proof.
  rewrite (run_allow_window demo_config); [reflexivity|cbn; lia|cbn; lia|].
  repeat constructor; vm_compute; discriminate.
Defined.

(** Two connections made by one process are never confused: the identifiers
    of two calls whose counters differ differ as strings and as numbers, and the
    string fixes the number. *)
Theorem New_distinct tpl t1 t2 c1 c2 :
  length tpl = 12%nat ->
  let '((s1, i1), _) := UniqIdGen.New tpl t1 c1 in
  let '((s2, i2), _) := UniqIdGen.New tpl t2 c2 in
  (s1 = s2 <-> i1 = i2) /\ (u32 (c1 + 1) <> u32 (c2 + 1) -> s1 <> s2).
Proof.
  intros Htpl. unfold UniqIdGen.New.
  pose proof (u32_range (c1 + 1)) as H1. pose proof (u32_range (c2 + 1)) as H2.
  pose proof (u32_range t1) as T1. pose proof (u32_range t2) as T2.
  rewrite !UniqIdGen.id_value by done.
  set (s := fun a b => String.string_of_list_ascii
    (take 12 tpl ++ UniqIdGen.encodeUint32ToHex a ++ UniqIdGen.encodeUint32ToHex b)).
  assert (forall a b c d, 0 <= a < 2 ^ 32 -> 0 <= b < 2 ^ 32 -> 0 <= c < 2 ^ 32 -> 0 <= d < 2 ^ 32 ->
            s a b = s c d -> a = c /\ b = d) as Hs.
  { intros a b c d Ha Hb Hc Hd E. unfold s in E.
    apply (f_equal String.list_ascii_of_string) in E.
    rewrite !String.list_ascii_of_string_of_list_ascii in E.
    apply app_inv_head in E. apply app_inj_1 in E as [E1 E2]; [|by rewrite !UniqIdGen.length_encode].
    split; by apply UniqIdGen.encode_inj. }
  change (String.string_of_list_ascii _) with (s (u32 t1) (u32 (c1 + 1))) at 1.
  fold (s (u32 t1) (u32 (c1 + 1))). fold (s (u32 t2) (u32 (c2 + 1))).
  split; [split|].
  - intros E. apply Hs in E as [-> ->]; auto.
  - intros E. assert (u32 t1 = u32 t2 /\ u32 (c1 + 1) = u32 (c2 + 1)) as [-> ->]; [lia|done].
  - intros Hne E. apply Hs in E as [_ E]; auto.
Qed.

Lemma New_distinct_witness :
  let '((s1, _), c1) := UniqIdGen.New (String.list_ascii_of_string "7f00000117ad") 1700000000 5 in
  let '((s2, _), _) := UniqIdGen.New (String.list_ascii_of_string "7f00000117ad") 1700000000 c1 in
  s1 <> s2.
Proof.
  apply (New_distinct (String.list_ascii_of_string "7f00000117ad") 1700000000 1700000000 5 6); [done|].
  vm_compute. discriminate.
Defined.
