(* ===== verification/Proto.v ===== *)
(** The messages of netsvr-protocol-go that the gateway exchanges with the
    business processes, as records, and the protobuf encoding as a parameter. *)

From S2P Require Export Info.

(** ** netsvrProtocol.Event *)

Definition Event_Placeholder : Z := 0.
Definition Event_OnOpen : Z := 1.
Definition Event_OnClose : Z := 2.
Definition Event_OnMessage : Z := 4.

(** The values of the map [Event_value]. *)
Definition Event_values : list Z := [Event_Placeholder; Event_OnOpen; Event_OnClose; Event_OnMessage].

(** ** netsvrProtocol.Cmd *)

Definition Cmd_ConnOpen : Z := 900001001.
Definition Cmd_ConnClose : Z := 900001002.
Definition Cmd_Transfer : Z := 900001003.
Definition Cmd_ConnInfoUpdate : Z := 900002001.
Definition Cmd_ConnInfoDelete : Z := 900002002.
Definition Cmd_BroadcastBulk : Z := 900002003.
Definition Cmd_SingleCastBulk : Z := 900002007.
Definition Cmd_SingleCastBulkByCustomerId : Z := 900002009.
Definition Cmd_TopicSubscribe : Z := 900002010.
Definition Cmd_TopicUnsubscribe : Z := 900002011.
Definition Cmd_TopicDelete : Z := 900002012.
Definition Cmd_TopicPublishBulk : Z := 900002014.
Definition Cmd_ForceOffline : Z := 900002015.
Definition Cmd_ForceOfflineByCustomerId : Z := 900002016.
Definition Cmd_ForceOfflineGuest : Z := 900002017.
Definition Cmd_Register : Z := 900003001.
Definition Cmd_Unregister : Z := 900003002.
Definition Cmd_CheckOnline : Z := 900003003.
Definition Cmd_CustomerIdList : Z := 900003004.
Definition Cmd_CustomerIdCount : Z := 900003005.
Definition Cmd_UniqIdList : Z := 900003006.
Definition Cmd_UniqIdCount : Z := 900003007.
Definition Cmd_TopicList : Z := 900003008.
Definition Cmd_TopicCount : Z := 900003009.
Definition Cmd_TopicUniqIdList : Z := 900003010.
Definition Cmd_TopicUniqIdCount : Z := 900003011.
Definition Cmd_TopicCustomerIdList : Z := 900003012.
Definition Cmd_TopicCustomerIdToUniqIdsList : Z := 900003013.
Definition Cmd_TopicCustomerIdCount : Z := 900003014.
Definition Cmd_ConnInfo : Z := 900003015.
Definition Cmd_ConnInfoByCustomerId : Z := 900003016.
Definition Cmd_Metrics : Z := 900003017.
Definition Cmd_Limit : Z := 900003018.

(** ** The requests of the business processes. *)

Record BroadcastBulk := mkBroadcastBulk { bb_Data : list bytes }.
Record CheckOnlineReq := mkCheckOnlineReq { co_UniqIds : list string }.
Record ConnInfoReq := mkConnInfoReq {
  ci_UniqIds : list string; ci_ReqSession : bool; ci_ReqCustomerId : bool; ci_ReqTopic : bool }.
Record ConnInfoByCustomerIdReq := mkConnInfoByCustomerIdReq {
  cc_CustomerIds : list string; cc_ReqSession : bool; cc_ReqUniqId : bool; cc_ReqTopic : bool }.
Record ConnInfoUpdate := mkConnInfoUpdate {
  cu_UniqId : string; cu_NewSession : string; cu_NewCustomerId : string;
  cu_NewTopics : list string; cu_Data : bytes }.
Record ConnInfoDelete := mkConnInfoDelete {
  cd_UniqId : string; cd_DelSession : bool; cd_DelCustomerId : bool; cd_DelTopic : bool;
  cd_Data : bytes }.
Record ForceOffline := mkForceOffline { fo_UniqIds : list string; fo_Data : bytes }.
Record ForceOfflineByCustomerId := mkForceOfflineByCustomerId {
  fc_CustomerIds : list string; fc_Data : bytes }.
Record ForceOfflineGuest := mkForceOfflineGuest {
  fg_UniqIds : list string; fg_Delay : Z; fg_Data : bytes }.
Record LimitReq := mkLimitReq { lq_OnOpen : Z; lq_OnMessage : Z }.
Record SingleCastBulkItem := mkSingleCastBulkItem { si_UniqIds : list string; si_Data : list bytes }.
Record SingleCastBulk := mkSingleCastBulk { sb_Items : list SingleCastBulkItem }.
Record SingleCastBulkByCustomerIdItem := mkSingleCastBulkByCustomerIdItem {
  sc_CustomerIds : list string; sc_Data : list bytes }.
Record SingleCastBulkByCustomerId := mkSingleCastBulkByCustomerId {
  sbc_Items : list SingleCastBulkByCustomerIdItem }.
Record TopicsReq := mkTopicsReq { tq_Topics : list string }.
Record TopicDelete := mkTopicDelete { td_Topics : list string; td_Data : bytes }.
Record TopicPublishBulkItem := mkTopicPublishBulkItem { tp_Topics : list string; tp_Data : list bytes }.
Record TopicPublishBulk := mkTopicPublishBulk { tpb_Items : list TopicPublishBulkItem }.
Record TopicSubscribe := mkTopicSubscribe { ts_UniqId : string; ts_Topics : list string; ts_Data : bytes }.
Record TopicUnsubscribe := mkTopicUnsubscribe { tu_UniqId : string; tu_Topics : list string; tu_Data : bytes }.
Record RegisterReq := mkRegisterReq { rq_Events : Z }.
Record UnRegisterReq := mkUnRegisterReq { uq_ConnId : string }.

(** The answer of the connection-open callback. *)
Record ConnOpenResp := mkConnOpenResp {
  or_Allow : bool; or_NewSession : string; or_NewCustomerId : string;
  or_NewTopics : list string; or_Data : bytes }.

(** ** What the gateway sends. *)

Record ConnOpen := mkConnOpen {
  op_UniqId : string; op_RawQuery : string; op_XForwardedFor : string;
  op_XRealIp : string; op_RemoteAddr : string }.
Record ConnClose := mkConnClose {
  cl_UniqId : string; cl_CustomerId : string; cl_Session : string; cl_Topics : list string }.
Record Transfer := mkTransfer {
  tf_UniqId : string; tf_CustomerId : string; tf_Session : string; tf_Topics : list string;
  tf_Data : bytes }.
Record ConnInfoRespItem := mkConnInfoRespItem {
  ri_Session : string; ri_CustomerId : string; ri_Topics : list string }.
Record ConnInfoByCustomerIdRespItem := mkConnInfoByCustomerIdRespItem {
  rc_Session : string; rc_UniqId : string; rc_Topics : list string }.
Record MetricsRespItem := mkMetricsRespItem { mi_Item : Z; mi_Count : Z }.

Inductive RegisterRespCode := RegisterSuccess | UnmarshalError | InvalidEvent | DuplicateRegister.

(** One constructor per message type. *)
Inductive message : Type :=
  | MConnOpen (m : ConnOpen)
  | MConnClose (m : ConnClose)
  | MTransfer (m : Transfer)
  | MUniqIdListResp (UniqIds : list string)
  | MUniqIdCountResp (Count : Z)
  | MCheckOnlineResp (UniqIds : list string)
  | MCustomerIdListResp (CustomerIds : list string)
  | MCustomerIdCountResp (Count : Z)
  | MTopicListResp (Topics : list string)
  | MTopicCountResp (Count : Z)
  | MTopicUniqIdListResp (Items : gmap string (list string))
  | MTopicUniqIdCountResp (Items : gmap string Z)
  | MTopicCustomerIdListResp (Items : gmap string (list string))
  | MTopicCustomerIdCountResp (Items : gmap string Z)
  | MTopicCustomerIdToUniqIdsListResp (Items : gmap string (gmap string (list string)))
  | MConnInfoResp (Items : gmap string ConnInfoRespItem)
  | MConnInfoByCustomerIdResp (Items : gmap string (list ConnInfoByCustomerIdRespItem))
  | MMetricsResp (Items : gmap Z MetricsRespItem)
  | MLimitResp (OnOpen OnMessage : Z)
  | MRegisterResp (Code : RegisterRespCode) (Message ConnId : string)
  | MUnRegisterResp.

(** [google.golang.org/protobuf/proto]: encoding and decoding may fail. *)
Class Proto : Type := {
  marshal : message -> option bytes;
  marshal_error : message -> string;       (* the texts of the errors *)
  unmarshal_error : bytes -> string;
  proto_size : message -> Z;               (* proto.Size *)
  byteslice_cap : Z -> Z;                  (* the capacity of byteslice.Get(size) *)
  unmarshal_BroadcastBulk : bytes -> option BroadcastBulk;
  unmarshal_CheckOnlineReq : bytes -> option CheckOnlineReq;
  unmarshal_ConnInfoReq : bytes -> option ConnInfoReq;
  unmarshal_ConnInfoByCustomerIdReq : bytes -> option ConnInfoByCustomerIdReq;
  unmarshal_ConnInfoUpdate : bytes -> option ConnInfoUpdate;
  unmarshal_ConnInfoDelete : bytes -> option ConnInfoDelete;
  unmarshal_ForceOffline : bytes -> option ForceOffline;
  unmarshal_ForceOfflineByCustomerId : bytes -> option ForceOfflineByCustomerId;
  unmarshal_ForceOfflineGuest : bytes -> option ForceOfflineGuest;
  unmarshal_LimitReq : bytes -> option LimitReq;
  unmarshal_SingleCastBulk : bytes -> option SingleCastBulk;
  unmarshal_SingleCastBulkByCustomerId : bytes -> option SingleCastBulkByCustomerId;
  unmarshal_TopicsReq : Z -> bytes -> option TopicsReq;   (* the request of a Cmd *)
  unmarshal_TopicDelete : bytes -> option TopicDelete;
  unmarshal_TopicPublishBulk : bytes -> option TopicPublishBulk;
  unmarshal_TopicSubscribe : bytes -> option TopicSubscribe;
  unmarshal_TopicUnsubscribe : bytes -> option TopicUnsubscribe;
  unmarshal_RegisterReq : bytes -> option RegisterReq;
  unmarshal_UnRegisterReq : bytes -> option UnRegisterReq;
  unmarshal_ConnOpenResp : bytes -> option ConnOpenResp;
}.
