(* ===== verification/State.v ===== *)
(** The shared state of the gateway process: the heap of WebSocket connections,
    the three registries of src/internal/customer, the worker connections, what
    the surrounding libraries answer and a log of what the process did.  Every
    handler of the development is a goroutine ([Go.go]) on this state. *)

From S2P Require Export Proto Shard.

(** ** Connections *)

(** A pointer to a [wsServer.Conn]. *)
Abbreviation ptr := nat.

(** [wsServer.Conn]: codec, info and the [gnet.Conn].  [async_fails] is whether
    the library refuses the next [AsyncWrite] (the connection is gone),
    [write_fails] the same for a [Write] on the event loop. *)
Record Conn := mkConn {
  c_codec : codec;
  c_info : info;
  c_gnet : gnetConn;
  c_remote : string;
  async_fails : bool;
  write_fails : bool;
}.

Definition upd_codec (f : codec -> codec) (c : Conn) : Conn :=
  mkConn (f (c_codec c)) (c_info c) (c_gnet c) (c_remote c) (async_fails c) (write_fails c).
Definition upd_info (f : info -> info) (c : Conn) : Conn :=
  mkConn (c_codec c) (f (c_info c)) (c_gnet c) (c_remote c) (async_fails c) (write_fails c).
Definition upd_gnet (f : gnetConn -> gnetConn) (c : Conn) : Conn :=
  mkConn (c_codec c) (c_info c) (f (c_gnet c)) (c_remote c) (async_fails c) (write_fails c).

(** A [net.Conn] of a business process: the bytes still to come, the bytes
    written, and what the next calls report, in order (an empty list stands for
    success); a failing write gets some bytes out. *)
Record netConn := mkNet {
  n_in : bytes;
  n_out : bytes;
  n_closed : bool;
  read_deadline_fails : list bool;
  write_deadline_fails : list bool;
  write_fails_at : list (option nat);
}.

(** ** The customer-side output frame (customer.Frame) *)

Record Frame := mkFr {
  messageType : Z;
  data : bytes;
  compressed : option bytes;
  uncompressed : option bytes;
}.

(** ** The send queue of a worker connection, by its specification. *)

Record fifo (A : Type) := mkFifo { q_cap : nat; q_items : list A; q_closed : bool }.
Arguments mkFifo {A} _ _ _.
Arguments q_cap {A} _.
Arguments q_items {A} _.
Arguments q_closed {A} _.

Definition fifo_enqueue {A} (x : A) (q : fifo A) : bool * fifo A :=
  if q_closed q then (false, q)
  else if (q_cap q <=? length (q_items q))%nat then (false, q)
  else (true, mkFifo (q_cap q) (q_items q ++ [x]) false).

(** At most [n] elements; [None] is a caller that waits. *)
Definition fifo_dequeue {A} (n : nat) (q : fifo A) : option (list A * fifo A) :=
  match q_items q with
  | [] => if q_closed q then Some ([], q) else None
  | items => Some (take n items, mkFifo (q_cap q) (drop n items) (q_closed q))
  end.

Definition fifo_close {A} (q : fifo A) : fifo A := mkFifo (q_cap q) (q_items q) true.

(** ** Worker connections (worker.Conn, worker.packet, worker.collect) *)

(** [body_cap] is the capacity of the slice [body]. *)
Record packet := mkPacket { header : bytes; body : bytes; body_cap : Z }.

Record workerConn := mkWorkerConn {
  w_net : netConn;
  sendCh : fifo packet;
  connId : string;
  closeLock : Z;      (* int32 *)
  events : Z;         (* int32 *)
  dequeueSize : nat;
}.

Record collect := mkCollect { k_conn : list ptr; k_index : Z }.

(** ** What the process did. *)

Inductive sink := Amqp091 | RedisQueue.

(** An HTTP response before the upgrade. *)
Record response := mkResponse { StatusCode : Z; rs_Header : list (string * string); rs_Body : string }.

Inductive effect : Type :=
  | EAsyncWrite (p : ptr) (b : bytes)              (* queued by gnet *)
  | EWrite (p : ptr) (b : bytes)                   (* written on the event loop *)
  | EHttp (p : ptr) (resp : response)              (* an HTTP response *)
  | EClose (p : ptr)                               (* gnet.Conn.Close *)
  | ECloseLater (p : ptr)                          (* ... by a timer, in two seconds *)
  | EHeartbeat (p : ptr)                           (* the periodic check is scheduled *)
  | EDelayed (delay : Z)                           (* timer.AfterFunc *)
  | EForward (s : sink) (event : Z) (m : message)  (* a queue other than the worker's *)
  | ECallback (api : string) (body : bytes).       (* an HTTP POST *)

(** ** What the libraries answer. *)

(** The answer of an HTTP POST: the text of an error, or a status and a body,
    or the text of the error that reading the body gives. *)
Inductive httpAnswer : Type :=
  | HttpError (err : string)
  | HttpStatus (status : Z) (body : bytes + string).

(** Each list is what the next calls get, in order; an empty list stands for the
    usual answer (no error, the limiter allows). *)
Record environment := mkEnv {
  now : Z;                          (* time.Now().Unix() *)
  quitting : bool;                  (* quit.Ctx.Done() *)
  online : Z;                       (* eng.CountConnections() *)
  submit_errs : list (option string);   (* goroutine.DefaultWorkerPool.Submit *)
  rate_answers : list bool;         (* rate.Limiter.Allow *)
  http_answers : list httpAnswer;   (* the callback server *)
  incrId : Z;                       (* the counter of uniqIdGen *)
}.

(** ** The state. *)

Record registries := mkReg {
  m_shards : list (gmap string ptr);            (* manager.Manager *)
  m_len : Z;                                    (* uint32 *)
  b_shards : list (gmap string (gmap Z ptr));   (* binder.Binder *)
  t_shards : list (gmap string (gmap Z ptr));   (* topic.Topic *)
}.

Record world := mkWorld {
  heap : gmap ptr Conn;
  reg : registries;
  frame_pool : list Frame;
  meters : gmap Z Z;                     (* the metrics that are counted *)
  limiters : gmap Z Z;                   (* the limit of each real rate limiter *)
  env : environment;
  tasks : gmap ptr netConn;
  workers : gmap ptr workerConn;
  collects : gmap Z collect;             (* worker.Manager *)
  effects : list effect;
}.

Definition with_heap (f : gmap ptr Conn -> gmap ptr Conn) (w : world) : world :=
  mkWorld (f (heap w)) (reg w) (frame_pool w) (meters w) (limiters w) (env w) (tasks w)
          (workers w) (collects w) (effects w).
Definition with_reg (f : registries -> registries) (w : world) : world :=
  mkWorld (heap w) (f (reg w)) (frame_pool w) (meters w) (limiters w) (env w) (tasks w)
          (workers w) (collects w) (effects w).
Definition with_pool (l : list Frame) (w : world) : world :=
  mkWorld (heap w) (reg w) l (meters w) (limiters w) (env w) (tasks w)
          (workers w) (collects w) (effects w).
Definition with_meters (f : gmap Z Z -> gmap Z Z) (w : world) : world :=
  mkWorld (heap w) (reg w) (frame_pool w) (f (meters w)) (limiters w) (env w) (tasks w)
          (workers w) (collects w) (effects w).
Definition with_limiters (f : gmap Z Z -> gmap Z Z) (w : world) : world :=
  mkWorld (heap w) (reg w) (frame_pool w) (meters w) (f (limiters w)) (env w) (tasks w)
          (workers w) (collects w) (effects w).
Definition with_env (e : environment) (w : world) : world :=
  mkWorld (heap w) (reg w) (frame_pool w) (meters w) (limiters w) e (tasks w)
          (workers w) (collects w) (effects w).
Definition with_tasks (f : gmap ptr netConn -> gmap ptr netConn) (w : world) : world :=
  mkWorld (heap w) (reg w) (frame_pool w) (meters w) (limiters w) (env w) (f (tasks w))
          (workers w) (collects w) (effects w).
Definition with_workers (f : gmap ptr workerConn -> gmap ptr workerConn) (w : world) : world :=
  mkWorld (heap w) (reg w) (frame_pool w) (meters w) (limiters w) (env w) (tasks w)
          (f (workers w)) (collects w) (effects w).
Definition with_collects (f : gmap Z collect -> gmap Z collect) (w : world) : world :=
  mkWorld (heap w) (reg w) (frame_pool w) (meters w) (limiters w) (env w) (tasks w)
          (workers w) (f (collects w)) (effects w).
Definition with_effect (e : effect) (w : world) : world :=
  mkWorld (heap w) (reg w) (frame_pool w) (meters w) (limiters w) (env w) (tasks w)
          (workers w) (collects w) (effects w ++ [e]).

Definition with_m (s : list (gmap string ptr)) (n : Z) (r : registries) : registries :=
  mkReg s n (b_shards r) (t_shards r).
Definition with_b (s : list (gmap string (gmap Z ptr))) (r : registries) : registries :=
  mkReg (m_shards r) (m_len r) s (t_shards r).
Definition with_t (s : list (gmap string (gmap Z ptr))) (r : registries) : registries :=
  mkReg (m_shards r) (m_len r) (b_shards r) s.

(** The programs of the development. *)
Abbreviation prog := (go world).

(** ** Access to a connection. *)

(** An atomic operation on the connection [p]; a wild pointer panics. *)
Definition conn_act {A} (p : ptr) (f : Conn -> A * Conn) : prog A :=
  Act (fun w => match heap w !! p with
                | Some c => AOk (f c).1 (with_heap (insert p (f c).2) w)
                | None => APanic
                end) Ret.

(** Reading a connection. *)
Definition conn_get {A} (p : ptr) (f : Conn -> A) : prog A :=
  Act (fun w => match heap w !! p with Some c => AOk (f c) w | None => APanic end) Ret.

(** [conn.Lock()]: waits while another goroutine holds the lock. *)
Definition Lock (p : ptr) : prog unit :=
  Act (fun w => match heap w !! p with
                | Some c => if locked (c_info c) then ABlock
                            else AOk tt (with_heap (insert p (upd_info (fun r => with_locked r true) c)) w)
                | None => APanic
                end) Ret.

(** [conn.UnLock()]: unlocking a free mutex is a fatal error. *)
Definition UnLock (p : ptr) : prog unit :=
  Act (fun w => match heap w !! p with
                | Some c => if locked (c_info c)
                            then AOk tt (with_heap (insert p (upd_info (fun r => with_locked r false) c)) w)
                            else APanic
                | None => APanic
                end) Ret.

(** A section under [RLock]/[RUnlock] or [Lock]/[Unlock] with nothing in between
    but the operation: one action that waits for the lock. *)
Definition locked_act {A} (p : ptr) (f : info -> A * info) : prog A :=
  Act (fun w => match heap w !! p with
                | Some c => if locked (c_info c) then ABlock
                            else AOk (f (c_info c)).1
                                     (with_heap (insert p (upd_info (fun r => (f r).2) c)) w)
                | None => APanic
                end) Ret.

Definition locked_get {A} (p : ptr) (f : info -> A) : prog A :=
  Act (fun w => match heap w !! p with
                | Some c => if locked (c_info c) then ABlock else AOk (f (c_info c)) w
                | None => APanic
                end) Ret.

(** ** The surrounding libraries. *)

Definition emit (e : effect) : prog unit := modify (with_effect e).

(** [metrics.Registry[item].Meter.Mark(n)]: an item that is not configured has a
    meter that does nothing. *)
Definition Mark (item n : Z) : prog unit := modify (with_meters (alter (Z.add n) item)).

Definition ItemCustomerConnOpenCount : Z := 1.
Definition ItemCustomerConnCloseCount : Z := 2.
Definition ItemCustomerHeartbeatCount : Z := 3.
Definition ItemWorkerToBusinessSucceedCount : Z := 4.
Definition ItemWorkerToBusinessSucceedByte : Z := 5.
Definition ItemCustomerWriteCount : Z := 6.
Definition ItemCustomerWriteByte : Z := 7.
Definition ItemOpenRateLimitCount : Z := 8.
Definition ItemMessageRateLimitCount : Z := 9.
Definition ItemWorkerToBusinessFailedCount : Z := 10.
Definition ItemCustomerWriteFailedCount : Z := 11.
Definition ItemCustomerWriteFailedByte : Z := 12.
Definition ItemConnectionMessageRateLimitCount : Z := 13.
Definition ItemCallbackToBusinessSucceedCount : Z := 17.
Definition ItemCallbackToBusinessSucceedByte : Z := 18.
Definition ItemCallbackToBusinessFailedCount : Z := 19.

Definition set_now (z : Z) (e : environment) : environment :=
  mkEnv z (quitting e) (online e) (submit_errs e) (rate_answers e) (http_answers e) (incrId e).

(** The next answer of a list, and the environment after it. *)
Definition next_submit (e : environment) : option string * environment :=
  (default None (head (submit_errs e)),
   mkEnv (now e) (quitting e) (online e) (tail (submit_errs e)) (rate_answers e) (http_answers e) (incrId e)).
Definition next_rate (e : environment) : bool * environment :=
  (default true (head (rate_answers e)),
   mkEnv (now e) (quitting e) (online e) (submit_errs e) (tail (rate_answers e)) (http_answers e) (incrId e)).
Definition next_http (e : environment) : httpAnswer * environment :=
  (default (HttpError EmptyString) (head (http_answers e)),
   mkEnv (now e) (quitting e) (online e) (submit_errs e) (rate_answers e) (tail (http_answers e)) (incrId e)).

Definition ask {A} (f : environment -> A * environment) : prog A :=
  act (fun w => ((f (env w)).1, with_env (f (env w)).2 w)).

(** [goroutine.DefaultWorkerPool.Submit(fn)]: the error, if any. *)
Definition Submit (fn : prog unit) : prog (option string) :=
  err <- ask next_submit ;;
  match err with
  | Some e => Ret (Some e)
  | None => spawn fn ;; Ret None
  end.
