(* ===== verification/Relation.v ===== *)
(** What the binder and the topic registry share: a map from a name to the set of
    connections under it, [map[string]map[uint64]*wsServer.Conn], spread over the
    shards of [Shard]; the loops over shards of all three registries. *)

From S2P Require Export State.

(** ** One shard: adding and removing a connection. *)

Section OneShard.
Context {V : Type}.

Abbreviation names := (gmap string (gmap Z V)).

(** [c, ok := sd.data[t]]; the inner map is made when there is none. *)
Definition rel_set (i : Z) (p : V) (m : names) (t : string) : names :=
  match m !! t with
  | Some c => <[t := <[i := p]> c]> m
  | None => <[t := <[i := p]> ∅]> m
  end.

(** [delete(c, id)], and the name when its set is empty. *)
Definition rel_del (i : Z) (m : names) (t : string) : names :=
  match m !! t with
  | Some c => let c := delete i c in
              if (size c =? 0)%nat then delete t m else <[t := c]> m
  | None => m
  end.

(** The effect of each on the set of one name. *)
Definition set_entry (i : Z) (p : V) (o : option (gmap Z V)) : option (gmap Z V) :=
  Some (<[i := p]> (default ∅ o)).

Definition del_entry (i : Z) (o : option (gmap Z V)) : option (gmap Z V) :=
  match o with
  | Some c => let c := delete i c in if (size c =? 0)%nat then None else Some c
  | None => None
  end.

Lemma rel_set_lookup i p m t k :
  rel_set i p m t !! k = if decide (t = k) then set_entry i p (m !! k) else m !! k.
Proof.
  unfold rel_set, set_entry. case_decide as Hk; [subst k|].
  - destruct (m !! t); by rewrite lookup_insert_eq.
  - destruct (m !! t); by rewrite lookup_insert_ne.
Qed.

Lemma rel_del_lookup i m t k :
  rel_del i m t !! k = if decide (t = k) then del_entry i (m !! k) else m !! k.
Proof.
  unfold rel_del, del_entry. case_decide as Hk; [subst k|].
  - destruct (m !! t) eqn:E; [|done].
    destruct (_ =? 0)%nat; [by rewrite lookup_delete_eq|by rewrite lookup_insert_eq].
  - destruct (m !! t); [|done].
    destruct (_ =? 0)%nat; [by rewrite lookup_delete_ne|by rewrite lookup_insert_ne].
Qed.

Lemma set_entry_idemp i p o : set_entry i p (set_entry i p o) = set_entry i p o.
Proof. unfold set_entry. cbn. by rewrite insert_insert_eq. Qed.

Lemma del_entry_idemp i o : del_entry i (del_entry i o) = del_entry i o.
Proof.
  unfold del_entry. destruct o as [c|]; [|done].
  destruct (size (delete i c) =? 0)%nat eqn:E; [done|]. by rewrite delete_delete_eq, E.
Qed.

(** A connection is under a name. *)
Definition member (o : option (gmap Z V)) (i : Z) : option V := o ≫= (!!) i.

Lemma member_set i p o j : member (set_entry i p o) j = if decide (i = j) then Some p else member o j.
Proof.
  unfold member, set_entry. cbn. case_decide as Hj; [subst; by rewrite lookup_insert_eq|].
  rewrite lookup_insert_ne by done. by destruct o; cbn; rewrite ?lookup_empty.
Qed.

Lemma member_del i o j : member (del_entry i o) j = if decide (i = j) then None else member o j.
Proof.
  unfold member, del_entry. destruct o as [c|]; [|by case_decide].
  cbn [mbind option_bind]. destruct (Nat.eqb_spec (size (delete i c)) 0) as [E|E]; cbn.
  - apply map_size_empty_iff in E. case_decide as Hj; [done|].
    by rewrite <- (lookup_delete_ne c i j Hj), E, lookup_empty.
  - case_decide as Hj; [subst; by rewrite lookup_delete_eq|by rewrite lookup_delete_ne].
Qed.

(** No name has an empty set. *)
Definition no_empty (o : option (gmap Z V)) : Prop := o <> Some ∅.

Lemma no_empty_set i p o : no_empty (set_entry i p o).
Proof. unfold no_empty, set_entry. intros [= E]. by apply insert_non_empty in E. Qed.

Lemma no_empty_del i o : no_empty (del_entry i o).
Proof.
  unfold no_empty, del_entry. destruct o as [c|]; [|done].
  destruct (Nat.eqb_spec (size (delete i c)) 0) as [E|E]; [done|].
  intros [= E']. rewrite E', map_size_empty in E. done.
Qed.

End OneShard.

(** ** Reading names: of a list of keys, and of all the shards. *)

Section Reading.
Context {MO : MapOrder} {V R : Type} (h : V -> R).

(** Some keys, grouped by shard. *)
Definition select_group (m : gmap string V) (ret : gmap string R) (l : list string) : gmap string R :=
  foldl (fun ret k => match m !! k with Some c => <[k := h c]> ret | None => ret end) ret l.

Definition select (keys : list string) (s : list (gmap string V)) : gmap string R :=
  foldl (fun ret x => if no_keys x then ret else select_group (shard s x.1) ret x.2) ∅ (groups keys).

Lemma select_group_lookup m ret l k :
  select_group m ret l !! k =
    if decide (k ∈ l) then match m !! k with Some c => Some (h c) | None => ret !! k end else ret !! k.
Proof.
  unfold select_group. revert ret; induction l as [|t l IH]; intros ret; cbn [foldl].
  { by rewrite decide_False by apply not_elem_of_nil. }
  rewrite IH. destruct (m !! t) eqn:Et.
  - destruct (decide (t = k)) as [->|Hne].
    + rewrite Et. rewrite lookup_insert_eq. rewrite (decide_True (P := k ∈ k :: l)) by constructor.
      by case_decide.
    + rewrite lookup_insert_ne by done. apply decide_ext. rewrite elem_of_cons. naive_solver.
  - destruct (decide (t = k)) as [->|Hne].
    + rewrite Et. rewrite (decide_True (P := k ∈ k :: l)) by constructor. by case_decide.
    + apply decide_ext. rewrite elem_of_cons. naive_solver.
Qed.

Lemma select_lookup keys s k :
  select keys s !! k =
    if decide (k ∈ keys /\ k <> EmptyString) then h <$> shard_lookup s k else None.
Proof.
  unfold select.
  enough (forall n, (n <= shardCount)%nat ->
    foldl (fun ret x => if no_keys x then ret else select_group (shard s x.1) ret x.2) ∅
          (take n (groups keys)) !! k =
    if decide ((k ∈ keys /\ k <> EmptyString) /\ (shard_index k < n)%nat)
    then h <$> shard_lookup s k else None) as H.
  { specialize (H shardCount ltac:(lia)). rewrite <- (length_groups keys), firstn_all in H.
    rewrite H, length_groups. pose proof (shard_index_lt k). apply decide_ext. naive_solver. }
  induction n as [|n IH]; intros Hn.
  { cbn. by rewrite decide_False by lia. }
  specialize (IH ltac:(lia)).
  rewrite (take_S_r _ _ (n, filter (in_shard n) keys)) by (apply groups_lookup; lia).
  rewrite foldl_app. cbn [foldl fst snd]. set (ret := foldl _ _ (take n (groups keys))) in *.
  assert (k ∈ filter (in_shard n) keys <-> (k ∈ keys /\ k <> EmptyString) /\ shard_index k = n) as Hin
    by (rewrite list_elem_of_filter; unfold in_shard; naive_solver).
  assert ((if no_keys (n, filter (in_shard n) keys) then ret
           else select_group (shard s n) ret (filter (in_shard n) keys))
          = select_group (shard s n) ret (filter (in_shard n) keys)) as ->.
  { unfold no_keys. cbn. by destruct (filter _ keys). }
  rewrite select_group_lookup, IH. unfold shard_lookup.
  assert ((shard_index k < S n)%nat <-> (shard_index k < n)%nat \/ shard_index k = n) as Hlt by lia.
  destruct (decide (k ∈ filter (in_shard n) keys)) as [Hd|Hd].
  - apply Hin in Hd as [Hd <-]. rewrite (decide_True (P := _ /\ (_ < S _)%nat)) by (split; [done|lia]).
    rewrite decide_False by lia. by destruct (shard s (shard_index k) !! k).
  - apply decide_ext. tauto.
Qed.

(** Every name of every shard. *)
Definition gather (s : list (gmap string V)) : gmap string R :=
  foldl (fun ret i => foldl (fun ret x => <[x.1 := h x.2]> ret) ret (range_map (shard s i)))
        ∅ (seq 0 shardCount).

Lemma foldl_shards {B} (f : B -> gmap string V -> B) (b : B) (s : list (gmap string V)) :
  length s = shardCount ->
  foldl (fun b i => f b (shard s i)) b (seq 0 shardCount) = foldl f b s.
Proof.
  intros <-.
  enough (forall l k, foldl (fun b i => f b (shard (l ++ k) i)) b (seq 0 (length l)) = foldl f b l) as H
    by (specialize (H s []); by rewrite app_nil_r in H).
  clear s. induction l as [|x l IH] using rev_ind; intros k; [done|].
  rewrite length_app, Nat.add_1_r, seq_S, !foldl_app. cbn [foldl Nat.add].
  rewrite <- app_assoc, IH. f_equal. unfold shard. cbn.
  by rewrite list_lookup_middle.
Qed.

Lemma foldl_insert_lookup (l : list (string * V)) (ret : gmap string R) k :
  NoDup l.*1 ->
  foldl (fun ret x => <[x.1 := h x.2]> ret) ret l !! k =
    match (list_to_map l : gmap string V) !! k with Some v => Some (h v) | None => ret !! k end.
Proof.
  revert ret; induction l as [|[t v] l IH]; intros ret Hnd; cbn [foldl fst snd].
  { by rewrite list_to_map_nil, lookup_empty. }
  rewrite fmap_cons in Hnd. apply NoDup_cons in Hnd as [Hni Hnd]. rewrite IH by done. cbn in Hni.
  rewrite list_to_map_cons. destruct (decide (t = k)) as [->|Hne].
  - rewrite !lookup_insert_eq. by rewrite not_elem_of_list_to_map_1.
  - by rewrite !lookup_insert_ne.
Qed.

Lemma gather_lookup s k : wf_shards s -> gather s !! k = h <$> shard_lookup s k.
Proof.
  intros Hwf. unfold gather.
  rewrite (foldl_shards (fun ret m => foldl (fun ret x => <[x.1 := h x.2]> ret) ret (range_map m)))
    by apply Hwf.
  assert (forall (l : list (gmap string V)) (ret : gmap string R),
    foldl (fun ret m => foldl (fun ret x => <[x.1 := h x.2]> ret) ret (range_map m)) ret l
    = foldl (fun ret x => <[x.1 := h x.2]> ret) ret (mjoin (range_map <$> l))) as H.
  { induction l as [|m l IH]; intros ret; [done|]. rewrite fmap_cons.
    change (mjoin (?x :: ?r)) with (x ++ mjoin r). by rewrite foldl_app, <- IH. }
  rewrite H. fold (entries s). rewrite foldl_insert_lookup by (by apply NoDup_entries).
  rewrite lookup_empty. destruct (shard_lookup s k) as [v|] eqn:E.
  - apply elem_of_entries in E; [|done].
    rewrite (elem_of_list_to_map_1 _ k v); [done|by apply NoDup_entries|done].
  - destruct (list_to_map (entries s) !! k) as [v|] eqn:E'; [|done].
    apply elem_of_list_to_map_2 in E'. apply elem_of_entries in E'; [|done]. congruence.
Qed.

(** Every shard, appended. *)
Lemma foldl_append {B} (f : gmap string V -> list B) (s : list (gmap string V)) acc :
  length s = shardCount ->
  foldl (fun acc i => acc ++ f (shard s i)) acc (seq 0 shardCount) = acc ++ mjoin (f <$> s).
Proof.
  intros Hlen. rewrite (foldl_shards (fun acc m => acc ++ f m)) by done. clear Hlen.
  revert acc; induction s as [|m s IH]; intros acc; cbn [foldl].
  { by rewrite app_nil_r. }
  rewrite IH, fmap_cons. change (mjoin (?x :: ?r)) with (x ++ mjoin r). by rewrite app_assoc.
Qed.

End Reading.

(** The sizes of the shards, added up. *)
Lemma total_len_seq {V} (s : list (gmap string V)) :
  length s = shardCount ->
  foldl (fun total i => total + Z.of_nat (size (shard s i))) 0 (seq 0 shardCount) = total_len s.
Proof. intros Hlen. by rewrite (foldl_shards (fun total m => total + Z.of_nat (size m))). Qed.
