(* ===== verification/Manager.v ===== *)
(** src/internal/customer/manager: the registry of connections by uniqId.  Each
    critical section under a shard lock is one action.  The lemmas state every
    operation on the one map the shards stand for ([shard_lookup]). *)

From S2P Require Export Relation.

Section Manager.
Context {MO : MapOrder}.

Definition m_shard (i : nat) (w : world) : gmap string ptr := shard (m_shards (reg w)) i.

Definition Manager_Has (uniqId : string) : prog bool :=
  if is_empty uniqId then Ret false
  else
    let idx := shard_index uniqId in
    gets (fun w => match m_shard idx w !! uniqId with Some _ => true | None => false end).

Definition Manager_Get (uniqId : string) : prog (option ptr) :=
  if is_empty uniqId then Ret None
  else
    let idx := shard_index uniqId in
    gets (fun w => m_shard idx w !! uniqId).

Definition Manager_Set (uniqId : string) (conn : ptr) : prog unit :=
  if is_empty uniqId then Ret tt
  else
    let idx := shard_index uniqId in
    modify (with_reg (fun r =>
      let exists_ := match shard (m_shards r) idx !! uniqId with Some _ => true | None => false end in
      with_m (alter (insert uniqId conn) idx (m_shards r))
             (if exists_ then m_len r else u32 (m_len r + 1)) r)).

Definition Manager_Del (uniqId : string) : prog unit :=
  if is_empty uniqId then Ret tt
  else
    let idx := shard_index uniqId in
    modify (with_reg (fun r =>
      match shard (m_shards r) idx !! uniqId with
      | Some _ => with_m (alter (delete uniqId) idx (m_shards r)) (u32 (m_len r + (2 ^ 32 - 1))) r
      | None => r
      end)).

Definition Manager_Len : prog Z := gets (fun w => m_len (reg w)).

(** [GetConnections]: [None] is the nil result. *)
Definition Manager_GetConnections : prog (option (list ptr)) :=
  capacity <- Manager_Len ;;
  if capacity =? 0 then Ret None
  else
    connections <- for_fold (seq 0 shardCount) [] (fun connections i =>
      r <- gets (fun w => (range_map (m_shard i w)).*2) ;; Ret (connections ++ r)) ;;
    Ret (Some connections).

Definition Manager_GetUniqIds : prog (list string) :=
  capacity <- Manager_Len ;;
  if capacity =? 0 then Ret []
  else
    for_fold (seq 0 shardCount) [] (fun uniqIds i =>
      r <- gets (fun w => (range_map (m_shard i w)).*1) ;; Ret (uniqIds ++ r)).

(** ** The registry as one map. *)

Definition m_lookup (r : registries) (uniqId : string) : option ptr := shard_lookup (m_shards r) uniqId.

(** The shards hold their own keys, never the empty one, and the counter counts
    them. *)
Definition wf_manager (r : registries) : Prop :=
  wf_shards (m_shards r) /\ m_lookup r EmptyString = None /\ m_len r = u32 (total_len (m_shards r)).

Lemma wp_Manager_Get uniqId w Q :
  Q (if is_empty uniqId then None else m_lookup (reg w) uniqId) w -> wp (Manager_Get uniqId) w Q.
Proof. unfold Manager_Get. destruct (is_empty uniqId); intros HQ; [by apply wp_ret|by apply wp_gets]. Qed.

Lemma wp_Manager_Has uniqId w Q :
  Q (if is_empty uniqId then false
     else match m_lookup (reg w) uniqId with Some _ => true | None => false end) w ->
  wp (Manager_Has uniqId) w Q.
Proof. unfold Manager_Has. destruct (is_empty uniqId); intros HQ; [by apply wp_ret|by apply wp_gets]. Qed.

(** The registry after [Set] and [Del], as a function. *)
Definition m_insert (uniqId : string) (conn : ptr) (r : registries) : registries :=
  with_m (alter (insert uniqId conn) (shard_index uniqId) (m_shards r))
         (match m_lookup r uniqId with Some _ => m_len r | None => u32 (m_len r + 1) end) r.

Definition m_remove (uniqId : string) (r : registries) : registries :=
  match m_lookup r uniqId with
  | Some _ => with_m (alter (delete uniqId) (shard_index uniqId) (m_shards r)) (u32 (m_len r + (2 ^ 32 - 1))) r
  | None => r
  end.

Lemma wp_Manager_Set uniqId conn w Q :
  Q tt (if is_empty uniqId then w else with_reg (m_insert uniqId conn) w) ->
  wp (Manager_Set uniqId conn) w Q.
Proof.
  unfold Manager_Set. destruct (is_empty uniqId); intros HQ; [by apply wp_ret|].
  apply wp_modify. revert HQ. unfold m_insert, m_lookup, shard_lookup, with_reg.
  by destruct (shard _ _ !! uniqId).
Qed.

Lemma wp_Manager_Del uniqId w Q :
  Q tt (if is_empty uniqId then w else with_reg (m_remove uniqId) w) ->
  wp (Manager_Del uniqId) w Q.
Proof.
  unfold Manager_Del. destruct (is_empty uniqId); intros HQ; [by apply wp_ret|]. by apply wp_modify.
Qed.

(** Sizes of the one map. *)
Lemma total_len_size (s : list (gmap string ptr)) (m : gmap string ptr) :
  wf_shards s -> (forall k, shard_lookup s k = m !! k) -> total_len s = Z.of_nat (size m).
Proof.
  intros Hwf Hs. rewrite total_len_flat by done. do 2 f_equal.
  apply map_eq. intros k. by rewrite flat_lookup.
Qed.

Lemma m_insert_lookup uniqId conn r k :
  wf_shards (m_shards r) ->
  m_lookup (m_insert uniqId conn r) k = if decide (uniqId = k) then Some conn else m_lookup r k.
Proof.
  intros Hwf. unfold m_lookup, m_insert. cbn [m_shards with_m].
  rewrite lookup_alter_shard by auto with netsvr. case_decide as Hi.
  - rewrite <- Hi. case_decide as Hk; [subst; by rewrite lookup_insert_eq|].
    rewrite lookup_insert_ne by done. unfold shard_lookup. by rewrite Hi.
  - rewrite decide_False by congruence. done.
Qed.

Lemma m_remove_lookup uniqId r k :
  wf_shards (m_shards r) ->
  m_lookup (m_remove uniqId r) k = if decide (uniqId = k) then None else m_lookup r k.
Proof.
  intros Hwf. unfold m_remove. destruct (m_lookup r uniqId) eqn:E.
  - unfold m_lookup. cbn [m_shards with_m]. rewrite lookup_alter_shard by auto with netsvr.
    case_decide as Hi.
    + rewrite <- Hi. case_decide as Hk; [subst; by rewrite lookup_delete_eq|].
      rewrite lookup_delete_ne by done. unfold shard_lookup. by rewrite Hi.
    + rewrite decide_False by congruence. done.
  - case_decide; by subst.
Qed.

Lemma m_insert_wf uniqId conn r :
  uniqId <> EmptyString -> wf_manager r -> wf_manager (m_insert uniqId conn r).
Proof.
  intros Hne (Hwf & He & Hl).
  assert (wf_shards (m_shards (m_insert uniqId conn r))) as Hwf'.
  { apply wf_alter; [done|]. intros m k Hk. destruct (decide (uniqId = k)) as [->|]; [by right|].
    rewrite lookup_insert_ne in Hk by done. by left. }
  split_and!; [done|rewrite m_insert_lookup by done; by rewrite decide_False|].
  rewrite (total_len_size _ (<[uniqId := conn]> (flat (m_shards r)))); [|done|].
  - rewrite map_size_insert, flat_lookup by done. unfold m_insert. cbn [m_len with_m].
    unfold m_lookup. rewrite Hl, total_len_flat by done.
    destruct (shard_lookup (m_shards r) uniqId); [by cbn|].
    unfold u32. rewrite Z.add_mod_idemp_l by lia. f_equal. lia.
  - intros k. fold (m_lookup (m_insert uniqId conn r) k). rewrite m_insert_lookup by done.
    case_decide; [subst; by rewrite lookup_insert_eq|]. by rewrite lookup_insert_ne, flat_lookup.
Qed.

Lemma m_remove_wf uniqId r : wf_manager r -> wf_manager (m_remove uniqId r).
Proof.
  intros (Hwf & He & Hl).
  assert (wf_shards (m_shards (m_remove uniqId r))) as Hwf'.
  { unfold m_remove. destruct (m_lookup r uniqId); [|done]. apply wf_alter; [done|].
    intros m k Hk. apply lookup_delete_is_Some in Hk as [_ Hk]. by left. }
  split_and!; [done|rewrite m_remove_lookup by done; by case_decide|].
  rewrite (total_len_size _ (delete uniqId (flat (m_shards r)))); [|done|].
  - rewrite map_size_delete, flat_lookup by done. unfold m_remove, m_lookup.
    destruct (shard_lookup (m_shards r) uniqId) as [c|] eqn:E; cbn [m_len with_m].
    + rewrite Hl, total_len_flat by done.
      assert (flat (m_shards r) !! uniqId = Some c) as Hc by (by rewrite flat_lookup).
      assert (size (flat (m_shards r)) <> 0%nat) as Hsz.
      { rewrite map_size_non_empty_iff. intros E0. by rewrite E0, lookup_empty in Hc. }
      unfold u32. rewrite Z.add_mod_idemp_l by lia.
      replace (Z.of_nat (size (flat (m_shards r))) + (2 ^ 32 - 1))
        with (Z.of_nat (pred (size (flat (m_shards r)))) + 1 * 2 ^ 32) by lia.
      by rewrite Z.mod_add by lia.
    + by rewrite Hl, total_len_flat.
  - intros k. fold (m_lookup (m_remove uniqId r) k). rewrite m_remove_lookup by done.
    case_decide; [subst; by rewrite lookup_delete_eq|]. by rewrite lookup_delete_ne, flat_lookup.
Qed.

(** Reading all: what the loops over the shards collect. *)
Lemma wp_for_fold_shards {V A R} (sel : world -> list (gmap string V))
    (f : gmap string V -> R) (c : A -> R -> A) a w (Q : A -> world -> Prop) :
  Q (foldl (fun a i => c a (f (shard (sel w) i))) a (seq 0 shardCount)) w ->
  wp (for_fold (seq 0 shardCount) a (fun a i =>
        r <- gets (fun w => f (shard (sel w) i)) ;; Ret (c a r))) w Q.
Proof.
  intros HQ. apply (wp_for_fold_gets _ _ (fun _ => false) (fun i w => f (shard (sel w) i)) (fun a _ r => c a r)).
  exact HQ.
Qed.

Lemma wp_Manager_GetUniqIds w Q :
  wf_manager (reg w) ->
  (forall l, Permutation l (if m_len (reg w) =? 0 then [] else (map_to_list (flat (m_shards (reg w)))).*1) ->
             Q l w) ->
  wp Manager_GetUniqIds w Q.
Proof.
  intros (Hwf & _) HQ. unfold Manager_GetUniqIds, Manager_Len. apply wp_bind, wp_gets.
  destruct (m_len (reg w) =? 0); [apply wp_ret, HQ; done|].
  apply (wp_for_fold_shards (fun w => m_shards (reg w)) (fun m => (range_map m).*1) app).
  apply HQ. rewrite (foldl_append (fun m : gmap string ptr => (range_map m).*1)) by apply Hwf.
  cbn [app]. rewrite <- (entries_perm (m_shards (reg w)) Hwf). unfold entries.
  clear. induction (m_shards (reg w)) as [|m s IH]; [done|].
  rewrite !fmap_cons. change (mjoin (?x :: ?r)) with (x ++ mjoin r). by rewrite fmap_app, IH.
Qed.

Lemma wp_Manager_GetConnections w Q :
  wf_manager (reg w) ->
  (forall l, Permutation l (map_to_list (flat (m_shards (reg w)))).*2 ->
             Q (if m_len (reg w) =? 0 then None else Some l) w) ->
  wp Manager_GetConnections w Q.
Proof.
  intros (Hwf & _) HQ. unfold Manager_GetConnections, Manager_Len. apply wp_bind, wp_gets.
  destruct (m_len (reg w) =? 0); [by apply wp_ret, (HQ (map_to_list (flat (m_shards (reg w)))).*2)|].
  apply wp_bind, (wp_for_fold_shards (fun w => m_shards (reg w)) (fun m => (range_map m).*2) app).
  apply wp_ret, HQ. rewrite (foldl_append (fun m : gmap string ptr => (range_map m).*2)) by apply Hwf.
  cbn [app]. rewrite <- (entries_perm (m_shards (reg w)) Hwf). unfold entries.
  clear. induction (m_shards (reg w)) as [|m s IH]; [done|].
  rewrite !fmap_cons. change (mjoin (?x :: ?r)) with (x ++ mjoin r). by rewrite fmap_app, IH.
Qed.

End Manager.
