(* ===== verification/Binder.v ===== *)
(** src/internal/customer/binder: the connections of each customerId. *)

From S2P Require Export Manager.

Section Binder.
Context {MO : MapOrder}.

Definition b_shard (i : nat) (w : world) : gmap string (gmap Z ptr) := shard (b_shards (reg w)) i.

(** [wsCodec.GetIdOnSafe()] under the lock of the shard: the field is never
    written, so it is read before. *)
Definition Binder_SetRelation (customerId : string) (wsCodec : ptr) : prog unit :=
  i <- conn_get wsCodec (fun c => id (c_info c)) ;;
  let idx := shard_index customerId in
  modify (with_reg (fun r =>
    with_b (alter (fun m => rel_set i wsCodec m customerId) idx (b_shards r)) r)).

Definition Binder_DelRelation (customerId : string) (wsCodec : ptr) : prog unit :=
  i <- conn_get wsCodec (fun c => id (c_info c)) ;;
  let idx := shard_index customerId in
  modify (with_reg (fun r =>
    with_b (alter (fun m => rel_del i m customerId) idx (b_shards r)) r)).

Definition Binder_Len : prog Z :=
  for_fold (seq 0 shardCount) 0 (fun total i =>
    n <- gets (fun w => Z.of_nat (size (b_shard i w))) ;; Ret (total + n)).

Definition Binder_GetCustomerIds : prog (list string) :=
  capacity <- Binder_Len ;;
  if capacity =? 0 then Ret []
  else
    for_fold (seq 0 shardCount) [] (fun customerIds i =>
      r <- gets (fun w => (range_map (b_shard i w)).*1) ;; Ret (customerIds ++ r)).

Definition Binder_GetConnListByCustomerId (customerId : string) : prog (list ptr) :=
  if is_empty customerId then Ret []
  else
    let idx := shard_index customerId in
    gets (fun w => match b_shard idx w !! customerId with
                   | Some c => (range_map c).*2
                   | None => []
                   end).

Definition Binder_GetConnListByCustomerIds (customerIds : list string) : prog (gmap string (list ptr)) :=
  for_fold (groups customerIds) ∅ (fun customerIdConnList x =>
    if no_keys x then Ret customerIdConnList
    else
      m <- gets (b_shard x.1) ;;
      Ret (select_group (fun c => (range_map c).*2) m customerIdConnList x.2)).

(** ** The binder as one map. *)

Definition b_lookup (r : registries) (customerId : string) : option (gmap Z ptr) :=
  shard_lookup (b_shards r) customerId.

Definition wf_binder (r : registries) : Prop :=
  wf_shards (b_shards r) /\ forall k, no_empty (b_lookup r k).

Definition b_insert (customerId : string) (i : Z) (p : ptr) (r : registries) : registries :=
  with_b (alter (fun m => rel_set i p m customerId) (shard_index customerId) (b_shards r)) r.

Definition b_remove (customerId : string) (i : Z) (r : registries) : registries :=
  with_b (alter (fun m => rel_del i m customerId) (shard_index customerId) (b_shards r)) r.

Lemma wp_conn_get {A} p (f : Conn -> A) c w Q :
  heap w !! p = Some c -> Q (f c) w -> wp (conn_get p f) w Q.
Proof. intros Hp HQ. unfold wp, wps, conn_get. cbn. by rewrite Hp. Qed.

Lemma wp_Binder_SetRelation customerId p c w Q :
  heap w !! p = Some c ->
  Q tt (with_reg (b_insert customerId (id (c_info c)) p) w) -> wp (Binder_SetRelation customerId p) w Q.
Proof. intros Hp HQ. eapply wp_bind, wp_conn_get; [done|]. by apply wp_modify. Qed.

Lemma wp_Binder_DelRelation customerId p c w Q :
  heap w !! p = Some c ->
  Q tt (with_reg (b_remove customerId (id (c_info c))) w) -> wp (Binder_DelRelation customerId p) w Q.
Proof. intros Hp HQ. eapply wp_bind, wp_conn_get; [done|]. by apply wp_modify. Qed.

Lemma b_insert_lookup customerId i p r k :
  wf_shards (b_shards r) ->
  b_lookup (b_insert customerId i p r) k =
    if decide (customerId = k) then set_entry i p (b_lookup r k) else b_lookup r k.
Proof.
  intros Hwf. unfold b_lookup, b_insert. cbn [b_shards with_b].
  rewrite lookup_alter_shard by auto with netsvr. rewrite rel_set_lookup. unfold shard_lookup.
  repeat case_decide; congruence.
Qed.

Lemma b_remove_lookup customerId i r k :
  wf_shards (b_shards r) ->
  b_lookup (b_remove customerId i r) k =
    if decide (customerId = k) then del_entry i (b_lookup r k) else b_lookup r k.
Proof.
  intros Hwf. unfold b_lookup, b_remove. cbn [b_shards with_b].
  rewrite lookup_alter_shard by auto with netsvr. rewrite rel_del_lookup. unfold shard_lookup.
  repeat case_decide; congruence.
Qed.

Lemma wf_alter_lookup {V} (s : list (gmap string V)) (f : gmap string V -> gmap string V) customerId :
  wf_shards s -> (forall m k, customerId <> k -> f m !! k = m !! k) ->
  wf_shards (alter f (shard_index customerId) s).
Proof.
  intros Hwf Hf. apply wf_alter; [done|]. intros m k Hk.
  destruct (decide (customerId = k)) as [->|]; [by right|]. left. by rewrite Hf in Hk.
Qed.

Lemma b_insert_wf customerId i p r : wf_binder r -> wf_binder (b_insert customerId i p r).
Proof.
  intros [Hwf Hne]. split.
  - apply wf_alter_lookup; [done|]. intros m k Hk. by rewrite rel_set_lookup, decide_False.
  - intros k. rewrite b_insert_lookup by done. case_decide; [apply no_empty_set|apply Hne].
Qed.

Lemma b_remove_wf customerId i r : wf_binder r -> wf_binder (b_remove customerId i r).
Proof.
  intros [Hwf Hne]. split.
  - apply wf_alter_lookup; [done|]. intros m k Hk. by rewrite rel_del_lookup, decide_False.
  - intros k. rewrite b_remove_lookup by done. case_decide; [apply no_empty_del|apply Hne].
Qed.

Lemma wp_Binder_Len w Q :
  wf_binder (reg w) -> Q (total_len (b_shards (reg w))) w -> wp Binder_Len w Q.
Proof.
  intros [Hwf _] HQ. unfold Binder_Len.
  apply (wp_for_fold_shards (fun w => b_shards (reg w)) (fun m => Z.of_nat (size m)) Z.add).
  by rewrite total_len_seq by apply Hwf.
Qed.

Lemma wp_Binder_GetConnListByCustomerId customerId w Q :
  Q (if is_empty customerId then []
     else match b_lookup (reg w) customerId with Some c => (range_map c).*2 | None => [] end) w ->
  wp (Binder_GetConnListByCustomerId customerId) w Q.
Proof.
  unfold Binder_GetConnListByCustomerId. destruct (is_empty customerId); intros HQ;
    [by apply wp_ret|by apply wp_gets].
Qed.

Lemma wp_Binder_GetConnListByCustomerIds customerIds w Q :
  (forall m : gmap string (list ptr),
     (forall k, m !! k = if decide (k ∈ customerIds /\ k <> EmptyString)
                         then (fun c => (range_map c).*2) <$> b_lookup (reg w) k else None) -> Q m w) ->
  wp (Binder_GetConnListByCustomerIds customerIds) w Q.
Proof.
  intros HQ. unfold Binder_GetConnListByCustomerIds.
  apply (wp_for_fold_gets _ _ no_keys (fun x w => b_shard x.1 w)
           (fun ret x m => select_group (fun c : gmap Z ptr => (range_map c).*2) m ret x.2)).
  apply HQ. intros k. apply (select_lookup (fun c : gmap Z ptr => (range_map c).*2)).
Qed.

Lemma fmap_fst_join {V} (s : list (gmap string V)) :
  mjoin ((fun m => (range_map m).*1) <$> s) = (entries s).*1.
Proof.
  unfold entries. induction s as [|m s IH]; [done|]. rewrite !fmap_cons.
  change (mjoin (?x :: ?r)) with (x ++ mjoin r). by rewrite fmap_app, IH.
Qed.

Lemma wp_Binder_GetCustomerIds w Q :
  wf_binder (reg w) ->
  (forall l, Permutation l (map_to_list (flat (b_shards (reg w)))).*1 -> Q l w) ->
  wp Binder_GetCustomerIds w Q.
Proof.
  intros Hb HQ. pose proof Hb as [Hwf _]. unfold Binder_GetCustomerIds.
  apply wp_bind, wp_Binder_Len; [done|]. rewrite total_len_flat by done.
  destruct (Z.eqb_spec (Z.of_nat (size (flat (b_shards (reg w))))) 0) as [E|E].
  - apply wp_ret, HQ. assert (size (flat (b_shards (reg w))) = 0%nat) as E0 by lia.
    apply map_size_empty_iff in E0. by rewrite E0, map_to_list_empty.
  - apply (wp_for_fold_shards (fun w => b_shards (reg w)) (fun m => (range_map m).*1) app).
    apply HQ. rewrite (foldl_append (fun m : gmap string (gmap Z ptr) => (range_map m).*1)) by apply Hwf.
    cbn [app]. rewrite fmap_fst_join. by rewrite entries_perm.
Qed.

End Binder.
