(* ===== verification/Topic.v ===== *)
(** src/internal/customer/topic: the connections subscribed to each topic. *)

From S2P Require Export Binder.

Section Topic.
Context {MO : MapOrder}.

Definition t_shard (i : nat) (w : world) : gmap string (gmap Z ptr) := shard (t_shards (reg w)) i.

(** A loop over the groups that updates each key of each shard with [f]. *)
Definition update_groups (f : gmap string (gmap Z ptr) -> string -> gmap string (gmap Z ptr))
    (topics : list string) : prog unit :=
  for_each (groups topics) (fun x =>
    if no_keys x then Ret tt
    else modify (with_reg (fun r => with_t (alter (fun m => foldl f m x.2) x.1 (t_shards r)) r))).

Definition Topic_SetRelation (topics : list string) (conn : option ptr) : prog unit :=
  match topics, conn with
  | [], _ | _, None => Ret tt
  | _, Some p =>
      i <- conn_get p (fun c => id (c_info c)) ;;
      update_groups (rel_set i p) topics
  end.

Definition Topic_DelRelationBySlice (topics : list string) (conn : ptr) : prog unit :=
  match topics with
  | [] => Ret tt
  | _ =>
      i <- conn_get conn (fun c => id (c_info c)) ;;
      update_groups (rel_del i) topics
  end.

(** The map is visited in any order. *)
Definition Topic_DelRelationByMap (topics : option (gmap string unit)) (conn : ptr) : prog unit :=
  let topics := default ∅ topics in
  if (size topics =? 0)%nat then Ret tt
  else
    i <- conn_get conn (fun c => id (c_info c)) ;;
    update_groups (rel_del i) (range_map topics).*1.

(** [Del]: the shard without the keys and the result with their sets. *)
Definition del_group (a : gmap string (gmap Z ptr) * gmap string (gmap Z ptr)) (l : list string)
    : gmap string (gmap Z ptr) * gmap string (gmap Z ptr) :=
  foldl (fun '(m, ret) topic =>
    match m !! topic with Some c => (delete topic m, <[topic := c]> ret) | None => (m, ret) end) a l.

Definition Topic_Del (topics : list string) : prog (gmap string (gmap Z ptr)) :=
  match topics with
  | [] => Ret ∅
  | _ =>
      for_fold (groups topics) ∅ (fun ret x =>
        if no_keys x then Ret ret
        else act (fun w =>
          let b := del_group (t_shard x.1 w, ret) x.2 in
          (b.2, with_reg (fun r => with_t (alter (fun _ => b.1) x.1 (t_shards r)) r) w)))
  end.

Definition Topic_Len : prog Z :=
  for_fold (seq 0 shardCount) 0 (fun total i =>
    n <- gets (fun w => Z.of_nat (size (t_shard i w))) ;; Ret (total + n)).

Definition Topic_Get : prog (list string) :=
  _capacity <- Topic_Len ;;
  for_fold (seq 0 shardCount) [] (fun topics i =>
    r <- gets (fun w => (range_map (t_shard i w)).*1) ;; Ret (topics ++ r)).

(** All the topics, each with [h] of its connections. *)
Definition all_topics {R} (h : gmap Z ptr -> R) : prog (gmap string R) :=
  _capacity <- Topic_Len ;;
  for_fold (seq 0 shardCount) ∅ (fun ret i =>
    m <- gets (t_shard i) ;;
    Ret (foldl (fun ret x => <[x.1 := h x.2]> ret) ret (range_map m))).

(** Some topics. *)
Definition some_topics {R} (h : gmap Z ptr -> R) (topics : list string) : prog (gmap string R) :=
  match topics with
  | [] => Ret ∅
  | _ =>
      for_fold (groups topics) ∅ (fun ret x =>
        if no_keys x then Ret ret
        else m <- gets (t_shard x.1) ;; Ret (select_group h m ret x.2))
  end.

Definition conn_count (c : gmap Z ptr) : Z := i32 (Z.of_nat (size c)).
Definition conn_list (c : gmap Z ptr) : list ptr := (range_map c).*2.

Definition Topic_CountConn : prog (gmap string Z) := all_topics conn_count.
Definition Topic_CountConnByTopic (topics : list string) : prog (gmap string Z) := some_topics conn_count topics.
Definition Topic_GetConnList : prog (gmap string (list ptr)) := all_topics conn_list.
Definition Topic_GetConnListByTopics (topics : list string) : prog (gmap string (list ptr)) :=
  some_topics conn_list topics.

(** [None] is the nil result. *)
Definition Topic_GetConnListByTopic (topic : string) : prog (option (list ptr)) :=
  if is_empty topic then Ret None
  else
    let idx := shard_index topic in
    gets (fun w => match t_shard idx w !! topic with
                   | Some c => Some (conn_list c)
                   | None => None
                   end).

(** ** The registry as one map. *)

Definition t_lookup (r : registries) (topic : string) : option (gmap Z ptr) :=
  shard_lookup (t_shards r) topic.

Definition wf_topic (r : registries) : Prop :=
  wf_shards (t_shards r) /\ forall k, no_empty (t_lookup r k).

(** [update_groups] is the bulk update of [Shard]. *)
Definition t_update (f : gmap string (gmap Z ptr) -> string -> gmap string (gmap Z ptr))
    (topics : list string) (r : registries) : registries :=
  with_t (bulk f topics (t_shards r)) r.

Lemma with_reg_id w : with_reg (fun r => r) w = w.
Proof. by destruct w. Qed.

Lemma wp_update_groups f topics w Q :
  Q tt (with_reg (t_update f topics) w) -> wp (update_groups f topics) w Q.
Proof.
  intros HQ. unfold update_groups.
  apply (wp_for_each_modify (groups topics) (fun x => with_reg (fun r =>
    with_t (alter (fun m => foldl f m x.2) x.1 (t_shards r)) r)) no_keys).
  revert HQ. unfold t_update, bulk.
  assert (forall l s, foldl (fun w x => if no_keys x then w
     else with_reg (fun r => with_t (alter (fun m => foldl f m x.2) x.1 (t_shards r)) r) w)
     (with_reg (with_t s) w) l
   = with_reg (with_t (foldl (fun s x => if no_keys x then s
        else alter (fun m => foldl f m x.2) x.1 s) s l)) w) as H.
  { induction l as [|x l IH]; intros s; [done|]. cbn [foldl]. destruct (no_keys x); apply IH. }
  specialize (H (groups topics) (t_shards (reg w))).
  assert (with_reg (with_t (t_shards (reg w))) w = w) as E by (destruct w as [? [] ? ? ? ? ? ? ? ?]; done).
  rewrite E in H. rewrite H. destruct w; done.
Qed.

Lemma t_set_lookup i p topics r k :
  wf_shards (t_shards r) ->
  t_lookup (t_update (rel_set i p) topics r) k =
    if decide (k ∈ topics /\ k <> EmptyString) then set_entry i p (t_lookup r k) else t_lookup r k.
Proof.
  intros Hwf. apply (bulk_spec (rel_set i p) (set_entry i p)); [|apply set_entry_idemp|done].
  intros. apply rel_set_lookup.
Qed.

Lemma t_del_lookup i topics r k :
  wf_shards (t_shards r) ->
  t_lookup (t_update (rel_del i) topics r) k =
    if decide (k ∈ topics /\ k <> EmptyString) then del_entry i (t_lookup r k) else t_lookup r k.
Proof.
  intros Hwf. apply (bulk_spec (rel_del i) (del_entry i)); [|apply del_entry_idemp|done].
  intros. apply rel_del_lookup.
Qed.

Lemma t_set_wf i p topics r : wf_topic r -> wf_topic (t_update (rel_set i p) topics r).
Proof.
  intros [Hwf Hne]. split.
  - apply (bulk_spec (rel_set i p) (set_entry i p)); [|apply set_entry_idemp|done].
    intros. apply rel_set_lookup.
  - intros k. rewrite t_set_lookup by done. case_decide; [apply no_empty_set|apply Hne].
Qed.

Lemma t_del_wf i topics r : wf_topic r -> wf_topic (t_update (rel_del i) topics r).
Proof.
  intros [Hwf Hne]. split.
  - apply (bulk_spec (rel_del i) (del_entry i)); [|apply del_entry_idemp|done].
    intros. apply rel_del_lookup.
  - intros k. rewrite t_del_lookup by done. case_decide; [apply no_empty_del|apply Hne].
Qed.

Lemma t_update_nil f w : with_reg (t_update f []) w = w.
Proof.
  unfold t_update, bulk. by destruct w as [? [ms ml bs ts] ? ? ? ? ? ? ? ?].
Qed.

Lemma wp_Topic_SetRelation topics p c w Q :
  heap w !! p = Some c ->
  Q tt (with_reg (t_update (rel_set (id (c_info c)) p) topics) w) ->
  wp (Topic_SetRelation topics (Some p)) w Q.
Proof.
  intros Hp HQ. unfold Topic_SetRelation. destruct topics as [|t topics].
  - apply wp_ret. by rewrite t_update_nil in HQ.
  - eapply wp_bind, wp_conn_get; [done|]. by apply wp_update_groups.
Qed.

Lemma wp_Topic_DelRelationBySlice topics p c w Q :
  heap w !! p = Some c ->
  Q tt (with_reg (t_update (rel_del (id (c_info c))) topics) w) ->
  wp (Topic_DelRelationBySlice topics p) w Q.
Proof.
  intros Hp HQ. unfold Topic_DelRelationBySlice. destruct topics as [|t topics].
  - apply wp_ret. by rewrite t_update_nil in HQ.
  - eapply wp_bind, wp_conn_get; [done|]. by apply wp_update_groups.
Qed.

Lemma wp_Topic_DelRelationByMap topics p c w Q :
  heap w !! p = Some c ->
  Q tt (with_reg (t_update (rel_del (id (c_info c))) (range_map (default ∅ topics)).*1) w) ->
  wp (Topic_DelRelationByMap topics p) w Q.
Proof.
  intros Hp HQ. unfold Topic_DelRelationByMap. cbv zeta.
  destruct (Nat.eqb_spec (size (default ∅ topics)) 0) as [E|E].
  - apply wp_ret. apply map_size_empty_iff in E. rewrite E, range_empty in HQ.
    by rewrite t_update_nil in HQ.
  - eapply wp_bind, wp_conn_get; [done|]. by apply wp_update_groups.
Qed.

(** [Del]: what it removes and what it returns. *)
Lemma del_group_spec l m ret k :
  (del_group (m, ret) l).1 !! k = (if decide (k ∈ l) then None else m !! k) /\
  (del_group (m, ret) l).2 !! k =
    (if decide (k ∈ l) then match m !! k with Some c => Some c | None => ret !! k end else ret !! k).
Proof.
  unfold del_group. revert m ret; induction l as [|t l IH]; intros m ret; cbn [foldl].
  { by rewrite !decide_False by apply not_elem_of_nil. }
  destruct (m !! t) as [c|] eqn:Et.
  - destruct (IH (delete t m) (<[t := c]> ret)) as [-> ->].
    destruct (decide (t = k)) as [->|Hne].
    + rewrite lookup_delete_eq, lookup_insert_eq, Et.
      rewrite !(decide_True (P := k ∈ k :: l)) by constructor. by case_decide.
    + rewrite lookup_delete_ne, lookup_insert_ne by done.
      split; apply decide_ext; rewrite elem_of_cons; naive_solver.
  - destruct (IH m ret) as [-> ->].
    destruct (decide (t = k)) as [->|Hne].
    + rewrite Et. rewrite !(decide_True (P := k ∈ k :: l)) by constructor. by case_decide.
    + split; apply decide_ext; rewrite elem_of_cons; naive_solver.
Qed.

Definition drop_key (m : gmap string (gmap Z ptr)) (t : string) : gmap string (gmap Z ptr) := delete t m.

Lemma drop_key_lookup m t k : drop_key m t !! k = if decide (t = k) then None else m !! k.
Proof.
  unfold drop_key. case_decide; [subst; apply lookup_delete_eq|by apply lookup_delete_ne].
Qed.

Lemma del_group_fst l m ret : (del_group (m, ret) l).1 = foldl drop_key m l.
Proof.
  apply map_eq. intros k. destruct (del_group_spec l m ret k) as [-> _].
  rewrite (foldl_f_lookup drop_key (fun _ => None) drop_key_lookup); done.
Qed.

Lemma t_drop_lookup topics r k :
  wf_shards (t_shards r) ->
  t_lookup (t_update drop_key topics r) k =
    if decide (k ∈ topics /\ k <> EmptyString) then None else t_lookup r k.
Proof.
  intros Hwf. apply (bulk_spec drop_key (fun _ => None)); [apply drop_key_lookup|done|done].
Qed.

Lemma t_drop_wf topics r : wf_topic r -> wf_topic (t_update drop_key topics r).
Proof.
  intros [Hwf Hne]. split.
  - apply (bulk_spec drop_key (fun _ => None)); [apply drop_key_lookup|done|done].
  - intros k. rewrite t_drop_lookup by done. case_decide; [done|apply Hne].
Qed.

(** The loop, group by group. *)
Definition del_step (a : gmap string (gmap Z ptr) * list (gmap string (gmap Z ptr))) (x : nat * list string)
    : gmap string (gmap Z ptr) * list (gmap string (gmap Z ptr)) :=
  if no_keys x then a
  else let b := del_group (shard a.2 x.1, a.1) x.2 in (b.2, alter (fun _ => b.1) x.1 a.2).

Lemma del_step_bulk n keys s :
  (n <= shardCount)%nat -> wf_shards s ->
  let a := foldl del_step (∅, s) (take n (groups keys)) in
  a.2 = foldl (fun s x => if no_keys x then s else alter (fun m => foldl drop_key m x.2) x.1 s) s
              (take n (groups keys)) /\
  (forall i, (n <= i)%nat -> shard a.2 i = shard s i) /\
  a.1 = foldl (fun ret x => if no_keys x then ret else select_group (fun c => c) (shard s x.1) ret x.2) ∅
              (take n (groups keys)) /\ length a.2 = shardCount.
Proof.
  intros Hn [Hlen _]. induction n as [|n IH]; [by cbn|].
  destruct (IH ltac:(lia)) as (IH1 & IH2 & IH3 & IH4). clear IH. cbv zeta.
  rewrite (take_S_r _ _ (n, filter (in_shard n) keys)) by (apply groups_lookup; lia).
  rewrite !foldl_app. cbn [foldl]. rewrite <- IH1, <- IH3.
  set (a := foldl del_step (∅, s) (take n (groups keys))) in *.
  set (l := filter (in_shard n) keys). unfold del_step. cbn [fst snd].
  destruct (no_keys (n, l)); [split_and!; auto with lia|].
  rewrite IH2 by lia. cbn [fst snd]. rewrite del_group_fst.
  assert (a.2 !! n = Some (shard s n)) as Hlk.
  { rewrite <- IH2 by lia. unfold shard. destruct (a.2 !! n) eqn:E; [done|].
    apply lookup_ge_None in E. lia. }
  split_and!.
  - apply list_eq. intros i. destruct (decide (n = i)) as [<-|Hi].
    + by rewrite !list_lookup_alter_eq, Hlk.
    + by rewrite !list_lookup_alter_ne.
  - intros i Hi. unfold shard at 1. rewrite list_lookup_alter_ne by lia. apply IH2. lia.
  - apply map_eq. intros k. destruct (del_group_spec l (shard s n) a.1 k) as [_ ->].
    rewrite select_group_lookup. by destruct (shard s n !! k).
  - by rewrite length_alter.
Qed.

Lemma wp_for_fold_act {X A B} (l : list X) (a : A) (body : A -> X -> prog A)
    (f : A * B -> X -> A * B) (get : world -> B) (put : B -> world -> world) w Q :
  (forall b w, get (put b w) = b) -> (forall b b' w, put b (put b' w) = put b w) ->
  (forall w, put (get w) w = w) ->
  (forall a x w Q, (let r := f (a, get w) x in Q r.1 (put r.2 w)) -> wp (body a x) w Q) ->
  (let r := foldl f (a, get w) l in Q r.1 (put r.2 w)) ->
  wp (for_fold l a body) w Q.
Proof.
  intros Hgp Hpp Hpg Hbody. revert a w; induction l as [|x l IH]; intros a w HQ; cbn [for_fold].
  { apply wp_ret. cbn in HQ. by rewrite Hpg in HQ. }
  apply wp_bind, Hbody. cbv zeta. cbn [foldl] in HQ. apply IH. rewrite Hgp.
  rewrite <- surjective_pairing. cbv zeta in *. by rewrite Hpp.
Qed.

Lemma wp_Topic_Del topics w Q :
  wf_topic (reg w) ->
  (forall ret : gmap string (gmap Z ptr),
     (forall k, ret !! k = if decide (k ∈ topics /\ k <> EmptyString) then t_lookup (reg w) k else None) ->
     Q ret (with_reg (t_update drop_key topics) w)) ->
  wp (Topic_Del topics) w Q.
Proof.
  intros [Hwf _] HQ. unfold Topic_Del. destruct topics as [|t0 topics].
  { apply wp_ret. rewrite <- (t_update_nil drop_key). apply HQ. intros k.
    rewrite lookup_empty, decide_False; [done|]. by intros [?%elem_of_nil _]. }
  set (l := t0 :: topics) in *. clearbody l.
  apply (wp_for_fold_act (groups l) ∅ _ del_step (fun w => t_shards (reg w))
           (fun s w => with_reg (with_t s) w)); [done|done|by intros [? [] ? ? ? ? ? ? ? ?]| |].
  { intros ret x w' Q' HQ'. unfold del_step in HQ'. cbn [fst snd] in HQ'.
    destruct (no_keys x).
    - apply wp_ret. cbv zeta in HQ'. cbn [fst snd] in HQ'. by destruct w' as [? [] ? ? ? ? ? ? ? ?].
    - by apply wp_act. }
  cbv zeta.
  destruct (del_step_bulk shardCount l (t_shards (reg w)) ltac:(lia) Hwf) as (H2 & _ & H1 & _).
  cbv zeta in H1, H2. rewrite <- (length_groups l), firstn_all in H1, H2. rewrite H1, H2.
  apply HQ. intros k.
  pose proof (select_lookup (fun c : gmap Z ptr => c) l (t_shards (reg w)) k) as Hs.
  unfold select in Hs. rewrite Hs. unfold t_lookup.
  case_decide; [|done]. by destruct (shard_lookup (t_shards (reg w)) k).
Qed.

(** ** Reading. *)

Lemma wp_Topic_Len w Q :
  wf_topic (reg w) -> Q (total_len (t_shards (reg w))) w -> wp Topic_Len w Q.
Proof.
  intros [Hwf _] HQ. unfold Topic_Len.
  apply (wp_for_fold_shards (fun w => t_shards (reg w)) (fun m => Z.of_nat (size m)) Z.add).
  by rewrite total_len_seq by apply Hwf.
Qed.

Lemma wp_Topic_Get w Q :
  wf_topic (reg w) ->
  (forall l, Permutation l (map_to_list (flat (t_shards (reg w)))).*1 -> Q l w) ->
  wp Topic_Get w Q.
Proof.
  intros Hb HQ. pose proof Hb as [Hwf _]. unfold Topic_Get.
  apply wp_bind, wp_Topic_Len; [done|].
  apply (wp_for_fold_shards (fun w => t_shards (reg w)) (fun m => (range_map m).*1) app).
  apply HQ. rewrite (foldl_append (fun m : gmap string (gmap Z ptr) => (range_map m).*1)) by apply Hwf.
  cbn [app]. rewrite fmap_fst_join. by rewrite entries_perm.
Qed.

Lemma wp_all_topics {R} (h : gmap Z ptr -> R) w Q :
  wf_topic (reg w) ->
  (forall m : gmap string R, (forall k, m !! k = h <$> t_lookup (reg w) k) -> Q m w) ->
  wp (all_topics h) w Q.
Proof.
  intros Hb HQ. pose proof Hb as [Hwf _]. unfold all_topics.
  apply wp_bind, wp_Topic_Len; [done|].
  apply (wp_for_fold_shards (fun w => t_shards (reg w)) (fun m => m)
    (fun ret m => foldl (fun ret x => <[x.1 := h x.2]> ret) ret (range_map m))).
  apply HQ. intros k. by apply (gather_lookup h).
Qed.

Lemma wp_some_topics {R} (h : gmap Z ptr -> R) topics w Q :
  (forall m : gmap string R,
     (forall k, m !! k = if decide (k ∈ topics /\ k <> EmptyString)
                         then h <$> t_lookup (reg w) k else None) -> Q m w) ->
  wp (some_topics h topics) w Q.
Proof.
  intros HQ. unfold some_topics. destruct topics as [|t0 topics].
  - apply wp_ret, HQ. intros k. rewrite lookup_empty, decide_False; [done|].
    by intros [?%elem_of_nil _].
  - apply (wp_for_fold_gets _ _ no_keys (fun x w => t_shard x.1 w)
             (fun ret x m => select_group h m ret x.2)).
    apply HQ. intros k. apply (select_lookup h).
Qed.

Lemma wp_Topic_GetConnListByTopic topic w Q :
  Q (if is_empty topic then None else conn_list <$> t_lookup (reg w) topic) w ->
  wp (Topic_GetConnListByTopic topic) w Q.
Proof.
  unfold Topic_GetConnListByTopic. destruct (is_empty topic); intros HQ; [by apply wp_ret|].
  apply wp_gets. revert HQ. unfold t_lookup, shard_lookup, t_shard.
  by destruct (shard (t_shards (reg w)) (shard_index topic) !! topic).
Qed.

End Topic.
