(* ===== verification/FrameOut.v ===== *)
(** The write path of src/internal/customer: [frame.go] (a message encoded once
    for many connections) and [func.go] (messages, close frames, the lists made
    from connections). *)

From S2P Require Export Topic.

Section FrameOut.
Context {MO : MapOrder} `{Deflate} (cf : config).

Definition compressingValue : Z := if cf_Autobahn cf then 0 else 256.

(** ** frame.go *)

Definition newFrame : Frame := mkFr 0 [] None None.

Definition Frame_set (messageType : Z) (data : bytes) (fr : Frame) : Frame :=
  mkFr messageType data (compressed fr) (uncompressed fr).

Definition Frame_reset (fr : Frame) : Frame := mkFr (messageType fr) [] None None.

Definition with_compressed (fr : Frame) (b : bytes) : Frame :=
  mkFr (messageType fr) (data fr) (Some b) (uncompressed fr).
Definition with_uncompressed (fr : Frame) (b : bytes) : Frame :=
  mkFr (messageType fr) (data fr) (compressed fr) (Some b).

(** [conn.AsyncWriteOnSafe]: whether the library took the bytes. *)
Definition AsyncWriteOnSafe (p : ptr) (buf : bytes) : prog bool :=
  Act (fun w => match heap w !! p with
                | Some c => if async_fails c then AOk false w
                            else AOk true (with_effect (EAsyncWrite p buf) w)
                | None => APanic
                end) Ret.

Definition CloseOnSafe (p : ptr) : prog unit := emit (EClose p).

(** Sends an encoded frame and counts it. *)
Definition send_encoded (p : ptr) (b : bytes) : prog bool :=
  ok <- AsyncWriteOnSafe p b ;;
  if (ok : bool) then
    Mark ItemCustomerWriteCount 1 ;; Mark ItemCustomerWriteByte (len b) ;; Ret true
  else
    Mark ItemCustomerWriteFailedCount 1 ;; Mark ItemCustomerWriteFailedByte (len b) ;; Ret false.

(** An encoding that failed. *)
Definition encode_failed (n : Z) : prog bool :=
  Mark ItemCustomerWriteFailedCount 1 ;; Mark ItemCustomerWriteFailedByte n ;; Ret false.

Definition deflated_frame (op : Z) (z : bytes) : option bytes :=
  WriteFrame (mkFrame (mkHeader true 4 op false [] (len z)) z).

Definition WriteTo (fr : Frame) (conn : ptr) : prog (bool * Frame) :=
  closed <- conn_get conn (fun c => IsClosedOnSafe (c_codec c)) ;;
  if (closed : bool) then Ret (false, fr) else
  compression <- conn_get conn (fun c => IsCompressOnSafe (c_codec c)) ;;
  if compression && (compressingValue <? len (data fr)) then
    match compressed fr with
    | Some b => ok <- send_encoded conn b ;; Ret (ok, fr)
    | None =>
        match compress (data fr) with
        | None => ok <- encode_failed (len (data fr)) ;; Ret (ok, fr)
        | Some z =>
            match deflated_frame (messageType fr) z with
            | None => ok <- encode_failed (len z) ;; Ret (ok, fr)
            | Some b => ok <- send_encoded conn b ;; Ret (ok, with_compressed fr b)
            end
        end
    end
  else
    match uncompressed fr with
    | Some b => ok <- send_encoded conn b ;; Ret (ok, fr)
    | None =>
        match WriteFrame (NewFrame (messageType fr) true (data fr)) with
        | None => ok <- encode_failed (len (data fr)) ;; Ret (ok, fr)
        | Some b => ok <- send_encoded conn b ;; Ret (ok, with_uncompressed fr b)
        end
    end.

(** The pool: [sync.Pool.Get] gives a frame put back earlier, or a new one. *)
Definition FrameObjPool_Get (messageType : Z) (data : bytes) : prog Frame :=
  act (fun w => match frame_pool w with
                | fr :: l => (Frame_set messageType data fr, with_pool l w)
                | [] => (Frame_set messageType data newFrame, w)
                end).

Definition FrameObjPool_Put (fr : Frame) : prog unit :=
  modify (fun w => with_pool (Frame_reset fr :: frame_pool w) w).

(** ** func.go *)

Definition WriteMessage (conn : ptr) (messageType : Z) (data : bytes) : prog bool :=
  fr <- FrameObjPool_Get messageType data ;;
  r <- WriteTo fr conn ;;
  FrameObjPool_Put r.2 ;;
  Ret r.1.

(** The same frame to several connections, in order. *)
Definition WriteTo_each (fr : Frame) (conns : list ptr) : prog Frame :=
  for_fold conns fr (fun fr conn => r <- WriteTo fr conn ;; Ret r.2).

Definition BuildCloseFrame (statusCode : Z) (err : string) : bytes :=
  let payload := NewCloseFrameBody statusCode (str_bytes err) in
  default [] (WriteFrame (NewFrame OpClose true payload)).

Definition WriteCloseFrame (conn : ptr) (closeFrame : bytes) : prog unit :=
  first <- conn_act conn (fun c => let r := SetClosedFlagOnSafe (c_codec c) in
                                   (r.1, upd_codec (fun _ => r.2) c)) ;;
  if negb first then Ret tt
  else
    ok <- AsyncWriteOnSafe conn closeFrame ;;
    if (ok : bool) then emit (ECloseLater conn) else CloseOnSafe conn.

Definition WriteClose (conn : ptr) (statusCode : Z) (err : string) : prog unit :=
  WriteCloseFrame conn (BuildCloseFrame statusCode err).

(** The set of the customerIds of some connections. *)
Definition customerIdSet (connList : list ptr) : prog (gmap string unit) :=
  for_fold connList ∅ (fun customerIdSet conn =>
    customerId <- locked_get conn customerId ;;
    Ret (if is_empty customerId then customerIdSet else <[customerId := tt]> customerIdSet)).

Definition CountCustomerIds (connList : list ptr) : prog Z :=
  s <- customerIdSet connList ;; Ret (Z.of_nat (size s)).

Definition GetCustomerIds (connList : list ptr) : prog (list string) :=
  s <- customerIdSet connList ;;
  Ret (if (size s =? 0)%nat then [] else (range_map s).*1).

Definition GetUniqIds (connList : list ptr) : prog (list string) :=
  for_fold connList [] (fun uniqIds conn =>
    u <- conn_get conn (fun c => uniqId (c_info c)) ;; Ret (uniqIds ++ [u])).

(** ** Specification *)

(** The wire image of a message for a connection. *)
Definition wire_for (op : Z) (d : bytes) (c : Conn) : option bytes :=
  if IsCompressOnSafe (c_codec c) && (compressingValue <? len d)
  then compress d ≫= deflated_frame op
  else WriteFrame (NewFrame op true d).

(** What a write to [p] puts out. *)
Definition sends (op : Z) (d : bytes) (h : gmap ptr Conn) (p : ptr) : list effect :=
  match h !! p with
  | Some c =>
      if IsClosedOnSafe (c_codec c) then []
      else match wire_for op d c with
           | Some b => if async_fails c then [] else [EAsyncWrite p b]
           | None => []
           end
  | None => []
  end.

(** A write changes nothing but the metrics and the log. *)
Definition quiet (w w' : world) : Prop :=
  heap w' = heap w /\ reg w' = reg w /\ limiters w' = limiters w /\ env w' = env w /\
  tasks w' = tasks w /\ workers w' = workers w /\ collects w' = collects w.

(** The cached encodings belong to the message. *)
Definition frame_ok (fr : Frame) : Prop :=
  (forall b, compressed fr = Some b -> compress (data fr) ≫= deflated_frame (messageType fr) = Some b) /\
  (forall b, uncompressed fr = Some b -> WriteFrame (NewFrame (messageType fr) true (data fr)) = Some b).

(** A frame in the pool carries no encoding of an older message. *)
Definition clean (fr : Frame) : Prop := compressed fr = None /\ uncompressed fr = None.

Lemma quiet_refl w : quiet w w.
Proof. done. Qed.

Lemma quiet_trans w1 w2 w3 : quiet w1 w2 -> quiet w2 w3 -> quiet w1 w3.
Proof. unfold quiet. intuition congruence. Qed.

(** The post-condition of the writes: what is sent is appended to the log. *)
Definition wrote (sent : list effect) (w w' : world) : Prop :=
  quiet w w' /\ frame_pool w' = frame_pool w /\ effects w' = effects w ++ sent.

Lemma wp_Mark item n w Q : (forall w', wrote [] w w' -> Q tt w') -> wp (Mark item n) w Q.
Proof.
  intros HQ. apply wp_modify, HQ. split_and!; [done|done|]. cbn. by rewrite app_nil_r.
Qed.

Lemma wrote_trans s1 s2 w1 w2 w3 : wrote s1 w1 w2 -> wrote s2 w2 w3 -> wrote (s1 ++ s2) w1 w3.
Proof.
  intros (Q1 & P1 & E1) (Q2 & P2 & E2). split_and!; [by eapply quiet_trans|congruence|].
  by rewrite E2, E1, app_assoc.
Qed.

Lemma wp_marks {A} i1 n1 i2 n2 (r : A) w w0 s Q :
  wrote s w0 w -> (forall w', wrote s w0 w' -> Q r w') ->
  wp (Mark i1 n1 ;; Mark i2 n2 ;; Ret r) w Q.
Proof.
  intros Hw HQ. apply wp_bind, wp_Mark. intros w1 H1. apply wp_bind, wp_Mark. intros w2 H2.
  apply wp_ret, HQ. rewrite <- (app_nil_r s). eapply wrote_trans; [done|].
  by apply (wrote_trans [] [] _ w1).
Qed.

Lemma wp_send_encoded p c b w Q :
  heap w !! p = Some c ->
  (forall w', wrote (if async_fails c then [] else [EAsyncWrite p b]) w w' -> Q (negb (async_fails c)) w') ->
  wp (send_encoded p b) w Q.
Proof.
  intros Hp HQ. unfold send_encoded. apply wp_bind. unfold wp at 1, wps at 1, AsyncWriteOnSafe.
  cbn [run]. rewrite Hp. destruct (async_fails c); cbn [run]; split; try done.
  - eapply wp_marks; [|exact HQ]. split_and!; [done|done|]. by rewrite app_nil_r.
  - eapply wp_marks; [|exact HQ]. done.
Qed.

Lemma wp_encode_failed n w Q :
  (forall w', wrote [] w w' -> Q false w') -> wp (encode_failed n) w Q.
Proof.
  intros HQ. eapply wp_marks; [|exact HQ]. split_and!; [done|done|]. by rewrite app_nil_r.
Qed.

Lemma wp_WriteTo fr p c w Q :
  heap w !! p = Some c -> frame_ok fr ->
  (forall ok fr' w',
     wrote (sends (messageType fr) (data fr) (heap w) p) w w' ->
     ok = negb (bool_decide (sends (messageType fr) (data fr) (heap w) p = [])) ->
     frame_ok fr' -> messageType fr' = messageType fr -> data fr' = data fr -> Q (ok, fr') w') ->
  wp (WriteTo fr p) w Q.
Proof.
  intros Hp Hfr HQ. pose proof Hfr as [Hc Hu]. unfold WriteTo. eapply wp_bind, wp_conn_get; [done|].
  unfold sends in HQ. rewrite Hp in HQ. destruct (IsClosedOnSafe (c_codec c)).
  { apply wp_ret, HQ; try done. split_and!; [done|done|]. by rewrite app_nil_r. }
  eapply wp_bind, wp_conn_get; [done|].
  assert (forall b fr', wire_for (messageType fr) (data fr) c = Some b ->
            frame_ok fr' -> messageType fr' = messageType fr -> data fr' = data fr ->
            wp (ok <- send_encoded p b ;; Ret (ok, fr')) w Q) as Hsend.
  { intros b fr' Hb Hok Hm Hd. rewrite Hb in HQ. eapply wp_bind, wp_send_encoded; [done|].
    intros w' Hw'. apply wp_ret, HQ; try done. by destruct (async_fails c). }
  assert (forall n, wire_for (messageType fr) (data fr) c = None ->
            wp (ok <- encode_failed n ;; Ret (ok, fr)) w Q) as Hfail.
  { intros n Hn. rewrite Hn in HQ. apply wp_bind, wp_encode_failed.
    intros w' Hw'. by apply wp_ret, HQ. }
  unfold wire_for in Hsend, Hfail.
  destruct (IsCompressOnSafe (c_codec c) && (compressingValue <? len (data fr))).
  - destruct (compressed fr) as [b|] eqn:Ec; [apply Hsend; [by apply Hc|exact Hfr|done|done]|].
    destruct (compress (data fr)) as [z|] eqn:Ez; [|by apply Hfail]. cbn in Hsend, Hfail.
    destruct (deflated_frame (messageType fr) z) as [b|] eqn:Eb; [|by apply Hfail].
    apply Hsend; try done. split; [|done]. intros b' [= <-]. cbn. by rewrite Ez.
  - destruct (uncompressed fr) as [b|] eqn:Ec; [apply Hsend; [by apply Hu|exact Hfr|done|done]|].
    destruct (WriteFrame (NewFrame (messageType fr) true (data fr))) as [b|] eqn:Eb; [|by apply Hfail].
    apply Hsend; try done. split; [done|]. by intros b' [= <-].
Qed.

(** The pool invariant. *)
Definition pool_clean (w : world) : Prop := Forall clean (frame_pool w).

Lemma wp_FrameObjPool_Get op d w Q :
  pool_clean w ->
  (forall fr w', frame_ok fr -> messageType fr = op -> data fr = d ->
     quiet w w' -> pool_clean w' -> effects w' = effects w -> Q fr w') ->
  wp (FrameObjPool_Get op d) w Q.
Proof.
  intros Hpool HQ. apply wp_act. unfold pool_clean in *.
  destruct (frame_pool w) as [|fr l] eqn:E; cbn [fst snd].
  - apply HQ; try done. by rewrite E.
  - inversion Hpool as [|? ? [Hc Hu] Hl]; subst. apply HQ; try done.
    unfold frame_ok, Frame_set. cbn. by rewrite Hc, Hu.
Qed.

Lemma wp_FrameObjPool_Put fr w Q :
  pool_clean w ->
  (forall w', quiet w w' -> pool_clean w' -> effects w' = effects w -> Q tt w') ->
  wp (FrameObjPool_Put fr) w Q.
Proof. intros Hpool HQ. apply wp_modify, HQ; [done| |done]. by constructor. Qed.

(** What a program that only writes to connections does. *)
Definition sent (l : list effect) (w w' : world) : Prop :=
  quiet w w' /\ pool_clean w' /\ effects w' = effects w ++ l.

Lemma sent_trans l1 l2 w1 w2 w3 : sent l1 w1 w2 -> sent l2 w2 w3 -> sent (l1 ++ l2) w1 w3.
Proof.
  intros (Q1 & _ & E1) (Q2 & P2 & E2). split_and!; [by eapply quiet_trans|done|].
  by rewrite E2, E1, app_assoc.
Qed.

Lemma wrote_sent l w w' : pool_clean w -> wrote l w w' -> sent l w w'.
Proof. intros Hp (Hq & Hpool & He). split_and!; [done| |done]. unfold pool_clean. by rewrite Hpool. Qed.

Lemma wp_WriteMessage p c op d w Q :
  heap w !! p = Some c -> pool_clean w ->
  (forall w', sent (sends op d (heap w) p) w w' ->
     Q (negb (bool_decide (sends op d (heap w) p = []))) w') ->
  wp (WriteMessage p op d) w Q.
Proof.
  intros Hp Hpool HQ. apply wp_bind, wp_FrameObjPool_Get; [done|].
  intros fr w1 Hfr Hop Hd Hq1 Hp1 He1. eapply wp_bind, (wp_WriteTo _ _ c); [|done|].
  { destruct Hq1 as [-> _]. done. }
  intros ok fr' w2 Hw2 Hok _ _ _. rewrite Hop, Hd, (proj1 Hq1) in *.
  apply wp_bind, wp_FrameObjPool_Put.
  { destruct Hw2 as (_ & E & _). unfold pool_clean in *. by rewrite E. }
  intros w3 Hq3 Hp3 He3. apply wp_ret. subst ok. apply HQ.
  destruct Hw2 as (Hq2 & _ & He2). split_and!; [exact (quiet_trans _ _ _ Hq1 (quiet_trans _ _ _ Hq2 Hq3))|done|].
  by rewrite He3, He2, He1.
Qed.

(** One frame to many connections. *)
Lemma wp_WriteTo_each fr conns w Q :
  pool_clean w -> Forall (fun p => is_Some (heap w !! p)) conns -> frame_ok fr ->
  (forall fr' w', sent (mjoin (sends (messageType fr) (data fr) (heap w) <$> conns)) w w' ->
     frame_ok fr' -> Q fr' w') ->
  wp (WriteTo_each fr conns) w Q.
Proof.
  unfold WriteTo_each. revert fr w Q; induction conns as [|p conns IH]; intros fr w Q Hpool Hall Hfr HQ.
  { cbn. apply wp_ret, HQ; [|done]. split_and!; [done|done|]. by rewrite app_nil_r. }
  inversion Hall as [|? ? [c Hp] Hall']; subst. cbn [for_fold].
  apply wp_bind, wp_bind. eapply wp_WriteTo; [done|done|].
  intros ok fr1 w1 Hw1 _ Hfr1 Hm1 Hd1. apply wp_ret. cbn [snd].
  pose proof (wrote_sent _ _ _ Hpool Hw1) as Hs1. destruct Hw1 as (Hq1 & _).
  apply IH; [apply Hs1| |done|].
  { destruct Hq1 as [-> _]. done. }
  intros fr' w' Hs' Hfr'. apply HQ; [|done]. rewrite Hm1, Hd1 in Hs'.
  rewrite fmap_cons. change (mjoin (?x :: ?r)) with (x ++ mjoin r).
  rewrite (proj1 Hq1) in Hs'. by eapply sent_trans.
Qed.

End FrameOut.

Arguments wp_conn_get {A} p f c w Q : rename.
