(* ===== verification/TaskPost.v ===== *)
(** The commands of src/internal/task/process that change the gateway or write to
    its connections, one definition per file.  A payload comes from an object
    pool and is filled by [proto.Unmarshal], which resets it first: it is the
    value that [unmarshal] returns. *)

From S2P Require Export FrameOut.

Section TaskPost.
Context {MO : MapOrder} `{Deflate} `{Proto} (cf : config).

Definition isNil {A} (l : list A) : bool := match l with [] => true | _ => false end.

(** [if len(payload.Data) > 0 { customer.WriteMessage(...) }] *)
Definition write_data (conn : ptr) (d : bytes) : prog unit :=
  if isNil d then Ret tt else (_ok <- WriteMessage cf conn (cf_SendMessageType cf) d ;; Ret tt).

(** [conn.Lock(); defer conn.UnLock()] around a body that returns early when the
    connection is closed. *)
Definition with_open_conn (conn : ptr) (k : prog unit) : prog unit :=
  Lock conn ;;
  closed <- conn_get conn (fun c => IsClosedOnSafe (c_codec c)) ;;
  (if (closed : bool) then Ret tt else k) ;;
  UnLock conn.

(** Operations on the info of a connection whose lock is held. *)
Definition info_act {A} (conn : ptr) (f : info -> A * info) : prog A :=
  conn_act conn (fun c => ((f (c_info c)).1, upd_info (fun r => (f r).2) c)).
Definition info_set (conn : ptr) (f : info -> info) : prog unit := info_act conn (fun r => (tt, f r)).

(** ** Subscriptions *)

Definition topicSubscribe (param : bytes) : prog unit :=
  match unmarshal_TopicSubscribe param with
  | None => Ret tt
  | Some payload =>
      if is_empty (ts_UniqId payload) || isNil (ts_Topics payload) then Ret tt else
      conn <- Manager_Get (ts_UniqId payload) ;;
      match conn with
      | None => Ret tt
      | Some conn =>
          with_open_conn conn (
            info_set conn (SubscribeTopics (ts_Topics payload)) ;;
            Topic_SetRelation (ts_Topics payload) (Some conn) ;;
            write_data conn (ts_Data payload))
      end
  end.

Definition topicUnsubscribe (param : bytes) : prog unit :=
  match unmarshal_TopicUnsubscribe param with
  | None => Ret tt
  | Some payload =>
      if is_empty (tu_UniqId payload) || isNil (tu_Topics payload) then Ret tt else
      conn <- Manager_Get (tu_UniqId payload) ;;
      match conn with
      | None => Ret tt
      | Some conn =>
          with_open_conn conn (
            info_set conn (UnsubscribeTopics (tu_Topics payload)) ;;
            Topic_DelRelationBySlice (tu_Topics payload) conn ;;
            write_data conn (tu_Data payload))
      end
  end.

(** [UnsubscribeTopicOnSafe] takes the lock itself. *)
Definition UnsubscribeTopicOnSafe (conn : ptr) (topic : string) : prog bool :=
  locked_act conn (UnsubscribeTopic topic).

(** The pairs of a result of [Topic_Del], in the order of the two loops. *)
Definition deleted_pairs (arr : gmap string (gmap Z ptr)) : list (string * ptr) :=
  mjoin ((fun x : string * gmap Z ptr => (fun q : Z * ptr => (x.1, q.2)) <$> range_map x.2) <$> range_map arr).

Definition topicDelete (param : bytes) : prog unit :=
  match unmarshal_TopicDelete param with
  | None => Ret tt
  | Some payload =>
      arr <- Topic_Del (td_Topics payload) ;;
      if (size arr =? 0)%nat then Ret tt
      else if isNil (td_Data payload) then
        for_each (deleted_pairs arr) (fun x => _ok <- UnsubscribeTopicOnSafe x.2 x.1 ;; Ret tt)
      else
        unsubscribeConn <- for_fold (deleted_pairs arr) (∅ : gmap Z ptr) (fun unsubscribeConn x =>
          ok <- UnsubscribeTopicOnSafe x.2 x.1 ;;
          if (ok : bool) then (i <- conn_get x.2 (fun c => id (c_info c)) ;; Ret (<[i := x.2]> unsubscribeConn))
          else Ret unsubscribeConn) ;;
        msg <- FrameObjPool_Get (cf_SendMessageType cf) (td_Data payload) ;;
        msg <- WriteTo_each cf msg (range_map unsubscribeConn).*2 ;;
        FrameObjPool_Put msg
  end.

(** ** The info of a connection *)

Definition connInfoUpdate (param : bytes) : prog unit :=
  match unmarshal_ConnInfoUpdate param with
  | None => Ret tt
  | Some payload =>
      if is_empty (cu_UniqId payload) then Ret tt else
      conn <- Manager_Get (cu_UniqId payload) ;;
      match conn with
      | None => Ret tt
      | Some conn =>
          with_open_conn conn (
            (if is_empty (cu_NewSession payload) then Ret tt
             else info_set conn (SetSession (cu_NewSession payload))) ;;
            (if is_empty (cu_NewCustomerId payload) then Ret tt
             else
               oldCustomerId <- info_act conn (fun r => (customerId r, r)) ;;
               (if is_empty oldCustomerId then Ret tt else Binder_DelRelation oldCustomerId conn) ;;
               Binder_SetRelation (cu_NewCustomerId payload) conn ;;
               info_set conn (SetCustomerId (cu_NewCustomerId payload))) ;;
            (if isNil (cu_NewTopics payload) then Ret tt
             else
               topics <- info_act conn PullTopics ;;
               Topic_DelRelationByMap topics conn ;;
               info_set conn (SubscribeTopics (cu_NewTopics payload)) ;;
               Topic_SetRelation (cu_NewTopics payload) (Some conn)) ;;
            write_data conn (cu_Data payload))
      end
  end.

Definition connInfoDelete (param : bytes) : prog unit :=
  match unmarshal_ConnInfoDelete param with
  | None => Ret tt
  | Some payload =>
      if is_empty (cd_UniqId payload) then Ret tt else
      conn <- Manager_Get (cd_UniqId payload) ;;
      match conn with
      | None => Ret tt
      | Some conn =>
          with_open_conn conn (
            (if cd_DelTopic payload then
               topics <- info_act conn PullTopics ;; Topic_DelRelationByMap topics conn
             else Ret tt) ;;
            (if cd_DelSession payload then info_set conn (SetSession EmptyString) else Ret tt) ;;
            (if cd_DelCustomerId payload then
               customerId <- info_act conn (fun r => (customerId r, r)) ;;
               if is_empty customerId then Ret tt
               else (Binder_DelRelation customerId conn ;; info_set conn (SetCustomerId EmptyString))
             else Ret tt) ;;
            write_data conn (cd_Data payload))
      end
  end.

(** ** Casts *)

Definition broadcastBulk (param : bytes) : prog unit :=
  match unmarshal_BroadcastBulk param with
  | None => Ret tt
  | Some payload =>
      if isNil (bb_Data payload) then Ret tt else
      connections <- Manager_GetConnections ;;
      match connections with
      | None => Ret tt
      | Some connections =>
          for_each (bb_Data payload) (fun d =>
            if isNil d then Ret tt else
            msg <- FrameObjPool_Get (cf_SendMessageType cf) d ;;
            msg <- WriteTo_each cf msg connections ;;
            FrameObjPool_Put msg)
      end
  end.

(** The first failed write ends the whole command. *)
Definition singleCastBulk (param : bytes) : prog unit :=
  match unmarshal_SingleCastBulk param with
  | None => Ret tt
  | Some payload =>
      _all <- for_while (sb_Items payload) (fun item =>
        for_while (si_Data item) (fun d =>
          if isNil d then Ret true else
          for_while (si_UniqIds item) (fun uniqId =>
            conn <- Manager_Get uniqId ;;
            match conn with
            | None => Ret true
            | Some conn => WriteMessage cf conn (cf_SendMessageType cf) d
            end))) ;;
      Ret tt
  end.

Definition singleCastBulkByCustomerId (param : bytes) : prog unit :=
  match unmarshal_SingleCastBulkByCustomerId param with
  | None => Ret tt
  | Some payload =>
      for_each (sbc_Items payload) (fun item =>
        for_each (sc_Data item) (fun d =>
          if isNil d then Ret tt else
          msg <- FrameObjPool_Get (cf_SendMessageType cf) d ;;
          msg <- for_fold (sc_CustomerIds item) msg (fun msg customerId =>
                   connList <- Binder_GetConnListByCustomerId customerId ;;
                   WriteTo_each cf msg connList) ;;
          FrameObjPool_Put msg))
  end.

Definition topicPublishBulk (param : bytes) : prog unit :=
  match unmarshal_TopicPublishBulk param with
  | None => Ret tt
  | Some payload =>
      for_each (tpb_Items payload) (fun item =>
        for_each (tp_Data item) (fun d =>
          if isNil d then Ret tt else
          msg <- FrameObjPool_Get (cf_SendMessageType cf) d ;;
          msg <- for_fold (tp_Topics item) msg (fun msg currentTopic =>
                   connList <- Topic_GetConnListByTopic currentTopic ;;
                   match connList with
                   | None => Ret msg
                   | Some connList => WriteTo_each cf msg connList
                   end) ;;
          FrameObjPool_Put msg))
  end.

(** ** Forced disconnection *)

(** Data, if any, and then the close frame, to one connection. *)
Definition offline (closeFrame : bytes) (msg : option Frame) (conn : ptr) : prog (option Frame) :=
  msg <- match msg with
         | Some fr => r <- WriteTo cf fr conn ;; Ret (Some r.2)
         | None => Ret None
         end ;;
  WriteCloseFrame conn closeFrame ;;
  Ret msg.

(** A frame for the data when there is some, put back at the end. *)
Definition with_message (d : bytes) (k : option Frame -> prog (option Frame)) : prog unit :=
  if isNil d then (_msg <- k None ;; Ret tt)
  else
    msg <- FrameObjPool_Get (cf_SendMessageType cf) d ;;
    msg <- k (Some msg) ;;
    match msg with Some fr => FrameObjPool_Put fr | None => Ret tt end.

Definition forceOffline (param : bytes) : prog unit :=
  match unmarshal_ForceOffline param with
  | None => Ret tt
  | Some payload =>
      if isNil (fo_UniqIds payload) then Ret tt else
      let closeFrame := BuildCloseFrame StatusPolicyViolation "forceOffline" in
      with_message (fo_Data payload) (fun msg =>
        for_fold (fo_UniqIds payload) msg (fun msg uniqId =>
          conn <- Manager_Get uniqId ;;
          match conn with
          | None => Ret msg
          | Some conn => offline closeFrame msg conn
          end))
  end.

Definition forceOfflineByCustomerId (param : bytes) : prog unit :=
  match unmarshal_ForceOfflineByCustomerId param with
  | None => Ret tt
  | Some payload =>
      let closeFrame := BuildCloseFrame StatusPolicyViolation "forceOfflineByCustomerId" in
      customerIdConnList <- Binder_GetConnListByCustomerIds (fc_CustomerIds payload) ;;
      with_message (fc_Data payload) (fun msg =>
        for_fold (range_map customerIdConnList) msg (fun msg x =>
          for_fold x.2 msg (offline closeFrame)))
  end.

Definition IsLoginOnSafe (conn : ptr) : prog bool := locked_get conn IsLogin.

Definition forceOfflineGuest (param : bytes) : prog unit :=
  match unmarshal_ForceOfflineGuest param with
  | None => Ret tt
  | Some payload =>
      if isNil (fg_UniqIds payload) then Ret tt else
      let closeFrame := BuildCloseFrame StatusPolicyViolation "forceOfflineGuest" in
      let fn (msg : option Frame) (uniqId : string) : prog (option Frame) :=
        conn <- Manager_Get uniqId ;;
        match conn with
        | None => Ret msg
        | Some conn =>
            login <- IsLoginOnSafe conn ;;
            if (login : bool) then Ret msg else offline closeFrame msg conn
        end in
      let body := with_message (fg_Data payload) (fun msg => for_fold (fg_UniqIds payload) msg fn) in
      if fg_Delay payload <=? 0 then body
      else (emit (EDelayed (fg_Delay payload)) ;; spawn (recover body))
  end.

End TaskPost.
