(* ===== verification/Process.v ===== *)
(** The commands of src/internal/task/process that ask the gateway a question,
    one definition per file, and the answer they send ([process.send]);
    then process.go, the loop of a task connection. *)

From S2P Require Export TaskPost.

Section TaskGet.
Context {MO : MapOrder} `{Proto} (cf : config).

(** ** The answer *)

(** An operation of the business connection. *)
Definition net_act {A} (taskConn : ptr) (f : netConn -> A * netConn) : prog A :=
  Act (fun w => match tasks w !! taskConn with
                | Some n => AOk (f n).1 (with_tasks (insert taskConn (f n).2) w)
                | None => APanic
                end) Ret.

Definition net_close (n : netConn) : netConn :=
  mkNet (n_in n) (n_out n) true (read_deadline_fails n) (write_deadline_fails n) (write_fails_at n).

(** [SetWriteDeadline]: whether it failed. *)
Definition net_write_deadline (n : netConn) : bool * netConn :=
  (n_closed n || default false (head (write_deadline_fails n)),
   mkNet (n_in n) (n_out n) (n_closed n) (read_deadline_fails n) (tail (write_deadline_fails n)) (write_fails_at n)).

(** [net.Buffers.WriteTo]: the number of bytes out, and whether it failed. *)
Definition net_write (b : bytes) (n : netConn) : (nat * bool) * netConn :=
  let next := tail (write_fails_at n) in
  let out k := mkNet (n_in n) (n_out n ++ take k b) (n_closed n) (read_deadline_fails n)
                     (write_deadline_fails n) next in
  if n_closed n then ((0%nat, true), out 0%nat)
  else match default None (head (write_fails_at n)) with
       | Some k => ((Nat.min k (length b), true), out k)
       | None => ((length b, false), out (length b))
       end.

(** The packet: length and command, big endian, and the body. *)
Definition packet_of (cmd : Z) (body : bytes) : bytes :=
  put_be 4 (u32 (len body + 4)) ++ put_be 4 (u32 cmd) ++ body.

Definition send (taskConn : ptr) (m : message) (cmd : Z) : prog unit :=
  match marshal m with
  | None => Ret tt
  | Some body =>
      failed <- net_act taskConn net_write_deadline ;;
      if (failed : bool) then net_act taskConn (fun n => (tt, net_close n)) else
      r <- net_act taskConn (net_write (packet_of cmd body)) ;;
      if negb r.2 then Ret tt
      else if (r.1 =? 0)%nat then Ret tt
      else net_act taskConn (fun n => (tt, net_close n))
  end.

(** ** Connections and customers *)

Definition uniqIdList (taskConn : ptr) : prog unit :=
  uniqIds <- Manager_GetUniqIds ;;
  send taskConn (MUniqIdListResp uniqIds) Cmd_UniqIdList.

Definition uniqIdCount (taskConn : ptr) : prog unit :=
  n <- Manager_Len ;;
  send taskConn (MUniqIdCountResp (i32 n)) Cmd_UniqIdCount.

Definition checkOnline (param : bytes) (taskConn : ptr) : prog unit :=
  match unmarshal_CheckOnlineReq param with
  | None => Ret tt
  | Some payload =>
      uniqIds <- for_fold (co_UniqIds payload) [] (fun uniqIds uniqId =>
        has <- Manager_Has uniqId ;;
        Ret (if (has : bool) then uniqIds ++ [uniqId] else uniqIds)) ;;
      send taskConn (MCheckOnlineResp uniqIds) Cmd_CheckOnline
  end.

Definition customerIdList (taskConn : ptr) : prog unit :=
  customerIds <- Binder_GetCustomerIds ;;
  send taskConn (MCustomerIdListResp customerIds) Cmd_CustomerIdList.

Definition customerIdCount (taskConn : ptr) : prog unit :=
  n <- Binder_Len ;;
  send taskConn (MCustomerIdCountResp (i32 n)) Cmd_CustomerIdCount.

(** [GetConnInfoOnSafe] and [GetConnInfoByCustomerIdOnSafe], on a fresh item. *)
Definition GetConnInfoOnSafe (req : ConnInfoReq) (r : info) : ConnInfoRespItem :=
  mkConnInfoRespItem
    (if ci_ReqSession req then session r else EmptyString)
    (if ci_ReqCustomerId req then customerId r else EmptyString)
    (if ci_ReqTopic req && (0 <? topic_count r)%nat then getTopics r else []).

Definition GetConnInfoByCustomerIdOnSafe (req : ConnInfoByCustomerIdReq) (r : info) : ConnInfoByCustomerIdRespItem :=
  mkConnInfoByCustomerIdRespItem
    (if cc_ReqSession req then session r else EmptyString)
    (if cc_ReqUniqId req then uniqId r else EmptyString)
    (if cc_ReqTopic req && (0 <? topic_count r)%nat then getTopics r else []).

Definition connInfo (param : bytes) (taskConn : ptr) : prog unit :=
  match unmarshal_ConnInfoReq param with
  | None => Ret tt
  | Some payload =>
      items <- for_fold (ci_UniqIds payload) ∅ (fun (items : gmap string ConnInfoRespItem) uniqId =>
        conn <- Manager_Get uniqId ;;
        match conn with
        | None => Ret items
        | Some conn =>
            item <- locked_get conn (GetConnInfoOnSafe payload) ;;
            Ret (<[uniqId := item]> items)
        end) ;;
      send taskConn (MConnInfoResp items) Cmd_ConnInfo
  end.

Definition connInfoByCustomerId (param : bytes) (taskConn : ptr) : prog unit :=
  match unmarshal_ConnInfoByCustomerIdReq param with
  | None => Ret tt
  | Some payload =>
      customerIdConnList <- Binder_GetConnListByCustomerIds (cc_CustomerIds payload) ;;
      ret <- for_fold (range_map customerIdConnList) ∅
        (fun (ret : gmap string (list ConnInfoByCustomerIdRespItem)) x =>
          items <- for_fold x.2 [] (fun items conn =>
            item <- locked_get conn (GetConnInfoByCustomerIdOnSafe payload) ;;
            Ret (items ++ [item])) ;;
          Ret (if negb (isNil items) then <[x.1 := items]> ret else ret)) ;;
      send taskConn (MConnInfoByCustomerIdResp ret) Cmd_ConnInfoByCustomerId
  end.

(** ** Topics *)

Definition topicList (taskConn : ptr) : prog unit :=
  topics <- Topic_Get ;;
  send taskConn (MTopicListResp topics) Cmd_TopicList.

Definition topicCount (taskConn : ptr) : prog unit :=
  n <- Topic_Len ;;
  send taskConn (MTopicCountResp (i32 n)) Cmd_TopicCount.

(** [for tpc, x := range m { ret[tpc] = f(x) }] *)
Definition map_all {A R} (m : gmap string A) (f : A -> prog R) : prog (gmap string R) :=
  for_fold (range_map m) ∅ (fun ret x => r <- f x.2 ;; Ret (<[x.1 := r]> ret)).

Definition topicUniqIdList (param : bytes) (taskConn : ptr) : prog unit :=
  match unmarshal_TopicsReq Cmd_TopicUniqIdList param with
  | None => Ret tt
  | Some payload =>
      topicConnList <- Topic_GetConnListByTopics (tq_Topics payload) ;;
      items <- map_all topicConnList GetUniqIds ;;
      send taskConn (MTopicUniqIdListResp items) Cmd_TopicUniqIdList
  end.

Definition topicUniqIdCount (param : bytes) (taskConn : ptr) : prog unit :=
  match unmarshal_TopicsReq Cmd_TopicUniqIdCount param with
  | None => Ret tt
  | Some payload =>
      items <- (if isNil (tq_Topics payload) then Topic_CountConn
                else Topic_CountConnByTopic (tq_Topics payload)) ;;
      send taskConn (MTopicUniqIdCountResp items) Cmd_TopicUniqIdCount
  end.

Definition topicCustomerIdList (param : bytes) (taskConn : ptr) : prog unit :=
  match unmarshal_TopicsReq Cmd_TopicCustomerIdList param with
  | None => Ret tt
  | Some payload =>
      topicConnList <- Topic_GetConnListByTopics (tq_Topics payload) ;;
      items <- map_all topicConnList GetCustomerIds ;;
      send taskConn (MTopicCustomerIdListResp items) Cmd_TopicCustomerIdList
  end.

Definition topicCustomerIdCount (param : bytes) (taskConn : ptr) : prog unit :=
  match unmarshal_TopicsReq Cmd_TopicCustomerIdCount param with
  | None => Ret tt
  | Some payload =>
      topicConnList <- (if isNil (tq_Topics payload) then Topic_GetConnList
                        else Topic_GetConnListByTopics (tq_Topics payload)) ;;
      items <- map_all topicConnList (fun connList => n <- CountCustomerIds connList ;; Ret (i32 n)) ;;
      send taskConn (MTopicCustomerIdCountResp items) Cmd_TopicCustomerIdCount
  end.

Definition topicCustomerIdToUniqIdsList (param : bytes) (taskConn : ptr) : prog unit :=
  match unmarshal_TopicsReq Cmd_TopicCustomerIdToUniqIdsList param with
  | None => Ret tt
  | Some payload =>
      topicConnList <- Topic_GetConnListByTopics (tq_Topics payload) ;;
      items <- map_all topicConnList (fun connList =>
        customerIds <- GetCustomerIds connList ;;
        customerIdConnList <- Binder_GetConnListByCustomerIds customerIds ;;
        map_all customerIdConnList GetUniqIds) ;;
      send taskConn (MTopicCustomerIdToUniqIdsListResp items) Cmd_TopicCustomerIdToUniqIdsList
  end.

(** ** Statistics and limits *)

(** metrics.Registry: the items that are configured are counted. *)
Definition itemLen : Z := 23.

Definition metrics (taskConn : ptr) : prog unit :=
  items <- for_fold (seqZ 1 (itemLen - 1)) ∅ (fun (items : gmap Z MetricsRespItem) item =>
    count <- gets (fun w => meters w !! item) ;;
    Ret (match count with
         | Some n => <[i32 item := mkMetricsRespItem (i32 item) n]> items
         | None => items
         end)) ;;
  send taskConn (MMetricsResp items) Cmd_Metrics.

(** limit.Manager: a limiter that is not in the map is the nil limiter. *)
Definition Limit_of (event : Z) (l : gmap Z Z) : Z := default 0 (l !! event).

Definition Limit_SetLimit (event n : Z) (l : gmap Z Z) : gmap Z Z := alter (fun _ => n) event l.

Definition Limit_Update (payload : LimitReq) : prog unit :=
  (if 0 <? lq_OnOpen payload then
     cur <- gets (fun w => Limit_of Event_OnOpen (limiters w)) ;;
     if negb (lq_OnOpen payload =? cur)
     then modify (with_limiters (Limit_SetLimit Event_OnOpen (lq_OnOpen payload))) else Ret tt
   else Ret tt) ;;
  (if 0 <? lq_OnMessage payload then
     cur <- gets (fun w => Limit_of Event_OnMessage (limiters w)) ;;
     if negb (lq_OnMessage payload =? cur)
     then modify (with_limiters (Limit_SetLimit Event_OnMessage (lq_OnMessage payload))) else Ret tt
   else Ret tt).

Definition Limit_Get : prog (Z * Z) :=
  a <- gets (fun w => Limit_of Event_OnOpen (limiters w)) ;;
  b <- gets (fun w => Limit_of Event_OnMessage (limiters w)) ;;
  Ret (i32 a, i32 b).

Definition Limit_Allow (event : Z) : prog bool :=
  real <- gets (fun w => bool_decide (is_Some (limiters w !! event))) ;;
  if (real : bool) then ask next_rate else Ret true.

Definition limit (param : bytes) (taskConn : ptr) : prog unit :=
  match unmarshal_LimitReq param with
  | None => Ret tt
  | Some payload =>
      Limit_Update payload ;;
      r <- Limit_Get ;;
      send taskConn (MLimitResp r.1 r.2) Cmd_Limit
  end.

End TaskGet.

(** ** src/internal/task/process/process.go: the tables of the commands and the
    loop that serves a connection of a business process. *)

(** A Go map from commands. *)
Fixpoint lookup_cmd {A} (cmd : Z) (l : list (Z * A)) : option A :=
  match l with
  | [] => None
  | (k, a) :: l' => if cmd =? k then Some a else lookup_cmd cmd l'
  end.

Lemma lookup_cmd_Forall {A} (P : A -> Prop) cmd l a :
  Forall (fun x => P x.2) l -> lookup_cmd cmd l = Some a -> P a.
Proof.
  induction 1 as [|[k x] l Hx Hl IH]; cbn; [done|]. destruct (cmd =? k); [by intros [= <-]|done].
Qed.

Section Process.
Context {MO : MapOrder} `{Deflate} `{Proto} (cf : config).

Definition postNonBlockingCallback : list (Z * (bytes -> prog unit)) :=
  [(Cmd_TopicPublishBulk, topicPublishBulk cf);
   (Cmd_SingleCastBulk, singleCastBulk cf);
   (Cmd_SingleCastBulkByCustomerId, singleCastBulkByCustomerId cf);
   (Cmd_BroadcastBulk, broadcastBulk cf)].

Definition postBlockingCallback : list (Z * (bytes -> prog unit)) :=
  [(Cmd_ConnInfoUpdate, connInfoUpdate cf);
   (Cmd_ConnInfoDelete, connInfoDelete cf);
   (Cmd_ForceOffline, forceOffline cf);
   (Cmd_ForceOfflineByCustomerId, forceOfflineByCustomerId cf);
   (Cmd_ForceOfflineGuest, forceOfflineGuest cf);
   (Cmd_TopicSubscribe, topicSubscribe cf);
   (Cmd_TopicUnsubscribe, topicUnsubscribe cf);
   (Cmd_TopicDelete, topicDelete cf)].

Definition getCallback : list (Z * (bytes -> ptr -> prog unit)) :=
  [(Cmd_UniqIdList, fun _ => uniqIdList);
   (Cmd_UniqIdCount, fun _ => uniqIdCount);
   (Cmd_TopicUniqIdList, topicUniqIdList);
   (Cmd_TopicUniqIdCount, topicUniqIdCount);
   (Cmd_TopicCount, fun _ => topicCount);
   (Cmd_TopicList, fun _ => topicList);
   (Cmd_ConnInfo, connInfo);
   (Cmd_ConnInfoByCustomerId, connInfoByCustomerId);
   (Cmd_Metrics, fun _ => metrics);
   (Cmd_CheckOnline, checkOnline);
   (Cmd_Limit, limit);
   (Cmd_CustomerIdCount, fun _ => customerIdCount);
   (Cmd_CustomerIdList, fun _ => customerIdList);
   (Cmd_TopicCustomerIdList, topicCustomerIdList);
   (Cmd_TopicCustomerIdCount, topicCustomerIdCount);
   (Cmd_TopicCustomerIdToUniqIdsList, topicCustomerIdToUniqIdsList)].

(** [SetReadDeadline]: whether it failed. *)
Definition net_read_deadline (n : netConn) : bool * netConn :=
  (n_closed n || default false (head (read_deadline_fails n)),
   mkNet (n_in n) (n_out n) (n_closed n) (tail (read_deadline_fails n)) (write_deadline_fails n) (write_fails_at n)).

(** [io.ReadAtLeast]: [None] when the stream ends before. *)
Definition net_read (k : Z) (n : netConn) : option bytes * netConn :=
  let rest l := mkNet l (n_out n) (n_closed n) (read_deadline_fails n) (write_deadline_fails n) (write_fails_at n) in
  if len (n_in n) <? k then (None, rest [])
  else (Some (take (Z.to_nat k) (n_in n)), rest (drop (Z.to_nat k) (n_in n))).

(** One packet that is neither a heartbeat nor too short: whether the command
    is known. *)
Definition exec (conn : ptr) (currentCmd : Z) (param : bytes) : prog bool :=
  match lookup_cmd currentCmd postNonBlockingCallback with
  | Some pnbCallback =>
      let fn := recover (pnbCallback param) in
      err <- Submit fn ;;
      match err with Some _ => spawn fn | None => Ret tt end ;; Ret true
  | None =>
      match lookup_cmd currentCmd postBlockingCallback with
      | Some pbCallback => recover (pbCallback param) ;; Ret true
      | None =>
          match lookup_cmd currentCmd getCallback with
          | Some gCallback => recover (gCallback param conn) ;; Ret true
          | None => Ret false
          end
      end
  end.

(** One turn of the loop: whether to go on. *)
Definition process_turn (conn : ptr) : prog bool :=
  failed <- net_act conn net_read_deadline ;;
  if (failed : bool) then Ret false else
  dataLenBuf <- net_act conn (net_read 4) ;;
  match dataLenBuf with
  | None => Ret false
  | Some dataLenBuf =>
      let dataLen := be dataLenBuf in
      if cf_TaskReceivePackLimit cf <? dataLen then Ret false else
      data <- net_act conn (net_read dataLen) ;;
      match data with
      | None => Ret false
      | Some data =>
          if bool_decide (cf_TaskHeartbeatMessage cf = data) then Ret true
          else if len data <? 4 then Ret false
          else exec conn (i32 (be (take 4 data))) (drop 4 data)
      end
  end.

Fixpoint process_loop (fuel : nat) (conn : ptr) : prog unit :=
  match fuel with
  | O => NoFuel
  | S fuel =>
      continue <- process_turn conn ;;
      if (continue : bool) then process_loop fuel conn else Ret tt
  end.

(** [Process]: every turn but the last takes four bytes, so the fuel lasts. *)
Definition Process (conn : ptr) : prog unit :=
  fuel <- net_act conn (fun n => (S (length (n_in n)), n)) ;;
  recover (process_loop fuel conn) ;;
  net_act conn (fun n => (tt, net_close n)).

End Process.
