(* ===== verification/Queue.v ===== *)
(** The bounded ring of pkg/queue between many producers and one consumer, with
    its atomic steps: every load, store and compare-and-swap of a goroutine is
    one step, and the steps of the goroutines interleave. *)

From S2P Require Export Prelude.

Module Queue.

(** ** New: the capacity is rounded up to a power of two. *)

Definition round_capacity (capacity : Z) : Z :=
  let c := if capacity <=? 1 then 2 else if 65536 <? capacity then 65536 else capacity in
  let c := c - 1 in
  let c := Z.lor c (Z.shiftr c 1) in
  let c := Z.lor c (Z.shiftr c 2) in
  let c := Z.lor c (Z.shiftr c 4) in
  let c := Z.lor c (Z.shiftr c 8) in
  let c := Z.lor c (Z.shiftr c 16) in
  c + 1.

Section Ring.
Context {A : Type} (zero : A).

(** The memory the goroutines share: head, tail and the sequence numbers are
    uint64, the channel of the notices holds one token. The i-th slot has the
    sequence number [r_seqs !! i] and the datum [r_cells !! i]. *)
Record ring := mkRing {
  r_head : Z;
  r_tail : Z;
  r_mask : Z;
  r_closed : bool;
  r_noticer : bool;
  r_seqs : list Z;
  r_cells : list A;
}.

Definition New (capacity : Z) : ring :=
  let cap := round_capacity capacity in
  mkRing 0 0 (cap - 1) false false (Z.of_nat <$> seq 0 (Z.to_nat cap)) (replicate (Z.to_nat cap) zero).

Definition index (r : ring) (pos : Z) : nat := Z.to_nat (Z.land pos (r_mask r)).

Definition sequenceAt (r : ring) (pos : Z) : Z := default 0 (r_seqs r !! index r pos).
Definition dataAt (r : ring) (pos : Z) : A := default zero (r_cells r !! index r pos).

Definition set_head (v : Z) (r : ring) : ring :=
  mkRing v (r_tail r) (r_mask r) (r_closed r) (r_noticer r) (r_seqs r) (r_cells r).
Definition set_tail (v : Z) (r : ring) : ring :=
  mkRing (r_head r) v (r_mask r) (r_closed r) (r_noticer r) (r_seqs r) (r_cells r).
Definition set_closed (v : bool) (r : ring) : ring :=
  mkRing (r_head r) (r_tail r) (r_mask r) v (r_noticer r) (r_seqs r) (r_cells r).
Definition set_noticer (v : bool) (r : ring) : ring :=
  mkRing (r_head r) (r_tail r) (r_mask r) (r_closed r) v (r_seqs r) (r_cells r).
Definition set_sequence (pos v : Z) (r : ring) : ring :=
  mkRing (r_head r) (r_tail r) (r_mask r) (r_closed r) (r_noticer r) (<[index r pos := v]> (r_seqs r)) (r_cells r).
Definition set_data (pos : Z) (x : A) (r : ring) : ring :=
  mkRing (r_head r) (r_tail r) (r_mask r) (r_closed r) (r_noticer r) (r_seqs r) (<[index r pos := x]> (r_cells r)).

Definition Len (tail head : Z) : Z := if head <? tail then 0 else head - tail.
Definition Cap (r : ring) : Z := r_mask r + 1.
Definition IsClosed (r : ring) : bool := r_closed r.

(** ** Enqueue, TryEnqueue and Close

    What a goroutine has left to do, with its local variables. [Loop] is
    Enqueue, which tries again, [Once] is TryEnqueue, which does not. *)

Inductive kind := Loop | Once.

Inductive pc :=
  | Idle
  | EClosed (k : kind) (x : A)           (* load closed *)
  | EHead (k : kind) (x : A)             (* load head *)
  | ESeq (k : kind) (x : A) (h : Z)      (* load the sequence number of the slot *)
  | ECas (k : kind) (x : A) (h : Z)      (* it was the head: try to move the head *)
  | EWrite (x : A) (h : Z)               (* moved: write the datum *)
  | EStore (x : A) (h : Z)               (* store the sequence number *)
  | ENotify                              (* leave a token, if there is none *)
  | EFull (x : A) (h : Z)                (* it was below the head: load the head again *)
  | KCas                                 (* Close: set closed *)
  | KNotify.                             (* it was not: leave a token *)

(** One step; [Some b] at the end is the result of the call. *)
Definition enq_step (r : ring) (p : pc) : option (ring * pc * option bool) :=
  match p with
  | Idle => None
  | EClosed k x => Some (if r_closed r then (r, Idle, Some false) else (r, EHead k x, None))
  | EHead k x => Some (r, ESeq k x (r_head r), None)
  | ESeq k x h =>
      let sequence := sequenceAt r h in
      Some (if sequence =? h then (r, ECas k x h, None)
            else match k with
                 | Once => (r, Idle, Some false)
                 | Loop => if sequence <? h then (r, EFull x h, None) else (r, EClosed Loop x, None)
                 end)
  | ECas k x h =>
      Some (if r_head r =? h then (set_head (u64 (h + 1)) r, EWrite x h, None)
            else match k with
                 | Once => (r, Idle, Some false)
                 | Loop => (r, EClosed Loop x, None)
                 end)
  | EWrite x h => Some (set_data h x r, EStore x h, None)
  | EStore x h => Some (set_sequence h (u64 (h + 1)) r, ENotify, None)
  | ENotify => Some (set_noticer true r, Idle, Some true)
  | EFull x h => Some (if r_head r =? h then (r, Idle, Some false) else (r, EClosed Loop x, None))
  | KCas => Some (if r_closed r then (r, Idle, None) else (set_closed true r, KNotify, None))
  | KNotify => Some (set_noticer true r, Idle, None)
  end.

(** ** Dequeue

    [limit] is the length of the slice that takes the result, [sched] the counter
    [schedule], [t] the local tail and [res] what has been read so far. *)

Inductive cpc :=
  | CIdle
  | CTail (limit sched : nat)                        (* loop: load the tail *)
  | CRead (limit sched : nat) (t : Z) (res : list A)  (* the head of the for loop *)
  | CTake (limit sched : nat) (t : Z) (res : list A)  (* a datum is ready: take it *)
  | CEmpty (limit sched : nat)                       (* nothing read: load closed *)
  | CWait (limit sched : nat)                        (* receive a token *)
  | CCheck (limit sched : nat)                       (* load closed again *)
  | CLenTail (limit sched : nat)                     (* Len: load the tail *)
  | CLenHead (limit sched : nat) (t : Z)             (* Len: load the head *)
  | CCommit (t : Z) (res : list A)                   (* store the tail *)
  | CRelease (base : Z) (i : nat) (res : list A)     (* release the i-th slot *)
  | CPanic.

Definition deq_call (limit : nat) : cpc := match limit with O => CPanic | S _ => CTail limit 0 end.

(** One step; [None] is a goroutine that waits or has nothing to do. *)
Definition deq_step (r : ring) (c : cpc) : option (ring * cpc * option (list A)) :=
  match c with
  | CIdle | CPanic => None
  | CTail limit sched => Some (r, CRead limit sched (r_tail r) [], None)
  | CRead limit sched t res =>
      Some (if (length res <? limit)%nat && (sequenceAt r t =? u64 (t + 1))
            then (r, CTake limit sched t res, None)
            else match res with
                 | [] => (r, CEmpty limit sched, None)
                 | _ => (r, CCommit t res, None)
                 end)
  | CTake limit sched t res =>
      Some (set_data t zero r, CRead limit sched (u64 (t + 1)) (res ++ [dataAt r t]), None)
  | CEmpty limit sched =>
      Some (if r_closed r then (r, CCheck limit sched, None)
            else if (sched <? 3)%nat then (r, CTail limit (S sched), None) else (r, CWait limit sched, None))
  | CWait limit sched => if r_noticer r then Some (set_noticer false r, CCheck limit sched, None) else None
  | CCheck limit sched =>
      Some (if r_closed r then (r, CLenTail limit sched, None) else (r, CTail limit sched, None))
  | CLenTail limit sched => Some (r, CLenHead limit sched (r_tail r), None)
  | CLenHead limit sched t =>
      Some (if 0 <? Len t (r_head r) then (r, CTail limit sched, None) else (r, CIdle, Some []))
  | CCommit t res => Some (set_tail t r, CRelease (u64 (t - len res)) 0 res, None)
  | CRelease base i res =>
      Some (if (i <? length res)%nat
            then (set_sequence (u64 (base + Z.of_nat i)) (u64 (u64 (base + Z.of_nat i) + r_mask r + 1)) r,
                  CRelease base (S i) res, None)
            else (r, CIdle, Some res))
  end.

(** ** All goroutines together

    [hist] and [got] are the history: the data whose compare-and-swap succeeded,
    in that order, and the results of Dequeue. *)

Record state := mkState {
  mem : ring;
  threads : gmap nat pc;
  consumer : cpc;
  hist : list A;
  got : list A;
}.

Definition accepted (p p' : pc) : list A :=
  match p, p' with ECas _ x _, EWrite _ _ => [x] | _, _ => [] end.

Definition start (capacity : Z) (tids : list nat) : state :=
  mkState (New capacity) (list_to_map ((fun t => (t, Idle)) <$> tids)) CIdle [] [].

Inductive step : state -> state -> Prop :=
  | s_call s tid p :
      threads s !! tid = Some Idle -> (p = KCas \/ exists k x, p = EClosed k x) ->
      step s (mkState (mem s) (<[tid := p]> (threads s)) (consumer s) (hist s) (got s))
  | s_dequeue s limit :
      consumer s = CIdle -> step s (mkState (mem s) (threads s) (deq_call limit) (hist s) (got s))
  | s_thread s tid p r' p' o :
      threads s !! tid = Some p -> enq_step (mem s) p = Some (r', p', o) ->
      step s (mkState r' (<[tid := p']> (threads s)) (consumer s) (hist s ++ accepted p p') (got s))
  | s_consumer s r' c' o :
      deq_step (mem s) (consumer s) = Some (r', c', o) ->
      step s (mkState r' (threads s) c' (hist s) (got s ++ default [] o)).

Definition reachable (capacity : Z) (s : state) : Prop := exists tids, star step (start capacity tids) s.

End Ring.

(** ** Where the slots lie in memory

    The lists [r_seqs] and [r_cells] stand for one array of structs that is accessed by
    pointer arithmetic. *)
Module Layout.

Definition cacheLineSize : Z := 128.

Definition round_up (n a : Z) : Z := (n + a - 1) / a * a.

(** The struct [slot] of an element with this size and alignment: the sequence number, the
    padding, the element; an empty element at the end gets a byte. *)
Definition offset_of_data (align : Z) : Z := round_up (8 + (cacheLineSize - 8)) align.
Definition slot_size (size align : Z) : Z :=
  round_up (offset_of_data align + (if size =? 0 then 1 else size)) (Z.max 8 align).

Record slotAccess := mkSlotAccess { seqOffset : Z; dataOffset : Z; stride : Z; base : Z }.

Definition sequence_address (s : slotAccess) (i : Z) : Z := u64 (base s + u64 (u64 (stride s * i) + seqOffset s)).
Definition data_address (s : slotAccess) (i : Z) : Z := u64 (base s + u64 (u64 (stride s * i) + dataOffset s)).

(** The distance of the slots, and how many structs each takes. *)
Definition spread (slotSize : Z) : Z * Z :=
  let stride := if slotSize <? cacheLineSize then cacheLineSize else slotSize in
  if 0 <? slotSize then
    let n := (stride + slotSize - 1) / slotSize in
    if n * slotSize <? cacheLineSize then ((n + 1) * slotSize, n + 1) else (stride, n)
  else (stride, 1).

Definition newSlotAccess (buf size align : Z) : slotAccess :=
  mkSlotAccess 0 (offset_of_data align) (spread (slot_size size align)).1 buf.

(** The bytes of the array. *)
Definition buffer_size (capacity size align : Z) : Z := capacity * (spread (slot_size size align)).2 * slot_size size align.

Definition go_type (size align : Z) : Prop := 0 <= size /\ align ∈ [1; 2; 4; 8] /\ size mod align = 0.

Lemma round_up_bounds n a : 0 < a -> n <= round_up n a < n + a /\ round_up n a mod a = 0.
Proof.
  intros Ha. unfold round_up. pose proof (Z.div_mod (n + a - 1) a ltac:(lia)). pose proof (Z.mod_pos_bound (n + a - 1) a Ha).
  split; [lia|]. by rewrite Z.mod_mul by lia.
Qed.

(** A struct is longer than a cache line, so it is never spread. *)
Lemma layout_of size align :
  go_type size align -> offset_of_data align = 128 /\ 128 + size <= slot_size size align /\ slot_size size align mod 8 = 0 /\
  spread (slot_size size align) = (slot_size size align, 1).
Proof.
  intros (Hs & Ha & _). assert (offset_of_data align = 128) as Eo by (set_unfold; naive_solver).
  assert (Z.max 8 align = 8) as Em by (set_unfold; lia). unfold slot_size. rewrite Eo, Em.
  destruct (round_up_bounds (128 + (if size =? 0 then 1 else size)) 8 ltac:(lia)) as [Hr Hm].
  set (n := round_up _ 8) in *. assert (128 < n /\ 128 + size <= n) as [Hlt Hle] by (destruct (Z.eqb_spec size 0); lia).
  split_and!; [done|lia|done|]. unfold spread, cacheLineSize. destruct (Z.ltb_spec n 128); [lia|]. destruct (Z.ltb_spec 0 n); [|lia].
  assert ((n + n - 1) / n = 1) as -> by (symmetry; apply (Z.div_unique _ _ _ (n - 1)); lia).
  destruct (Z.ltb_spec (1 * n) 128); [lia|done].
Qed.

(** The words of the slots are apart and within the array, whatever the elements are: the
    sequence number of a slot comes first, its element behind it, then the next slot. *)
Theorem slots_apart buf capacity size align i :
  go_type size align -> buf mod 8 = 0 -> 0 < buf -> buf + buffer_size capacity size align < 2 ^ 64 -> 0 <= i < capacity ->
  let s := newSlotAccess buf size align in
  buf + stride s * i = sequence_address s i /\ sequence_address s i mod 8 = 0 /\
  sequence_address s i + 8 <= data_address s i /\ data_address s i mod align = 0 /\
  data_address s i + size <= buf + stride s * (i + 1) <= buf + buffer_size capacity size align.
Proof.
  intros Ht Hb Hpos Hfit Hi s. destruct (layout_of size align Ht) as (Eo & Hsz & Hm & Es).
  unfold buffer_size in *. unfold sequence_address, data_address, s, newSlotAccess in *. cbn. rewrite Eo, Es in *. cbn in *.
  set (n := slot_size size align) in *. destruct Ht as (Hs & Ha & Hsa).
  assert (n * i + n <= capacity * 1 * n) by nia. assert (0 <= n * i) by nia.
  rewrite !(u64_small (n * i)) by lia. rewrite !u64_small by (rewrite ?u64_small; lia).
  assert ((n * i) mod 8 = 0) as Hni by (rewrite Z.mul_mod, Hm by lia; reflexivity).
  split_and!; [lia| |lia| |lia|nia].
  - rewrite Z.add_0_r, Z.add_mod, Hb, Hni by lia. reflexivity.
  - assert (Z.divide align 8) as Hd by (set_unfold; destruct Ha as [->|[->|[->|[->|[]]]]]; [by exists 8|by exists 4|by exists 2|by exists 1]).
    apply Z.mod_divide; [set_unfold; lia|]. repeat apply Z.divide_add_r.
    + etrans; [exact Hd|]. apply Z.mod_divide; [lia|done].
    + etrans; [exact Hd|]. apply Z.mod_divide; [lia|done].
    + etrans; [exact Hd|]. by exists 16.
Qed.

(** For elements that are pointers a slot takes 136 bytes: its element lies in the cache
    line of the next slot's sequence number, and not in that of its own. *)
Theorem slots_share_lines :
  let s := newSlotAccess 128 8 8 in
  data_address s 0 / cacheLineSize = sequence_address s 1 / cacheLineSize /\
  data_address s 0 / cacheLineSize <> sequence_address s 0 / cacheLineSize.
Proof. vm_compute. split; [reflexivity|intros [=]]. Qed.
End Layout.
End Queue.
