(* ===== verification/Worker.v ===== *)
(** src/internal/worker: the connections of the business processes that receive
    events: collect.go, manager.go, packet.go, connId.go, conn.go, process.go.
    The send queue is used by its specification, the bounded queue [fifo]. The loops have
    fuel, and running out of it is [NoFuel], which the [recover] of the source does not
    catch. *)

From S2P Require Import Queue.
From S2P Require Export Process.

(** ** connId.go *)

(** [hex.EncodeToString]. *)
Definition hex_encode (l : bytes) : string :=
  String.string_of_list_ascii
    (mjoin ((fun b => [UniqIdGen.hexDigit (Z.shiftr b 4); UniqIdGen.hexDigit (Z.land b 15)]) <$> l)).

(** [newConnId], from the template, the four bytes of the remote address, its
    port and the time. *)
Definition newConnId (connIdTemplate : bytes) (ip : bytes) (port now : Z) : string :=
  hex_encode (take 6 connIdTemplate ++ ip ++ put_be 2 (u16 port) ++ put_be 4 (u32 now)).

Section Worker.
Context {MO : MapOrder} `{Proto} (cf : config).

Definition worker_act {A} (p : ptr) (f : workerConn -> A * workerConn) : prog A :=
  Act (fun w => match workers w !! p with
                | Some c => AOk (f c).1 (with_workers (insert p (f c).2) w)
                | None => APanic
                end) Ret.

Definition set_net (n : netConn) (c : workerConn) : workerConn :=
  mkWorkerConn n (sendCh c) (connId c) (closeLock c) (events c) (dequeueSize c).
Definition set_sendCh (q : fifo packet) (c : workerConn) : workerConn :=
  mkWorkerConn (w_net c) q (connId c) (closeLock c) (events c) (dequeueSize c).
Definition set_closeLock (v : Z) (c : workerConn) : workerConn :=
  mkWorkerConn (w_net c) (sendCh c) (connId c) v (events c) (dequeueSize c).
Definition SetEvents (v : Z) (c : workerConn) : workerConn :=
  mkWorkerConn (w_net c) (sendCh c) (connId c) (closeLock c) v (dequeueSize c).

Definition worker_net {A} (p : ptr) (f : netConn -> A * netConn) : prog A :=
  worker_act p (fun c => ((f (w_net c)).1, set_net (f (w_net c)).2 c)).

(** ** collect.go *)

Definition collect_act {A} (event : Z) (f : world -> collect -> A * collect) : prog A :=
  Act (fun w => match collects w !! event with
                | Some k => AOk (f w k).1 (with_collects (insert event (f w k).2) w)
                | None => APanic
                end) Ret.

Definition Collect_Get (event : Z) : prog (option ptr) :=
  index <- collect_act event (fun _ k =>
             let index := u32 (k_index k + 1) in (index, mkCollect (k_conn k) index)) ;;
  collect_act event (fun _ k =>
    (match k_conn k with
     | [] => None
     | l => l !! Z.to_nat (index mod (u32 (len l)))
     end, k)).

Definition Collect_Set (event : Z) (conn : ptr) : prog unit :=
  collect_act event (fun _ k =>
    (tt, if bool_decide (conn ∈ k_conn k) then k else mkCollect (k_conn k ++ [conn]) (k_index k))).

(** The slice without the first connection of that connId. *)
Fixpoint remove_conn (ws : gmap ptr workerConn) (c : string) (l : list ptr) : option (list ptr) :=
  match l with
  | [] => None
  | v :: l' => if bool_decide (connId <$> ws !! v = Some c) then Some l'
               else cons v <$> remove_conn ws c l'
  end.

Definition Collect_Del (event : Z) (connId : string) : prog bool :=
  if is_empty connId then Ret false
  else collect_act event (fun w k =>
    match remove_conn (workers w) connId (k_conn k) with
    | Some l => (true, mkCollect l (k_index k))
    | None => (false, k)
    end).

(** ** manager.go *)

(** netsvrProtocol.Event_value, a Go map, and the loop over it. *)
Definition Event_value : gmap string Z :=
  {[ "Placeholder" := Event_Placeholder; "OnOpen" := Event_OnOpen;
     "OnClose" := Event_OnClose; "OnMessage" := Event_OnMessage ]}%string.

Definition event_list : list Z := filter (fun v => v <> Event_Placeholder) (range_map Event_value).*2.

(** [events & v == v] on int32. *)
Definition has_event (events v : Z) : bool := Z.land events v =? v.

Definition WManager_Get (event : Z) : prog (option ptr) :=
  if is_empty (cf_WorkerListenAddress cf) then Ret None else Collect_Get event.

Definition WManager_Set (conn : ptr) : prog unit :=
  events <- worker_act conn (fun c => (events c, c)) ;;
  for_each event_list (fun v => if has_event events v then Collect_Set v conn else Ret tt).

Definition WManager_Del (connId : string) : prog bool :=
  for_fold event_list false (fun ret v =>
    b <- Collect_Del v connId ;;
    Ret (if (b : bool) then true else ret)).

(** ** packet.go *)

Definition packet_set (m : message) (cmd : Z) : option packet :=
  match marshal m with
  | None => None
  | Some body => Some (mkPacket (put_be 4 (u32 (len body + 4)) ++ put_be 4 (u32 cmd)) body
                                (if 0 <? len body then byteslice_cap (len body) else 0))
  end.

(** ** conn.go *)

(** [newConn]; its [go tmp.loopSend()] is [loopSend]. *)
Definition newConn (connIdTemplate ip : bytes) (port now : Z) (conn : netConn) (dequeueSize : nat) : workerConn :=
  mkWorkerConn conn (mkFifo (Z.to_nat (Queue.round_capacity (cf_WorkerSendChanCap cf))) [] false)
    (newConnId connIdTemplate ip port now) 0 0 dequeueSize.

(** [Close]; the queue is closed by a timer, after the connection. *)
Definition Worker_Close (p : ptr) : prog unit :=
  first <- worker_act p (fun c => if closeLock c =? 0 then (true, set_closeLock 1 c) else (false, c)) ;;
  if negb first then Ret tt
  else
    connId <- worker_act p (fun c => (connId c, c)) ;;
    _ok <- WManager_Del connId ;;
    worker_net p (fun n => (tt, net_close n)) ;;
    spawn (worker_act p (fun c => (tt, set_sendCh (fifo_close (sendCh c)) c))).

Definition Worker_Send (p : ptr) (m : message) (cmd : Z) : prog unit :=
  match packet_set m cmd with
  | None => Ret tt
  | Some pkg =>
      ok <- worker_act p (fun c => let r := fifo_enqueue pkg (sendCh c) in (r.1, set_sendCh r.2 c)) ;;
      if (ok : bool) then Ret tt else Mark ItemWorkerToBusinessFailedCount 1
  end.

(** The [net.Buffers] of some packets: slices with their capacities. *)
Definition buffers_of (l : list packet) : list (bytes * Z) :=
  mjoin ((fun pkg => [(header pkg, 8); (body pkg, body_cap pkg)]) <$> l).

(** [net.Buffers.consume]: what [WriteTo] leaves after [n] bytes. *)
Fixpoint consume (n : nat) (l : list (bytes * Z)) : list (bytes * Z) :=
  match l with
  | [] => []
  | (b, c) :: l' => if (n <? length b)%nat then (drop n b, c - Z.of_nat n) :: l'
                    else consume (n - length b) l'
  end.

(** The log of a failed write takes the slices that are left two by two for a
    header and a body: [header[4:8]] panics when the capacity is below 8. *)
Fixpoint format_panics (l : list (bytes * Z)) : bool :=
  match l with
  | (_, c) :: _ :: l' => (c <? 8) || format_panics l'
  | _ => false
  end.

Definition Worker_send (p : ptr) (l : list packet) : prog bool :=
  failed <- worker_net p net_write_deadline ;;
  if (failed : bool) then (Worker_Close p ;; Ret false)
  else
    let buffers := buffers_of l in
    r <- worker_net p (net_write (mjoin buffers.*1)) ;;
    if negb r.2 then Ret true
    else
      (if negb (r.1 =? 0)%nat then Worker_Close p else Ret tt) ;;
      if format_panics (consume r.1 buffers) then Panic else Ret false.

(** [sendCh.Dequeue]: waits while the queue is empty and open. *)
Definition Worker_Dequeue (p : ptr) : prog (list packet) :=
  Act (fun w => match workers w !! p with
                | Some c => match fifo_dequeue (dequeueSize c) (sendCh c) with
                            | Some (l, q) => AOk l (with_workers (insert p (set_sendCh q c)) w)
                            | None => ABlock
                            end
                | None => APanic
                end) Ret.

Definition packet_size (pkg : packet) : Z := 8 + len (body pkg).

(** One turn of [loopSend]: whether to go on. *)
Definition loopSend_turn (p : ptr) : prog bool :=
  dequeueSize <- worker_act p (fun c => (dequeueSize c, c)) ;;
  let packLimit := Z.max (cf_CustomerReceivePackLimit cf) (Z.of_nat dequeueSize * 2 * 1024) in
  packets <- Worker_Dequeue p ;;
  let count := len packets in
  if count =? 0 then Ret false
  else
    let size := foldl (fun size pkg => size + len (body pkg)) (count * 8) packets in
    (if size <? packLimit then
       ok <- Worker_send p packets ;;
       if (ok : bool) then
         Mark ItemWorkerToBusinessSucceedCount count ;; Mark ItemWorkerToBusinessSucceedByte size
       else Mark ItemWorkerToBusinessFailedCount count
     else
       for_each packets (fun pkg =>
         ok <- Worker_send p [pkg] ;;
         if (ok : bool) then
           Mark ItemWorkerToBusinessSucceedCount 1 ;; Mark ItemWorkerToBusinessSucceedByte (packet_size pkg)
         else Mark ItemWorkerToBusinessFailedCount 1)) ;;
    Ret true.

(** The loop, [fuel] turns at most, and the goroutine with its [recover]. *)
Fixpoint loopSend_loop (fuel : nat) (p : ptr) : prog unit :=
  match fuel with
  | O => NoFuel
  | S fuel => continue <- loopSend_turn p ;; if (continue : bool) then loopSend_loop fuel p else Ret tt
  end.

Definition loopSend (fuel : nat) (p : ptr) : prog unit := recover (loopSend_loop fuel p).

(** ** process.go *)

Definition code_string (c : RegisterRespCode) : string :=
  match c with
  | RegisterSuccess => "Success"
  | UnmarshalError => "UnmarshalError"
  | InvalidEvent => "InvalidEvent"
  | DuplicateRegister => "DuplicateRegister"
  end.

(** The answers to the business process are not counted: what [loopSend] will
    add is taken off. *)
Definition removeMetricsNoise (m : message) : prog unit :=
  Mark ItemWorkerToBusinessSucceedCount (-1) ;;
  Mark ItemWorkerToBusinessSucceedByte (- (8 + proto_size m)).

Definition unregister (param : bytes) (workerConn : ptr) : prog unit :=
  match unmarshal_UnRegisterReq param with
  | None => Ret tt
  | Some payload =>
      _ok <- WManager_Del (uq_ConnId payload) ;;
      Worker_Send workerConn MUnRegisterResp Cmd_Unregister ;;
      removeMetricsNoise MUnRegisterResp
  end.

Definition register_reply (workerConn : ptr) (c : RegisterRespCode) (connId : string) : prog unit :=
  let ret := MRegisterResp c (code_string c) connId in
  Worker_Send workerConn ret Cmd_Register ;;
  removeMetricsNoise ret.

Definition valid_events (events : Z) : bool := existsb (has_event events) event_list.

Definition register (param : bytes) (workerConn : ptr) : prog unit :=
  match unmarshal_RegisterReq param with
  | None => register_reply workerConn UnmarshalError EmptyString
  | Some payload =>
      if negb (valid_events (rq_Events payload)) then register_reply workerConn InvalidEvent EmptyString
      else
        events <- worker_act workerConn (fun c => (events c, c)) ;;
        if 0 <? events then register_reply workerConn DuplicateRegister EmptyString
        else
          worker_act workerConn (fun c => (tt, SetEvents (rq_Events payload) c)) ;;
          connId <- worker_act workerConn (fun c => (connId c, c)) ;;
          register_reply workerConn RegisterSuccess connId ;;
          WManager_Set workerConn
  end.

(** One turn of the loop of [process]. *)
Definition worker_turn (workerConn : ptr) : prog bool :=
  failed <- worker_net workerConn net_read_deadline ;;
  if (failed : bool) then Ret false else
  dataLenBuf <- worker_net workerConn (net_read 4) ;;
  match dataLenBuf with
  | None => Ret false
  | Some dataLenBuf =>
      let dataLen := be dataLenBuf in
      if cf_WorkerReceivePackLimit cf <? dataLen then Ret false else
      data <- worker_net workerConn (net_read dataLen) ;;
      match data with
      | None => Ret false
      | Some data =>
          if bool_decide (cf_WorkerHeartbeatMessage cf = data) then Ret true
          else if len data <? 4 then Ret false
          else
            let currentCmd := i32 (be (take 4 data)) in
            if currentCmd =? Cmd_Register then (recover (register (drop 4 data) workerConn) ;; Ret true)
            else if currentCmd =? Cmd_Unregister then (recover (unregister (drop 4 data) workerConn) ;; Ret true)
            else Ret false
      end
  end.

Fixpoint worker_loop (fuel : nat) (workerConn : ptr) : prog unit :=
  match fuel with
  | O => NoFuel
  | S fuel =>
      continue <- worker_turn workerConn ;;
      if (continue : bool) then worker_loop fuel workerConn else Ret tt
  end.

Definition worker_process (workerConn : ptr) : prog unit :=
  fuel <- worker_net workerConn (fun n => (S (length (n_in n)), n)) ;;
  recover (worker_loop fuel workerConn) ;;
  Worker_Close workerConn ;;
  worker_net workerConn (fun n => (tt, net_close n)).

End Worker.
