(* ===== verification/Customer.v ===== *)
(** src/internal/callback, the HTTP callbacks of the business side, and
    src/internal/customer/websocket.go, the events of the customers' connections. *)

From stdpp Require Export pretty.
From S2P Require Export Worker.

Section Callback.
Context `{Proto} (cf : config).

Definition callback_failed : prog unit := Mark ItemCallbackToBusinessFailedCount 1.

(** The POST the three callbacks share: the status and the body of the answer,
    or the text of an error. *)
Definition callback_post (api : string) (req : message) : prog ((Z * (bytes + string)) + string) :=
  match marshal req with
  | None => callback_failed ;; Ret (inr (marshal_error req))
  | Some reqBytes =>
      emit (ECallback api reqBytes) ;;
      resp <- ask next_http ;;
      match resp with
      | HttpError err => callback_failed ;; Ret (inr err)
      | HttpStatus status body =>
          Mark ItemCallbackToBusinessSucceedCount 1 ;;
          Mark ItemCallbackToBusinessSucceedByte (len reqBytes) ;;
          Ret (inl (status, body))
      end
  end.

Definition callback_OnOpen (req : ConnOpen) : prog (ConnOpenResp + string) :=
  r <- callback_post (cf_OnOpenApi cf) (MConnOpen req) ;;
  Ret match r with
      | inr err => inr err
      | inl (status, body) =>
          if negb (status =? 200)
          then inr (String.append "receive error http status code: " (pretty status))
          else match body with
               | inr err => inr err
               | inl b => match unmarshal_ConnOpenResp b with
                          | None => inr (unmarshal_error b)
                          | Some data => inl data
                          end
               end
      end.

Definition callback_OnMessage (req : Transfer) : prog unit :=
  _r <- callback_post (cf_OnMessageApi cf) (MTransfer req) ;; Ret tt.

Definition callback_OnClose (req : ConnClose) : prog unit :=
  _r <- callback_post (cf_OnCloseApi cf) (MConnClose req) ;; Ret tt.

End Callback.

(** ** src/internal/customer/websocket.go: what the gateway does when a customer
    opens a WebSocket connection, sends a message, pings and leaves. *)

(** ** net/http and strings *)

(** [http.Request], the parts that are read; the keys of the header are in
    canonical form. *)
Record request := mkRequest {
  Method : string;
  RequestURI : string;
  RawQuery : string;
  rq_Header : gmap string (list string);
}.

(** ASCII letters. *)
Definition to_upper (c : ascii) : ascii :=
  let n := Z.of_N (N_of_ascii c) in
  if (97 <=? n) && (n <=? 122) then ascii_of_N (Z.to_N (n - 32)) else c.
Definition to_lower (c : ascii) : ascii :=
  let n := Z.of_N (N_of_ascii c) in
  if (65 <=? n) && (n <=? 90) then ascii_of_N (Z.to_N (n + 32)) else c.

(** [textproto.CanonicalMIMEHeaderKey] on the names used here. *)
Fixpoint canonical_from (upper : bool) (l : list ascii) : list ascii :=
  match l with
  | [] => []
  | c :: l' => (if upper then to_upper c else to_lower c) :: canonical_from (bool_decide (c = "-"%char)) l'
  end.
Definition canonical (s : string) : string :=
  String.string_of_list_ascii (canonical_from true (String.list_ascii_of_string s)).

Definition header_values (key : string) (req : request) : list string := default [] (rq_Header req !! canonical key).

(** [req.Header.Get(key)]. *)
Definition Header_Get (key : string) (req : request) : string := default EmptyString (head (header_values key req)).

(** [strings.Contains(s, substr)]. *)
Fixpoint contains (s substr : string) : bool :=
  String.prefix substr s || match s with EmptyString => false | String.String _ s' => contains s' substr end.

Section Customer.
Context {MO : MapOrder} `{Deflate} `{Proto} (cf : config).

(** ** OnUpgradeCheck: the response that refuses the handshake. *)

Definition OnUpgradeCheck (req : request) : option response :=
  if bool_decide (RequestURI req <> cf_HandlePattern cf) then Some (mkResponse 404 [] "Not Found")
  else
    let origin := Header_Get "Origin" req in
    if negb (isNil (cf_AllowOrigin cf)) && negb (existsb (contains origin) (cf_AllowOrigin cf))
    then Some (mkResponse 403 [] "Forbidden") else None.

(** ** Forwarding to the queues and to a business process. *)

Definition forward (event : Z) (m : message) (cmd : Z) : prog unit :=
  (if bool_decide (event ∈ cf_AMQPEvents cf) then emit (EForward Amqp091 event m) else Ret tt) ;;
  (if bool_decide (event ∈ cf_RedisEvents cf) then emit (EForward RedisQueue event m) else Ret tt) ;;
  currentWorker <- WManager_Get cf event ;;
  match currentWorker with
  | Some p => Worker_Send p m cmd
  | None => Ret tt
  end.

(** [SnapshotOnSafe]. *)
Definition SnapshotOnSafe (r : info) : string * string * string * list string :=
  (uniqId r, customerId r, session r, getTopics r).

(** ** OnWebsocketOpen *)

Definition open_message (conn : ptr) (req : request) : prog ConnOpen :=
  u <- conn_get conn (fun c => uniqId (c_info c)) ;;
  remote <- conn_get conn c_remote ;;
  Ret (mkConnOpen u (RawQuery req) (Header_Get "X-Forwarded-For" req) (Header_Get "X-Real-IP" req) remote).

(** What the answer of the callback sets, under the lock. *)
Definition open_info (r : ConnOpenResp) (i : info) : info :=
  let i := if is_empty (or_NewSession r) then i else SetSession (or_NewSession r) i in
  let i := if is_empty (or_NewCustomerId r) then i else SetCustomerId (or_NewCustomerId r) i in
  if isNil (or_NewTopics r) then i else SubscribeTopics (or_NewTopics r) i.

(** From the accepted opening on. *)
Definition open_accepted (conn : ptr) (co : ConnOpen) (resp : option ConnOpenResp) : prog unit :=
  Mark ItemCustomerConnOpenCount 1 ;;
  match resp with
  | Some r => Lock conn ;; info_set conn (open_info r) ;; UnLock conn
  | None => Ret tt
  end ;;
  u <- conn_get conn (fun c => uniqId (c_info c)) ;;
  Manager_Set u conn ;;
  match resp with
  | Some r =>
      (if is_empty (or_NewCustomerId r) then Ret tt else Binder_SetRelation (or_NewCustomerId r) conn) ;;
      (if isNil (or_NewTopics r) then Ret tt else Topic_SetRelation (or_NewTopics r) (Some conn)) ;;
      write_data cf conn (or_Data r)
  | None => Ret tt
  end ;;
  emit (EHeartbeat conn) ;;
  forward Event_OnOpen (MConnOpen co) Cmd_ConnOpen.

(** What follows the answer of the callback. *)
Definition open_answered (conn : ptr) (co : ConnOpen) (answer : ConnOpenResp + string) : prog unit :=
  closed <- conn_get conn (fun c => IsClosedOnSafe (c_codec c)) ;;
  if (closed : bool) then Ret tt else
  match answer with
  | inr err => WriteClose conn StatusInternalServerError err
  | inl r =>
      if or_Allow r then open_accepted conn co (Some r)
      else
        write_data cf conn (or_Data r) ;;
        WriteClose conn StatusPolicyViolation "unauthorized"
  end.

(** The closure that is submitted. *)
Definition open_task (conn : ptr) (req : request) : prog unit :=
  closed <- conn_get conn (fun c => IsClosedOnSafe (c_codec c)) ;;
  if (closed : bool) then Ret tt else
  co <- open_message conn req ;;
  if is_empty (cf_OnOpenApi cf) then open_accepted conn co None
  else answer <- callback_OnOpen cf co ;; open_answered conn co answer.

(** The status and the text of the error that refuses the connection. *)
Definition OnWebsocketOpen (conn : ptr) (req : request) : prog (option (Z * string)) :=
  quit <- gets (fun w => quitting (env w)) ;;
  if (quit : bool) then Ret (Some (1012, "service restart"%string)) else
  onlineNum <- gets (fun w => online (env w)) ;;
  if cf_MaxOnlineNum cf <? onlineNum then Ret (Some (1013, "open rate limited, try again later"%string)) else
  allow <- Limit_Allow Event_OnOpen ;;
  if negb allow then
    (Mark ItemOpenRateLimitCount 1 ;; Ret (Some (1013, "open rate limited, try again later"%string)))
  else
    err <- Submit (recover (open_task conn req)) ;;
    Ret match err with Some e => Some (StatusInternalServerError, e) | None => None end.

(** The periodic check: whether the timer goes on. *)
Definition heartbeat_check (conn : ptr) : prog bool :=
  closed <- conn_get conn (fun c => IsClosedOnSafe (c_codec c)) ;;
  if (closed : bool) then Ret false else
  lastActiveTime <- conn_get conn (fun c => lastActiveTime (c_info c)) ;;
  now <- gets (fun w => now (env w)) ;;
  if cf_HeartbeatIntervalSecond cf <? u32 (u32 now - lastActiveTime)
  then (WriteClose conn StatusGoingAway "heartbeat timeout" ;; Ret false)
  else Ret true.

(** ** OnWebsocketClose *)

Definition close_task (cl : ConnClose) : prog unit :=
  Mark ItemCustomerConnCloseCount 1 ;;
  (if is_empty (cf_OnCloseApi cf) then Ret tt else callback_OnClose cf cl) ;;
  forward Event_OnClose (MConnClose cl) Cmd_ConnClose.

(** [Submit], or a goroutine when the pool refuses. *)
Definition submit_or_go (fn : prog unit) : prog unit :=
  err <- Submit fn ;;
  match err with Some _ => spawn fn | None => Ret tt end.

Definition OnWebsocketClose (conn : ptr) : prog unit :=
  u <- conn_get conn (fun c => uniqId (c_info c)) ;;
  Manager_Del u ;;
  snapshot <- locked_get conn SnapshotOnSafe ;;
  let '(uniqId, customerId, customerSession, topics) := snapshot in
  (if is_empty customerId then Ret tt else Binder_DelRelation customerId conn) ;;
  Topic_DelRelationBySlice topics conn ;;
  submit_or_go (recover (close_task (mkConnClose uniqId customerId customerSession topics))).

(** ** OnWebsocketPing, OnWebsocketMessage *)

Definition touch (conn : ptr) : prog unit :=
  now <- gets (fun w => now (env w)) ;;
  info_set conn (UpdateLastActiveTimeOnSafe now).

Definition OnWebsocketPing (conn : ptr) : prog unit :=
  touch conn ;; Mark ItemCustomerHeartbeatCount 1.

Definition message_task (conn : ptr) (allow : bool) (d : bytes) : prog unit :=
  snapshot <- locked_get conn SnapshotOnSafe ;;
  let '(uniqId, customerId, customerSession, topics) := snapshot in
  if cf_CustomerReceivePackLimit cf <? len d then WriteClose conn StatusMessageTooBig "message too big"
  else if negb allow then Mark ItemConnectionMessageRateLimitCount 1
  else
    ok <- Limit_Allow Event_OnMessage ;;
    if negb ok then Mark ItemMessageRateLimitCount 1
    else
      let tf := mkTransfer uniqId customerId customerSession topics d in
      (if is_empty (cf_OnMessageApi cf) then Ret tt else callback_OnMessage cf tf) ;;
      forward Event_OnMessage (MTransfer tf) Cmd_Transfer.

Definition OnWebsocketMessage (conn : ptr) (messageType : Z) (d : bytes) : prog unit :=
  touch conn ;;
  if bool_decide (d = cf_CustomerHeartbeatMessage cf) then Mark ItemCustomerHeartbeatCount 1
  else
    now <- gets (fun w => now (env w)) ;;
    allow <- info_act conn (Allow cf now) ;;
    submit_or_go (recover (message_task conn allow d)).

End Customer.
