(* ===== verification/Server.v ===== *)
(** src/internal/wsServer: the opening handshake ([codec.upgrade]) and the event
    handler of a connection ([server.go]). *)

From S2P Require Export Customer.

(** net/http's request parser, crypto/sha1 with encoding/base64, and
    httphead.ParseOptions (the names of the options); the text of a network
    error. *)
Class Http : Type := {
  ReadRequest : bytes -> option request;
  base64_sha1 : string -> string;
  ParseOptions : string -> option (list string);
  net_error : string;
}.

(** The bytes of a string, with the two non-ASCII letters that fold to an ASCII
    letter (U+212A and U+017F) and the capital letters folded. *)
Fixpoint fold_bytes (l : bytes) : bytes :=
  match l with
  | [] => []
  | 226 :: ((132 :: 170 :: l') as _l1) => 107 :: fold_bytes l'
  | 197 :: ((191 :: l') as _l1) => 115 :: fold_bytes l'
  | b :: l' => (if (65 <=? b) && (b <=? 90) then b + 32 else b) :: fold_bytes l'
  end.

(** [strings.EqualFold(s, t)] for an ASCII string [t]. *)
Definition EqualFold (s t : string) : bool := bool_decide (fold_bytes (str_bytes s) = fold_bytes (str_bytes t)).

Inductive action := ActNone | ActClose.

Section Server.
Context {MO : MapOrder} `{Deflate} `{Proto} `{Http} (cf : config).

(** ** The handshake *)

(** [resp.Write(c)]: whether it failed. *)
Definition write_response (conn : ptr) (resp : response) : prog bool :=
  failed <- conn_get conn write_fails ;;
  if (failed : bool) then Ret true else (emit (EHttp conn resp) ;; Ret false).

(** A response that ends the connection. *)
Definition refuse (conn : ptr) (status : Z) (headers : list (string * string)) (body : string)
    : prog (option request * action) :=
  _failed <- write_response conn (mkResponse status headers body) ;; Ret (None, ActClose).

Definition head_end : bytes := [13; 10; 13; 10].

Definition accept_guid : string := "258EAFA5-E914-47DA-95CA-C5AB0DC85B11".

Definition deflate_name : string := "permessage-deflate".

(** The headers of the 101 response. *)
Definition accept_headers (key : string) (compression : bool) : list (string * string) :=
  [("Upgrade", "websocket"); ("Connection", "Upgrade");
   ("Sec-WebSocket-Accept", base64_sha1 (String.append key accept_guid))]%string
  ++ (if compression
      then [("sec-websocket-extensions",
             "permessage-deflate; server_no_context_takeover; client_no_context_takeover")]%string
      else []).

(** The end of the handshake, from the key on. *)
Definition accept (conn : ptr) (req : request) : prog (option request * action) :=
  let key := Header_Get "Sec-WebSocket-Key" req in
  if is_empty key then refuse conn 400 [] "missing Sec-WebSocket-Key" else
  compression <- conn_get conn (fun c => IsCompressOnSafe (c_codec c)) ;;
  let resp := mkResponse 101 (accept_headers key compression) EmptyString in
  discard_failed <- conn_act conn (fun c =>
    if discard_err (c_gnet c) then (true, c) else (false, upd_gnet (fun g => with_inbound g []) c)) ;;
  if (discard_failed : bool) then Ret (None, ActClose) else
  failed <- write_response conn resp ;;
  if (failed : bool) then Ret (None, ActClose) else
  conn_act conn (fun c => (tt, upd_codec (fun k => setUpgraded k true) c)) ;;
  Ret (Some req, ActNone).

Definition set_compression (conn : ptr) : prog unit :=
  conn_act conn (fun c => (tt, upd_codec (fun k => setCompression k true) c)).

Definition upgrade (conn : ptr) : prog (option request * action) :=
  peek <- conn_get conn (fun c => match peek_err (c_gnet c) with
                                  | Some _ => None | None => Some (inbound (c_gnet c)) end) ;;
  match peek with
  | None => Ret (None, ActClose)
  | Some peek =>
  let l := length peek in
  if (l <? 4)%nat || negb (bool_decide (drop (l - 4) peek = head_end)) then Ret (None, ActNone) else
  match ReadRequest peek with
  | None => refuse conn 400 [] "Bad Request"
  | Some req =>
  if bool_decide (rq_Header req !! "Upgrade"%string = None) then refuse conn 200 [] "Hello netsvr" else
  if bool_decide (Method req <> "GET"%string) then refuse conn 405 [] "Method Not Allowed" else
  match OnUpgradeCheck cf req with
  | Some resp => _failed <- write_response conn resp ;; Ret (None, ActClose)
  | None =>
  if negb (EqualFold (Header_Get "Upgrade" req) "websocket") then refuse conn 400 [] "invalid Upgrade header" else
  let connection := Header_Get "Connection" req in
  if bool_decide (connection <> "Upgrade"%string) && bool_decide (connection <> "upgrade"%string)
  then refuse conn 400 [] "invalid Connection header" else
  if bool_decide (Header_Get "Sec-WebSocket-Version" req <> "13"%string)
  then refuse conn 426 [("Sec-WebSocket-Version", "13")]%string "Upgrade Required" else
  let ext := Header_Get "Sec-WebSocket-Extensions" req in
  if is_empty ext then accept conn req
  else
    match ParseOptions ext with
    | None => refuse conn 400 [] "invalid Sec-WebSocket-Extensions header"
    | Some options =>
        (if bool_decide (deflate_name ∈ options) then set_compression conn else Ret tt) ;;
        accept conn req
    end
  end end end.

(** ** server.go *)

(** [wsutil.WriteServerMessage]: whether it failed. *)
Definition WriteServerMessage (conn : ptr) (op : Z) (payload : bytes) : prog bool :=
  failed <- conn_get conn write_fails ;;
  if (failed : bool) then Ret true
  else match WriteFrame (NewFrame op true payload) with
       | None => Ret true
       | Some b => emit (EWrite conn b) ;; Ret false
       end.

Definition mark_closed_flag (conn : ptr) : prog bool :=
  conn_act conn (fun c => let r := SetClosedFlagOnSafe (c_codec c) in (r.1, upd_codec (fun _ => r.2) c)).

Definition error_text (e : goerr) : string :=
  match e with
  | ErrShortBuffer => "short buffer"
  | ErrNew msg => msg
  | ErrNet => net_error
  end.

(** [OnOpen]: a new connection. *)
Definition new_conn (templateHex : list ascii) (now incr : Z) (g : gnetConn) (remote : string) (af wf : bool)
    : Conn * Z :=
  let '(i, incr') := newInfo cf templateHex now incr in
  (mkConn newCodec i g remote af wf, incr').

Definition OnOpen (templateHex : list ascii) (g : gnetConn) (remote : string) (af wf : bool) : prog ptr :=
  act (fun w =>
    let r := new_conn templateHex (now (env w)) (incrId (env w)) g remote af wf in
    let p := fresh (dom (heap w)) in
    (p, with_heap (insert p r.1)
          (with_env (mkEnv (now (env w)) (quitting (env w)) (online (env w)) (submit_errs (env w))
                           (rate_answers (env w)) (http_answers (env w)) r.2) w))).

Definition OnClose (conn : ptr) : prog action :=
  upgraded <- conn_get conn (fun c => isUpgraded (c_codec c)) ;;
  (if (upgraded : bool) then (_first <- mark_closed_flag conn ;; OnWebsocketClose cf conn) else Ret tt) ;;
  Ret ActNone.

(** [wsCodec.decode(c)]. *)
Definition decode_conn (conn : ptr) : prog decoded :=
  Act (fun w => match heap w !! conn with
                | Some c => match Codec.decode (c_codec c) (c_gnet c) with
                            | Some (r, k, g) => AOk r (with_heap (insert conn (upd_codec (fun _ => k) (upd_gnet (fun _ => g) c))) w)
                            | None => APanic
                            end
                | None => APanic
                end) Ret.

Definition reset_message (conn : ptr) : prog unit :=
  conn_act conn (fun c => (tt, upd_codec resetCurrMessage c)).

(** The end of a message: another one, if there are bytes left. *)
Definition next_message (conn : ptr) : prog (option action) :=
  reset_message conn ;;
  n <- conn_get conn (fun c => len (inbound (c_gnet c))) ;;
  Ret (if 0 <? n then None else Some ActNone).

(** One turn of the loop of [OnTraffic]: [None] is [goto loop]. *)
Definition traffic_turn (conn : ptr) : prog (option action) :=
  d <- decode_conn conn ;;
  match d with
  | DPanic => Panic
  | DErr statusCode err =>
      if negb (statusCode =? 0) then
        _first <- mark_closed_flag conn ;;
        _failed <- WriteServerMessage conn OpClose (NewCloseFrameBody statusCode (str_bytes (error_text err))) ;;
        Ret (Some ActClose)
      else if bool_decide (err = ErrShortBuffer) then Ret (Some ActNone)
      else Ret (Some ActClose)
  | DMsg completeMessagePayload =>
      op <- conn_get conn (fun c => currMessageOpCode (c_codec c)) ;;
      if IsData op then
        OnWebsocketMessage cf conn op completeMessagePayload ;; next_message conn
      else if op =? OpClose then
        first <- mark_closed_flag conn ;;
        (if (first : bool) then (_failed <- WriteServerMessage conn OpClose completeMessagePayload ;; Ret tt) else Ret tt) ;;
        Ret (Some ActClose)
      else if op =? OpPing then
        failed <- WriteServerMessage conn OpPong completeMessagePayload ;;
        if (failed : bool) then Ret (Some ActClose)
        else (OnWebsocketPing conn ;; next_message conn)
      else if op =? OpPong then next_message conn
      else if IsReserved op then
        _first <- mark_closed_flag conn ;;
        _failed <- WriteServerMessage conn OpClose (NewCloseFrameBody StatusUnsupportedData (str_bytes "unsupported opcode")) ;;
        Ret (Some ActClose)
      else next_message conn
  end.

(** Every turn that goes on takes six bytes, so the length of the buffer bounds
    the turns. *)
Fixpoint traffic_loop (fuel : nat) (conn : ptr) : prog action :=
  match fuel with
  | O => NoFuel
  | S fuel => r <- traffic_turn conn ;;
              match r with None => traffic_loop fuel conn | Some a => Ret a end
  end.

Definition OnTraffic (conn : ptr) : prog action :=
  upgraded <- conn_get conn (fun c => isUpgraded (c_codec c)) ;;
  if negb upgraded then
    r <- upgrade conn ;;
    upgraded <- conn_get conn (fun c => isUpgraded (c_codec c)) ;;
    if (upgraded : bool) then
      match r.1 with
      | None => Panic
      | Some req =>
          refused <- OnWebsocketOpen cf conn req ;;
          match refused with
          | Some (statusCode, err) =>
              _first <- mark_closed_flag conn ;;
              _failed <- WriteServerMessage conn OpClose (NewCloseFrameBody statusCode (str_bytes err)) ;;
              Ret ActClose
          | None => Ret r.2
          end
      end
    else Ret r.2
  else
    fuel <- conn_get conn (fun c => S (length (inbound (c_gnet c)))) ;;
    traffic_loop fuel conn.

End Server.
