(* ===== verification/Rules.v ===== *)
(** Proof rules for the handlers, on states described by their heap, their
    registries and what has been logged since a starting state: one rule per
    operation of the connection, of the registries and of the write path. *)

From S2P Require Export TaskPost.

Section Rules.
Context {MO : MapOrder} `{Deflate} (cf : config).

(** [w] has the heap [h], the registries [r], and the effects of [w0] followed
    by [e]; the rest is as in [w0]. *)
Definition st (w0 : world) (h : gmap ptr Conn) (r : registries) (e : list effect) (w : world) : Prop :=
  heap w = h /\ reg w = r /\ effects w = effects w0 ++ e /\ pool_clean w /\
  limiters w = limiters w0 /\ env w = env w0 /\ tasks w = tasks w0 /\
  workers w = workers w0 /\ collects w = collects w0.

Lemma st_start w : pool_clean w -> st w (heap w) (reg w) [] w.
Proof. intros Hp. split_and!; try done. by rewrite app_nil_r. Qed.

Lemma st_set_heap w0 h r e w g : st w0 h r e w -> st w0 (g h) r e (with_heap g w).
Proof. intros (<- & E2 & E3 & E4 & E5 & E6 & E7 & E8 & E9). split_and!; done. Qed.

Lemma st_set_reg w0 h r e w g : st w0 h r e w -> st w0 h (g r) e (with_reg g w).
Proof. intros (E1 & <- & E3 & E4 & E5 & E6 & E7 & E8 & E9). split_and!; done. Qed.

Lemma st_sent w0 h r e w l w' : st w0 h r e w -> sent l w w' -> st w0 h r (e ++ l) w'.
Proof.
  intros (E1 & E2 & E3 & E4 & E5 & E6 & E7 & E8 & E9) ((Q1 & Q2 & Q3 & Q4 & Q5 & Q6 & Q7) & Hp & He).
  split_and!; try congruence. by rewrite He, E3, app_assoc.
Qed.

Lemma st_quiet w0 h r e w w' :
  st w0 h r e w -> quiet w w' -> pool_clean w' -> effects w' = effects w -> st w0 h r e w'.
Proof.
  intros Hst Hq Hp He. rewrite <- (app_nil_r e). eapply st_sent; [done|].
  split_and!; [done|done|]. by rewrite app_nil_r.
Qed.

(** ** The connection *)

Lemma st_conn_get {A} p (f : Conn -> A) c w0 h r e w Q :
  st w0 h r e w -> h !! p = Some c -> Q (f c) w -> wp (conn_get p f) w Q.
Proof. intros (<- & _) Hp HQ. by eapply wp_conn_get. Qed.

Lemma st_conn_act {A} p (f : Conn -> A * Conn) c w0 h r e w Q :
  st w0 h r e w -> h !! p = Some c ->
  (forall w', st w0 (<[p := (f c).2]> h) r e w' -> Q (f c).1 w') -> wp (conn_act p f) w Q.
Proof.
  intros Hst Hp HQ. pose proof Hst as (Hh & _). unfold wp, wps, conn_act. cbn [run].
  rewrite Hh, Hp. cbn [run]. split; [done|]. apply HQ.
  by apply (st_set_heap w0 h r e w (insert p (f c).2)).
Qed.

Lemma st_info_act {A} p (f : info -> A * info) c w0 h r e w Q :
  st w0 h r e w -> h !! p = Some c ->
  (forall w', st w0 (<[p := upd_info (fun i => (f i).2) c]> h) r e w' -> Q (f (c_info c)).1 w') ->
  wp (info_act p f) w Q.
Proof. intros Hst Hp HQ. by eapply st_conn_act. Qed.

Lemma st_info_set p (f : info -> info) c w0 h r e w Q :
  st w0 h r e w -> h !! p = Some c ->
  (forall w', st w0 (<[p := upd_info f c]> h) r e w' -> Q tt w') -> wp (info_set p f) w Q.
Proof. intros Hst Hp HQ. by eapply st_info_act. Qed.

Definition lock (c : Conn) : Conn := upd_info (fun i => with_locked i true) c.
Definition unlock (c : Conn) : Conn := upd_info (fun i => with_locked i false) c.

Lemma st_Lock p c w0 h r e w Q :
  st w0 h r e w -> h !! p = Some c -> locked (c_info c) = false ->
  (forall w', st w0 (<[p := lock c]> h) r e w' -> Q tt w') -> wp (Lock p) w Q.
Proof.
  intros Hst Hp Hl HQ. pose proof Hst as (Hh & _). unfold wp, wps, Lock. cbn [run].
  rewrite Hh, Hp, Hl. cbn [run]. split; [done|]. apply HQ.
  by apply (st_set_heap w0 h r e w (insert p (lock c))).
Qed.

Lemma st_UnLock p c w0 h r e w Q :
  st w0 h r e w -> h !! p = Some c -> locked (c_info c) = true ->
  (forall w', st w0 (<[p := unlock c]> h) r e w' -> Q tt w') -> wp (UnLock p) w Q.
Proof.
  intros Hst Hp Hl HQ. pose proof Hst as (Hh & _). unfold wp, wps, UnLock. cbn [run].
  rewrite Hh, Hp, Hl. cbn [run]. split; [done|]. apply HQ.
  by apply (st_set_heap w0 h r e w (insert p (unlock c))).
Qed.

Lemma st_locked_act {A} p (f : info -> A * info) c w0 h r e w Q :
  st w0 h r e w -> h !! p = Some c -> locked (c_info c) = false ->
  (forall w', st w0 (<[p := upd_info (fun i => (f i).2) c]> h) r e w' -> Q (f (c_info c)).1 w') ->
  wp (locked_act p f) w Q.
Proof.
  intros Hst Hp Hl HQ. pose proof Hst as (Hh & _). unfold wp, wps, locked_act. cbn [run].
  rewrite Hh, Hp, Hl. cbn [run]. split; [done|]. apply HQ.
  by apply (st_set_heap w0 h r e w (insert p (upd_info (fun i => (f i).2) c))).
Qed.

Lemma st_locked_get {A} p (f : info -> A) c w0 h r e w Q :
  st w0 h r e w -> h !! p = Some c -> locked (c_info c) = false -> Q (f (c_info c)) w ->
  wp (locked_get p f) w Q.
Proof.
  intros (<- & _) Hp Hl HQ. unfold wp, wps, locked_get. cbn [run]. rewrite Hp, Hl. by cbn.
Qed.

(** ** The registries *)

Lemma st_Manager_Get u w0 h r e w Q :
  st w0 h r e w -> Q (if is_empty u then None else m_lookup r u) w -> wp (Manager_Get u) w Q.
Proof. intros (_ & <- & _) HQ. by apply wp_Manager_Get. Qed.

Lemma st_Manager_Set u p w0 h r e w Q :
  st w0 h r e w ->
  (forall w', st w0 h (if is_empty u then r else m_insert u p r) e w' -> Q tt w') ->
  wp (Manager_Set u p) w Q.
Proof. intros Hst HQ. apply wp_Manager_Set, HQ. destruct (is_empty u); [done|by apply st_set_reg]. Qed.

Lemma st_Manager_Del u w0 h r e w Q :
  st w0 h r e w ->
  (forall w', st w0 h (if is_empty u then r else m_remove u r) e w' -> Q tt w') ->
  wp (Manager_Del u) w Q.
Proof. intros Hst HQ. apply wp_Manager_Del, HQ. destruct (is_empty u); [done|by apply st_set_reg]. Qed.

Lemma st_Binder_SetRelation k p c w0 h r e w Q :
  st w0 h r e w -> h !! p = Some c ->
  (forall w', st w0 h (b_insert k (id (c_info c)) p r) e w' -> Q tt w') ->
  wp (Binder_SetRelation k p) w Q.
Proof.
  intros Hst Hp HQ. pose proof Hst as (Hh & _). eapply wp_Binder_SetRelation; [by rewrite Hh|].
  by apply HQ, st_set_reg.
Qed.

Lemma st_Binder_DelRelation k p c w0 h r e w Q :
  st w0 h r e w -> h !! p = Some c ->
  (forall w', st w0 h (b_remove k (id (c_info c)) r) e w' -> Q tt w') ->
  wp (Binder_DelRelation k p) w Q.
Proof.
  intros Hst Hp HQ. pose proof Hst as (Hh & _). eapply wp_Binder_DelRelation; [by rewrite Hh|].
  by apply HQ, st_set_reg.
Qed.

Lemma st_Topic_SetRelation l p c w0 h r e w Q :
  st w0 h r e w -> h !! p = Some c ->
  (forall w', st w0 h (t_update (rel_set (id (c_info c)) p) l r) e w' -> Q tt w') ->
  wp (Topic_SetRelation l (Some p)) w Q.
Proof.
  intros Hst Hp HQ. pose proof Hst as (Hh & _). eapply wp_Topic_SetRelation; [by rewrite Hh|].
  by apply HQ, st_set_reg.
Qed.

Lemma st_Topic_DelRelationBySlice l p c w0 h r e w Q :
  st w0 h r e w -> h !! p = Some c ->
  (forall w', st w0 h (t_update (rel_del (id (c_info c))) l r) e w' -> Q tt w') ->
  wp (Topic_DelRelationBySlice l p) w Q.
Proof.
  intros Hst Hp HQ. pose proof Hst as (Hh & _). eapply wp_Topic_DelRelationBySlice; [by rewrite Hh|].
  by apply HQ, st_set_reg.
Qed.

Lemma st_Topic_DelRelationByMap t p c w0 h r e w Q :
  st w0 h r e w -> h !! p = Some c ->
  (forall w', st w0 h (t_update (rel_del (id (c_info c))) (range_map (default ∅ t)).*1 r) e w' -> Q tt w') ->
  wp (Topic_DelRelationByMap t p) w Q.
Proof.
  intros Hst Hp HQ. pose proof Hst as (Hh & _). eapply wp_Topic_DelRelationByMap; [by rewrite Hh|].
  by apply HQ, st_set_reg.
Qed.

(** ** Writing *)

(** What the optional data of a command puts out. *)
Definition data_sent (d : bytes) (h : gmap ptr Conn) (p : ptr) : list effect :=
  if isNil d then [] else sends cf (cf_SendMessageType cf) d h p.

Lemma st_WriteMessage p c op d w0 h r e w Q :
  st w0 h r e w -> h !! p = Some c ->
  (forall w', st w0 h r (e ++ sends cf op d h p) w' ->
     Q (negb (bool_decide (sends cf op d h p = []))) w') ->
  wp (WriteMessage cf p op d) w Q.
Proof.
  intros Hst Hp HQ. pose proof Hst as (Hh & _ & _ & Hpool & _).
  eapply wp_WriteMessage; [by rewrite Hh|done|]. rewrite Hh. intros w' Hs.
  by apply HQ, (st_sent w0 h r e w).
Qed.

Lemma st_write_data p c d w0 h r e w Q :
  st w0 h r e w -> h !! p = Some c ->
  (forall w', st w0 h r (e ++ data_sent d h p) w' -> Q tt w') ->
  wp (write_data cf p d) w Q.
Proof.
  intros Hst Hp HQ. unfold write_data, data_sent in *. destruct (isNil d).
  - apply wp_ret, HQ. by rewrite app_nil_r.
  - apply wp_bind. eapply st_WriteMessage; [done|done|]. intros w' Hw'. by apply wp_ret, HQ.
Qed.

Lemma st_FrameObjPool_Get op d w0 h r e w Q :
  st w0 h r e w ->
  (forall fr w', frame_ok fr -> messageType fr = op -> data fr = d -> st w0 h r e w' -> Q fr w') ->
  wp (FrameObjPool_Get op d) w Q.
Proof.
  intros Hst HQ. apply wp_FrameObjPool_Get; [apply Hst|].
  intros fr w' Hok Hop Hd Hq Hp He. apply HQ; [done..|]. by eapply st_quiet.
Qed.

Lemma st_FrameObjPool_Put fr w0 h r e w Q :
  st w0 h r e w -> (forall w', st w0 h r e w' -> Q tt w') -> wp (FrameObjPool_Put fr) w Q.
Proof.
  intros Hst HQ. apply wp_FrameObjPool_Put; [apply Hst|]. intros w' Hq Hp He. apply HQ. by eapply st_quiet.
Qed.

Lemma st_WriteTo fr p c w0 h r e w Q :
  st w0 h r e w -> h !! p = Some c -> frame_ok fr ->
  (forall ok fr' w', st w0 h r (e ++ sends cf (messageType fr) (data fr) h p) w' ->
     frame_ok fr' -> messageType fr' = messageType fr -> data fr' = data fr -> Q (ok, fr') w') ->
  wp (WriteTo cf fr p) w Q.
Proof.
  intros Hst Hp Hfr HQ. pose proof Hst as (Hh & _ & _ & Hpool & _).
  eapply wp_WriteTo; [by rewrite Hh|done|]. rewrite Hh. intros ok fr' w' Hw _ Hok Hm Hd.
  apply HQ; [|done..]. eapply st_sent; [done|]. by apply wrote_sent.
Qed.

Lemma st_WriteTo_each fr conns w0 h r e w Q :
  st w0 h r e w -> Forall (fun p => is_Some (h !! p)) conns -> frame_ok fr ->
  (forall fr' w', st w0 h r (e ++ mjoin (sends cf (messageType fr) (data fr) h <$> conns)) w' ->
     frame_ok fr' -> messageType fr' = messageType fr -> data fr' = data fr -> Q fr' w') ->
  wp (WriteTo_each cf fr conns) w Q.
Proof.
  unfold WriteTo_each. revert fr e w Q; induction conns as [|p conns IH]; intros fr e w Q Hst Hall Hfr HQ.
  { cbn. apply wp_ret, HQ; [|done..]. by rewrite app_nil_r. }
  inversion Hall as [|? ? [c Hp] Hall']; subst. cbn [for_fold].
  apply wp_bind, wp_bind. eapply st_WriteTo; [done|done|done|].
  intros ok fr1 w1 Hst1 Hfr1 Hm1 Hd1. apply wp_ret. cbn [snd].
  eapply IH; [done|done|done|]. intros fr' w' Hst' Hfr' Hm' Hd'.
  apply HQ; [|done|congruence|congruence]. rewrite Hm1, Hd1 in Hst'. rewrite fmap_cons.
  change (mjoin (?x :: ?k)) with (x ++ mjoin k). by rewrite app_assoc.
Qed.

(** The close frame, once per connection. *)
Definition close_sent (closeFrame : bytes) (h : gmap ptr Conn) (p : ptr) : list effect :=
  match h !! p with
  | Some c => if closed (c_codec c) =? 0
              then if async_fails c then [EClose p] else [EAsyncWrite p closeFrame; ECloseLater p]
              else []
  | None => []
  end.

Definition mark_closed (c : Conn) : Conn :=
  upd_codec (fun _ => (SetClosedFlagOnSafe (c_codec c)).2) c.

Lemma st_emit ef w0 h r e w Q :
  st w0 h r e w -> (forall w', st w0 h r (e ++ [ef]) w' -> Q tt w') -> wp (emit ef) w Q.
Proof.
  intros (E1 & E2 & E3 & E4 & E5 & E6 & E7 & E8 & E9) HQ. apply wp_modify, HQ.
  split_and!; try done. cbn. by rewrite E3, app_assoc.
Qed.

Lemma st_AsyncWrite p b c w0 h r e w Q :
  st w0 h r e w -> h !! p = Some c ->
  (forall w', st w0 h r (e ++ if async_fails c then [] else [EAsyncWrite p b]) w' ->
     Q (negb (async_fails c)) w') ->
  wp (AsyncWriteOnSafe p b) w Q.
Proof.
  intros Hst Hp HQ. pose proof Hst as (E1 & E2 & E3 & E4 & E5 & E6 & E7 & E8 & E9).
  unfold wp, wps, AsyncWriteOnSafe. cbn [run]. rewrite E1, Hp.
  destruct (async_fails c); cbn [run]; split; try done; apply HQ.
  - by rewrite app_nil_r.
  - split_and!; try done. cbn. by rewrite E3, app_assoc.
Qed.

Lemma st_WriteCloseFrame p f c w0 h r e w Q :
  st w0 h r e w -> h !! p = Some c ->
  (forall w', st w0 (<[p := mark_closed c]> h) r (e ++ close_sent f h p) w' -> Q tt w') ->
  wp (WriteCloseFrame p f) w Q.
Proof.
  intros Hst Hp HQ. unfold WriteCloseFrame, close_sent in *. rewrite Hp in HQ.
  eapply wp_bind, st_conn_act; [done|done|]. intros w1 Hst1. cbn [fst snd].
  unfold mark_closed in HQ. unfold SetClosedFlagOnSafe in *.
  destruct (closed (c_codec c) =? 0); cbn [fst snd negb] in *.
  - eapply wp_bind, st_AsyncWrite; [done|by rewrite lookup_insert_eq|]. intros w2 Hst2. cbn [async_fails upd_codec] in *.
    destruct (async_fails c); cbn [negb].
    + rewrite app_nil_r in Hst2. eapply st_emit; [done|]. done.
    + eapply st_emit; [done|]. intros w3 Hst3. apply HQ. by rewrite <- app_assoc in Hst3.
  - apply wp_ret, HQ. by rewrite app_nil_r.
Qed.

(** ** The bodies under the lock of a connection *)

Lemma st_with_open_conn p c k w0 h r e w Q :
  st w0 h r e w -> h !! p = Some c -> locked (c_info c) = false ->
  (IsClosedOnSafe (c_codec c) = true -> forall w', st w0 h r e w' -> Q tt w') ->
  (IsClosedOnSafe (c_codec c) = false ->
   forall w1, st w0 (<[p := lock c]> h) r e w1 ->
   wp k w1 (fun _ w2 => exists c2 h2 r2 e2, st w0 h2 r2 e2 w2 /\ h2 !! p = Some c2 /\
                         locked (c_info c2) = true /\
                         (forall w', st w0 (<[p := unlock c2]> h2) r2 e2 w' -> Q tt w'))) ->
  wp (with_open_conn p k) w Q.
Proof.
  intros Hst Hp Hl Hclosed Hopen. unfold with_open_conn.
  eapply wp_bind, st_Lock; [done|done|done|]. intros w1 Hst1.
  eapply wp_bind, st_conn_get; [done|by rewrite lookup_insert_eq|]. cbn [c_codec lock upd_info].
  apply wp_bind. destruct (IsClosedOnSafe (c_codec c)).
  - apply wp_ret. eapply st_UnLock; [done|by rewrite lookup_insert_eq|done|].
    intros w' Hst'. apply Hclosed; [done|]. rewrite insert_insert_eq in Hst'.
    assert (unlock (lock c) = c) as E.
    { destruct c as [cc [] ? ? ? ?]. cbn in *. by subst. }
    rewrite E, insert_id in Hst' by done. done.
  - eapply wp_mono; [by apply Hopen|]. intros _ w2 (c2 & h2 & r2 & e2 & Hst2 & Hp2 & Hl2 & HQ).
    by eapply st_UnLock.
Qed.

End Rules.
