(* ===== verification/Consistency.v ===== *)
(** The invariant that ties the three registries to the connections, and its
    preservation by the operations under the lock of a connection.  A binder or
    topic entry exists exactly for the connections that are online and carry the
    customerId or the topic. *)

From S2P Require Export Rules.

Section Consistency.
Context {MO : MapOrder} `{Deflate} (cf : config).

(** [p] is registered in the manager under its own uniqId. *)
Definition is_online (r : registries) (p : ptr) (c : Conn) : Prop :=
  m_lookup r (uniqId (c_info c)) = Some p.

Record consistent (h : gmap ptr Conn) (r : registries) : Prop := mkConsistent {
  cs_manager : wf_manager r;
  cs_wf_binder : wf_binder r;
  cs_wf_topic : wf_topic r;
  cs_online : forall u p, m_lookup r u = Some p -> exists c, h !! p = Some c /\ uniqId (c_info c) = u;
  cs_ids : forall p q c d, h !! p = Some c -> h !! q = Some d -> id (c_info c) = id (c_info d) -> p = q;
  cs_binder : forall k i p, member (b_lookup r k) i = Some p <->
    exists c, h !! p = Some c /\ id (c_info c) = i /\ is_online r p c /\
              customerId (c_info c) = k /\ k <> EmptyString;
  cs_topic : forall k i p, member (t_lookup r k) i = Some p <->
    exists c, h !! p = Some c /\ id (c_info c) = i /\ is_online r p c /\
              subscribed (c_info c) k = true;
  cs_topic_name : forall p c, h !! p = Some c -> subscribed (c_info c) EmptyString = false;
}.

Definition unlocked (h : gmap ptr Conn) : Prop := forall p c, h !! p = Some c -> locked (c_info c) = false.

(** The state between two commands. *)
Definition Inv (w : world) : Prop :=
  consistent (heap w) (reg w) /\ unlocked (heap w) /\ pool_clean w.

(** ** Own entries *)

Lemma own_topic h r p c k :
  consistent h r -> h !! p = Some c -> is_online r p c ->
  member (t_lookup r k) (id (c_info c)) = if subscribed (c_info c) k then Some p else None.
Proof.
  intros Hc Hp Hon. destruct (subscribed (c_info c) k) eqn:E.
  - apply (cs_topic h r Hc). eauto.
  - destruct (member _ _) as [q|] eqn:Em; [|done]. exfalso.
    apply (cs_topic h r Hc) in Em as (d & Hq & Hid & _ & Hs).
    assert (q = p) as -> by (by eapply (cs_ids h r Hc)). congruence.
Qed.

Lemma own_binder h r p c k :
  consistent h r -> h !! p = Some c -> is_online r p c ->
  member (b_lookup r k) (id (c_info c)) =
    if decide (customerId (c_info c) = k /\ k <> EmptyString) then Some p else None.
Proof.
  intros Hc Hp Hon. case_decide as E.
  - apply (cs_binder h r Hc). naive_solver.
  - destruct (member _ _) as [q|] eqn:Em; [|done]. exfalso.
    apply (cs_binder h r Hc) in Em as (d & Hq & Hid & _ & Hs).
    assert (q = p) as -> by (by eapply (cs_ids h r Hc)). naive_solver congruence.
Qed.

(** ** Updating one connection that is online *)

Lemma consistent_update h r p c c' r' :
  consistent h r -> h !! p = Some c -> is_online r p c ->
  id (c_info c') = id (c_info c) -> uniqId (c_info c') = uniqId (c_info c) ->
  subscribed (c_info c') EmptyString = false ->
  m_shards r' = m_shards r -> m_len r' = m_len r -> wf_binder r' -> wf_topic r' ->
  (forall k j, member (b_lookup r' k) j =
     if decide (j = id (c_info c))
     then if decide (customerId (c_info c') = k /\ k <> EmptyString) then Some p else None
     else member (b_lookup r k) j) ->
  (forall k j, member (t_lookup r' k) j =
     if decide (j = id (c_info c)) then if subscribed (c_info c') k then Some p else None
     else member (t_lookup r k) j) ->
  consistent (<[p := c']> h) r'.
Proof.
  intros Hc Hp Hon Hid Hu Hne Hms Hml Hwb Hwt Hb Ht.
  assert (forall u, m_lookup r' u = m_lookup r u) as Hm by (intros; unfold m_lookup; by rewrite Hms).
  assert (forall q d, <[p := c']> h !! q = Some d -> (q = p /\ d = c') \/ (q <> p /\ h !! q = Some d)) as Hcase.
  { intros q d Hq. destruct (decide (q = p)) as [->|]; [left|right].
    - rewrite lookup_insert_eq in Hq. by simplify_eq.
    - by rewrite lookup_insert_ne in Hq. }
  assert (forall q d, h !! q = Some d -> id (c_info d) = id (c_info c) -> q = p) as Hq
    by (intros q d Hq Heq; by eapply (cs_ids h r Hc)).
  split; try done.
  - destruct (cs_manager h r Hc) as (H1 & H2 & H3). split_and!; rewrite ?Hms, ?Hml; try done. by rewrite Hm.
  - intros u q. rewrite Hm. intros Hu'. destruct (cs_online h r Hc u q Hu') as (d & Hd & Hud).
    destruct (decide (q = p)) as [->|].
    + exists c'. rewrite lookup_insert_eq. split; [done|]. congruence.
    + exists d. by rewrite lookup_insert_ne.
  - intros q q' d d' Hd Hd' Heq.
    destruct (Hcase q d Hd) as [[-> ->]|[? Hd1]], (Hcase q' d' Hd') as [[-> ->]|[? Hd2]]; try done.
    + symmetry. eapply Hq; [done|congruence].
    + eapply Hq; [done|congruence].
    + by eapply (cs_ids h r Hc).
  - intros k i q. rewrite Hb. unfold is_online. setoid_rewrite Hm. split.
    + case_decide as Hi.
      * case_decide as Hk; [|done]. intros [= <-]. exists c'. rewrite lookup_insert_eq.
        split_and!; [done|congruence| |tauto|tauto]. by rewrite Hu.
      * intros Hmem. apply (cs_binder h r Hc) in Hmem as (d & Hd & Hid' & Hrest).
        exists d. rewrite lookup_insert_ne; [done|]. intros ->. congruence.
    + intros (d & Hd & Hid' & Hon' & Hk & Hke). destruct (Hcase q d Hd) as [[-> ->]|[Hne' Hd1]].
      * rewrite decide_True by congruence. by rewrite decide_True.
      * rewrite decide_False; [apply (cs_binder h r Hc); naive_solver|].
        intros ->. apply Hne'. by eapply Hq.
  - intros k i q. rewrite Ht. unfold is_online. setoid_rewrite Hm. split.
    + case_decide as Hi.
      * destruct (subscribed (c_info c') k) eqn:Hk; [|done]. intros [= <-]. exists c'.
        rewrite lookup_insert_eq. split_and!; [done|congruence| |done]. by rewrite Hu.
      * intros Hmem. apply (cs_topic h r Hc) in Hmem as (d & Hd & Hid' & Hrest).
        exists d. rewrite lookup_insert_ne; [done|]. intros ->. congruence.
    + intros (d & Hd & Hid' & Hon' & Hk). destruct (Hcase q d Hd) as [[-> ->]|[Hne' Hd1]].
      * rewrite decide_True by congruence. by rewrite Hk.
      * rewrite decide_False; [apply (cs_topic h r Hc); naive_solver|].
        intros ->. apply Hne'. by eapply Hq.
  - intros q d Hd. destruct (Hcase q d Hd) as [[-> ->]|[? Hd1]]; [done|].
    by eapply (cs_topic_name h r Hc).
Qed.

(** Changes that the invariant does not see. *)
Definition same_link (r r' : info) : Prop :=
  id r' = id r /\ uniqId r' = uniqId r /\ customerId r' = customerId r /\ topics r' = topics r.

Lemma same_link_subscribed r r' k : same_link r r' -> subscribed r' k = subscribed r k.
Proof. intros (_ & _ & _ & E). unfold subscribed. by rewrite E. Qed.

Definition same_links (h h' : gmap ptr Conn) : Prop :=
  forall p, match h !! p, h' !! p with
            | Some c, Some c' => same_link (c_info c) (c_info c')
            | None, None => True
            | _, _ => False
            end.

Lemma same_links_insert h p c c' :
  h !! p = Some c -> same_link (c_info c) (c_info c') -> same_links h (<[p := c']> h).
Proof.
  intros Hp Hl q. destruct (decide (q = p)) as [->|].
  - by rewrite lookup_insert_eq, Hp.
  - rewrite lookup_insert_ne by done. by destruct (h !! q).
Qed.

Lemma same_links_refl h : same_links h h.
Proof. intros p. by destruct (h !! p). Qed.

Lemma same_links_trans h1 h2 h3 : same_links h1 h2 -> same_links h2 h3 -> same_links h1 h3.
Proof.
  intros H1 H2 p. specialize (H1 p). specialize (H2 p).
  destruct (h1 !! p), (h2 !! p), (h3 !! p); try done. unfold same_link in *. intuition congruence.
Qed.

Lemma consistent_same_links h h' r : same_links h h' -> consistent h r -> consistent h' r.
Proof.
  intros Hs Hc.
  assert (forall p c', h' !! p = Some c' -> exists c, h !! p = Some c /\ same_link (c_info c) (c_info c')) as Hb.
  { intros p c' Hp. specialize (Hs p). rewrite Hp in Hs. destruct (h !! p); [eauto|done]. }
  assert (forall p c, h !! p = Some c -> exists c', h' !! p = Some c' /\ same_link (c_info c) (c_info c')) as Hf.
  { intros p c Hp. specialize (Hs p). rewrite Hp in Hs. destruct (h' !! p); [eauto|done]. }
  destruct Hc as [Hm Hwb Hwt Hon Hids Hbi Hto Hn]. split; try done.
  - intros u p Hu. destruct (Hon u p Hu) as (c & Hp & Hcu).
    destruct (Hf p c Hp) as (c' & Hp' & (_ & E & _)). exists c'. split; [done|congruence].
  - intros p q c d Hp Hq Heq. destruct (Hb p c Hp) as (c1 & Hp1 & (E1 & _)).
    destruct (Hb q d Hq) as (d1 & Hq1 & (E2 & _)). eapply Hids; [done|done|congruence].
  - intros k i p. rewrite Hbi. unfold is_online. split; intros (c & Hp & Hrest).
    + destruct (Hf p c Hp) as (c' & Hp' & (E1 & E2 & E3 & _)). exists c'. by rewrite E1, E2, E3.
    + destruct (Hb p c Hp) as (c' & Hp' & (E1 & E2 & E3 & _)). exists c'. by rewrite <- E1, <- E2, <- E3.
  - intros k i p. rewrite Hto. unfold is_online. split; intros (c & Hp & Hrest).
    + destruct (Hf p c Hp) as (c' & Hp' & Hl). exists c'. rewrite (same_link_subscribed _ _ k Hl).
      destruct Hl as (E1 & E2 & _). by rewrite E1, E2.
    + destruct (Hb p c Hp) as (c' & Hp' & Hl). exists c'. rewrite <- (same_link_subscribed _ _ k Hl).
      destruct Hl as (E1 & E2 & _). by rewrite <- E1, <- E2.
  - intros p c Hp. destruct (Hb p c Hp) as (c' & Hp' & Hl). rewrite (same_link_subscribed _ _ _ Hl). eauto.
Qed.

(** ** Stages: programs under the lock of [p] that turn its info into [f] of it
    and keep the invariant. *)

Definition stage (p : ptr) (f : info -> info) (k : prog unit) : Prop :=
  forall w0 h r e w c Q,
    st w0 h r e w -> consistent h r -> h !! p = Some c -> is_online r p c ->
    (forall r' w', st w0 (<[p := upd_info f c]> h) r' e w' ->
       consistent (<[p := upd_info f c]> h) r' -> is_online r' p (upd_info f c) -> m_shards r' = m_shards r -> Q tt w') ->
    wp k w Q.

(** [f] neither reads nor writes the lock. *)
Definition lock_blind (f : info -> info) : Prop := forall r b, f (with_locked r b) = with_locked (f r) b.

Lemma upd_info_id c : upd_info (fun r => r) c = c.
Proof. by destruct c. Qed.

Lemma stage_skip p : stage p (fun r => r) (Ret tt).
Proof.
  intros w0 h r e w c Q Hst Hc Hp Hon HQ. apply wp_ret. eapply HQ; [..|reflexivity]; rewrite upd_info_id, ?insert_id; done.
Qed.

Lemma stage_seq p f g k1 k2 :
  stage p f k1 -> stage p g k2 -> stage p (fun r => g (f r)) (k1 ;; k2).
Proof.
  intros H1 H2 w0 h r e w c Q Hst Hc Hp Hon HQ. apply wp_bind. eapply H1; [done..|].
  intros r1 w1 Hst1 Hc1 Hon1 Em1. eapply H2; [done|done|by rewrite lookup_insert_eq|done|].
  intros r2 w2 Hst2 Hc2 Hon2 Em2. rewrite insert_insert_eq in Hst2, Hc2.
  eapply HQ; [exact Hst2|exact Hc2|exact Hon2|congruence].
Qed.

Lemma stage_if p (b : bool) f g k1 k2 :
  stage p f k1 -> stage p g k2 -> stage p (fun r => if b then f r else g r) (if b then k1 else k2).
Proof. by destruct b. Qed.

Lemma stage_ext p f g k : (forall r, f r = g r) -> stage p f k -> stage p g k.
Proof.
  intros Hfg Hs w0 h r e w c Q Hst Hc Hp Hon HQ. eapply Hs; [done..|].
  assert (upd_info f c = upd_info g c) as -> by (unfold upd_info; by rewrite Hfg). done.
Qed.

(** Setting a field the invariant does not see. *)
Lemma stage_unlinked p f : (forall r, same_link r (f r)) -> stage p f (info_set p f).
Proof.
  intros Hf w0 h r e w c Q Hst Hc Hp Hon HQ. eapply st_info_set; [done|done|]. intros w' Hst'.
  eapply HQ; [done| | |done].
  - eapply consistent_same_links; [|done]. by apply (same_links_insert _ _ c).
  - unfold is_online. cbn [c_info upd_info]. destruct (Hf (c_info c)) as (_ & -> & _). exact Hon.
Qed.

Lemma m_lookup_t_update f l r u : m_lookup (t_update f l r) u = m_lookup r u.
Proof. done. Qed.

Lemma subscribe_keeps_names l r :
  subscribed r EmptyString = false -> subscribed (SubscribeTopics l r) EmptyString = false.
Proof.
  intros Hr. rewrite subscribed_SubscribeTopics, Hr. cbn. apply bool_decide_eq_false. tauto.
Qed.

(** Subscribing the connection and registering the topics. *)
Lemma stage_subscribe p l :
  stage p (SubscribeTopics l) (info_set p (SubscribeTopics l) ;; Topic_SetRelation l (Some p)).
Proof.
  intros w0 h r e w c Q Hst Hc Hp Hon HQ.
  eapply wp_bind, st_info_set; [done|done|]. intros w1 Hst1.
  eapply st_Topic_SetRelation; [done|by rewrite lookup_insert_eq|]. intros w2 Hst2.
  change (id (c_info (upd_info (SubscribeTopics l) c))) with (id (c_info c)) in Hst2.
  eapply HQ; [done| |done|done].
  pose proof (cs_wf_topic h r Hc) as Hwt.
  eapply (consistent_update h r p c); try done; try apply Hc.
  - apply subscribe_keeps_names. by eapply (cs_topic_name h r Hc).
  - by apply t_set_wf.
  - intros k j. change (b_lookup (t_update _ _ r) k) with (b_lookup r k).
    case_decide as Hj; [subst j|done]. exact (own_binder h r p c _ Hc Hp Hon).
  - intros k j. rewrite t_set_lookup by apply Hwt. cbn [c_info upd_info].
    rewrite subscribed_SubscribeTopics. case_decide as Hk.
    + rewrite member_set, bool_decide_eq_true_2, orb_true_r by done.
      repeat case_decide; congruence.
    + rewrite (bool_decide_eq_false_2 (k ∈ l /\ k <> EmptyString)), orb_false_r by done.
      case_decide as Hj; [subst j|done]. exact (own_topic h r p c _ Hc Hp Hon).
Qed.

Lemma not_subscribed_empty h r p c : consistent h r -> h !! p = Some c -> subscribed (c_info c) EmptyString = false.
Proof. intros Hc Hp. by eapply (cs_topic_name h r Hc). Qed.

(** Removing topics from the connection and from the registry. *)
Lemma consistent_unsubscribe h r p c f l :
  consistent h r -> h !! p = Some c -> is_online r p c ->
  (forall i, id (f i) = id i /\ uniqId (f i) = uniqId i /\ customerId (f i) = customerId i) ->
  (forall k, subscribed (f (c_info c)) k = subscribed (c_info c) k && bool_decide (k ∉ l)) ->
  consistent (<[p := upd_info f c]> h) (t_update (rel_del (id (c_info c))) l r).
Proof.
  intros Hc Hp Hon Hf Hs. pose proof (cs_wf_topic h r Hc) as Hwt.
  destruct (Hf (c_info c)) as (E1 & E2 & E3).
  eapply (consistent_update h r p c); try done; try apply Hc.
  - cbn [c_info upd_info]. by rewrite Hs, (not_subscribed_empty h r p c).
  - by apply t_del_wf.
  - intros k j. change (b_lookup (t_update _ _ r) k) with (b_lookup r k). cbn [c_info upd_info]. rewrite E3.
    case_decide as Hj; [subst j|done]. exact (own_binder h r p c _ Hc Hp Hon).
  - intros k j. rewrite t_del_lookup by apply Hwt. cbn [c_info upd_info]. rewrite Hs.
    case_decide as Hk.
    + rewrite member_del. rewrite (bool_decide_eq_false_2 (k ∉ l)) by tauto. rewrite andb_false_r.
      repeat case_decide; congruence.
    + case_decide as Hj; [subst j|done]. rewrite (own_topic h r p c) by done.
      destruct (decide (k = EmptyString)) as [->|Hne].
      * by rewrite (not_subscribed_empty h r p c).
      * rewrite bool_decide_eq_true_2 by tauto. by rewrite andb_true_r.
Qed.

Lemma stage_unsubscribe p l :
  stage p (UnsubscribeTopics l) (info_set p (UnsubscribeTopics l) ;; Topic_DelRelationBySlice l p).
Proof.
  intros w0 h r e w c Q Hst Hc Hp Hon HQ.
  assert (forall i, id (UnsubscribeTopics l i) = id i /\ uniqId (UnsubscribeTopics l i) = uniqId i
            /\ customerId (UnsubscribeTopics l i) = customerId i) as Hf
    by (intros i; unfold UnsubscribeTopics; by destruct (topics i)).
  eapply wp_bind, st_info_set; [done|done|]. intros w1 Hst1.
  eapply st_Topic_DelRelationBySlice; [done|by rewrite lookup_insert_eq|]. intros w2 Hst2.
  cbn [c_info upd_info] in Hst2. rewrite (proj1 (Hf (c_info c))) in Hst2.
  eapply HQ; [done| | |done].
  - apply consistent_unsubscribe; try done. intros k. apply subscribed_UnsubscribeTopics.
  - unfold is_online. cbn [c_info upd_info]. by rewrite (proj1 (proj2 (Hf (c_info c)))).
Qed.

(** Pulling all the topics. *)
Lemma stage_pull p :
  stage p (fun r => with_topics r None)
    (topics <- info_act p PullTopics ;; Topic_DelRelationByMap topics p).
Proof.
  intros w0 h r e w c Q Hst Hc Hp Hon HQ.
  eapply wp_bind, st_info_act; [done|done|]. intros w1 Hst1. cbn [fst snd PullTopics] in *.
  eapply st_Topic_DelRelationByMap; [done|by rewrite lookup_insert_eq|]. intros w2 Hst2.
  eapply HQ; [done| |done|done].
  apply (consistent_unsubscribe h r p c (fun i => with_topics i None)); try done. intros k. unfold subscribed. cbn [topics with_topics].
  destruct (topics (c_info c)) as [m|]; [|done]. cbn [default].
  destruct (decide (is_Some (m !! k))) as [Hk|Hk].
  - rewrite (bool_decide_eq_false_2 (k ∉ _)); [by rewrite andb_false_r|].
    intros Hn. apply Hn. by apply elem_of_range_fst.
  - by rewrite (bool_decide_eq_false_2 (is_Some _)).
Qed.

(** Changing the customerId. *)
Definition rebind (p : ptr) (new : string) : prog unit :=
  oldCustomerId <- info_act p (fun r => (customerId r, r)) ;;
  (if is_empty oldCustomerId then Ret tt else Binder_DelRelation oldCustomerId p) ;;
  Binder_SetRelation new p ;;
  info_set p (SetCustomerId new).

Lemma st_same_info p c w0 h r e w :
  h !! p = Some c -> st w0 (<[p := upd_info (fun i => i) c]> h) r e w -> st w0 h r e w.
Proof. intros Hp. by rewrite upd_info_id, insert_id. Qed.

(** The optional removal of the old relation. *)
Lemma st_unbind p c w0 h r e w Q :
  st w0 h r e w -> h !! p = Some c ->
  (forall w', st w0 h (if is_empty (customerId (c_info c)) then r
                       else b_remove (customerId (c_info c)) (id (c_info c)) r) e w' -> Q tt w') ->
  wp (if is_empty (customerId (c_info c)) then Ret tt else Binder_DelRelation (customerId (c_info c)) p) w Q.
Proof.
  intros Hst Hp HQ. destruct (is_empty (customerId (c_info c))); [by apply wp_ret, HQ|].
  by eapply st_Binder_DelRelation.
Qed.

Lemma unbind_member h r p c k j :
  consistent h r -> h !! p = Some c -> is_online r p c ->
  member (b_lookup (if is_empty (customerId (c_info c)) then r
                    else b_remove (customerId (c_info c)) (id (c_info c)) r) k) j =
    if decide (j = id (c_info c)) then None else member (b_lookup r k) j.
Proof.
  intros Hc Hp Hon. pose proof (cs_wf_binder h r Hc) as [Hwf _].
  pose proof (own_binder h r p c k Hc Hp Hon) as Hown.
  destruct (is_empty (customerId (c_info c))) eqn:E.
  - apply is_empty_true in E. destruct (decide (j = id (c_info c))) as [->|Hj]; [|done].
    rewrite Hown, decide_False; [done|]. intros [<- ?]. done.
  - apply is_empty_false in E. rewrite b_remove_lookup by done.
    destruct (decide (customerId (c_info c) = k)) as [Hk|Hk].
    + rewrite member_del. destruct (decide (j = id (c_info c))), (decide (id (c_info c) = j)); congruence.
    + destruct (decide (j = id (c_info c))) as [->|Hj]; [|done].
      rewrite Hown, decide_False; [done|]. tauto.
Qed.

Lemma unbind_wf h r c :
  consistent h r ->
  wf_binder (if is_empty (customerId (c_info c)) then r
             else b_remove (customerId (c_info c)) (id (c_info c)) r).
Proof.
  intros Hc. pose proof (cs_wf_binder h r Hc). destruct (is_empty _); [done|]. by apply b_remove_wf.
Qed.

Lemma unbind_others c (r : registries) :
  let r' := if is_empty (customerId (c_info c)) then r
            else b_remove (customerId (c_info c)) (id (c_info c)) r in
  m_shards r' = m_shards r /\ m_len r' = m_len r /\ t_shards r' = t_shards r.
Proof. cbv zeta. by destruct (is_empty _). Qed.

Lemma stage_rebind p new : new <> EmptyString -> stage p (SetCustomerId new) (rebind p new).
Proof.
  intros Hnew w0 h r e w c Q Hst Hc Hp Hon HQ. unfold rebind.
  eapply wp_bind, st_info_act; [done|done|]. intros w1 Hst1. cbn [fst snd] in *.
  apply st_same_info in Hst1; [|done].
  eapply wp_bind, st_unbind; [done|done|]. intros w2 Hst2.
  pose proof (unbind_others c r) as (Em & El & Et). pose proof (unbind_wf h r c Hc) as Hwb.
  pose proof (fun k j => unbind_member h r p c k j Hc Hp Hon) as Hmem.
  set (r1 := if is_empty (customerId (c_info c)) then r else _) in *. cbv zeta in *.
  eapply wp_bind, st_Binder_SetRelation; [done|done|]. intros w3 Hst3.
  eapply st_info_set; [done|done|]. intros w4 Hst4.
  eapply HQ; [done| | |exact Em].
  - pose proof (cs_wf_topic h r Hc) as Hwt.
    eapply (consistent_update h r p c); try done.
    + exact (not_subscribed_empty h r p c Hc Hp).
    + by apply b_insert_wf.
    + unfold wf_topic, t_lookup in *. cbn [b_insert with_b t_shards]. by rewrite Et.
    + intros k j. rewrite b_insert_lookup by apply Hwb. cbn [c_info upd_info SetCustomerId customerId].
      case_decide as Hk.
      * rewrite member_set, Hmem. repeat case_decide; naive_solver congruence.
      * rewrite Hmem. case_decide as Hj; [|done]. rewrite decide_False; [done|]. tauto.
    + intros k j. unfold t_lookup. cbn [b_insert with_b t_shards]. rewrite Et.
      case_decide as Hj; [subst j|done]. exact (own_topic h r p c _ Hc Hp Hon).
  - unfold is_online, m_lookup in *. cbn [b_insert with_b m_shards]. by rewrite Em.
Qed.

(** Dropping the customerId. *)
Lemma stage_unbind p :
  stage p (SetCustomerId EmptyString)
    (customerId <- info_act p (fun r => (customerId r, r)) ;;
     if is_empty customerId then Ret tt
     else (Binder_DelRelation customerId p ;; info_set p (SetCustomerId EmptyString))).
Proof.
  intros w0 h r e w c Q Hst Hc Hp Hon HQ.
  eapply wp_bind, st_info_act; [done|done|]. intros w1 Hst1. cbn [fst snd] in *.
  apply st_same_info in Hst1; [|done]. destruct (is_empty (customerId (c_info c))) eqn:E.
  - apply is_empty_true in E.
    assert (upd_info (SetCustomerId EmptyString) c = c) as Ec.
    { destruct c as [cc [] ? ? ? ?]. cbn in *. by subst. }
    rewrite Ec in HQ. rewrite insert_id in HQ by done. by apply wp_ret, (HQ r).
  - eapply wp_bind, st_Binder_DelRelation; [done|done|]. intros w2 Hst2.
    eapply st_info_set; [done|done|]. intros w3 Hst3.
    pose proof (unbind_wf h r c Hc) as Hwb.
    pose proof (fun k j => unbind_member h r p c k j Hc Hp Hon) as Hmem. rewrite E in Hwb, Hmem.
    eapply HQ; [done| |done|done].
    eapply (consistent_update h r p c); try done.
    + exact (not_subscribed_empty h r p c Hc Hp).
    + apply Hc.
    + intros k j. rewrite Hmem. cbn [c_info upd_info SetCustomerId customerId].
      case_decide; [|done]. by rewrite decide_False by naive_solver.
    + intros k j. change (t_lookup (b_remove _ _ r) k) with (t_lookup r k).
      case_decide as Hj; [subst j|done]. exact (own_topic h r p c _ Hc Hp Hon).
Qed.

End Consistency.
