(* ===== verification/Commands.v ===== *)
(** The commands that change the info of a connection, from receipt to end: each
    one, run from a consistent state, ends in a consistent state with exactly the
    change and the message the payload asks for; and the same for the deletion of topics. *)

From S2P Require Export Consistency.

Section Commands.
Context {MO : MapOrder} `{Deflate} `{Proto} (cf : config).

(** What a command with target [p] does: nothing to a closed connection; else the
    info becomes [f] of it and the data, if any, is sent. *)
Definition applied (w w' : world) (p : ptr) (f : info -> info) (d : bytes) : Prop :=
  exists c, heap w !! p = Some c /\
    if IsClosedOnSafe (c_codec c)
    then heap w' = heap w /\ reg w' = reg w /\ effects w' = effects w
    else heap w' = <[p := upd_info f c]> (heap w) /\
         m_shards (reg w') = m_shards (reg w) /\
         effects w' = effects w ++ data_sent cf d (heap w) p.

(** No target, no change. *)
Definition outcome_of (w w' : world) (target : option ptr) (f : info -> info) (d : bytes) : Prop :=
  match target with
  | Some p => applied w w' p f d
  | None => w' = w
  end.

Lemma lock_blind_locked f r : lock_blind f -> locked (f r) = locked r.
Proof.
  intros Hf. specialize (Hf r (locked r)).
  assert (with_locked r (locked r) = r) as E by (by destruct r). rewrite E in Hf.
  apply (f_equal locked) in Hf. exact Hf.
Qed.

Lemma unlock_lock f c :
  lock_blind f -> locked (c_info c) = false -> unlock (upd_info f (lock c)) = upd_info f c.
Proof.
  intros Hf Hl. unfold unlock, lock, upd_info. cbn. f_equal. rewrite Hf.
  pose proof (lock_blind_locked f (c_info c) Hf) as E. rewrite Hl in E.
  destruct (f (c_info c)). cbn in *. by subst.
Qed.

(** Writing sees the codec, not the info. *)
Lemma data_sent_insert d h p c c' :
  h !! p = Some c -> c_codec c' = c_codec c -> async_fails c' = async_fails c ->
  data_sent cf d (<[p := c']> h) p = data_sent cf d h p.
Proof.
  intros Hp Hc Ha. unfold data_sent, sends. rewrite lookup_insert_eq, Hp.
  destruct (isNil d); [done|]. unfold wire_for. by rewrite Hc, Ha.
Qed.

Lemma unlocked_insert h p c : unlocked h -> locked (c_info c) = false -> unlocked (<[p := c]> h).
Proof.
  intros Hu Hl q d Hq. destruct (decide (q = p)) as [->|].
  - rewrite lookup_insert_eq in Hq. by simplify_eq.
  - rewrite lookup_insert_ne in Hq by done. eauto.
Qed.

Lemma wp_open_cmd w p f k d Q :
  Inv w -> stage p f k -> lock_blind f ->
  (exists u, m_lookup (reg w) u = Some p) ->
  (forall w', Inv w' -> applied w w' p f d -> Q tt w') ->
  wp (with_open_conn p (k ;; write_data cf p d)) w Q.
Proof.
  intros (Hc & Hu & Hpool) Hk Hf [u Hon] HQ.
  destruct (cs_online _ _ Hc u p Hon) as (c & Hp & Huc). subst u.
  pose proof (Hu p c Hp) as Hl.
  assert (same_link (c_info c) (c_info (lock c))) as Hlk by done.
  eapply st_with_open_conn; [by apply st_start|done|done| |].
  - intros Hclosed w' Hst. pose proof Hst as (E1 & E2 & E3 & E4 & _).
    rewrite app_nil_r in E3. apply HQ.
    + split_and!; rewrite ?E1, ?E2; done.
    + exists c. rewrite Hclosed. done.
  - intros Hopen w1 Hst1. apply wp_bind.
    eapply (Hk w (<[p := lock c]> (heap w)) (reg w) [] w1 (lock c)); [done| |by rewrite lookup_insert_eq|done|].
    { eapply consistent_same_links; [|done]. by apply (same_links_insert _ _ c). }
    intros r2 w2 Hst2 Hc2 Hon2 Em2. rewrite insert_insert_eq in Hst2, Hc2.
    eapply st_write_data; [done|by rewrite lookup_insert_eq|]. intros w3 Hst3.
    rewrite (data_sent_insert d _ p c) in Hst3 by done. cbn [app] in Hst3.
    exists (upd_info f (lock c)). do 3 eexists. split; [exact Hst3|]. split; [by rewrite lookup_insert_eq|].
    split; [cbn [c_info upd_info lock]; by rewrite lock_blind_locked|].
    intros w4 Hst4. rewrite insert_insert_eq, unlock_lock in Hst4 by done.
    pose proof Hst4 as (E1 & E2 & E3 & E4 & _). apply HQ.
    + split_and!; rewrite ?E1, ?E2; [| |done].
      * eapply consistent_same_links; [|exact Hc2].
        rewrite <- (insert_insert_eq _ p (upd_info f c) (upd_info f (lock c))).
        apply (same_links_insert _ _ (upd_info f (lock c))); [by rewrite lookup_insert_eq|].
        cbn [c_info upd_info lock]. rewrite Hf. done.
      * apply unlocked_insert; [done|]. cbn [c_info upd_info]. by rewrite lock_blind_locked.
    + exists c. rewrite Hopen, E1, E2. done.
Qed.

Lemma online_lookup w u p : (if is_empty u then None else m_lookup (reg w) u) = Some p ->
  exists u, m_lookup (reg w) u = Some p.
Proof. destruct (is_empty u); [done|eauto]. Qed.

Lemma SubscribeTopics_blind l : lock_blind (SubscribeTopics l).
Proof. intros [] b. done. Qed.

Lemma UnsubscribeTopics_blind l : lock_blind (UnsubscribeTopics l).
Proof. intros [? ? ? ? ? ? [] ? ?] b; done. Qed.

(** The target of a command for one connection. *)
Definition target (r : registries) (uniqId : string) (skip : bool) : option ptr :=
  if is_empty uniqId || skip then None else m_lookup r uniqId.

Lemma topicSubscribe_run param payload w Q :
  unmarshal_TopicSubscribe param = Some payload -> Inv w ->
  (forall w', Inv w' ->
     outcome_of w w' (target (reg w) (ts_UniqId payload) (isNil (ts_Topics payload)))
                (SubscribeTopics (ts_Topics payload)) (ts_Data payload) -> Q tt w') ->
  wp (topicSubscribe cf param) w Q.
Proof.
  intros Hm Hinv HQ. unfold topicSubscribe, target in *. rewrite Hm.
  destruct (is_empty (ts_UniqId payload) || isNil (ts_Topics payload)) eqn:E; [by apply wp_ret, HQ|].
  eapply wp_bind, wp_Manager_Get. apply orb_false_iff in E as [-> _].
  destruct (m_lookup (reg w) (ts_UniqId payload)) as [p|] eqn:Ep; [|by apply wp_ret, HQ].
  eapply (wp_open_cmd w p _ (info_set p (SubscribeTopics (ts_Topics payload)) ;;
            Topic_SetRelation (ts_Topics payload) (Some p)));
    [done|apply stage_subscribe|apply SubscribeTopics_blind|eauto|done].
Qed.

Lemma topicUnsubscribe_run param payload w Q :
  unmarshal_TopicUnsubscribe param = Some payload -> Inv w ->
  (forall w', Inv w' ->
     outcome_of w w' (target (reg w) (tu_UniqId payload) (isNil (tu_Topics payload)))
                (UnsubscribeTopics (tu_Topics payload)) (tu_Data payload) -> Q tt w') ->
  wp (topicUnsubscribe cf param) w Q.
Proof.
  intros Hm Hinv HQ. unfold topicUnsubscribe, target in *. rewrite Hm.
  destruct (is_empty (tu_UniqId payload) || isNil (tu_Topics payload)) eqn:E; [by apply wp_ret, HQ|].
  eapply wp_bind, wp_Manager_Get. apply orb_false_iff in E as [-> _].
  destruct (m_lookup (reg w) (tu_UniqId payload)) as [p|] eqn:Ep; [|by apply wp_ret, HQ].
  eapply (wp_open_cmd w p _ (info_set p (UnsubscribeTopics (tu_Topics payload)) ;;
            Topic_DelRelationBySlice (tu_Topics payload) p));
    [done|apply stage_unsubscribe|apply UnsubscribeTopics_blind|eauto|done].
Qed.

(** The info a [ConnInfoUpdate] and a [ConnInfoDelete] lead to. *)
Definition new_session (u : ConnInfoUpdate) (r : info) : info :=
  if is_empty (cu_NewSession u) then r else SetSession (cu_NewSession u) r.
Definition new_customer (u : ConnInfoUpdate) (r : info) : info :=
  if is_empty (cu_NewCustomerId u) then r else SetCustomerId (cu_NewCustomerId u) r.
Definition new_topics (u : ConnInfoUpdate) (r : info) : info :=
  if isNil (cu_NewTopics u) then r else SubscribeTopics (cu_NewTopics u) (with_topics r None).
Definition updated_info (u : ConnInfoUpdate) (r : info) : info :=
  new_topics u (new_customer u (new_session u r)).

Definition del_topics (u : ConnInfoDelete) (r : info) : info :=
  if cd_DelTopic u then with_topics r None else r.
Definition del_session (u : ConnInfoDelete) (r : info) : info :=
  if cd_DelSession u then SetSession EmptyString r else r.
Definition del_customer (u : ConnInfoDelete) (r : info) : info :=
  if cd_DelCustomerId u then SetCustomerId EmptyString r else r.
Definition deleted_info (u : ConnInfoDelete) (r : info) : info :=
  del_customer u (del_session u (del_topics u r)).

Lemma updated_info_blind u : lock_blind (updated_info u).
Proof.
  intros [] b. unfold updated_info, new_topics, new_customer, new_session. by destruct (is_empty _), (is_empty _), (isNil _).
Qed.

Lemma deleted_info_blind u : lock_blind (deleted_info u).
Proof.
  intros [] b. unfold deleted_info, del_topics, del_session, del_customer. by destruct (cd_DelTopic u), (cd_DelSession u), (cd_DelCustomerId u).
Qed.

(** A program with the sequence of a stage in another association. *)
Lemma stage_assoc {A} p f (m : prog A) (k1 : A -> prog unit) k2 :
  stage p f (a <- m ;; (k1 a ;; k2)) <-> stage p f ((a <- m ;; k1 a) ;; k2).
Proof.
  assert (forall w Q, wp (a <- m ;; (k1 a ;; k2)) w Q <-> wp ((a <- m ;; k1 a) ;; k2) w Q) as Hw.
  { intros w Q. unfold wp, wps. by rewrite run_bind_assoc. }
  split; intros Hs w0 h r e w c Q Hst Hc Hp Hon HQ; apply Hw; by eapply Hs.
Qed.

Lemma stage_update p u :
  stage p (updated_info u)
    ((if is_empty (cu_NewSession u) then Ret tt else info_set p (SetSession (cu_NewSession u))) ;;
     (if is_empty (cu_NewCustomerId u) then Ret tt else rebind p (cu_NewCustomerId u)) ;;
     (if isNil (cu_NewTopics u) then Ret tt
      else
        topics <- info_act p PullTopics ;;
        Topic_DelRelationByMap topics p ;;
        info_set p (SubscribeTopics (cu_NewTopics u)) ;;
        Topic_SetRelation (cu_NewTopics u) (Some p))).
Proof.
  apply (stage_seq p (new_session u) (fun r => new_topics u (new_customer u r)));
    [|apply (stage_seq p (new_customer u) (new_topics u))].
  - apply (stage_if p _ (fun r => r)); [apply stage_skip|]. by apply stage_unlinked.
  - unfold new_customer. destruct (is_empty (cu_NewCustomerId u)) eqn:E; [apply stage_skip|].
    apply stage_rebind. by apply is_empty_false.
  - apply (stage_if p _ (fun r => r)); [apply stage_skip|].
    apply (stage_assoc p _ (info_act p PullTopics)).
    apply (stage_seq p (fun r => with_topics r None)); [apply stage_pull|apply stage_subscribe].
Qed.

Lemma stage_delete p u :
  stage p (deleted_info u)
    ((if cd_DelTopic u then
        topics <- info_act p PullTopics ;; Topic_DelRelationByMap topics p
      else Ret tt) ;;
     (if cd_DelSession u then info_set p (SetSession EmptyString) else Ret tt) ;;
     (if cd_DelCustomerId u then
        customerId <- info_act p (fun r => (customerId r, r)) ;;
        if is_empty customerId then Ret tt
        else (Binder_DelRelation customerId p ;; info_set p (SetCustomerId EmptyString))
      else Ret tt)).
Proof.
  apply (stage_seq p (del_topics u) (fun r => del_customer u (del_session u r)));
    [|apply (stage_seq p (del_session u) (del_customer u))].
  - apply (stage_if p _ _ (fun r => r)); [apply stage_pull|apply stage_skip].
  - apply (stage_if p _ _ (fun r => r)); [by apply stage_unlinked|apply stage_skip].
  - apply (stage_if p _ _ (fun r => r)); [apply stage_unbind|apply stage_skip].
Qed.

(** [with_open_conn] respects equality of runs. *)
Lemma wp_with_open_conn_ext p k k' w Q :
  (forall w, run k w = run k' w) -> wp (with_open_conn p k') w Q -> wp (with_open_conn p k) w Q.
Proof.
  intros Hk. unfold wp, wps. assert (run (with_open_conn p k) w = run (with_open_conn p k') w) as ->; [|done].
  unfold with_open_conn. apply run_bind_ext; [done|]. intros a w1. apply run_bind_ext; [done|]. intros closed w2.
  apply run_bind_ext; [by destruct closed|done].
Qed.

Lemma connInfoUpdate_run param payload w Q :
  unmarshal_ConnInfoUpdate param = Some payload -> Inv w ->
  (forall w', Inv w' ->
     outcome_of w w' (target (reg w) (cu_UniqId payload) false)
                (updated_info payload) (cu_Data payload) -> Q tt w') ->
  wp (connInfoUpdate cf param) w Q.
Proof.
  intros Hm Hinv HQ. unfold connInfoUpdate, target in *. rewrite Hm. rewrite orb_false_r in HQ.
  destruct (is_empty (cu_UniqId payload)) eqn:E; [by apply wp_ret, HQ|].
  eapply wp_bind, wp_Manager_Get. rewrite E.
  destruct (m_lookup (reg w) (cu_UniqId payload)) as [p|] eqn:Ep; [|by apply wp_ret, HQ].
  eapply wp_with_open_conn_ext;
    [|eapply (wp_open_cmd w p _ _ (cu_Data payload)); [done|apply (stage_update p payload)
        |apply updated_info_blind|eauto|done]].
  intros w1. rewrite run_bind_assoc. apply run_bind_ext; [done|]. intros _ w2. by rewrite run_bind_assoc.
Qed.

Lemma connInfoDelete_run param payload w Q :
  unmarshal_ConnInfoDelete param = Some payload -> Inv w ->
  (forall w', Inv w' ->
     outcome_of w w' (target (reg w) (cd_UniqId payload) false)
                (deleted_info payload) (cd_Data payload) -> Q tt w') ->
  wp (connInfoDelete cf param) w Q.
Proof.
  intros Hm Hinv HQ. unfold connInfoDelete, target in *. rewrite Hm. rewrite orb_false_r in HQ.
  destruct (is_empty (cd_UniqId payload)) eqn:E; [by apply wp_ret, HQ|].
  eapply wp_bind, wp_Manager_Get. rewrite E.
  destruct (m_lookup (reg w) (cd_UniqId payload)) as [p|] eqn:Ep; [|by apply wp_ret, HQ].
  eapply wp_with_open_conn_ext;
    [|eapply (wp_open_cmd w p _ _ (cd_Data payload)); [done|apply (stage_delete p payload)
        |apply deleted_info_blind|eauto|done]].
  intros w1. rewrite run_bind_assoc. apply run_bind_ext; [done|]. intros _ w2. by rewrite run_bind_assoc.
Qed.

End Commands.

(** ** [topicDelete]: the topics leave the registry, their subscribers leave the
    topics, and each subscriber gets the data once. *)

Section TopicDelete.
Context {MO : MapOrder} `{Deflate} `{Proto} (cf : config).

Lemma elem_of_deleted_pairs arr k p :
  (k, p) ∈ deleted_pairs arr <-> exists m i, arr !! k = Some m /\ m !! i = Some p.
Proof.
  unfold deleted_pairs. rewrite list_elem_of_join. split.
  - intros (l & Hin & Hl). apply list_elem_of_fmap in Hl as ([t m] & -> & Ht).
    apply list_elem_of_fmap in Hin as ([i q] & [= -> ->] & Hq). cbn in *.
    exists m, i. split; [by apply elem_of_range|by apply elem_of_range].
  - intros (m & i & Hm & Hi). exists ((fun q : Z * ptr => (k, q.2)) <$> range_map m). split.
    + apply list_elem_of_fmap. exists (i, p). split; [done|]. by apply elem_of_range.
    + apply list_elem_of_fmap. exists (k, m). split; [done|]. by apply elem_of_range.
Qed.

(** [h'] is [h] after the connections have left the topics of [L]. *)
Definition left (L : list (string * ptr)) (h h' : gmap ptr Conn) : Prop :=
  forall q, match h !! q, h' !! q with
            | Some c, Some c' =>
                (exists t, c' = upd_info (fun r => with_topics r t) c) /\
                forall k, subscribed (c_info c') k = subscribed (c_info c) k && bool_decide ((k, q) ∉ L)
            | None, None => True
            | _, _ => False
            end.

Lemma left_nil h : left [] h h.
Proof.
  intros q. destruct (h !! q) as [c|]; [|done]. split.
  - exists (topics (c_info c)). by destruct c as [? [] ? ? ? ?].
  - intros k. rewrite bool_decide_eq_true_2 by apply not_elem_of_nil. by rewrite andb_true_r.
Qed.

Lemma left_lookup L h h' q c : left L h h' -> h !! q = Some c ->
  exists t, h' !! q = Some (upd_info (fun r => with_topics r t) c) /\
    forall k, subscribed (with_topics (c_info c) t) k = subscribed (c_info c) k && bool_decide ((k, q) ∉ L).
Proof.
  intros Hl Hq. specialize (Hl q). rewrite Hq in Hl. destruct (h' !! q) as [c'|]; [|done].
  destruct Hl as [[t ->] Hs]. by exists t.
Qed.

Lemma left_step L h h' p t c :
  left L h h' -> h' !! p = Some c ->
  left (L ++ [(t, p)]) h (<[p := upd_info (fun i => (UnsubscribeTopic t i).2) c]> h').
Proof.
  intros Hl Hp q. specialize (Hl q).
  assert (forall k, q <> p -> bool_decide ((k, q) ∉ L ++ [(t, p)]) = bool_decide ((k, q) ∉ L)) as Hother.
  { intros k Hq. apply bool_decide_ext. rewrite not_elem_of_app, list_elem_of_singleton. naive_solver. }
  destruct (decide (q = p)) as [->|Hq].
  - rewrite lookup_insert_eq. rewrite Hp in Hl. destruct (h !! p) as [c0|]; [|done].
    destruct Hl as [[t0 ->] Hs]. split.
    + exists (topics (UnsubscribeTopic t (with_topics (c_info c0) t0)).2).
      unfold upd_info. cbn. f_equal. unfold UnsubscribeTopic. cbn [topics with_topics].
      destruct t0 as [m|]; [|done]. by destruct (m !! t).
    + intros k. cbn [c_info upd_info] in *.
      destruct (UnsubscribeTopic_spec t (with_topics (c_info c0) t0)) as [_ ->].
      rewrite Hs, <- andb_assoc. f_equal. rewrite <- bool_decide_and. apply bool_decide_ext.
      rewrite not_elem_of_app, list_elem_of_singleton. naive_solver.
  - rewrite lookup_insert_ne by done.
    destruct (h !! q), (h' !! q); try done. destruct Hl as [Ht Hs]. split; [done|].
    intros k. by rewrite Hother.
Qed.

Lemma left_unlocked L h h' : left L h h' -> unlocked h -> unlocked h'.
Proof.
  intros Hl Hu q c' Hq. specialize (Hl q). rewrite Hq in Hl.
  destruct (h !! q) as [c|] eqn:E; [|done]. destruct Hl as [[t ->] _]. exact (Hu q c E).
Qed.

(** One step of either loop. *)
Lemma st_unsubscribe L w0 h h' r e w t p c Q :
  st w0 h' r e w -> left L h h' -> unlocked h -> h !! p = Some c ->
  (forall w' h2, st w0 h2 r e w' -> left (L ++ [(t, p)]) h h2 ->
     Q (subscribed (c_info c) t && bool_decide ((t, p) ∉ L)) w') ->
  wp (UnsubscribeTopicOnSafe p t) w Q.
Proof.
  intros Hst Hl Hu Hp HQ. destruct (left_lookup L h h' p c Hl Hp) as (t0 & Hp' & Hs).
  eapply st_locked_act; [done|done|exact (Hu p c Hp)|]. intros w' Hst'.
  cbn [c_info upd_info]. destruct (UnsubscribeTopic_spec t (with_topics (c_info c) t0)) as [-> _].
  rewrite Hs. eapply HQ; [done|]. by apply left_step.
Qed.

(** The loop without notification. *)
Lemma st_leave_all L L0 w0 h h' r e w Q :
  st w0 h' r e w -> left L0 h h' -> unlocked h ->
  Forall (fun x => is_Some (h !! x.2)) L ->
  (forall w' h2, st w0 h2 r e w' -> left (L0 ++ L) h h2 -> Q tt w') ->
  wp (for_each L (fun x => _ok <- UnsubscribeTopicOnSafe x.2 x.1 ;; Ret tt)) w Q.
Proof.
  revert L0 h' w Q; induction L as [|[t p] L IH]; intros L0 h' w Q Hst Hl Hu Hall HQ; cbn [for_each].
  { apply wp_ret. eapply HQ; [done|]. by rewrite app_nil_r. }
  inversion Hall as [|? ? [c Hp] Hall']; subst. cbn [fst snd] in *.
  apply wp_bind, wp_bind. eapply st_unsubscribe; [done|done|done|done|].
  intros w1 h1 Hst1 Hl1. apply wp_ret. eapply IH; [done|done|done|done|].
  intros w2 h2 Hst2 Hl2. eapply HQ; [done|]. by rewrite <- app_assoc in Hl2.
Qed.

(** The connections gathered for the notification: those of the pairs so far. *)
Definition gathered (L : list (string * ptr)) (h : gmap ptr Conn) (s : gmap Z ptr) : Prop :=
  forall i q, s !! i = Some q <-> exists c k, h !! q = Some c /\ id (c_info c) = i /\ (k, q) ∈ L.

Lemma gathered_step L h s t p c :
  gathered L h s -> h !! p = Some c ->
  (forall q d, h !! q = Some d -> id (c_info d) = id (c_info c) -> q = p) ->
  gathered (L ++ [(t, p)]) h (<[id (c_info c) := p]> s).
Proof.
  intros Hg Hp Hids i q. split.
  - intros Hs. apply lookup_insert_Some in Hs as [[<- <-]|[Hne Hs]].
    + exists c, t. split_and!; [done|done|]. apply elem_of_app. right. by apply list_elem_of_singleton.
    + apply Hg in Hs as (d & k & Hd & Hi & Hin). exists d, k. split_and!; [done|done|]. apply elem_of_app. by left.
  - intros (d & k & Hd & <- & Hin). apply elem_of_app in Hin as [Hin|Hin].
    + destruct (decide (id (c_info d) = id (c_info c))) as [E|E].
      * rewrite (Hids q d Hd E), E. by rewrite lookup_insert_eq.
      * rewrite lookup_insert_ne by done. apply Hg. eauto.
    + apply list_elem_of_singleton in Hin as [= -> ->]. rewrite Hp in Hd. simplify_eq.
      by rewrite lookup_insert_eq.
Qed.

Lemma gathered_skip L h s t p :
  gathered L h s -> (t, p) ∈ L -> gathered (L ++ [(t, p)]) h s.
Proof.
  intros Hg Hin i q. rewrite (Hg i q). split; intros (d & k & Hd & Hi & Hk); exists d, k; split_and!; try done.
  - apply elem_of_app. by left.
  - apply elem_of_app in Hk as [Hk|Hk]; [done|]. apply list_elem_of_singleton in Hk as [= -> ->]. done.
Qed.

Lemma gathered_NoDup L h s : gathered L h s -> NoDup (range_map s).*2.
Proof.
  intros Hg. rewrite (range_map_perm s). apply NoDup_fmap_2_strong; [|apply NoDup_map_to_list].
  intros [i p] [j q] Hi%elem_of_map_to_list Hj%elem_of_map_to_list. cbn. intros <-.
  apply Hg in Hi as (c & _ & Hc & <- & _). apply Hg in Hj as (d & _ & Hd & <- & _). by simplify_eq.
Qed.

(** The loop that gathers. *)
Lemma st_leave_gather L L0 s w0 h h' r e w (Q : gmap Z ptr -> world -> Prop) :
  st w0 h' r e w -> left L0 h h' -> unlocked h -> gathered L0 h s ->
  (forall p q c d, h !! p = Some c -> h !! q = Some d -> id (c_info c) = id (c_info d) -> p = q) ->
  Forall (fun x => exists c, h !! x.2 = Some c /\ subscribed (c_info c) x.1 = true) L ->
  (forall w' h2 s', st w0 h2 r e w' -> left (L0 ++ L) h h2 -> gathered (L0 ++ L) h s' -> Q s' w') ->
  wp (for_fold L s (fun unsubscribeConn x =>
        ok <- UnsubscribeTopicOnSafe x.2 x.1 ;;
        if (ok : bool) then (i <- conn_get x.2 (fun c => id (c_info c)) ;; Ret (<[i := x.2]> unsubscribeConn))
        else Ret unsubscribeConn)) w Q.
Proof.
  revert L0 s h' w Q; induction L as [|[t p] L IH]; intros L0 s h' w Q Hst Hl Hu Hg Hids Hall HQ; cbn [for_fold].
  { apply wp_ret. eapply HQ; [done|by rewrite app_nil_r|by rewrite app_nil_r]. }
  inversion Hall as [|? ? (c & Hp & Hsub) Hall']; subst. cbn [fst snd] in *.
  apply wp_bind, wp_bind. eapply st_unsubscribe; [done|done|done|done|].
  intros w1 h1 Hst1 Hl1. rewrite Hsub. cbn [andb].
  assert (forall s1, gathered (L0 ++ [(t, p)]) h s1 ->
    wp (for_fold L s1 (fun unsubscribeConn x =>
        ok <- UnsubscribeTopicOnSafe x.2 x.1 ;;
        if (ok : bool) then (i <- conn_get x.2 (fun c => id (c_info c)) ;; Ret (<[i := x.2]> unsubscribeConn))
        else Ret unsubscribeConn)) w1 Q) as Hnext.
  { intros s1 Hg1. eapply IH; [done|done|done|done|done|done|].
    intros w2 h2 s2 Hst2 Hl2 Hg2. rewrite <- app_assoc in Hl2, Hg2. by eapply HQ. }
  case_bool_decide as Hin.
  - destruct (left_lookup _ _ _ p c Hl1 Hp) as (t1 & Hp1 & _).
    eapply wp_bind, st_conn_get; [done|done|]. cbn [c_info upd_info id with_topics].
    apply wp_ret, Hnext. apply gathered_step; [done|done|]. intros q d Hq E. exact (Hids q p d c Hq Hp E).
  - apply wp_ret, Hnext, gathered_skip; [done|].
    destruct (decide ((t, p) ∈ L0)); tauto.
Qed.

(** The final state is consistent. *)
Lemma consistent_left h h' r l arr :
  consistent h r ->
  (forall k, arr !! k = if decide (k ∈ l /\ k <> EmptyString) then t_lookup r k else None) ->
  left (deleted_pairs arr) h h' -> consistent h' (t_update drop_key l r).
Proof.
  intros Hc Harr Hl. pose proof (cs_wf_topic h r Hc) as Hwt.
  assert (forall p c', h' !! p = Some c' -> exists c t, h !! p = Some c /\ c' = upd_info (fun i => with_topics i t) c
            /\ forall k, subscribed (c_info c') k = subscribed (c_info c) k && bool_decide ((k, p) ∉ deleted_pairs arr)) as Hb.
  { intros p c' Hp. specialize (Hl p). rewrite Hp in Hl. destruct (h !! p) as [c|]; [|done].
    destruct Hl as [[t Ht] Hs]. by exists c, t. }
  assert (forall p c, h !! p = Some c -> exists c' t, h' !! p = Some c' /\ c' = upd_info (fun i => with_topics i t) c
            /\ forall k, subscribed (c_info c') k = subscribed (c_info c) k && bool_decide ((k, p) ∉ deleted_pairs arr)) as Hf.
  { intros p c Hp. destruct (left_lookup _ _ _ p c Hl Hp) as (t & Hp' & Hs). by eexists _, t. }
  assert (forall k p, (k, p) ∈ deleted_pairs arr <->
            (k ∈ l /\ k <> EmptyString) /\ exists i, member (t_lookup r k) i = Some p) as Hdel.
  { intros k p. rewrite elem_of_deleted_pairs. setoid_rewrite Harr. unfold member. split.
    - intros (m & i & Hm & Hi). case_decide as Hk; [|done]. split; [done|]. exists i. by rewrite Hm.
    - intros (Hk & i & Hi). rewrite decide_True by done. destruct (t_lookup r k) as [m|]; [|done].
      exists m, i. done. }
  split.
  - apply Hc.
  - apply Hc.
  - by apply t_drop_wf.
  - intros u p Hu. destruct (cs_online h r Hc u p Hu) as (c & Hp & Huc).
    destruct (Hf p c Hp) as (c' & t & Hp' & -> & _). by eexists.
  - intros p q c d Hp Hq E. destruct (Hb p c Hp) as (c1 & t1 & Hp1 & -> & _).
    destruct (Hb q d Hq) as (d1 & t2 & Hq1 & -> & _). by eapply (cs_ids h r Hc).
  - intros k i p. change (b_lookup (t_update drop_key l r) k) with (b_lookup r k).
    rewrite (cs_binder h r Hc). split; intros (c & Hp & Hrest).
    + destruct (Hf p c Hp) as (c' & t & Hp' & -> & _). by eexists.
    + destruct (Hb p c Hp) as (c' & t & Hp' & -> & _). by eexists.
  - intros k i p. rewrite t_drop_lookup by apply Hwt. split.
    + case_decide as Hk; [done|]. intros Hm. apply (cs_topic h r Hc) in Hm as (c & Hp & Hi & Hon & Hs).
      destruct (Hf p c Hp) as (c' & t & Hp' & Ec & Hs'). exists c'. split_and!; [done|by subst|by subst|].
      rewrite Hs', Hs. cbn [andb]. apply bool_decide_eq_true. rewrite Hdel. tauto.
    + intros (c' & Hp' & Hi & Hon & Hs'). destruct (Hb p c' Hp') as (c & t & Hp & Ec & Hs). subst c'.
      rewrite Hs in Hs'. apply andb_true_iff in Hs' as [Hsub Hnot]. apply bool_decide_eq_true in Hnot.
      assert (member (t_lookup r k) i = Some p) as Hm by (apply (cs_topic h r Hc); by exists c).
      rewrite decide_False; [done|]. intros Hk. apply Hnot, Hdel. eauto.
  - intros p c' Hp'. destruct (Hb p c' Hp') as (c & t & Hp & _ & Hs).
    by rewrite Hs, (cs_topic_name h r Hc p c Hp).
Qed.

(** What the command leaves: the subscribers of the topics have left them, and
    each of them gets the data once. *)
Definition topic_deleted (w w' : world) (u : TopicDelete) : Prop :=
  exists subscribers,
    NoDup subscribers /\
    (forall p, p ∈ subscribers <-> exists c k, heap w !! p = Some c /\ is_online (reg w) p c /\
                                     subscribed (c_info c) k = true /\ k ∈ td_Topics u) /\
    reg w' = t_update drop_key (td_Topics u) (reg w) /\
    (forall p c, heap w !! p = Some c -> exists t,
       heap w' !! p = Some (upd_info (fun r => with_topics r t) c) /\
       (p ∈ subscribers -> forall k, subscribed (with_topics (c_info c) t) k =
                            subscribed (c_info c) k && bool_decide (k ∉ td_Topics u)) /\
       (p ∉ subscribers -> forall k, subscribed (with_topics (c_info c) t) k = subscribed (c_info c) k)) /\
    effects w' = effects w ++
      (if isNil (td_Data u) then []
       else mjoin (sends cf (cf_SendMessageType cf) (td_Data u) (heap w) <$> subscribers)).

Lemma sends_left L h h' op d p : left L h h' -> sends cf op d h' p = sends cf op d h p.
Proof.
  intros Hl. specialize (Hl p). unfold sends.
  destruct (h !! p) as [c|], (h' !! p) as [c'|]; try done. destruct Hl as [[t ->] _]. done.
Qed.

(** The pairs of the result of [Del], by the connections. *)
Lemma deleted_pairs_iff h r (l : list string) arr k p :
  consistent h r ->
  (forall k, arr !! k = if decide (k ∈ l /\ k <> EmptyString) then t_lookup r k else None) ->
  (k, p) ∈ deleted_pairs arr <->
  exists c, h !! p = Some c /\ is_online r p c /\ subscribed (c_info c) k = true /\ k ∈ l.
Proof.
  intros Hc Harr. rewrite elem_of_deleted_pairs. setoid_rewrite Harr. split.
  - intros (m & i & Hm & Hi). case_decide as Hk; [|done].
    assert (member (t_lookup r k) i = Some p) as Hmem by (unfold member; by rewrite Hm).
    apply (cs_topic h r Hc) in Hmem as (c & Hp & _ & Hon & Hs). exists c. tauto.
  - intros (c & Hp & Hon & Hs & Hk).
    assert (k <> EmptyString) as Hne.
    { intros ->. by rewrite (cs_topic_name h r Hc p c Hp) in Hs. }
    pose proof (own_topic h r p c k Hc Hp Hon) as Hmem. rewrite Hs in Hmem.
    rewrite decide_True by done. unfold member in Hmem. destruct (t_lookup r k) as [m|]; [|done].
    exists m, (id (c_info c)). done.
Qed.

Lemma topic_deleted_intro w w' u arr h' l e :
  Inv w ->
  (forall k, arr !! k = if decide (k ∈ td_Topics u /\ k <> EmptyString)
                        then t_lookup (reg w) k else None) ->
  left (deleted_pairs arr) (heap w) h' ->
  st w h' (t_update drop_key (td_Topics u) (reg w)) e w' ->
  NoDup l -> (forall p, p ∈ l <-> exists k, (k, p) ∈ deleted_pairs arr) ->
  e = (if isNil (td_Data u) then []
       else mjoin (sends cf (cf_SendMessageType cf) (td_Data u) (heap w) <$> l)) ->
  Inv w' /\ topic_deleted w w' u.
Proof.
  intros (Hc & Hu & Hpool) Harr Hl (E1 & E2 & E3 & E4 & _) Hnd Hin ->.
  pose proof (fun k p => deleted_pairs_iff _ _ _ _ k p Hc Harr) as Hpairs.
  split.
  { split_and!; rewrite ?E1, ?E2; [|by eapply left_unlocked|done]. by eapply consistent_left. }
  exists l. split_and!; [done| |done| |done].
  - intros p. rewrite Hin. setoid_rewrite Hpairs. naive_solver.
  - intros p c Hp. rewrite E1. destruct (left_lookup _ _ _ p c Hl Hp) as (t & Hp' & Hs).
    exists t. split_and!; [done| |].
    + intros Hpl k. rewrite Hs. apply Hin in Hpl as [k0 Hk0].
      apply Hpairs in Hk0 as (c0 & Hp0 & Hon & _). simplify_eq.
      destruct (subscribed (c_info c) k) eqn:Es; [|done]. cbn [andb]. apply bool_decide_ext.
      rewrite Hpairs. naive_solver.
    + intros Hpl k. rewrite Hs. rewrite bool_decide_eq_true_2; [by rewrite andb_true_r|].
      intros Hk. apply Hpl, Hin. eauto.
Qed.

Lemma st_Topic_Del (l : list string) w0 h r e w Q :
  st w0 h r e w -> wf_topic r ->
  (forall ret w', (forall k, ret !! k = if decide (k ∈ l /\ k <> EmptyString) then t_lookup r k else None) ->
     st w0 h (t_update drop_key l r) e w' -> Q ret w') ->
  wp (Topic_Del l) w Q.
Proof.
  intros Hst Hwf HQ. pose proof Hst as (_ & Hr & _). apply wp_Topic_Del; [by rewrite Hr|].
  intros ret Hret. rewrite Hr in Hret. apply HQ; [done|]. by apply st_set_reg.
Qed.

Lemma topicDelete_run param payload w Q :
  unmarshal_TopicDelete param = Some payload -> Inv w ->
  (forall w', Inv w' -> topic_deleted w w' payload -> Q tt w') ->
  wp (topicDelete cf param) w Q.
Proof.
  intros Hm Hinv HQ. pose proof Hinv as (Hc & Hu & Hpool). unfold topicDelete. rewrite Hm.
  eapply wp_bind, st_Topic_Del; [by apply st_start|apply Hc|]. intros arr w1 Harr Hst1.
  pose proof (fun k p => deleted_pairs_iff _ _ _ _ k p Hc Harr) as Hpairs.
  assert (forall w' h' e l, left (deleted_pairs arr) (heap w) h' ->
     st w h' (t_update drop_key (td_Topics payload) (reg w)) e w' ->
     NoDup l -> (forall p, p ∈ l <-> exists k, (k, p) ∈ deleted_pairs arr) ->
     e = (if isNil (td_Data payload) then []
       else mjoin (sends cf (cf_SendMessageType cf) (td_Data payload) (heap w) <$> l)) -> Q tt w') as Hend.
  { intros w' h' e l Hl Hst Hnd Hin He. edestruct topic_deleted_intro; [done..|]. by apply HQ. }
  destruct (Nat.eqb_spec (size arr) 0) as [E|E].
  { apply map_size_empty_iff in E. subst arr. apply wp_ret.
    assert (deleted_pairs (∅ : gmap string (gmap Z ptr)) = []) as E0
      by (unfold deleted_pairs; by rewrite range_empty).
    rewrite E0 in Hend. eapply (Hend w1 (heap w) _ []); [apply left_nil|done|constructor| |].
    - intros p. split; [by intros ?%elem_of_nil|]. by intros [k ?%elem_of_nil].
    - by destruct (isNil _). }
  assert (Forall (fun x => exists c, heap w !! x.2 = Some c /\ subscribed (c_info c) x.1 = true)
            (deleted_pairs arr)) as Hall.
  { apply Forall_forall. intros [k p] Hkp. apply Hpairs in Hkp as (c & ? & _ & ? & _). by exists c. }
  destruct (isNil (td_Data payload)) eqn:Ed.
  - eapply (st_leave_all _ []); [done|apply left_nil|done| |].
    { eapply Forall_impl; [exact Hall|]. intros x (c & Hx & _). by exists c. }
    intros w2 h2 Hst2 Hl2. eapply (Hend w2 h2 _ (remove_dups (deleted_pairs arr).*2)); [done|done| | |done].
    + apply NoDup_remove_dups.
    + intros p. rewrite elem_of_remove_dups, list_elem_of_fmap. split.
      * intros ([k q] & -> & Hk). by exists k.
      * intros [k Hk]. by exists (k, p).
  - eapply wp_bind, (st_leave_gather _ [] ∅); [done|apply left_nil|done| |apply Hc|done|].
    { intros i q. rewrite lookup_empty. split; [done|]. by intros (c & k & _ & _ & ?%elem_of_nil). }
    intros w2 h2 s Hst2 Hl2 Hg. cbn [app] in *.
    eapply wp_bind, st_FrameObjPool_Get; [done|]. intros fr w3 Hfr Hop Hd Hst3.
    assert (forall p, p ∈ (range_map s).*2 <-> exists k, (k, p) ∈ deleted_pairs arr) as Hin.
    { intros p. rewrite list_elem_of_fmap. split.
      - intros ([i q] & -> & Hi). apply elem_of_range, Hg in Hi as (c & k & _ & _ & Hk). by exists k.
      - intros [k Hk]. pose proof Hk as Hk'. apply Hpairs in Hk' as (c & Hp & _).
        exists (id (c_info c), p). split; [done|]. apply elem_of_range, Hg. eauto. }
    eapply wp_bind, st_WriteTo_each; [done| |done|].
    { apply Forall_forall. intros p Hp. apply Hin in Hp as [k Hk]. apply Hpairs in Hk as (c & Hp & _).
      destruct (left_lookup _ _ _ p c Hl2 Hp) as (t & -> & _). eauto. }
    intros fr' w4 Hst4 Hfr' _ _. eapply st_FrameObjPool_Put; [done|]. intros w5 Hst5.
    eapply (Hend w5 h2 _ (range_map s).*2); [done|done| |done|].
    + by eapply gathered_NoDup.
    + rewrite Hop, Hd. cbn [app]. f_equal. apply list_fmap_ext. intros _ p _. by eapply sends_left.
Qed.

End TopicDelete.
