(* ===== verification/Casts.v ===== *)
(** The commands that send data to many connections and those that force
    connections offline: what each one puts out, in which order. *)

From S2P Require Export Commands.

Section Lists.
Context {A : Type} `{EqDecision A}.

(** The first occurrence of each element. *)
Fixpoint firsts (seen l : list A) : list A :=
  match l with
  | [] => []
  | x :: l' => if decide (x ∈ seen) then firsts seen l' else x :: firsts (x :: seen) l'
  end.

Lemma elem_of_firsts seen l x : x ∈ firsts seen l <-> x ∈ l /\ x ∉ seen.
Proof.
  revert seen; induction l as [|y l IH]; intros seen; cbn [firsts].
  { split; [by intros ?%elem_of_nil|]. by intros [?%elem_of_nil _]. }
  destruct (decide (y ∈ seen)) as [Hy|Hy].
  - rewrite IH, elem_of_cons. naive_solver.
  - rewrite !elem_of_cons, IH, not_elem_of_cons. destruct (decide (x = y)); naive_solver.
Qed.

Lemma NoDup_firsts seen l : NoDup (firsts seen l).
Proof.
  revert seen; induction l as [|y l IH]; intros seen; cbn [firsts]; [constructor|].
  destruct (decide (y ∈ seen)); [done|]. constructor; [|done].
  rewrite elem_of_firsts. intros [_ Hn]. apply Hn. constructor.
Qed.
End Lists.

(** [mjoin] of a cons. *)
Lemma mjoin_cons {A} (x : list A) (l : list (list A)) : mjoin (x :: l) = x ++ mjoin l.
Proof. done. Qed.

(** A search loop over nested lists is the loop over their concatenation. *)
Section While.
Context {W : Type}.

Lemma run_for_while_app {X} (l k : list X) (body : X -> go W bool) w :
  run (for_while (l ++ k) body) w =
  run (c <- for_while l body ;; if (c : bool) then for_while k body else Ret false) w.
Proof.
  revert w; induction l as [|x l IH]; intros w; [done|].
  cbn [app for_while]. rewrite run_bind_assoc. apply run_bind_ext; [done|]. intros [] w1; [apply IH|done].
Qed.

Lemma run_for_while_join {X Y} (f : X -> list Y) (l : list X) (body : Y -> go W bool) w :
  run (for_while l (fun x => for_while (f x) body)) w = run (for_while (mjoin (f <$> l)) body) w.
Proof.
  revert w; induction l as [|x l IH]; intros w; [done|].
  rewrite fmap_cons, mjoin_cons, run_for_while_app. cbn [for_while]. apply run_bind_ext; [done|].
  intros [] w1; [apply IH|done].
Qed.

Lemma run_for_while_ext {X} (l : list X) (b1 b2 : X -> go W bool) w :
  (forall x w, run (b1 x) w = run (b2 x) w) -> run (for_while l b1) w = run (for_while l b2) w.
Proof.
  intros Hb. revert w; induction l as [|x l IH]; intros w; [done|]. cbn [for_while].
  apply run_bind_ext; [apply Hb|]. intros [] w1; [apply IH|done].
Qed.

Lemma run_for_while_filter {X} (l : list X) (skip : X -> bool) (body : X -> go W bool) w :
  run (for_while l (fun x => if skip x then Ret true else body x)) w =
  run (for_while (filter (fun x => skip x = false) l) body) w.
Proof.
  revert w; induction l as [|x l IH]; intros w; [done|]. rewrite filter_cons. cbn [for_while].
  destruct (skip x) eqn:E.
  - rewrite decide_False by done. cbn [bind]. by rewrite IH.
  - rewrite decide_True by done. cbn [for_while]. apply run_bind_ext; [done|]. intros [] w1; [apply IH|done].
Qed.
End While.

Section Casts.
Context {MO : MapOrder} `{Deflate} `{Proto} (cf : config).

Abbreviation SMT := (cf_SendMessageType cf).

(** ** One message to a list of connections *)

Definition cast_to (h : gmap ptr Conn) (d : bytes) (conns : list ptr) : list effect :=
  mjoin (sends cf SMT d h <$> conns).

(** A loop that writes the frame to the connections of each key. *)
Lemma st_write_keys {K} (l : list K) (body : Frame -> K -> prog Frame) (conns : K -> list ptr)
    fr d w0 h r e w Q :
  (forall k fr w e Q, k ∈ l -> st w0 h r e w -> frame_ok fr -> messageType fr = SMT -> data fr = d ->
     (forall fr' w', st w0 h r (e ++ cast_to h d (conns k)) w' -> frame_ok fr' ->
        messageType fr' = SMT -> data fr' = d -> Q fr' w') -> wp (body fr k) w Q) ->
  st w0 h r e w -> frame_ok fr -> messageType fr = SMT -> data fr = d ->
  (forall fr' w', st w0 h r (e ++ mjoin (cast_to h d <$> (conns <$> l))) w' -> Q fr' w') ->
  wp (for_fold l fr body) w Q.
Proof.
  revert fr e w Q; induction l as [|k l IH]; intros fr e w Q Hbody Hst Hfr Hop Hd HQ; cbn [for_fold].
  { apply wp_ret, HQ. by rewrite app_nil_r. }
  apply wp_bind. eapply (Hbody k); [constructor|done..|]. intros fr1 w1 Hst1 Hfr1 Hop1 Hd1.
  eapply IH; [|done..|].
  - intros k' fr' w' e' Q' Hk'. apply Hbody. by constructor.
  - intros fr2 w2 Hst2. eapply HQ. rewrite !fmap_cons, mjoin_cons. by rewrite app_assoc.
Qed.

(** The frame of one datum, taken from the pool and put back. *)
Lemma st_cast d (k : Frame -> prog Frame) out w0 h r e w Q :
  (forall fr w Q, st w0 h r e w -> frame_ok fr -> messageType fr = SMT -> data fr = d ->
     (forall fr' w', st w0 h r (e ++ out) w' -> Q fr' w') -> wp (k fr) w Q) ->
  st w0 h r e w ->
  (forall w', st w0 h r (e ++ if isNil d then [] else out) w' -> Q tt w') ->
  wp (if isNil d then Ret tt else (msg <- FrameObjPool_Get SMT d ;; msg <- k msg ;; FrameObjPool_Put msg)) w Q.
Proof.
  intros Hk Hst HQ. destruct (isNil d).
  { apply wp_ret, HQ. by rewrite app_nil_r. }
  eapply wp_bind, st_FrameObjPool_Get; [done|]. intros fr w1 Hfr Hop Hd Hst1.
  apply wp_bind. eapply Hk; [done..|]. intros fr' w2 Hst2.
  eapply st_FrameObjPool_Put; [done|]. done.
Qed.

(** A loop of such steps. *)
Lemma st_for_each {X} (l : list X) (body : X -> prog unit) (out : X -> list effect) w0 h r e w Q :
  (forall x w e Q, x ∈ l -> st w0 h r e w -> (forall w', st w0 h r (e ++ out x) w' -> Q tt w') -> wp (body x) w Q) ->
  st w0 h r e w ->
  (forall w', st w0 h r (e ++ mjoin (out <$> l)) w' -> Q tt w') ->
  wp (for_each l body) w Q.
Proof.
  revert e w Q; induction l as [|x l IH]; intros e w Q Hbody Hst HQ; cbn [for_each].
  { apply wp_ret, HQ. by rewrite app_nil_r. }
  apply wp_bind. eapply (Hbody x); [constructor|done|]. intros w1 Hst1. eapply IH; [|done|].
  - intros y w' e' Q' Hy. apply Hbody. by constructor.
  - intros w2 Hst2. apply HQ. rewrite fmap_cons, mjoin_cons. by rewrite app_assoc.
Qed.

(** What an item with its data and its lists of connections puts out. *)
Definition item_sent (h : gmap ptr Conn) (ds : list bytes) (conns : list (list ptr)) : list effect :=
  mjoin ((fun d => if isNil d then [] else mjoin (cast_to h d <$> conns)) <$> ds).

(** A command that changes nothing but what it sends. *)
Definition only_sent (w w' : world) (out : list effect) : Prop :=
  heap w' = heap w /\ reg w' = reg w /\ env w' = env w /\ effects w' = effects w ++ out.

Lemma st_only_sent w e w' : Inv w -> st w (heap w) (reg w) e w' -> Inv w' /\ only_sent w w' e.
Proof.
  intros (Hc & Hu & Hp) (E1 & E2 & E3 & E4 & _ & E5 & _). unfold Inv. rewrite E1, E2. done.
Qed.

(** ** broadcastBulk *)

(** The connections online, in some order. *)
Definition online_conns (w : world) (conns : list ptr) : Prop :=
  NoDup conns /\ forall p, p ∈ conns <-> exists c, heap w !! p = Some c /\ is_online (reg w) p c.

Lemma online_values w l :
  Inv w -> Permutation l (map_to_list (flat (m_shards (reg w)))).*2 -> online_conns w l.
Proof.
  intros (Hc & _) Hl. pose proof (cs_manager _ _ Hc) as (Hwf & He & _).
  assert (forall u p, flat (m_shards (reg w)) !! u = Some p <-> m_lookup (reg w) u = Some p) as Hflat
    by (intros; by rewrite flat_lookup).
  split; [|intros p]; rewrite Hl.
  - apply NoDup_fmap_2_strong; [|apply NoDup_map_to_list].
    intros [u p] [v q] Hu%elem_of_map_to_list Hv%elem_of_map_to_list. cbn. intros <-.
    apply Hflat in Hu, Hv. destruct (cs_online _ _ Hc u p Hu) as (c & Hp & <-).
    destruct (cs_online _ _ Hc v p Hv) as (d & Hq & <-). by simplify_eq.
  - rewrite list_elem_of_fmap. split.
    + intros ([u q] & -> & Hu). apply elem_of_map_to_list, Hflat in Hu. cbn.
      destruct (cs_online _ _ Hc u q Hu) as (c & Hp & Hcu). exists c. split; [done|].
      unfold is_online. by rewrite Hcu.
    + intros (c & Hp & Hon). exists (uniqId (c_info c), p). split; [done|].
      by apply elem_of_map_to_list, Hflat.
Qed.

Lemma online_Forall w l : online_conns w l -> Forall (fun p => is_Some (heap w !! p)) l.
Proof. intros [_ Hl]. apply Forall_forall. intros p Hp. apply Hl in Hp as (c & -> & _). eauto. Qed.

Lemma broadcastBulk_run param payload w Q :
  unmarshal_BroadcastBulk param = Some payload -> Inv w ->
  (forall w' conns, Inv w' -> (m_len (reg w) = 0 -> conns = []) ->
     (m_len (reg w) <> 0 -> online_conns w conns) ->
     only_sent w w' (item_sent (heap w) (bb_Data payload) [conns]) -> Q tt w') ->
  wp (broadcastBulk cf param) w Q.
Proof.
  intros Hm Hinv HQ. unfold broadcastBulk. rewrite Hm.
  assert (forall conns, item_sent (heap w) [] conns = []) as Hnil by done.
  assert (forall l, (m_len (reg w) = 0 -> l = []) -> (m_len (reg w) <> 0 -> online_conns w l) ->
     item_sent (heap w) (bb_Data payload) [l] = [] -> Q tt w) as Hskip.
  { intros l H1 H2 E. apply (HQ w l); [done..|]. split_and!; try done. by rewrite E, app_nil_r. }
  destruct (isNil (bb_Data payload)) eqn:E.
  { destruct (bb_Data payload); [|done]. apply wp_ret.
    destruct (decide (m_len (reg w) = 0)) as [E0|E0]; [by apply (Hskip [])|].
    apply (Hskip (map_to_list (flat (m_shards (reg w)))).*2); [done| |done]. intros _. by apply online_values. }
  apply wp_bind. pose proof Hinv as (Hc & _ & Hpool).
  apply wp_Manager_GetConnections; [apply Hc|]. intros l Hl.
  destruct (Z.eqb_spec (m_len (reg w)) 0) as [E0|E0].
  { apply wp_ret, (Hskip []); [done|done|]. unfold item_sent, cast_to. clear.
    induction (bb_Data payload) as [|d ds IH]; [done|]. rewrite fmap_cons, mjoin_cons, IH. by destruct (isNil d). }
  pose proof (online_values w l Hinv Hl) as Hon.
  eapply (st_for_each _ _ (fun d => if isNil d then [] else mjoin (cast_to (heap w) d <$> [l])));
    [|by apply st_start|].
  - intros d w1 e1 Q1 _ Hst1 HQ1. eapply (st_cast d (fun msg => WriteTo_each cf msg l)); [|done|done].
    intros fr w2 Q2 Hst2 Hfr Hop Hd HQ2. eapply st_WriteTo_each; [done|by apply online_Forall|done|].
    intros fr' w3 Hst3 _ _ _. eapply HQ2. rewrite Hop, Hd in Hst3.
    cbn [fmap list_fmap]. rewrite mjoin_cons, app_nil_r. exact Hst3.
  - intros w1 Hst1. destruct (st_only_sent w _ w1 Hinv Hst1). by eapply (HQ w1 l).
Qed.

(** ** topicPublishBulk *)

Definition subscribers (r : registries) (topic : string) : list ptr :=
  if is_empty topic then [] else default [] (conn_list <$> t_lookup r topic).

Lemma subscribers_spec w topic :
  Inv w ->
  NoDup (subscribers (reg w) topic) /\
  forall p, p ∈ subscribers (reg w) topic <->
    exists c, heap w !! p = Some c /\ is_online (reg w) p c /\ subscribed (c_info c) topic = true.
Proof.
  intros (Hc & _). unfold subscribers. destruct (is_empty topic) eqn:E.
  { apply is_empty_true in E. subst. split; [constructor|]. intros p. split; [by intros ?%elem_of_nil|].
    intros (c & Hp & _ & Hs). by rewrite (cs_topic_name _ _ Hc p c Hp) in Hs. }
  pose proof (fun i p => cs_topic _ _ Hc topic i p) as Ht. unfold member in Ht.
  destruct (t_lookup (reg w) topic) as [m|]; cbn [mbind option_bind] in Ht;
    [change (default [] (conn_list <$> Some m)) with (conn_list m)
    |change (default [] (conn_list <$> None)) with (@nil ptr)].
  - unfold conn_list. split.
    + rewrite (range_map_perm m). apply NoDup_fmap_2_strong; [|apply NoDup_map_to_list].
      intros [i p] [j q] Hi%elem_of_map_to_list Hj%elem_of_map_to_list. cbn. intros <-.
      apply Ht in Hi as (c & Hp & <- & _), Hj as (d & Hq & <- & _). by simplify_eq.
    + intros p. rewrite list_elem_of_fmap. split.
      * intros ([i q] & -> & Hi). apply elem_of_range, Ht in Hi as (c & ? & _ & ?). by exists c.
      * intros (c & Hp & Hon & Hs). exists (id (c_info c), p). split; [done|]. apply elem_of_range, Ht. by exists c.
  - split; [constructor|]. intros p. split; [by intros ?%elem_of_nil|].
    intros (c & Hp & Hon & Hs). assert (None = Some p) as ?; [|done]. apply (Ht (id (c_info c))). by exists c.
Qed.

Lemma topicPublishBulk_run param payload w Q :
  unmarshal_TopicPublishBulk param = Some payload -> Inv w ->
  (forall w', Inv w' ->
     only_sent w w' (mjoin ((fun item => item_sent (heap w) (tp_Data item) (subscribers (reg w) <$> tp_Topics item))
                            <$> tpb_Items payload)) -> Q tt w') ->
  wp (topicPublishBulk cf param) w Q.
Proof.
  intros Hm Hinv HQ. unfold topicPublishBulk. rewrite Hm. pose proof Hinv as (_ & _ & Hpool).
  eapply (st_for_each _ _ (fun item => item_sent (heap w) (tp_Data item) (subscribers (reg w) <$> tp_Topics item)));
    [|by apply st_start|].
  - intros item w1 e1 Q1 _ Hst1 HQ1. eapply st_for_each; [|done|exact HQ1].
    intros d w2 e2 Q2 _ Hst2 HQ2.
    eapply (st_cast d (fun msg => for_fold (tp_Topics item) msg _)); [|done|exact HQ2].
    intros fr w3 Q3 Hst3 Hfr Hop Hd HQ3.
    eapply (st_write_keys _ _ (subscribers (reg w))); [|done..].
    clear dependent w3. intros topic fr3 w3 e3 Q4 _ Hst3 Hfr3 Hop3 Hd3 HQ4.
    eapply wp_bind, wp_Topic_GetConnListByTopic. pose proof Hst3 as (_ & Hr & _). rewrite Hr.
    unfold subscribers in HQ4. pose proof (subscribers_spec w topic Hinv) as [_ Hsub]. unfold subscribers in Hsub.
    destruct (is_empty topic); [apply wp_ret, HQ4; [by rewrite app_nil_r|done..]|].
    destruct (t_lookup (reg w) topic) as [m|]; cbn [fmap option_fmap option_map default] in *;
      [|apply wp_ret, HQ4; [by rewrite app_nil_r|done..]].
    eapply st_WriteTo_each; [done| |done|].
    + apply Forall_forall. intros p Hp. apply Hsub in Hp as (c & -> & _). eauto.
    + rewrite Hop3, Hd3. intros fr' w' Hst' Hfr' Hop4 Hd4. by apply HQ4.
  - intros w1 Hst1. destruct (st_only_sent w _ w1 Hinv Hst1). by eapply HQ.
Qed.

(** ** singleCastBulkByCustomerId *)

Definition bound (r : registries) (customerId : string) : list ptr :=
  if is_empty customerId then []
  else match b_lookup r customerId with Some c => (range_map c).*2 | None => [] end.

Lemma bound_spec w k :
  Inv w ->
  NoDup (bound (reg w) k) /\
  forall p, p ∈ bound (reg w) k <->
    exists c, heap w !! p = Some c /\ is_online (reg w) p c /\ customerId (c_info c) = k /\ k <> EmptyString.
Proof.
  intros (Hc & _). unfold bound. destruct (is_empty k) eqn:E.
  { apply is_empty_true in E. subst. split; [constructor|]. intros p. split; [by intros ?%elem_of_nil|].
    by intros (c & _ & _ & _ & ?). }
  pose proof (fun i p => cs_binder _ _ Hc k i p) as Ht. unfold member in Ht.
  destruct (b_lookup (reg w) k) as [m|]; cbn [mbind option_bind] in Ht.
  - split.
    + rewrite (range_map_perm m). apply NoDup_fmap_2_strong; [|apply NoDup_map_to_list].
      intros [i p] [j q] Hi%elem_of_map_to_list Hj%elem_of_map_to_list. cbn. intros <-.
      apply Ht in Hi as (c & Hp & <- & _), Hj as (d & Hq & <- & _). by simplify_eq.
    + intros p. rewrite list_elem_of_fmap. split.
      * intros ([i q] & -> & Hi). apply elem_of_range, Ht in Hi as (c & ? & _ & ?). by exists c.
      * intros (c & Hp & Hon & Hs). exists (id (c_info c), p). split; [done|]. apply elem_of_range, Ht. by exists c.
  - split; [constructor|]. intros p. split; [by intros ?%elem_of_nil|].
    intros (c & Hp & Hon & Hs). assert (None = Some p) as ?; [|done]. apply (Ht (id (c_info c))). by exists c.
Qed.

Lemma bound_Forall w k : Inv w -> Forall (fun p => is_Some (heap w !! p)) (bound (reg w) k).
Proof.
  intros Hinv. apply Forall_forall. intros p Hp.
  apply (proj2 (bound_spec w k Hinv)) in Hp as (c & -> & _). eauto.
Qed.

Lemma singleCastBulkByCustomerId_run param payload w Q :
  unmarshal_SingleCastBulkByCustomerId param = Some payload -> Inv w ->
  (forall w', Inv w' ->
     only_sent w w' (mjoin ((fun item => item_sent (heap w) (sc_Data item) (bound (reg w) <$> sc_CustomerIds item))
                            <$> sbc_Items payload)) -> Q tt w') ->
  wp (singleCastBulkByCustomerId cf param) w Q.
Proof.
  intros Hm Hinv HQ. unfold singleCastBulkByCustomerId. rewrite Hm. pose proof Hinv as (_ & _ & Hpool).
  eapply (st_for_each _ _ (fun item => item_sent (heap w) (sc_Data item) (bound (reg w) <$> sc_CustomerIds item)));
    [|by apply st_start|].
  - intros item w1 e1 Q1 _ Hst1 HQ1. eapply st_for_each; [|done|exact HQ1].
    intros d w2 e2 Q2 _ Hst2 HQ2.
    eapply (st_cast d (fun msg => for_fold (sc_CustomerIds item) msg _)); [|done|exact HQ2].
    intros fr w3 Q3 Hst3 Hfr Hop Hd HQ3.
    eapply (st_write_keys _ _ (bound (reg w))); [|done..].
    clear dependent w3. intros k fr3 w3 e3 Q4 _ Hst3 Hfr3 Hop3 Hd3 HQ4.
    eapply wp_bind, wp_Binder_GetConnListByCustomerId. pose proof Hst3 as (_ & Hr & _). rewrite Hr.
    fold (bound (reg w) k). eapply st_WriteTo_each; [done|by apply bound_Forall|done|].
    rewrite Hop3, Hd3. intros fr' w' Hst' Hfr' Hop4 Hd4. by apply HQ4.
  - intros w1 Hst1. destruct (st_only_sent w _ w1 Hinv Hst1). by eapply HQ.
Qed.

(** ** singleCastBulk *)

(** The writes of the command, in order: every non-empty datum to every uniqId. *)
Definition single_casts (u : SingleCastBulk) : list (bytes * string) :=
  mjoin ((fun item => mjoin ((fun d => (fun k => (d, k)) <$> si_UniqIds item) <$>
                             filter (fun d => isNil d = false) (si_Data item))) <$> sb_Items u).

(** The command goes on while the writes succeed. *)
Fixpoint until_failed (h : gmap ptr Conn) (r : registries) (l : list (bytes * string)) : list effect :=
  match l with
  | [] => []
  | (d, k) :: l' =>
      match (if is_empty k then None else m_lookup r k) with
      | None => until_failed h r l'
      | Some p => if bool_decide (sends cf SMT d h p = []) then []
                  else sends cf SMT d h p ++ until_failed h r l'
      end
  end.

Definition single_body (x : bytes * string) : prog bool :=
  conn <- Manager_Get x.2 ;;
  match conn with
  | None => Ret true
  | Some conn => WriteMessage cf conn SMT x.1
  end.

Lemma st_until_failed l w0 h r e w Q :
  st w0 h r e w -> consistent h r ->
  (forall b w', st w0 h r (e ++ until_failed h r l) w' -> Q b w') ->
  wp (for_while l single_body) w Q.
Proof.
  revert e w Q; induction l as [|[d k] l IH]; intros e w Q Hst Hc HQ; cbn [for_while until_failed] in *.
  { apply wp_ret, HQ. by rewrite app_nil_r. }
  apply wp_bind, wp_bind. eapply st_Manager_Get; [done|]. cbn [snd].
  destruct (if is_empty k then None else m_lookup r k) as [p|] eqn:Ep; [|by apply wp_ret, (IH e)].
  assert (exists c, h !! p = Some c) as [c Hp].
  { destruct (is_empty k); [done|]. apply (cs_online h r Hc) in Ep as (c & ? & _). eauto. }
  eapply st_WriteMessage; [done|done|]. cbn [fst]. intros w1 Hst1.
  destruct (bool_decide (sends cf SMT d h p = [])) eqn:Eb; cbn [negb].
  - apply bool_decide_eq_true in Eb. rewrite Eb in Hst1. by apply wp_ret, HQ.
  - eapply IH; [done|done|]. intros b w2 Hst2. apply HQ. by rewrite app_assoc.
Qed.

(** The three loops are one. *)
Lemma run_single_casts (items : list SingleCastBulkItem) w :
  run (for_while items (fun item =>
         for_while (si_Data item) (fun d =>
           if isNil d then Ret true else
           for_while (si_UniqIds item) (fun uniqId =>
             conn <- Manager_Get uniqId ;;
             match conn with None => Ret true | Some conn => WriteMessage cf conn SMT d end)))) w
  = run (for_while (single_casts (mkSingleCastBulk items)) single_body) w.
Proof.
  unfold single_casts. cbn [sb_Items]. rewrite <- run_for_while_join. apply run_for_while_ext.
  clear. intros item w. rewrite run_for_while_filter, <- run_for_while_join. apply run_for_while_ext.
  clear. intros d w. revert w. induction (si_UniqIds item) as [|k l IH]; intros w; [done|].
  rewrite fmap_cons. cbn [for_while]. apply run_bind_ext; [done|]. intros [] w1; [apply IH|done].
Qed.

Lemma singleCastBulk_run param payload w Q :
  unmarshal_SingleCastBulk param = Some payload -> Inv w ->
  (forall w', Inv w' ->
     only_sent w w' (until_failed (heap w) (reg w) (single_casts payload)) -> Q tt w') ->
  wp (singleCastBulk cf param) w Q.
Proof.
  intros Hm Hinv HQ. unfold singleCastBulk. rewrite Hm. pose proof Hinv as (Hc & _ & Hpool).
  assert (wp (for_while (single_casts payload) single_body) w
            (fun _ w' => Inv w' /\ only_sent w w' (until_failed (heap w) (reg w) (single_casts payload)))) as Hrun.
  { eapply st_until_failed; [by apply st_start|done|]. intros b w' Hst'. by apply st_only_sent. }
  apply wp_bind. destruct payload as [items]. unfold wp, wps in *. cbn [sb_Items].
  rewrite run_single_casts. destruct (run _ w) as [b w' ts| | | |]; [|done..].
  destruct Hrun as (-> & Hi & Ho). split; [done|]. split; [done|]. by apply HQ.
Qed.

(** When no write fails, everything is sent. *)
Lemma until_failed_all h r l :
  (forall d k, (d, k) ∈ l -> forall p, m_lookup r k = Some p -> sends cf SMT d h p <> []) ->
  until_failed h r l =
    mjoin ((fun x => match (if is_empty x.2 then None else m_lookup r x.2) with
                     | Some p => sends cf SMT x.1 h p
                     | None => []
                     end) <$> l).
Proof.
  induction l as [|[d k] l IH]; intros Hok; [done|]. cbn [until_failed].
  rewrite fmap_cons, mjoin_cons. cbn [fst snd].
  rewrite IH by (intros; eapply Hok; [by constructor|done]).
  destruct (is_empty k); [done|]. destruct (m_lookup r k) as [p|] eqn:Ep; [|done].
  rewrite bool_decide_eq_false_2; [done|]. eapply Hok; [constructor|done].
Qed.

End Casts.

(** ** The commands that force connections offline: each target that is not closed
    gets the data, if any, then the close frame, once, and is marked closed. *)

Section Offline.
Context {MO : MapOrder} `{Deflate} `{Proto} (cf : config).

Abbreviation SMT := (cf_SendMessageType cf).

(** The heap and the effects after a list of connections has been forced
    offline, in order. *)
Definition shut (h : gmap ptr Conn) (conns : list ptr) : gmap ptr Conn :=
  foldl (fun h p => alter mark_closed p h) h conns.

Fixpoint shut_sent (f : bytes) (d : bytes) (h : gmap ptr Conn) (conns : list ptr) : list effect :=
  match conns with
  | [] => []
  | p :: l => data_sent cf d h p ++ close_sent f h p ++ shut_sent f d (alter mark_closed p h) l
  end.

Lemma shut_cons h p l : shut h (p :: l) = shut (alter mark_closed p h) l.
Proof. done. Qed.

Lemma shut_app h l k : shut h (l ++ k) = shut (shut h l) k.
Proof. unfold shut. apply foldl_app. Qed.

Lemma shut_sent_app f d h l k :
  shut_sent f d h (l ++ k) = shut_sent f d h l ++ shut_sent f d (shut h l) k.
Proof.
  revert h; induction l as [|p l IH]; intros h; [done|]. cbn [shut_sent app].
  rewrite IH, shut_cons. by rewrite !app_assoc.
Qed.

(** Only the codec changes. *)
Lemma shut_lookup h l p :
  match h !! p, shut h l !! p with
  | Some c, Some c' => c_info c' = c_info c /\ async_fails c' = async_fails c
  | None, None => True
  | _, _ => False
  end.
Proof.
  revert h; induction l as [|q l IH]; intros h; cbn.
  { by destruct (h !! p). }
  specialize (IH (alter mark_closed q h)). unfold shut in *. cbn [foldl] in IH.
  destruct (decide (q = p)) as [->|Hne].
  - rewrite lookup_alter_eq in IH. destruct (h !! p); cbn in IH; done.
  - rewrite lookup_alter_ne in IH by done. done.
Qed.

(** Two heaps with the same infos. *)
Definition same_infos (h h' : gmap ptr Conn) : Prop :=
  forall p, match h !! p, h' !! p with
            | Some c, Some c' => c_info c' = c_info c /\ async_fails c' = async_fails c
            | None, None => True
            | _, _ => False
            end.

Lemma same_infos_refl h : same_infos h h.
Proof. intros p. by destruct (h !! p). Qed.

Lemma same_infos_trans h1 h2 h3 : same_infos h1 h2 -> same_infos h2 h3 -> same_infos h1 h3.
Proof.
  intros H1 H2 p. specialize (H1 p). specialize (H2 p).
  destruct (h1 !! p), (h2 !! p), (h3 !! p); try done. intuition congruence.
Qed.

Lemma shut_infos h l : same_infos h (shut h l).
Proof. intros p. apply shut_lookup. Qed.

Lemma shut_links h l : same_links h (shut h l).
Proof.
  intros p. pose proof (shut_lookup h l p) as Hs. destruct (h !! p), (shut h l !! p); try done.
  destruct Hs as [-> _]. done.
Qed.

Lemma shut_unlocked h l : unlocked h -> unlocked (shut h l).
Proof.
  intros Hu p c' Hp. pose proof (shut_lookup h l p) as Hs. rewrite Hp in Hs.
  destruct (h !! p) as [c|] eqn:E; [|done]. destruct Hs as [-> _]. by eapply Hu.
Qed.

Lemma shut_is_Some h l p : is_Some (shut h l !! p) <-> is_Some (h !! p).
Proof.
  pose proof (shut_lookup h l p) as Hs.
  destruct (h !! p), (shut h l !! p); split; intros [? ?]; try done; eauto.
Qed.

(** The frame of the optional message. *)
Definition msg_ok (d : bytes) (msg : option Frame) : Prop :=
  match msg with
  | Some fr => isNil d = false /\ frame_ok fr /\ messageType fr = SMT /\ data fr = d
  | None => isNil d = true
  end.

Lemma st_offline f d msg p w0 h r e w (Q : option Frame -> world -> Prop) :
  st w0 h r e w -> is_Some (h !! p) -> msg_ok d msg ->
  (forall msg' w', st w0 (shut h [p]) r (e ++ shut_sent f d h [p]) w' -> msg_ok d msg' -> Q msg' w') ->
  wp (offline cf f msg p) w Q.
Proof.
  intros Hst [c Hp] Hmsg HQ. unfold offline. cbn [shut_sent] in HQ.
  assert (shut h [p] = <[p := mark_closed c]> h) as Eh.
  { unfold shut. cbn [foldl]. apply map_eq. intros q.
    destruct (decide (p = q)) as [<-|Hq].
    - by rewrite lookup_alter_eq, lookup_insert_eq, Hp.
    - by rewrite lookup_alter_ne, lookup_insert_ne by done. }
  rewrite Eh in HQ. apply wp_bind. destruct msg as [fr|]; cbn [msg_ok] in Hmsg.
  - destruct Hmsg as (Hn & Hfr & Hop & Hd).
    eapply wp_bind, st_WriteTo; [done|done|done|]. intros ok fr' w1 Hst1 Hfr' Hop' Hd'. apply wp_ret. cbn [snd].
    eapply wp_bind, st_WriteCloseFrame; [done|done|]. intros w2 Hst2. apply wp_ret, HQ.
    + unfold data_sent. rewrite Hn, app_nil_r. rewrite Hop, Hd, <- app_assoc in Hst2. exact Hst2.
    + cbn. split_and!; [done|done|congruence|congruence].
  - apply wp_ret. eapply wp_bind, st_WriteCloseFrame; [done|done|]. intros w2 Hst2. apply wp_ret, HQ; [|done].
    unfold data_sent. by rewrite Hmsg, app_nil_r.
Qed.

(** A loop whose body forces some connections offline. *)
Lemma st_offline_loop {K} f d (l : list K) (body : option Frame -> K -> prog (option Frame))
    (conns : K -> list ptr) msg w0 h r e w (Q : option Frame -> world -> Prop) :
  (forall k msg w h1 e Q, k ∈ l -> st w0 h1 r e w -> same_infos h h1 -> unlocked h1 -> msg_ok d msg ->
     (forall msg' w', st w0 (shut h1 (conns k)) r (e ++ shut_sent f d h1 (conns k)) w' ->
        msg_ok d msg' -> Q msg' w') -> wp (body msg k) w Q) ->
  st w0 h r e w -> unlocked h -> msg_ok d msg ->
  (forall msg' w', st w0 (shut h (mjoin (conns <$> l))) r (e ++ shut_sent f d h (mjoin (conns <$> l))) w' ->
     msg_ok d msg' -> Q msg' w') ->
  wp (for_fold l msg body) w Q.
Proof.
  intros Hbody Hst Hu Hmsg HQ.
  enough (forall l' h1 e1 w1 msg1, (forall k, k ∈ l' -> k ∈ l) -> st w0 h1 r e1 w1 -> same_infos h h1 ->
    unlocked h1 -> msg_ok d msg1 ->
    wp (for_fold l' msg1 body) w1 (fun msg' w' =>
      st w0 (shut h1 (mjoin (conns <$> l'))) r (e1 ++ shut_sent f d h1 (mjoin (conns <$> l'))) w' /\ msg_ok d msg')) as H2.
  { eapply wp_mono; [apply (H2 l h e w msg); [done|done|apply same_infos_refl|done|done]|].
    cbn. intros msg' w' [? ?]. by apply HQ. }
  clear dependent w msg e Q.
  induction l' as [|k l' IH]; intros h1 e1 w1 msg1 Hin Hst Hl Hu1 Hmsg; cbn [for_fold].
  { apply wp_ret. cbn. by rewrite app_nil_r. }
  apply wp_bind. eapply (Hbody k); [apply Hin; constructor|done..|]. intros msg2 w2 Hst2 Hmsg2.
  eapply wp_mono; [eapply IH; [|exact Hst2| | |done]|].
  - intros k' Hk'. apply Hin. by constructor.
  - eapply same_infos_trans; [done|apply shut_infos].
  - by apply shut_unlocked.
  - intros msg' w' [Hst' Hm']. split; [|done].
    rewrite fmap_cons, mjoin_cons, shut_app, shut_sent_app. by rewrite app_assoc.
Qed.

(** The frame from the pool, when there is data. *)
Lemma st_with_message d (k : option Frame -> prog (option Frame)) f l w0 h r e w Q :
  (forall msg w Q, st w0 h r e w -> msg_ok d msg ->
     (forall msg' w', st w0 (shut h l) r (e ++ shut_sent f d h l) w' -> msg_ok d msg' -> Q msg' w') ->
     wp (k msg) w Q) ->
  st w0 h r e w ->
  (forall w', st w0 (shut h l) r (e ++ shut_sent f d h l) w' -> Q tt w') ->
  wp (with_message cf d k) w Q.
Proof.
  intros Hk Hst HQ. unfold with_message. destruct (isNil d) eqn:E.
  - apply wp_bind. eapply Hk; [done|done|]. intros msg' w' Hst' _. by apply wp_ret, HQ.
  - eapply wp_bind, st_FrameObjPool_Get; [done|]. intros fr w1 Hfr Hop Hd Hst1.
    apply wp_bind. eapply Hk; [done|by split_and!|]. intros [fr'|] w2 Hst2 Hm2; [|by apply wp_ret, HQ].
    eapply st_FrameObjPool_Put; [done|]. done.
Qed.

(** What the commands leave: the info of every connection and the registries
    are as before, the targets are marked closed. *)
Definition forced_offline (f : bytes) (d : bytes) (w w' : world) (l : list ptr) : Prop :=
  heap w' = shut (heap w) l /\ reg w' = reg w /\ env w' = env w /\
  effects w' = effects w ++ shut_sent f d (heap w) l.

Lemma forced_offline_intro f d w w' l :
  Inv w -> st w (shut (heap w) l) (reg w) (shut_sent f d (heap w) l) w' ->
  Inv w' /\ forced_offline f d w w' l.
Proof.
  intros (Hc & Hu & Hp) (E1 & E2 & E3 & E4 & _ & E5 & _). split; [|done].
  split_and!; rewrite ?E1, ?E2; [|by apply shut_unlocked|done].
  eapply consistent_same_links; [apply shut_links|done].
Qed.

(** The connections of a list of uniqIds. *)
Definition conns_of (r : registries) (u : string) : list ptr :=
  match (if is_empty u then None else m_lookup r u) with Some p => [p] | None => [] end.

Lemma conns_of_is_Some h r u p : consistent h r -> p ∈ conns_of r u -> is_Some (h !! p).
Proof.
  intros Hc Hp. unfold conns_of in Hp. destruct (is_empty u); [by apply elem_of_nil in Hp|].
  destruct (m_lookup r u) as [q|] eqn:E; [|by apply elem_of_nil in Hp].
  apply list_elem_of_singleton in Hp as ->. apply (cs_online h r Hc) in E as (c & ? & _). eauto.
Qed.

Lemma same_infos_is_Some h h' p : same_infos h h' -> is_Some (h !! p) -> is_Some (h' !! p).
Proof. intros Hl [c Hc]. specialize (Hl p). rewrite Hc in Hl. destruct (h' !! p); [eauto|done]. Qed.

Lemma forceOffline_run param payload w Q :
  unmarshal_ForceOffline param = Some payload -> Inv w ->
  (forall w', Inv w' ->
     forced_offline (BuildCloseFrame StatusPolicyViolation "forceOffline") (fo_Data payload) w w'
       (mjoin (conns_of (reg w) <$> fo_UniqIds payload)) -> Q tt w') ->
  wp (forceOffline cf param) w Q.
Proof.
  intros Hm Hinv HQ. unfold forceOffline. rewrite Hm. pose proof Hinv as (Hc & Hu & Hpool).
  set (f := BuildCloseFrame _ _) in *. destruct (isNil (fo_UniqIds payload)) eqn:E.
  { destruct (fo_UniqIds payload) eqn:E0; [|done]. apply wp_ret, HQ; [done|].
    split_and!; [done|done|done|]. cbn. by rewrite app_nil_r. }
  eapply (st_with_message _ _ f (mjoin (conns_of (reg w) <$> fo_UniqIds payload)) w); [|by apply st_start|].
  - intros msg w1 Q1 Hst1 Hmsg HQ1. eapply (st_offline_loop f (fo_Data payload) _ _ (conns_of (reg w)));
      [|done..].
    intros u msg1 w2 h2 e2 Q2 _ Hst2 Hl2 Hu2 Hmsg2 HQ2. eapply wp_bind, st_Manager_Get; [done|].
    pose proof (conns_of_is_Some (heap w) (reg w) u) as Hsome. unfold conns_of in *.
    destruct (if is_empty u then None else m_lookup (reg w) u) as [p|].
    + eapply st_offline; [done| |done|done].
      eapply same_infos_is_Some; [done|]. apply Hsome; [done|]. by apply list_elem_of_singleton.
    + apply wp_ret, HQ2; [|done]. cbn. by rewrite app_nil_r.
  - intros w' Hst'. edestruct forced_offline_intro; [done|exact Hst'|]. by apply HQ.
Qed.

(** A list of connections that are all there. *)
Lemma st_offline_list f d l msg w0 h0 h r e w (Q : option Frame -> world -> Prop) :
  Forall (fun p => is_Some (h0 !! p)) l -> same_infos h0 h ->
  st w0 h r e w -> unlocked h -> msg_ok d msg ->
  (forall msg' w', st w0 (shut h l) r (e ++ shut_sent f d h l) w' -> msg_ok d msg' -> Q msg' w') ->
  wp (for_fold l msg (offline cf f)) w Q.
Proof.
  intros Hall Hl Hst Hu Hmsg HQ.
  assert (mjoin ((fun p : ptr => [p]) <$> l) = l) as El.
  { clear. induction l as [|p l IH]; [done|]. rewrite fmap_cons, mjoin_cons. by rewrite IH. }
  eapply (st_offline_loop f d l _ (fun p => [p])); [|done|done|done|by rewrite El].
  intros p msg1 w1 h1 e1 Q1 Hp Hst1 Hl1 Hu1 Hmsg1 HQ1. eapply st_offline; [done| |done|done].
  eapply same_infos_is_Some; [done|]. eapply same_infos_is_Some; [done|].
  by apply (proj1 (Forall_forall _ l) Hall).
Qed.

(** What the binder returns for some customerIds. *)
Section CustomerConns.
Context (w : world) (ids : list string) (m : gmap string (list ptr)).
Hypothesis Hinv : Inv w.
Hypothesis Hm : forall k, m !! k =
  if decide (k ∈ ids /\ k <> EmptyString) then (fun c => (range_map c).*2) <$> b_lookup (reg w) k else None.

Lemma customer_entry k ps :
  m !! k = Some ps -> k ∈ ids /\ k <> EmptyString /\ ps = bound (reg w) k.
Proof.
  rewrite Hm. case_decide as Hd; [|done]. destruct Hd as [? Hne]. intros Hk.
  split_and!; [done|done|]. unfold bound. apply is_empty_false in Hne. rewrite Hne.
  destruct (b_lookup (reg w) k); [|done]. by injection Hk as <-.
Qed.

Definition customer_conns : list ptr := mjoin ((fun x : string * list ptr => x.2) <$> range_map m).

Lemma customer_conns_iff p :
  p ∈ customer_conns <-> exists c, heap w !! p = Some c /\ is_online (reg w) p c /\
     customerId (c_info c) ∈ ids /\ customerId (c_info c) <> EmptyString.
Proof.
  unfold customer_conns. rewrite list_elem_of_join. split.
  - intros (ps & Hps & Hp). apply list_elem_of_fmap in Hp as ([k ps'] & -> & Hk%elem_of_range). cbn in *.
    apply customer_entry in Hk as (Hk & Hne & ->).
    apply (proj2 (bound_spec w k Hinv)) in Hps as (c & ? & ? & <- & ?). by exists c.
  - intros (c & Hp & Hon & Hk & Hne).
    assert (p ∈ bound (reg w) (customerId (c_info c))) as Hb
      by (apply (proj2 (bound_spec w _ Hinv)); by exists c).
    exists (bound (reg w) (customerId (c_info c))). split; [done|]. apply list_elem_of_fmap.
    exists (customerId (c_info c), bound (reg w) (customerId (c_info c))). split; [done|]. apply elem_of_range.
    rewrite Hm, decide_True by done. unfold bound in *. apply is_empty_false in Hne. rewrite Hne in *.
    destruct (b_lookup (reg w) _); [done|]. by apply elem_of_nil in Hb.
Qed.

Lemma NoDup_customer_conns : NoDup customer_conns.
Proof.
  unfold customer_conns. pose proof (NoDup_fst_range m) as Hkeys.
  assert (forall k ps, (k, ps) ∈ range_map m -> ps = bound (reg w) k) as Hr
    by (intros k ps Hk%elem_of_range; by apply customer_entry in Hk as (_ & _ & ?)).
  revert Hkeys Hr. generalize (range_map m). intros x.
  induction x as [|[k ps] x IH]; intros Hkeys Hr; [constructor|].
  rewrite fmap_cons in Hkeys. apply NoDup_cons in Hkeys as [Hk Hkeys]. cbn in Hk.
  rewrite fmap_cons, mjoin_cons. cbn [snd]. rewrite (Hr k ps) by constructor.
  apply NoDup_app. split_and!; [apply (bound_spec w k Hinv)| |apply IH; [done|]; intros; apply Hr; by constructor].
  intros p Hp Hp'. apply (proj2 (bound_spec w k Hinv)) in Hp as (c & Hpc & _ & Hck & _).
  apply list_elem_of_join in Hp' as (ps' & Hps & Hps').
  apply list_elem_of_fmap in Hps' as ([k' ps2] & -> & Hk'). cbn in *.
  rewrite (Hr k' ps2) in Hps by (by constructor).
  apply (proj2 (bound_spec w k' Hinv)) in Hps as (c' & Hpc' & _ & Hck' & _). simplify_eq.
  apply Hk. apply list_elem_of_fmap. by eexists (_, _).
Qed.
End CustomerConns.

Lemma forceOfflineByCustomerId_run param payload w Q :
  unmarshal_ForceOfflineByCustomerId param = Some payload -> Inv w ->
  (forall w' l, Inv w' -> NoDup l ->
     (forall p, p ∈ l <-> exists c, heap w !! p = Some c /\ is_online (reg w) p c /\
                  customerId (c_info c) ∈ fc_CustomerIds payload /\ customerId (c_info c) <> EmptyString) ->
     forced_offline (BuildCloseFrame StatusPolicyViolation "forceOfflineByCustomerId") (fc_Data payload) w w' l ->
     Q tt w') ->
  wp (forceOfflineByCustomerId cf param) w Q.
Proof.
  intros Hm Hinv HQ. unfold forceOfflineByCustomerId. rewrite Hm. pose proof Hinv as (_ & Hu & Hpool).
  cbv zeta. set (f := BuildCloseFrame _ _) in *.
  apply wp_bind, wp_Binder_GetConnListByCustomerIds. intros m Hm'.
  eapply (st_with_message _ _ f (customer_conns m) w); [|by apply st_start|].
  - intros msg w1 Q1 Hst1 Hmsg HQ1.
    eapply (st_offline_loop f (fc_Data payload) _ _ (fun x : string * list ptr => x.2)); [|done..].
    intros [k ps] msg1 w2 h2 e2 Q2 Hk%elem_of_range Hst2 Hl2 Hu2 Hmsg2 HQ2. cbn [fst snd] in *.
    eapply customer_entry in Hk as (_ & _ & Hps); [|done]. subst ps.
    eapply (st_offline_list f (fc_Data payload) _ msg1 w (heap w)); [by apply bound_Forall|done..].
  - intros w' Hst'. edestruct forced_offline_intro; [done|exact Hst'|].
    apply (HQ w' (customer_conns m)); [done|by apply (NoDup_customer_conns w (fc_CustomerIds payload))| |done].
    by apply (customer_conns_iff w (fc_CustomerIds payload)).
Qed.

(** forceOfflineGuest: the connections without session and customerId. *)
Definition is_guest (h : gmap ptr Conn) (p : ptr) : bool :=
  match h !! p with Some c => negb (IsLogin (c_info c)) | None => false end.

Definition guests_of (h : gmap ptr Conn) (r : registries) (u : string) : list ptr :=
  filter (fun p => is_guest h p = true) (conns_of r u).

Lemma is_guest_links h h' p : same_infos h h' -> is_guest h' p = is_guest h p.
Proof.
  intros Hs. specialize (Hs p). unfold is_guest. destruct (h !! p), (h' !! p); try done. by destruct Hs as [-> _].
Qed.

(** The body of the command, also what the timer starts. *)
Definition forceOfflineGuest_body (payload : ForceOfflineGuest) : prog unit :=
  with_message cf (fg_Data payload) (fun msg => for_fold (fg_UniqIds payload) msg (fun msg uniqId =>
    conn <- Manager_Get uniqId ;;
    match conn with
    | None => Ret msg
    | Some conn =>
        login <- IsLoginOnSafe conn ;;
        if (login : bool) then Ret msg
        else offline cf (BuildCloseFrame StatusPolicyViolation "forceOfflineGuest") msg conn
    end)).

Lemma forceOfflineGuest_body_run payload w Q :
  Inv w ->
  (forall w', Inv w' ->
     forced_offline (BuildCloseFrame StatusPolicyViolation "forceOfflineGuest") (fg_Data payload) w w'
       (mjoin (guests_of (heap w) (reg w) <$> fg_UniqIds payload)) -> Q tt w') ->
  wp (forceOfflineGuest_body payload) w Q.
Proof.
  intros Hinv HQ. unfold forceOfflineGuest_body. pose proof Hinv as (Hc & Hu & Hpool).
  set (f := BuildCloseFrame _ _) in *.
  eapply (st_with_message _ _ f (mjoin (guests_of (heap w) (reg w) <$> fg_UniqIds payload)) w); [|by apply st_start|].
  - intros msg w1 Q1 Hst1 Hmsg HQ1.
    eapply (st_offline_loop f (fg_Data payload) _ _ (guests_of (heap w) (reg w))); [|done..].
    intros u msg1 w2 h2 e2 Q2 _ Hst2 Hl2 Hu2 Hmsg2 HQ2. eapply wp_bind, st_Manager_Get; [done|].
    pose proof (conns_of_is_Some (heap w) (reg w) u) as Hsome. unfold guests_of, conns_of in *.
    destruct (if is_empty u then None else m_lookup (reg w) u) as [p|];
      [|apply wp_ret, HQ2; [cbn; by rewrite app_nil_r|done]].
    destruct (Hsome p Hc) as [c Hp]; [by apply list_elem_of_singleton|]. specialize (Hl2 p) as Hlp.
    rewrite Hp in Hlp. destruct (h2 !! p) as [c2|] eqn:Hp2; [|done]. destruct Hlp as [Hlp _].
    eapply wp_bind, st_locked_get; [done|done|by eapply Hu2|]. rewrite filter_cons, filter_nil in HQ2.
    unfold is_guest in HQ2. rewrite Hp in HQ2. rewrite Hlp. destruct (IsLogin (c_info c)); cbn in HQ2.
    + apply wp_ret, HQ2; [|done]. by rewrite app_nil_r.
    + eapply st_offline; [done|by eexists|done|done].
  - intros w' Hst'. edestruct forced_offline_intro; [done|exact Hst'|]. by apply HQ.
Qed.

Lemma forceOfflineGuest_run param payload w (Q : unit -> world -> list (prog unit) -> Prop) :
  unmarshal_ForceOfflineGuest param = Some payload -> Inv w ->
  (fg_Delay payload <= 0 -> forall w', Inv w' ->
     forced_offline (BuildCloseFrame StatusPolicyViolation "forceOfflineGuest") (fg_Data payload) w w'
       (mjoin (guests_of (heap w) (reg w) <$> fg_UniqIds payload)) -> Q tt w' []) ->
  (0 < fg_Delay payload -> fg_UniqIds payload <> [] ->
     Q tt (with_effect (EDelayed (fg_Delay payload)) w) [recover (forceOfflineGuest_body payload)]) ->
  (0 < fg_Delay payload -> fg_UniqIds payload = [] -> Q tt w []) ->
  wps (forceOfflineGuest cf param) w Q.
Proof.
  intros Hm Hinv Hnow Hlater Hnone. unfold forceOfflineGuest. rewrite Hm.
  destruct (isNil (fg_UniqIds payload)) eqn:E.
  { destruct (fg_UniqIds payload) eqn:E0; [|done].
    destruct (Z.leb_spec (fg_Delay payload) 0); [|by apply Hnone].
    apply Hnow; [done|done|]. split_and!; [done|done|done|]. cbn. by rewrite app_nil_r. }
  cbv zeta. fold (forceOfflineGuest_body payload). destruct (Z.leb_spec (fg_Delay payload) 0).
  - apply wp_wps. eapply forceOfflineGuest_body_run; [done|]. by apply Hnow.
  - apply Hlater; [done|]. intros E0. by rewrite E0 in E.
Qed.

(** ** What the targets get, when the closed flags are 0 or 1. *)

Definition closed_flags (h : gmap ptr Conn) : Prop :=
  forall p c, h !! p = Some c -> closed (c_codec c) = 0 \/ closed (c_codec c) = 1.

Lemma mark_closed_idemp c : mark_closed (mark_closed c) = mark_closed c.
Proof.
  destruct c as [[? ? cl ? ? ? ?] ? ? ? ? ?]. unfold mark_closed, upd_codec, SetClosedFlagOnSafe. cbn.
  destruct (Z.eqb_spec cl 0) as [->|Hcl]; cbn; [done|]. by apply Z.eqb_neq in Hcl as ->.
Qed.

Lemma shut_lookup_iff h l p :
  shut h l !! p = if decide (p ∈ l) then mark_closed <$> h !! p else h !! p.
Proof.
  revert h; induction l as [|q l IH]; intros h.
  { by rewrite decide_False by apply not_elem_of_nil. }
  rewrite shut_cons, IH. destruct (decide (q = p)) as [->|Hne].
  - rewrite lookup_alter_eq, (decide_True (P := p ∈ p :: l)) by constructor.
    case_decide; [|done]. destruct (h !! p) as [c|]; [|done]. cbn. by rewrite mark_closed_idemp.
  - rewrite lookup_alter_ne by done. apply decide_ext. rewrite elem_of_cons. naive_solver.
Qed.

Lemma closed_silent f d h p c :
  h !! p = Some c -> closed (c_codec c) = 1 -> data_sent cf d h p = [] /\ close_sent f h p = [].
Proof.
  intros Hp Hc. unfold data_sent, sends, close_sent, IsClosedOnSafe. rewrite Hp, Hc. cbn. by destruct (isNil d).
Qed.

Lemma sent_lookup_ext f d h h' p :
  h !! p = h' !! p -> data_sent cf d h p = data_sent cf d h' p /\ close_sent f h p = close_sent f h' p.
Proof. intros E. unfold data_sent, sends, close_sent. by rewrite E. Qed.

Lemma shut_sent_firsts f d h h' seen l :
  closed_flags h ->
  (forall p, p ∈ seen -> forall c, h' !! p = Some c -> closed (c_codec c) = 1) ->
  (forall p, p ∉ seen -> h' !! p = h !! p) ->
  shut_sent f d h' l = mjoin ((fun p => data_sent cf d h p ++ close_sent f h p) <$> firsts seen l).
Proof.
  intros Hf. revert h' seen; induction l as [|p l IH]; intros h' seen Hs Hn; [done|]. cbn [shut_sent firsts].
  destruct (decide (p ∈ seen)) as [Hp|Hp].
  - assert (alter mark_closed p h' = h') as ->.
    { apply map_eq. intros q. destruct (decide (p = q)) as [<-|]; [|by rewrite lookup_alter_ne].
      rewrite lookup_alter_eq. destruct (h' !! p) as [c|] eqn:E; [|done]. cbn. f_equal.
      pose proof (Hs p Hp c E) as Hc. destruct c as [[? ? ? ? ? ? ?] ? ? ? ? ?]. cbn in Hc. subst. done. }
    rewrite (IH h' seen) by done. destruct (h' !! p) as [c|] eqn:E.
    + destruct (closed_silent f d h' p c E (Hs p Hp c E)) as [-> ->]. done.
    + unfold data_sent, sends, close_sent. rewrite E. by destruct (isNil d).
  - rewrite fmap_cons, mjoin_cons. destruct (sent_lookup_ext f d h' h p (Hn p Hp)) as [-> ->].
    rewrite <- app_assoc. do 2 f_equal. apply IH.
    + intros q Hq c Hc. destruct (decide (p = q)) as [<-|Hne].
      * rewrite lookup_alter_eq, Hn in Hc by done. destruct (h !! p) as [c0|] eqn:E; [|done].
        cbn in Hc. simplify_eq. destruct (Hf p c0 E) as [Hz|Hz];
          unfold mark_closed, SetClosedFlagOnSafe; rewrite Hz; cbn; done.
      * rewrite lookup_alter_ne in Hc by done. apply elem_of_cons in Hq as [->|Hq]; [done|]. by eapply Hs.
    + intros q Hq. apply not_elem_of_cons in Hq as [Hne Hq]. rewrite lookup_alter_ne by done. by apply Hn.
Qed.

Lemma shut_sent_once f d h l :
  closed_flags h ->
  shut_sent f d h l = mjoin ((fun p => data_sent cf d h p ++ close_sent f h p) <$> firsts [] l).
Proof.
  intros Hf. apply shut_sent_firsts; [done|by intros ? ?%elem_of_nil|done].
Qed.

End Offline.
