(* ===== verification/Queries.v ===== *)
(** What the questions of the business processes are answered with: the answer on the
    wire, then the questions one by one. *)

From S2P Require Export Process Casts.

Section Answers.
Context {MO : MapOrder} `{Deflate} `{Proto} (cf : config).

(** ** The answer on the wire *)

(** The effect of [send] on the connection. *)
Definition net_send (m : message) (cmd : Z) (n : netConn) : netConn :=
  match marshal m with
  | None => n
  | Some body =>
      let d := net_write_deadline n in
      if d.1 then net_close d.2
      else
        let r := net_write (packet_of cmd body) d.2 in
        if negb r.1.2 then r.2 else if (r.1.1 =? 0)%nat then r.2 else net_close r.2
  end.

Definition with_task (conn : ptr) (n : netConn) (w : world) : world := with_tasks (insert conn n) w.

Lemma with_task_id conn n w : tasks w !! conn = Some n -> with_task conn n w = w.
Proof. intros Hn. unfold with_task, with_tasks. rewrite insert_id by done. by destruct w. Qed.

Lemma with_task_twice conn n n' w : with_task conn n (with_task conn n' w) = with_task conn n w.
Proof. unfold with_task, with_tasks. cbn. by rewrite insert_insert_eq. Qed.

Lemma wp_net_act {A} conn (f : netConn -> A * netConn) n w Q :
  tasks w !! conn = Some n -> Q (f n).1 (with_task conn (f n).2 w) -> wp (net_act conn f) w Q.
Proof. intros Hn HQ. unfold wp, wps, net_act. cbn [run]. rewrite Hn. by cbn. Qed.

Lemma wp_send conn m cmd n w Q :
  tasks w !! conn = Some n -> Q tt (with_task conn (net_send m cmd n) w) -> wp (send conn m cmd) w Q.
Proof.
  intros Hn HQ. unfold send. unfold net_send in HQ. destruct (marshal m) as [body|].
  2:{ apply wp_ret. by rewrite with_task_id in HQ. }
  eapply wp_bind, wp_net_act; [done|].
  assert (forall n1, tasks (with_task conn n1 w) !! conn = Some n1) as Hl by (intros; apply lookup_insert_eq).
  destruct (net_write_deadline n) as [[] n1]; cbn [fst snd] in *.
  { eapply wp_net_act; [apply Hl|]. cbn. by rewrite with_task_twice. }
  eapply wp_bind, wp_net_act; [apply Hl|]. rewrite with_task_twice.
  destruct (net_write (packet_of cmd body) n1) as [[k []] n2]; cbn [fst snd negb] in *; [|by apply wp_ret].
  destruct (k =? 0)%nat; [by apply wp_ret|]. eapply wp_net_act; [apply Hl|]. cbn. by rewrite with_task_twice.
Qed.

(** ** Reading connections *)

Definition info_of (h : gmap ptr Conn) (p : ptr) : option info := c_info <$> h !! p.

Lemma wp_locked_get {A} p (f : info -> A) c w Q :
  heap w !! p = Some c -> locked (c_info c) = false -> Q (f (c_info c)) w -> wp (locked_get p f) w Q.
Proof. intros Hp Hl HQ. unfold wp, wps, locked_get. cbn [run]. rewrite Hp, Hl. by cbn. Qed.

Definition uniq_of (h : gmap ptr Conn) (p : ptr) : string := default EmptyString (uniqId <$> info_of h p).
Definition customer_of (h : gmap ptr Conn) (p : ptr) : string := default EmptyString (customerId <$> info_of h p).

Lemma wp_GetUniqIds l w Q :
  Forall (fun p => is_Some (heap w !! p)) l -> Q (uniq_of (heap w) <$> l) w -> wp (GetUniqIds l) w Q.
Proof.
  intros Hall HQ. unfold GetUniqIds.
  enough (forall acc, wp (for_fold l acc (fun uniqIds conn =>
    u <- conn_get conn (fun c => uniqId (c_info c)) ;; Ret (uniqIds ++ [u]))) w
    (fun r w' => r = acc ++ (uniq_of (heap w) <$> l) /\ w' = w)) as Hl.
  { eapply wp_mono; [apply Hl|]. cbn. by intros ? ? [-> ->]. }
  clear HQ. induction l as [|p l IH]; intros acc; cbn [for_fold].
  { apply wp_ret. by rewrite app_nil_r. }
  inversion Hall as [|? ? [c Hp] Hall']; subst. apply wp_bind. eapply wp_bind, wp_conn_get; [done|].
  apply wp_ret. eapply wp_mono; [by apply IH|]. cbn beta. intros r w' [-> ->]. split; [|done].
  rewrite fmap_cons. unfold uniq_of at 2, info_of. rewrite Hp. cbn. by rewrite <- app_assoc.
Qed.

(** The customerIds of some connections. *)
Definition customers (h : gmap ptr Conn) (l : list ptr) (k : string) : Prop :=
  k <> EmptyString /\ exists p, p ∈ l /\ customer_of h p = k.

Lemma wp_customerIdSet l w Q :
  Forall (fun p => is_Some (heap w !! p)) l -> unlocked (heap w) ->
  (forall s : gmap string unit, (forall k, is_Some (s !! k) <-> customers (heap w) l k) -> Q s w) ->
  wp (customerIdSet l) w Q.
Proof.
  intros Hall Hu HQ. unfold customerIdSet.
  enough (forall acc : gmap string unit, wp (for_fold l acc (fun customerIdSet conn =>
    customerId <- locked_get conn customerId ;;
    Ret (if is_empty customerId then customerIdSet else <[customerId := tt]> customerIdSet))) w
    (fun r w' => (forall k, is_Some (r !! k) <-> is_Some (acc !! k) \/ customers (heap w) l k) /\ w' = w)) as Hl.
  { eapply wp_mono; [apply Hl|]. cbn beta. intros s w' [Hs ->]. apply HQ. intros k. rewrite Hs, lookup_empty.
    split; [|by right]. by intros [[? ?]|]. }
  clear HQ. induction l as [|p l IH]; intros acc; cbn [for_fold].
  { apply wp_ret. split; [|done]. intros k. split; [by left|]. intros [?|(_ & p & ?%elem_of_nil & _)]; done. }
  inversion Hall as [|? ? [c Hp] Hall']; subst. apply wp_bind. eapply wp_bind, wp_locked_get; [done|by eapply Hu|].
  apply wp_ret. eapply wp_mono; [by apply IH|]. cbn beta. intros r w' [Hr ->]. split; [|done].
  assert (customer_of (heap w) p = customerId (c_info c)) as Ec
    by (unfold customer_of, info_of; by rewrite Hp).
  assert (forall k, customers (heap w) (p :: l) k <->
            (k <> EmptyString /\ customerId (c_info c) = k) \/ customers (heap w) l k) as Hcons.
  { intros k. unfold customers. setoid_rewrite elem_of_cons. rewrite <- Ec. split.
    - intros (Hk & q & [->|Hq] & E); [by left|right]. eauto.
    - intros [[Hk E]|(Hk & q & Hq & E)]; split; eauto. }
  intros k. rewrite Hr, Hcons. destruct (is_empty (customerId (c_info c))) eqn:E.
  - apply is_empty_true in E. rewrite E. naive_solver.
  - apply is_empty_false in E. rewrite lookup_insert_is_Some.
    destruct (decide (customerId (c_info c) = k)); naive_solver.
Qed.

Lemma wp_GetCustomerIds l w Q :
  Forall (fun p => is_Some (heap w !! p)) l -> unlocked (heap w) ->
  (forall ks, NoDup ks -> (forall k, k ∈ ks <-> customers (heap w) l k) -> Q ks w) ->
  wp (GetCustomerIds l) w Q.
Proof.
  intros Hall Hu HQ. unfold GetCustomerIds. eapply wp_bind, wp_customerIdSet; [done|done|].
  intros s Hs. apply wp_ret. destruct (Nat.eqb_spec (size s) 0) as [E|E].
  - apply map_size_empty_iff in E. subst s. apply HQ; [constructor|]. intros k. rewrite <- Hs, lookup_empty.
    split; [by intros ?%elem_of_nil|by intros []].
  - apply HQ; [apply NoDup_fst_range|]. intros k. by rewrite elem_of_range_fst.
Qed.

(** The number of customers is the length of that list. *)
Lemma wp_CountCustomerIds l w Q :
  Forall (fun p => is_Some (heap w !! p)) l -> unlocked (heap w) ->
  (forall ks, NoDup ks -> (forall k, k ∈ ks <-> customers (heap w) l k) -> Q (len ks) w) ->
  wp (CountCustomerIds l) w Q.
Proof.
  intros Hall Hu HQ. unfold CountCustomerIds. eapply wp_bind, wp_customerIdSet; [done|done|].
  intros s Hs. apply wp_ret. rewrite <- length_range. rewrite <- (length_fmap fst).
  apply HQ; [apply NoDup_fst_range|]. intros k. by rewrite elem_of_range_fst.
Qed.

(** A map built entry by entry; an entry that [keep] refuses is left out. *)
Definition map_kept {A R} (m : gmap string A) (f : A -> prog R) (keep : R -> bool) : prog (gmap string R) :=
  for_fold (range_map m) ∅ (fun ret x => r <- f x.2 ;; Ret (if keep r then <[x.1 := r]> ret else ret)).

Definition entries_of {A R} (m : gmap string A) (P : string -> A -> R -> Prop) (ret : gmap string R) : Prop :=
  forall k, match m !! k with
            | Some a => exists r, ret !! k = Some r /\ P k a r
            | None => ret !! k = None
            end.

Lemma wp_map_kept {A R} (m : gmap string A) (f : A -> prog R) keep (P : string -> A -> R -> Prop) w Q :
  (forall k a Q', m !! k = Some a -> (forall r, P k a r -> keep r = true -> Q' r w) -> wp (f a) w Q') ->
  (forall ret, entries_of m P ret -> Q ret w) ->
  wp (map_kept m f keep) w Q.
Proof.
  intros Hf HQ. unfold map_kept.
  assert (forall k a, (k, a) ∈ range_map m -> m !! k = Some a) as Hin by (intros; by apply elem_of_range).
  pose proof (NoDup_fst_range m) as Hnd.
  enough (forall l, (forall k a, (k, a) ∈ l -> m !! k = Some a) -> NoDup l.*1 -> forall acc : gmap string R,
    wp (for_fold l acc (fun ret x => r <- f x.2 ;; Ret (if keep r then <[x.1 := r]> ret else ret))) w
      (fun ret w' => w' = w /\ forall k, match (list_to_map l : gmap string A) !! k with
                | Some a => exists r, ret !! k = Some r /\ P k a r
                | None => ret !! k = acc !! k
                end)) as Hl.
  { eapply wp_mono; [by apply (Hl (range_map m))|]. cbn beta. intros ret w' [-> Hret]. apply HQ. intros k.
    specialize (Hret k). assert (list_to_map (range_map m) = m) as Em.
    { rewrite (list_to_map_proper _ (map_to_list m)); [apply list_to_map_to_list|done|apply range_map_perm]. }
    rewrite Em in Hret. destruct (m !! k); [done|]. by rewrite lookup_empty in Hret. }
  clear HQ Hin Hnd. induction l as [|[k0 a0] l IH]; intros Hin Hnd acc; cbn [for_fold].
  { apply wp_ret. split; [done|]. intros k. by rewrite list_to_map_nil, lookup_empty. }
  rewrite fmap_cons in Hnd. apply NoDup_cons in Hnd as [Hk0 Hnd]. cbn [fst snd] in *.
  apply wp_bind, wp_bind. eapply (Hf k0 a0); [apply Hin; constructor|]. intros r Hr Hkeep. apply wp_ret.
  rewrite Hkeep. eapply wp_mono; [apply IH; [|done]|].
  { intros k a Hk. apply Hin. by constructor. }
  cbn beta. intros ret w' [-> Hret]. split; [done|]. intros k. specialize (Hret k). rewrite list_to_map_cons.
  destruct (decide (k0 = k)) as [->|Hne].
  - rewrite lookup_insert_eq. rewrite not_elem_of_list_to_map_1 in Hret by done.
    exists r. split; [by rewrite Hret, lookup_insert_eq|done].
  - rewrite lookup_insert_ne by done. rewrite lookup_insert_ne in Hret by done. done.
Qed.

Lemma wp_map_all {A R} (m : gmap string A) (f : A -> prog R) (P : string -> A -> R -> Prop) w Q :
  (forall k a Q', m !! k = Some a -> (forall r, P k a r -> Q' r w) -> wp (f a) w Q') ->
  (forall ret, entries_of m P ret -> Q ret w) ->
  wp (map_all m f) w Q.
Proof.
  intros Hf HQ. apply (wp_map_kept m f (fun _ => true) P); [|done].
  intros k a Q' Hk HQ'. eapply Hf; [done|]. auto.
Qed.

(** ** The connections under a topic or a customerId *)

Lemma subscribers_lookup r k :
  wf_topic r -> k <> EmptyString ->
  conn_list <$> t_lookup r k = if isNil (subscribers r k) then None else Some (subscribers r k).
Proof.
  intros [_ Hne] Hk. unfold subscribers. apply is_empty_false in Hk as ->. specialize (Hne k).
  destruct (t_lookup r k) as [m|]; [|done].
  change (default [] (conn_list <$> Some m)) with (conn_list m).
  change (conn_list <$> Some m) with (Some (conn_list m)).
  destruct (conn_list m) eqn:E; [|done]. exfalso. apply Hne. f_equal. apply map_size_empty_iff.
  rewrite <- length_range, <- (length_fmap snd). unfold conn_list in E. by rewrite E.
Qed.

(** What an answer about topics holds: an entry for every topic that was asked
    for and has a subscriber. *)
Definition about_topics {R} (r : registries) (asked : string -> Prop) (P : list ptr -> R -> Prop)
    (items : gmap string R) : Prop :=
  forall k, match items !! k with
            | Some x => asked k /\ subscribers r k <> [] /\ P (subscribers r k) x
            | None => ~ (asked k /\ subscribers r k <> [])
            end.

Definition asked_for (topics : list string) (k : string) : Prop := k ∈ topics.
Definition asked_or_all (topics : list string) (k : string) : Prop := topics = [] \/ k ∈ topics.

Lemma subscribers_empty r : subscribers r EmptyString = [].
Proof. done. Qed.

Lemma fmap_conn_list {R} (h : gmap Z ptr -> R) (g : list ptr -> R) (o : option (gmap Z ptr)) :
  (forall m, h m = g (conn_list m)) -> h <$> o = g <$> (conn_list <$> o).
Proof. intros Hh. destruct o; cbn; [by rewrite Hh|done]. Qed.

Lemma about_topics_select {R} (h : gmap Z ptr -> R) (g : list ptr -> R) r topics :
  (forall m, h m = g (conn_list m)) -> wf_topic r -> forall m : gmap string R,
  (forall k, m !! k = if decide (k ∈ topics /\ k <> EmptyString) then h <$> t_lookup r k else None) ->
  about_topics r (asked_for topics) (fun l x => x = g l) m.
Proof.
  intros Hh Hwf m Hm k. rewrite Hm. unfold asked_for. case_decide as Hk.
  - rewrite (fmap_conn_list h g) by done. rewrite subscribers_lookup by tauto.
    destruct (subscribers r k) eqn:E; cbn; naive_solver.
  - destruct (decide (k = EmptyString)) as [->|]; [|tauto]. rewrite subscribers_empty. tauto.
Qed.

Lemma about_topics_all {R} (h : gmap Z ptr -> R) (g : list ptr -> R) r :
  (forall m, h m = g (conn_list m)) ->
  wf_topic r -> shard_lookup (t_shards r) EmptyString = None -> forall m : gmap string R,
  (forall k, m !! k = h <$> t_lookup r k) ->
  about_topics r (asked_or_all []) (fun l x => x = g l) m.
Proof.
  intros Hh Hwf He m Hm k. rewrite Hm. unfold asked_or_all. destruct (decide (k = EmptyString)) as [->|Hk].
  - unfold t_lookup. rewrite He, subscribers_empty. cbn. tauto.
  - rewrite (fmap_conn_list h g) by done. rewrite subscribers_lookup by done.
    destruct (subscribers r k) eqn:E; cbn; naive_solver.
Qed.

(** A question about no topic is one about all. *)
Lemma asked_or_all_cons {R} r t topics (P : list ptr -> R -> Prop) items :
  about_topics r (asked_for (t :: topics)) P items -> about_topics r (asked_or_all (t :: topics)) P items.
Proof.
  intros Hm k. specialize (Hm k). unfold asked_for, asked_or_all in *. destruct (items !! k); naive_solver.
Qed.

Lemma about_topics_map {R} r asked (P : list ptr -> R -> Prop) (m : gmap string (list ptr)) items :
  about_topics r asked (fun l x => x = l) m -> entries_of m (fun _ l x => P l x) items ->
  about_topics r asked P items.
Proof.
  intros Hm Hi k. specialize (Hm k). specialize (Hi k). destruct (m !! k) as [l|].
  - destruct Hm as (? & ? & ->), Hi as (x & -> & ?). done.
  - by rewrite Hi.
Qed.

Lemma no_empty_topic h r : consistent h r -> shard_lookup (t_shards r) EmptyString = None.
Proof.
  intros Hc. destruct (cs_wf_topic h r Hc) as [_ Hne]. specialize (Hne EmptyString). unfold t_lookup in Hne.
  destruct (shard_lookup (t_shards r) EmptyString) as [m|] eqn:E; [|done]. exfalso. apply Hne. f_equal.
  apply map_empty. intros i. destruct (m !! i) as [p|] eqn:Ei; [|done].
  assert (member (t_lookup r EmptyString) i = Some p) as Hm by (unfold member, t_lookup; by rewrite E).
  apply (cs_topic h r Hc) in Hm as (c & Hp & _ & _ & Hs). by rewrite (cs_topic_name h r Hc p c Hp) in Hs.
Qed.

Lemma subscribers_Forall w k : Inv w -> Forall (fun p => is_Some (heap w !! p)) (subscribers (reg w) k).
Proof.
  intros Hinv. apply Forall_forall. intros p Hp.
  apply (proj2 (subscribers_spec w k Hinv)) in Hp as (c & -> & _). eauto.
Qed.

End Answers.

(** ** Each question of the business processes, from receipt to answer: the state is
    left as it is but for the bytes on the business connection (and, for the
    limits, the limiters), and the answer says what the registries hold. *)

Section Queries.
Context {MO : MapOrder} `{Deflate} `{Proto}.
Context (w : world) (conn : ptr) (n : netConn).
Hypothesis Hinv : Inv w.
Hypothesis Hn : tasks w !! conn = Some n.

(** The state after the answer. *)
Definition answered (m : message) (cmd : Z) : world := with_task conn (net_send m cmd n) w.

Lemma wp_answer m cmd Q : Q tt (answered m cmd) -> wp (send conn m cmd) w Q.
Proof. intros HQ. by eapply wp_send. Qed.

(** ** Connections *)

Definition online_info (u : string) : option info :=
  (if is_empty u then None else m_lookup (reg w) u) ≫= info_of (heap w).

Lemma online_info_spec u r :
  online_info u = Some r <->
  exists p c, heap w !! p = Some c /\ is_online (reg w) p c /\ uniqId (c_info c) = u /\ c_info c = r.
Proof.
  destruct Hinv as (Hc & _). unfold online_info, info_of.
  destruct (cs_manager _ _ Hc) as (_ & He & _). split.
  - destruct (is_empty u); [done|]. destruct (m_lookup (reg w) u) as [p|] eqn:E; [|done]. cbn.
    destruct (cs_online _ _ Hc u p E) as (c & Hp & Hu). rewrite Hp. cbn. intros [= <-].
    exists p, c. split_and!; [done| |done|done]. unfold is_online. by rewrite Hu.
  - intros (p & c & Hp & Hon & <- & <-). unfold is_online in Hon.
    assert (is_empty (uniqId (c_info c)) = false) as ->.
    { apply is_empty_false. intros E. rewrite E in Hon. congruence. }
    rewrite Hon. cbn. by rewrite Hp.
Qed.

Lemma uniqIdList_run Q :
  (m_len (reg w) <> 0 -> forall l, NoDup l -> (forall u, u ∈ l <-> is_Some (online_info u)) ->
     Q tt (answered (MUniqIdListResp l) Cmd_UniqIdList)) ->
  (m_len (reg w) = 0 -> Q tt (answered (MUniqIdListResp []) Cmd_UniqIdList)) ->
  wp (uniqIdList conn) w Q.
Proof.
  intros HQ HQ0. destruct Hinv as (Hc & _). unfold uniqIdList. apply wp_bind, wp_Manager_GetUniqIds; [apply Hc|].
  intros l Hl. apply wp_answer. destruct (Z.eqb_spec (m_len (reg w)) 0) as [E|E].
  { apply Permutation_nil_r in Hl. subst. by apply HQ0. }
  apply HQ; [done| |].
  - rewrite Hl. apply NoDup_fst_map_to_list.
  - intros u. rewrite Hl, list_elem_of_fmap. destruct (cs_manager _ _ Hc) as (Hwf & _). split.
    + intros ([u' p] & -> & Hu%elem_of_map_to_list). rewrite flat_lookup in Hu by done. cbn.
      destruct (cs_online _ _ Hc u' p Hu) as (c & Hp & Hcu). exists (c_info c). apply online_info_spec.
      exists p, c. split_and!; [done| |done|done]. unfold is_online. by rewrite Hcu.
    + intros [r Hr]. apply online_info_spec in Hr as (p & c & Hp & Hon & <- & _).
      exists (uniqId (c_info c), p). split; [done|]. apply elem_of_map_to_list. by rewrite flat_lookup.
Qed.

Lemma uniqIdCount_run Q :
  (forall l, NoDup l -> (forall u, u ∈ l <-> is_Some (online_info u)) ->
     Q tt (answered (MUniqIdCountResp (i32 (u32 (len l)))) Cmd_UniqIdCount)) ->
  wp (uniqIdCount conn) w Q.
Proof.
  intros HQ. destruct Hinv as (Hc & _). unfold uniqIdCount, Manager_Len. apply wp_bind, wp_gets, wp_answer.
  destruct (cs_manager _ _ Hc) as (Hwf & _ & ->). rewrite total_len_flat by done.
  rewrite <- length_map_to_list, <- (length_fmap fst). apply HQ; [apply NoDup_fst_map_to_list|].
  intros u. rewrite list_elem_of_fmap. split.
  - intros ([u' p] & -> & Hu%elem_of_map_to_list). rewrite flat_lookup in Hu by done. cbn.
    destruct (cs_online _ _ Hc u' p Hu) as (c & Hp & Hcu). exists (c_info c). apply online_info_spec.
    exists p, c. split_and!; [done| |done|done]. unfold is_online. by rewrite Hcu.
  - intros [r Hr]. apply online_info_spec in Hr as (p & c & Hp & Hon & <- & _).
    exists (uniqId (c_info c), p). split; [done|]. apply elem_of_map_to_list. by rewrite flat_lookup.
Qed.

Lemma Has_online u :
  (if is_empty u then false else match m_lookup (reg w) u with Some _ => true | None => false end)
  = bool_decide (is_Some (online_info u)).
Proof.
  destruct Hinv as (Hc & _). unfold online_info, info_of. destruct (is_empty u); [done|].
  destruct (m_lookup (reg w) u) as [p|] eqn:E; [|done]. cbn.
  destruct (cs_online _ _ Hc u p E) as (c & -> & _). done.
Qed.

Lemma checkOnline_run param payload Q :
  unmarshal_CheckOnlineReq param = Some payload ->
  Q tt (answered (MCheckOnlineResp (filter (fun u => is_Some (online_info u)) (co_UniqIds payload))) Cmd_CheckOnline) ->
  wp (checkOnline param conn) w Q.
Proof.
  intros Hm HQ. unfold checkOnline. rewrite Hm. apply wp_bind.
  enough (forall l acc, wp (for_fold l acc (fun uniqIds uniqId =>
        has <- Manager_Has uniqId ;; Ret (if (has : bool) then uniqIds ++ [uniqId] else uniqIds))) w
      (fun r w' => w' = w /\ r = acc ++ filter (fun u => is_Some (online_info u)) l)) as Hl.
  { eapply wp_mono; [apply Hl|]. cbn beta. intros r w' [-> ->]. by apply wp_answer. }
  clear HQ. induction l as [|u l IH]; intros acc; cbn [for_fold].
  { apply wp_ret. by rewrite app_nil_r. }
  apply wp_bind, wp_bind, wp_Manager_Has, wp_ret. rewrite Has_online.
  eapply wp_mono; [apply IH|]. cbn beta. intros r w' [-> ->]. split; [done|]. rewrite filter_cons.
  case_bool_decide; case_decide; try done. by rewrite <- app_assoc.
Qed.

Lemma connInfo_run param payload Q :
  unmarshal_ConnInfoReq param = Some payload ->
  (forall items : gmap string ConnInfoRespItem,
     (forall u, items !! u = if decide (u ∈ ci_UniqIds payload)
                             then GetConnInfoOnSafe payload <$> online_info u else None) ->
     Q tt (answered (MConnInfoResp items) Cmd_ConnInfo)) ->
  wp (connInfo param conn) w Q.
Proof.
  intros Hm HQ. unfold connInfo. rewrite Hm. apply wp_bind. destruct Hinv as (Hc & Hu & _).
  enough (forall l (acc : gmap string ConnInfoRespItem), wp (for_fold l acc (fun items uniqId =>
        conn <- Manager_Get uniqId ;;
        match conn with
        | None => Ret items
        | Some conn => item <- locked_get conn (GetConnInfoOnSafe payload) ;; Ret (<[uniqId := item]> items)
        end)) w
      (fun r w' => w' = w /\ forall u, r !! u =
         match (if decide (u ∈ l) then GetConnInfoOnSafe payload <$> online_info u else None) with
         | Some x => Some x | None => acc !! u end)) as Hl.
  { eapply wp_mono; [apply Hl|]. cbn beta. intros r w' [-> Hr]. apply wp_answer, HQ. intros u. rewrite Hr, lookup_empty.
    case_decide; [|done]. by destruct (online_info u). }
  clear HQ. induction l as [|u l IH]; intros acc; cbn [for_fold].
  { apply wp_ret. split; [done|]. intros u. by rewrite decide_False by apply not_elem_of_nil. }
  assert (forall (r acc' : gmap string ConnInfoRespItem),
    (forall v, acc' !! v = if decide (u = v) then match GetConnInfoOnSafe payload <$> online_info u with
                                                   Some x => Some x | None => acc !! v end else acc !! v) ->
    (forall v, r !! v = match (if decide (v ∈ l) then GetConnInfoOnSafe payload <$> online_info v else None) with
         | Some x => Some x | None => acc' !! v end) ->
    forall v, r !! v = match (if decide (v ∈ u :: l) then GetConnInfoOnSafe payload <$> online_info v else None) with
         | Some x => Some x | None => acc !! v end) as Hcomb.
  { intros r acc' Hacc Hr v. rewrite Hr, Hacc. clear Hr Hacc. destruct (decide (u = v)) as [->|Hne].
    - rewrite (decide_True (P := v ∈ v :: l)) by constructor.
      destruct (GetConnInfoOnSafe payload <$> online_info v); by case_decide.
    - destruct (decide (v ∈ l)); [by rewrite decide_True by (by constructor)|].
      rewrite decide_False; [done|]. rewrite elem_of_cons. naive_solver. }
  apply wp_bind, wp_bind, wp_Manager_Get.
  destruct (if is_empty u then None else m_lookup (reg w) u) as [p|] eqn:Ep.
  - assert (exists c, heap w !! p = Some c) as [c Hp].
    { destruct (is_empty u); [done|]. destruct (cs_online _ _ Hc u p Ep) as (c & ? & _). eauto. }
    assert (online_info u = Some (c_info c)) as Eo.
    { unfold online_info. rewrite Ep. unfold info_of. cbn. by rewrite Hp. }
    eapply wp_bind, wp_locked_get; [done|by eapply Hu|]. apply wp_ret. eapply wp_mono; [apply IH|].
    cbn beta. intros r w' [-> Hr]. split; [done|]. eapply Hcomb; [|exact Hr].
    intros v. rewrite Eo. cbn. case_decide as E; [subst; apply lookup_insert_eq|by apply lookup_insert_ne].
  - assert (online_info u = None) as Eo by (unfold online_info; by rewrite Ep).
    apply wp_ret. eapply wp_mono; [apply IH|]. cbn beta. intros r w' [-> Hr]. split; [done|].
    eapply Hcomb; [|exact Hr]. intros v. rewrite Eo. cbn. by case_decide.
Qed.

(** The binder. *)
Lemma bound_lookup k :
  k <> EmptyString ->
  (fun c : gmap Z ptr => (range_map c).*2) <$> b_lookup (reg w) k =
    if isNil (bound (reg w) k) then None else Some (bound (reg w) k).
Proof.
  intros Hk. destruct Hinv as (Hc & _). destruct (cs_wf_binder _ _ Hc) as [_ Hne].
  unfold bound. apply is_empty_false in Hk as ->. specialize (Hne k).
  destruct (b_lookup (reg w) k) as [m|]; [|done]. cbn [fmap option_fmap option_map].
  destruct (range_map m).*2 eqn:E; [|done]. exfalso. apply Hne. f_equal. apply map_size_empty_iff.
  rewrite <- length_range, <- (length_fmap snd). by rewrite E.
Qed.

Definition item_of (payload : ConnInfoByCustomerIdReq) (p : ptr) (x : ConnInfoByCustomerIdRespItem) : Prop :=
  exists c, heap w !! p = Some c /\ x = GetConnInfoByCustomerIdOnSafe payload (c_info c).

Lemma wp_items payload l Q :
  Forall (fun p => is_Some (heap w !! p)) l ->
  (forall its, Forall2 (item_of payload) l its -> Q its w) ->
  wp (for_fold l [] (fun items conn =>
        item <- locked_get conn (GetConnInfoByCustomerIdOnSafe payload) ;; Ret (items ++ [item]))) w Q.
Proof.
  intros Hall HQ. destruct Hinv as (_ & Hu & _).
  enough (forall acc, wp (for_fold l acc (fun items conn =>
        item <- locked_get conn (GetConnInfoByCustomerIdOnSafe payload) ;; Ret (items ++ [item]))) w
    (fun r w' => w' = w /\ exists its, Forall2 (item_of payload) l its /\ r = acc ++ its)) as Hl.
  { eapply wp_mono; [apply Hl|]. cbn beta. intros r w' (-> & its & Hits & ->). by apply HQ. }
  clear HQ. induction l as [|p l IH]; intros acc; cbn [for_fold].
  { apply wp_ret. split; [done|]. exists []. split; [constructor|by rewrite app_nil_r]. }
  inversion Hall as [|? ? [c Hp] Hall']; subst. apply wp_bind.
  eapply wp_bind, wp_locked_get; [done|by eapply Hu|]. apply wp_ret. eapply wp_mono; [by apply IH|].
  cbn beta. intros r w' (-> & its & Hits & ->). split; [done|]. exists (GetConnInfoByCustomerIdOnSafe payload (c_info c) :: its).
  split; [|by rewrite <- app_assoc]. constructor; [by exists c|done].
Qed.

Lemma connInfoByCustomerId_run param payload Q :
  unmarshal_ConnInfoByCustomerIdReq param = Some payload ->
  (forall items : gmap string (list ConnInfoByCustomerIdRespItem),
     (forall k, match items !! k with
                | Some its => k ∈ cc_CustomerIds payload /\ bound (reg w) k <> [] /\
                              Forall2 (item_of payload) (bound (reg w) k) its
                | None => ~ (k ∈ cc_CustomerIds payload /\ bound (reg w) k <> [])
                end) ->
     Q tt (answered (MConnInfoByCustomerIdResp items) Cmd_ConnInfoByCustomerId)) ->
  wp (connInfoByCustomerId param conn) w Q.
Proof.
  intros Hm HQ. unfold connInfoByCustomerId. rewrite Hm.
  apply wp_bind, wp_Binder_GetConnListByCustomerIds. intros m Hm'.
  assert (forall k, m !! k = if decide (k ∈ cc_CustomerIds payload /\ bound (reg w) k <> [])
                             then Some (bound (reg w) k) else None) as Hmk.
  { intros k. rewrite Hm'. destruct (decide (k = EmptyString)) as [->|Hk].
    - rewrite decide_False by tauto. rewrite decide_False; [done|]. by intros [_ ?].
    - case_decide as Hd.
      + rewrite bound_lookup by done. destruct (bound (reg w) k) eqn:E; cbn [isNil].
        * by rewrite decide_False by tauto.
        * by rewrite decide_True by (by split; [apply Hd|done]).
      + rewrite decide_False; [done|]. tauto. }
  apply wp_bind.
  apply (wp_map_kept m (fun l => for_fold l [] (fun items conn =>
            item <- locked_get conn (GetConnInfoByCustomerIdOnSafe payload) ;; Ret (items ++ [item])))
          (fun items => negb (isNil items)) (fun k l its => Forall2 (item_of payload) l its)).
  - intros k l Q' Hk HQ'. rewrite Hmk in Hk. case_decide as Hd; [|done]. injection Hk as <-.
    apply wp_items; [by apply bound_Forall|]. intros its Hits. apply HQ'; [done|].
    destruct Hd as [_ Hd]. by destruct Hits.
  - intros ret Hret. apply wp_answer, HQ. intros k. specialize (Hret k). rewrite Hmk in Hret.
    case_decide as Hd; [|by rewrite Hret]. destruct Hret as (its & -> & Hits). tauto.
Qed.

Lemma customerIdList_run Q :
  (forall l, NoDup l ->
     (forall k, k ∈ l <-> k <> EmptyString /\ exists p c, heap w !! p = Some c /\ is_online (reg w) p c /\ customerId (c_info c) = k) ->
     wp (customerIdCount conn) w (fun _ w' => w' = answered (MCustomerIdCountResp (i32 (len l))) Cmd_CustomerIdCount) ->
     Q tt (answered (MCustomerIdListResp l) Cmd_CustomerIdList)) ->
  wp (customerIdList conn) w Q.
Proof.
  intros HQ. destruct Hinv as (Hc & _). pose proof (cs_wf_binder _ _ Hc) as Hwb. pose proof Hwb as [Hwf _].
  unfold customerIdList. apply wp_bind, wp_Binder_GetCustomerIds; [done|]. intros l Hl.
  apply wp_answer, HQ.
  - rewrite Hl. apply NoDup_fst_map_to_list.
  - intros k. rewrite Hl, list_elem_of_fmap.
    assert ((exists y : string * gmap Z ptr, k = y.1 /\ y ∈ map_to_list (flat (b_shards (reg w)))) <-> is_Some (b_lookup (reg w) k)) as ->.
    { split.
      - intros ([k' m] & -> & Hk%elem_of_map_to_list). rewrite flat_lookup in Hk by done. eauto.
      - intros [m Hk]. exists (k, m). split; [done|]. apply elem_of_map_to_list. by rewrite flat_lookup. }
    split.
    + intros [m Hk]. destruct Hwb as [_ Hne]. specialize (Hne k). rewrite Hk in Hne.
      destruct (map_choose m) as (i & p & Hi); [congruence|].
      assert (member (b_lookup (reg w) k) i = Some p) as Hmem by (unfold member; by rewrite Hk).
      apply (cs_binder _ _ Hc) in Hmem as (c & Hp & _ & Hon & Hck & Hke). eauto 10.
    + intros (Hke & p & c & Hp & Hon & Hck).
      assert (member (b_lookup (reg w) k) (id (c_info c)) = Some p) as Hmem by (apply (cs_binder _ _ Hc); eauto 10).
      unfold member in Hmem. destruct (b_lookup (reg w) k); [eauto|done].
  - unfold customerIdCount. apply wp_bind, wp_Binder_Len; [done|]. apply wp_answer.
    do 3 f_equal. rewrite total_len_flat by done. unfold len.
    by rewrite Hl, length_fmap, length_map_to_list.
Qed.

(** ** Topics *)

Lemma topicUniqIdList_run param payload Q :
  unmarshal_TopicsReq Cmd_TopicUniqIdList param = Some payload ->
  (forall items, about_topics (reg w) (asked_for (tq_Topics payload)) (fun l us => us = uniq_of (heap w) <$> l) items ->
     Q tt (answered (MTopicUniqIdListResp items) Cmd_TopicUniqIdList)) ->
  wp (topicUniqIdList param conn) w Q.
Proof.
  intros Hm HQ. destruct Hinv as (Hc & _). unfold topicUniqIdList. rewrite Hm.
  apply wp_bind, wp_some_topics. intros m Hm'.
  apply (about_topics_select conn_list (fun l => l)) in Hm'; [|done|apply Hc].
  apply wp_bind, (wp_map_all _ _ (fun _ l us => us = uniq_of (heap w) <$> l)).
  - intros k l Q' Hk HQ'. specialize (Hm' k). rewrite Hk in Hm'. destruct Hm' as (_ & _ & ->).
    apply wp_GetUniqIds; [by apply subscribers_Forall|]. by apply HQ'.
  - intros ret Hret. apply wp_answer, HQ. by eapply about_topics_map.
Qed.

(** The lists of topics of the counting commands. *)
Lemma wp_asked {R} (h : gmap Z ptr -> R) (g : list ptr -> R) topics Q :
  (forall m, h m = g (conn_list m)) ->
  (forall m, about_topics (reg w) (asked_or_all topics) (fun l x => x = g l) m -> Q m w) ->
  wp (if isNil topics then all_topics h else some_topics h topics) w Q.
Proof.
  intros Hh HQ. destruct Hinv as (Hc & _). destruct topics as [|t topics]; cbn [isNil].
  - apply wp_all_topics; [apply Hc|]. intros m Hm. apply HQ.
    apply (about_topics_all h); [done|apply Hc|by eapply no_empty_topic|done].
  - apply wp_some_topics. intros m Hm. apply HQ, asked_or_all_cons.
    by apply (about_topics_select h g); [|apply Hc|].
Qed.

Lemma topicUniqIdCount_run param payload Q :
  unmarshal_TopicsReq Cmd_TopicUniqIdCount param = Some payload ->
  (forall items, about_topics (reg w) (asked_or_all (tq_Topics payload)) (fun l x => x = i32 (len l)) items ->
     Q tt (answered (MTopicUniqIdCountResp items) Cmd_TopicUniqIdCount)) ->
  wp (topicUniqIdCount param conn) w Q.
Proof.
  intros Hm HQ. unfold topicUniqIdCount. rewrite Hm.
  eapply wp_bind, (wp_asked conn_count (fun l => i32 (len l)) (tq_Topics payload)).
  - intros m. unfold conn_count, conn_list, len. by rewrite length_fmap, length_range.
  - intros m Ha. by apply wp_answer, HQ.
Qed.

(** The distinct customerIds of a list of connections. *)
Definition customer_list (l : list ptr) (ks : list string) : Prop :=
  NoDup ks /\ forall k, k ∈ ks <-> customers (heap w) l k.

Lemma topicCustomerIdList_run param payload Q :
  unmarshal_TopicsReq Cmd_TopicCustomerIdList param = Some payload ->
  (forall items, about_topics (reg w) (asked_for (tq_Topics payload)) customer_list items ->
     Q tt (answered (MTopicCustomerIdListResp items) Cmd_TopicCustomerIdList)) ->
  wp (topicCustomerIdList param conn) w Q.
Proof.
  intros Hm HQ. destruct Hinv as (Hc & Hu & _). unfold topicCustomerIdList. rewrite Hm.
  apply wp_bind, wp_some_topics. intros m Hm'.
  apply (about_topics_select conn_list (fun l => l)) in Hm'; [|done|apply Hc].
  apply wp_bind, (wp_map_all _ _ (fun _ => customer_list)).
  - intros k l Q' Hk HQ'. specialize (Hm' k). rewrite Hk in Hm'. destruct Hm' as (_ & _ & ->).
    apply wp_GetCustomerIds; [by apply subscribers_Forall|done|]. intros ks Hnd Hks. by apply HQ'.
  - intros ret Hret. apply wp_answer, HQ. by eapply about_topics_map.
Qed.

Lemma topicCustomerIdCount_run param payload Q :
  unmarshal_TopicsReq Cmd_TopicCustomerIdCount param = Some payload ->
  (forall items, about_topics (reg w) (asked_or_all (tq_Topics payload))
                   (fun l x => exists ks, customer_list l ks /\ x = i32 (len ks)) items ->
     Q tt (answered (MTopicCustomerIdCountResp items) Cmd_TopicCustomerIdCount)) ->
  wp (topicCustomerIdCount param conn) w Q.
Proof.
  intros Hm HQ. destruct Hinv as (Hc & Hu & _). unfold topicCustomerIdCount. rewrite Hm.
  unfold Topic_GetConnList, Topic_GetConnListByTopics. apply wp_bind.
  apply (wp_asked conn_list (fun l => l) (tq_Topics payload)); [done|]. intros m Hm'.
  apply wp_bind, (wp_map_all _ _ (fun _ l x => exists ks, customer_list l ks /\ x = i32 (len ks))).
  - intros k l Q' Hk HQ'. specialize (Hm' k). rewrite Hk in Hm'. destruct Hm' as (_ & _ & ->).
    apply wp_bind, wp_CountCustomerIds; [by apply subscribers_Forall|done|].
    intros ks Hnd Hks. apply wp_ret, HQ'. by exists ks.
  - intros ret Hret. apply wp_answer, HQ. by eapply about_topics_map.
Qed.

(** The connections of each customer that has one in a list. *)
Definition customer_conn_ids (l : list ptr) (items : gmap string (list string)) : Prop :=
  forall k, match items !! k with
            | Some us => customers (heap w) l k /\ us = uniq_of (heap w) <$> bound (reg w) k
            | None => ~ customers (heap w) l k
            end.

Lemma customer_bound l k :
  (forall p, p ∈ l -> exists c, heap w !! p = Some c /\ is_online (reg w) p c) ->
  customers (heap w) l k -> bound (reg w) k <> [].
Proof.
  intros Hl (Hne & p & Hp & Hk). destruct (Hl p Hp) as (c & Hpc & Hon).
  unfold customer_of, info_of in Hk. rewrite Hpc in Hk. cbn in Hk.
  assert (p ∈ bound (reg w) k) as Hin by (apply (proj2 (bound_spec w k Hinv)); by exists c).
  intros E. rewrite E in Hin. by apply elem_of_nil in Hin.
Qed.

Lemma topicCustomerIdToUniqIdsList_run param payload Q :
  unmarshal_TopicsReq Cmd_TopicCustomerIdToUniqIdsList param = Some payload ->
  (forall items, about_topics (reg w) (asked_for (tq_Topics payload)) customer_conn_ids items ->
     Q tt (answered (MTopicCustomerIdToUniqIdsListResp items) Cmd_TopicCustomerIdToUniqIdsList)) ->
  wp (topicCustomerIdToUniqIdsList param conn) w Q.
Proof.
  intros Hm HQ. destruct Hinv as (Hc & Hu & _). unfold topicCustomerIdToUniqIdsList. rewrite Hm.
  apply wp_bind, wp_some_topics. intros m Hm'.
  apply (about_topics_select conn_list (fun l => l)) in Hm'; [|done|apply Hc].
  apply wp_bind, (wp_map_all _ _ (fun _ => customer_conn_ids)).
  2:{ intros ret Hret. apply wp_answer, HQ. by eapply about_topics_map. }
  intros k l Q' Hk HQ'. specialize (Hm' k). rewrite Hk in Hm'. destruct Hm' as (_ & _ & ->).
  apply wp_bind, wp_GetCustomerIds; [by apply subscribers_Forall|done|]. intros ks _ Hks.
  apply wp_bind, wp_Binder_GetConnListByCustomerIds. intros m2 Hm2.
  assert (forall c, m2 !! c = if decide (c ∈ ks) then Some (bound (reg w) c) else None) as Hm3.
  { intros c. rewrite Hm2. destruct (decide (c ∈ ks)) as [Hin|Hin].
    - pose proof (proj1 (Hks c) Hin) as Hcu. assert (c <> EmptyString) as Hne by apply Hcu.
      rewrite decide_True by done. rewrite bound_lookup by done.
      apply customer_bound in Hcu; [by destruct (bound (reg w) c)|].
      intros p Hp. apply (proj2 (subscribers_spec w k Hinv)) in Hp as (d & ? & ? & _). eauto.
    - by rewrite decide_False by tauto. }
  apply (wp_map_all _ _ (fun c l us => us = uniq_of (heap w) <$> l)).
  - intros c l Q2 Hc2 HQ2. rewrite Hm3 in Hc2. case_decide; [|done]. injection Hc2 as <-.
    apply wp_GetUniqIds; [by apply bound_Forall|]. by apply HQ2.
  - intros ret Hret. apply HQ'. intros c. specialize (Hret c). rewrite Hm3 in Hret.
    destruct (decide (c ∈ ks)) as [Hin|Hin].
    + destruct Hret as (us & -> & ->). split; [by apply Hks|done].
    + rewrite Hret. by rewrite <- Hks.
Qed.

Lemma topicList_run Q :
  (forall l, NoDup l ->
     (forall k, k ∈ l <-> subscribers (reg w) k <> []) ->
     wp (topicCount conn) w (fun _ w' => w' = answered (MTopicCountResp (i32 (len l))) Cmd_TopicCount) ->
     Q tt (answered (MTopicListResp l) Cmd_TopicList)) ->
  wp (topicList conn) w Q.
Proof.
  intros HQ. destruct Hinv as (Hc & _). pose proof (cs_wf_topic _ _ Hc) as Hwb. pose proof Hwb as [Hwf _].
  unfold topicList. apply wp_bind, wp_Topic_Get; [done|]. intros l Hl.
  apply wp_answer, HQ.
  - rewrite Hl. apply NoDup_fst_map_to_list.
  - intros k. rewrite Hl, list_elem_of_fmap.
    assert ((exists y : string * gmap Z ptr, k = y.1 /\ y ∈ map_to_list (flat (t_shards (reg w)))) <-> is_Some (t_lookup (reg w) k)) as ->.
    { split.
      - intros ([k' m] & -> & Hk%elem_of_map_to_list). rewrite flat_lookup in Hk by done. eauto.
      - intros [m Hk]. exists (k, m). split; [done|]. apply elem_of_map_to_list. by rewrite flat_lookup. }
    destruct (decide (k = EmptyString)) as [->|Hne].
    + rewrite subscribers_empty. unfold t_lookup. erewrite no_empty_topic by done. split; [by intros []|done].
    + pose proof (subscribers_lookup (reg w) k Hwb Hne) as Hs. destruct (t_lookup (reg w) k); cbn in Hs.
      * destruct (subscribers (reg w) k); [done|]. split; [done|eauto].
      * destruct (subscribers (reg w) k); [|done]. split; [by intros []|done].
  - unfold topicCount. apply wp_bind, wp_Topic_Len; [done|]. apply wp_answer.
    do 3 f_equal. rewrite total_len_flat by done. unfold len.
    by rewrite Hl, length_fmap, length_map_to_list.
Qed.

(** ** Statistics and limits *)

Lemma metrics_run Q :
  (forall items : gmap Z MetricsRespItem,
     (forall i, items !! i = if decide (1 <= i < itemLen) then mkMetricsRespItem i <$> meters w !! i else None) ->
     Q tt (answered (MMetricsResp items) Cmd_Metrics)) ->
  wp (metrics conn) w Q.
Proof.
  intros HQ. unfold metrics. apply wp_bind.
  enough (forall l (acc : gmap Z MetricsRespItem), Forall (fun i => 1 <= i < itemLen) l ->
    wp (for_fold l acc (fun items item =>
      count <- gets (fun w => meters w !! item) ;;
      Ret (match count with Some n => <[i32 item := mkMetricsRespItem (i32 item) n]> items | None => items end))) w
    (fun r w' => w' = w /\ forall i, r !! i =
       match (if decide (i ∈ l) then mkMetricsRespItem i <$> meters w !! i else None) with
       | Some x => Some x | None => acc !! i end)) as Hl.
  { eapply wp_mono; [apply Hl|].
    - apply Forall_forall. intros i Hi. apply elem_of_seqZ in Hi. unfold itemLen in *. lia.
    - cbn beta. intros r w' [-> Hr]. apply wp_answer, HQ. intros i. rewrite Hr, lookup_empty.
      assert (i ∈ seqZ 1 (itemLen - 1) <-> 1 <= i < itemLen) as Hi by (rewrite elem_of_seqZ; unfold itemLen; lia).
      repeat case_decide; try tauto. by destruct (meters w !! i). }
  clear HQ. induction l as [|i l IH]; intros acc Hall; cbn [for_fold].
  { apply wp_ret. split; [done|]. intros i. by rewrite decide_False by apply not_elem_of_nil. }
  inversion Hall as [|? ? Hi Hall']; subst. unfold itemLen in Hi.
  apply wp_bind. apply wp_bind, wp_gets, wp_ret. rewrite i32_small by lia. eapply wp_mono; [by apply IH|].
  cbn beta. intros r w' [-> Hr]. split; [done|]. intros j. rewrite Hr. clear Hr IH.
  destruct (decide (i = j)) as [->|Hne].
  - rewrite (decide_True (P := j ∈ j :: l)) by constructor. destruct (meters w !! j); case_decide; cbn; rewrite ?lookup_insert_eq; done.
  - assert (match meters w !! i with Some n => <[i:=mkMetricsRespItem i n]> acc | None => acc end !! j = acc !! j) as ->
      by (destruct (meters w !! i); [by rewrite lookup_insert_ne|done]).
    assert (j ∈ i :: l <-> j ∈ l) as Hj by (rewrite elem_of_cons; naive_solver).
    repeat case_decide; tauto.
Qed.

(** The limiters after a request: a positive rate replaces that of a limiter
    that is there. *)
Definition relimit (event v : Z) (l : gmap Z Z) : gmap Z Z :=
  if 0 <? v then alter (fun _ => v) event l else l.

Lemma limit_same event v (l : gmap Z Z) : Limit_of event l = v -> alter (fun _ => v) event l = l.
Proof.
  unfold Limit_of. intros E. apply map_eq. intros i. destruct (decide (event = i)) as [<-|].
  - rewrite lookup_alter_eq. destruct (l !! event); cbn in *; congruence.
  - by rewrite lookup_alter_ne.
Qed.

Lemma wp_relimit event v w0 Q :
  Q tt (with_limiters (relimit event v) w0) ->
  wp (if 0 <? v then
        (cur <- gets (fun w => Limit_of event (limiters w)) ;;
         if negb (v =? cur) then modify (with_limiters (Limit_SetLimit event v)) else Ret tt)
      else Ret tt) w0 Q.
Proof.
  unfold relimit. destruct (0 <? v); intros HQ.
  - apply wp_bind, wp_gets. destruct (Z.eqb_spec v (Limit_of event (limiters w0))) as [E|E]; cbn [negb].
    + apply wp_ret. unfold with_limiters in HQ. rewrite limit_same in HQ by done. by destruct w0.
    + by apply wp_modify.
  - apply wp_ret. by destruct w0.
Qed.

Definition limited (payload : LimitReq) : gmap Z Z :=
  relimit Event_OnMessage (lq_OnMessage payload) (relimit Event_OnOpen (lq_OnOpen payload) (limiters w)).

Lemma limit_run param payload Q :
  unmarshal_LimitReq param = Some payload ->
  Q tt (with_task conn (net_send (MLimitResp (i32 (Limit_of Event_OnOpen (limited payload)))
                                            (i32 (Limit_of Event_OnMessage (limited payload)))) Cmd_Limit n)
          (with_limiters (fun _ => limited payload) w)) ->
  wp (limit param conn) w Q.
Proof.
  intros Hm HQ. unfold limit. rewrite Hm. apply wp_bind. unfold Limit_Update.
  apply wp_bind, wp_relimit, wp_relimit. apply wp_bind. unfold Limit_Get.
  apply wp_bind, wp_gets, wp_bind, wp_gets, wp_ret. by eapply wp_send.
Qed.

End Queries.
