(* ===== verification/Loop.v ===== *)
(** Serving a business connection: whatever bytes it sends, the loop of
    [Process] ends, none of its commands panics or waits for ever, and the
    invariant is kept, by the goroutines it starts too. *)

From S2P Require Export Queries Casts.

(** ** What a program leaves alone *)

(** The parts of the state the commands that change the gateway do not touch. *)
Definition outside (w : world) :=
  (limiters w, env w, tasks w, workers w, collects w).

Definition framed {A} (m : prog A) : Prop :=
  forall w, match run m w with Done _ w' _ => outside w' = outside w | _ => True end.

Section Framed.

Lemma framed_ret {A} (a : A) : framed (Ret a).
Proof. by intros w. Qed.

Lemma framed_bind {A B} (m : prog A) (g : A -> prog B) : framed m -> (forall a, framed (g a)) -> framed (bind m g).
Proof.
  intros Hm Hg w. rewrite run_bind. specialize (Hm w). destruct (run m w) as [a w1 ts|a w1 ts| | |]; [|by destruct (run (g a) w1)|done..].
  specialize (Hg a w1). destruct (run (g a) w1); cbn; [congruence|done..].
Qed.

Lemma framed_act {A} (f : world -> ares world A) :
  (forall w b w', f w = AOk b w' -> outside w' = outside w) -> framed (Act f Ret).
Proof. intros Hf w. cbn. destruct (f w) eqn:E; cbn; [by eapply Hf|done|done]. Qed.

Lemma framed_modify f : (forall w, outside (f w) = outside w) -> framed (modify f).
Proof. intros Hf w. apply Hf. Qed.

Lemma framed_do {A} (f : world -> A * world) : (forall w, outside (f w).2 = outside w) -> framed (act f).
Proof. intros Hf w. specialize (Hf w). unfold act. cbn. by destruct (f w). Qed.

Lemma framed_gets {A} (f : world -> A) : framed (gets f).
Proof. by intros w. Qed.

Lemma framed_conn_act {A} p (f : Conn -> A * Conn) : framed (conn_act p f).
Proof. apply framed_act. intros w b w'. destruct (heap w !! p); [by intros [= <- <-]|done]. Qed.

Lemma framed_conn_get {A} p (f : Conn -> A) : framed (conn_get p f).
Proof. apply framed_act. intros w b w'. destruct (heap w !! p); [by intros [= <- <-]|done]. Qed.

Lemma framed_Lock p : framed (Lock p).
Proof.
  apply framed_act. intros w b w'. destruct (heap w !! p) as [c|]; [|done].
  destruct (locked (c_info c)); [done|by intros [= <- <-]].
Qed.

Lemma framed_UnLock p : framed (UnLock p).
Proof.
  apply framed_act. intros w b w'. destruct (heap w !! p) as [c|]; [|done].
  destruct (locked (c_info c)); [by intros [= <- <-]|done].
Qed.

Lemma framed_locked_act {A} p (f : info -> A * info) : framed (locked_act p f).
Proof.
  apply framed_act. intros w b w'. destruct (heap w !! p) as [c|]; [|done].
  destruct (locked (c_info c)); [done|by intros [= <- <-]].
Qed.

Lemma framed_locked_get {A} p (f : info -> A) : framed (locked_get p f).
Proof.
  apply framed_act. intros w b w'. destruct (heap w !! p) as [c|]; [|done].
  destruct (locked (c_info c)); [done|by intros [= <- <-]].
Qed.

Lemma framed_AsyncWrite p b : framed (AsyncWriteOnSafe p b).
Proof.
  apply framed_act. intros w b' w'. destruct (heap w !! p) as [c|]; [|done].
  destruct (async_fails c); by intros [= <- <-].
Qed.

Lemma framed_for_each {X} (l : list X) (body : X -> prog unit) :
  (forall x, framed (body x)) -> framed (for_each l body).
Proof.
  intros Hb. induction l as [|x l IH]; [apply framed_ret|]. cbn. apply framed_bind; [done|]. by intros _.
Qed.

Lemma framed_for_fold {X A} (l : list X) (a : A) (body : A -> X -> prog A) :
  (forall a x, framed (body a x)) -> framed (for_fold l a body).
Proof.
  intros Hb. revert a. induction l as [|x l IH]; intros a; [apply framed_ret|]. cbn. apply framed_bind; [done|]. done.
Qed.

Lemma framed_for_while {X} (l : list X) (body : X -> prog bool) :
  (forall x, framed (body x)) -> framed (for_while l body).
Proof.
  intros Hb. induction l as [|x l IH]; [apply framed_ret|]. cbn. apply framed_bind; [done|].
  intros []; [done|apply framed_ret].
Qed.

Lemma framed_spawn (t : prog unit) : framed (spawn t).
Proof. by intros w. Qed.
End Framed.

Create HintDb framed.
#[export] Hint Resolve framed_ret framed_gets framed_conn_act framed_conn_get framed_Lock framed_UnLock
  framed_locked_act framed_locked_get framed_AsyncWrite framed_spawn : framed.

(** Walks through a program. *)
Ltac framed :=
  repeat first
    [ progress auto with framed
    | apply framed_bind; [|intros ?]
    | apply framed_for_each; intros ?
    | apply framed_for_fold; intros ? ?
    | apply framed_for_while; intros ?
    | apply framed_modify; intros ?; done
    | match goal with
      | |- framed (match ?x with _ => _ end) => destruct x
      | |- framed (let '_ := ?x in _) => destruct x
      end ].

Section Serve.
Context {MO : MapOrder} `{Deflate} `{Proto} (cf : config).

Lemma framed_Mark i v : framed (Mark i v).
Proof. by apply framed_modify. Qed.
Lemma framed_emit e : framed (emit e).
Proof. by apply framed_modify. Qed.
Lemma framed_FrameObjPool_Get op d : framed (FrameObjPool_Get op d).
Proof. apply framed_do. intros w. by destruct (frame_pool w). Qed.
Lemma framed_FrameObjPool_Put fr : framed (FrameObjPool_Put fr).
Proof. by apply framed_modify. Qed.
Hint Resolve framed_Mark framed_emit framed_FrameObjPool_Get framed_FrameObjPool_Put : framed.

Lemma framed_WriteTo fr p : framed (WriteTo cf fr p).
Proof. unfold WriteTo, send_encoded, encode_failed. framed. Qed.
Hint Resolve framed_WriteTo : framed.
Lemma framed_WriteTo_each fr l : framed (WriteTo_each cf fr l).
Proof. unfold WriteTo_each. framed. Qed.
Lemma framed_WriteMessage p op d : framed (WriteMessage cf p op d).
Proof. unfold WriteMessage. framed. Qed.
Lemma framed_WriteCloseFrame p f : framed (WriteCloseFrame p f).
Proof. unfold WriteCloseFrame, CloseOnSafe. framed. Qed.
Lemma framed_Manager_Get u : framed (Manager_Get u).
Proof. unfold Manager_Get. framed. Qed.
Lemma framed_Manager_GetConnections : framed Manager_GetConnections.
Proof. unfold Manager_GetConnections, Manager_Len. framed. Qed.
Lemma framed_Binder_SetRelation k p : framed (Binder_SetRelation k p).
Proof. unfold Binder_SetRelation. framed. Qed.
Lemma framed_Binder_DelRelation k p : framed (Binder_DelRelation k p).
Proof. unfold Binder_DelRelation. framed. Qed.
Lemma framed_Binder_GetConnListByCustomerId k : framed (Binder_GetConnListByCustomerId k).
Proof. unfold Binder_GetConnListByCustomerId. framed. Qed.
Lemma framed_Binder_GetConnListByCustomerIds l : framed (Binder_GetConnListByCustomerIds l).
Proof. unfold Binder_GetConnListByCustomerIds. framed. Qed.
Lemma framed_update_groups f l : framed (update_groups f l).
Proof. unfold update_groups. framed. Qed.
Hint Resolve framed_update_groups : framed.
Lemma framed_Topic_SetRelation l p : framed (Topic_SetRelation l p).
Proof. unfold Topic_SetRelation. framed. Qed.
Lemma framed_Topic_DelRelationBySlice l p : framed (Topic_DelRelationBySlice l p).
Proof. unfold Topic_DelRelationBySlice. framed. Qed.
Lemma framed_Topic_DelRelationByMap m p : framed (Topic_DelRelationByMap m p).
Proof. unfold Topic_DelRelationByMap. framed. Qed.
Lemma framed_Topic_Del l : framed (Topic_Del l).
Proof. unfold Topic_Del. framed. Qed.
Lemma framed_Topic_GetConnListByTopic t : framed (Topic_GetConnListByTopic t).
Proof. unfold Topic_GetConnListByTopic. framed. Qed.
Hint Resolve framed_WriteTo_each framed_WriteMessage framed_WriteCloseFrame framed_Manager_Get
  framed_Manager_GetConnections framed_Binder_SetRelation framed_Binder_DelRelation
  framed_Binder_GetConnListByCustomerId framed_Binder_GetConnListByCustomerIds framed_Topic_SetRelation
  framed_Topic_DelRelationBySlice framed_Topic_DelRelationByMap framed_Topic_Del
  framed_Topic_GetConnListByTopic : framed.

Lemma framed_offline f msg p : framed (offline cf f msg p).
Proof. unfold offline. framed. Qed.
Hint Resolve framed_offline : framed.
Lemma framed_with_message d k : (forall msg, framed (k msg)) -> framed (with_message cf d k).
Proof. intros Hk. unfold with_message. framed. Qed.
Lemma framed_with_open_conn p k : framed k -> framed (with_open_conn p k).
Proof. intros Hk. unfold with_open_conn. framed. Qed.

(** The commands. *)
Ltac post := repeat (framed; first [apply framed_with_message; intros ? | apply framed_with_open_conn]); framed.

Lemma framed_post cmd cb param :
  lookup_cmd cmd (postNonBlockingCallback cf ++ postBlockingCallback cf) = Some cb -> framed (cb param).
Proof.
  apply (lookup_cmd_Forall (fun cb => framed (cb param))).
  repeat (apply Forall_cons; split); [..|constructor]; cbn [snd].
  - unfold topicPublishBulk. post.
  - unfold singleCastBulk. post.
  - unfold singleCastBulkByCustomerId. post.
  - unfold broadcastBulk. post.
  - unfold connInfoUpdate, write_data, info_set, info_act. post.
  - unfold connInfoDelete, write_data, info_set, info_act. post.
  - unfold forceOffline. post.
  - unfold forceOfflineByCustomerId. post.
  - unfold forceOfflineGuest, IsLoginOnSafe. post.
  - unfold topicSubscribe, write_data, info_set, info_act. post.
  - unfold topicUnsubscribe, write_data, info_set, info_act. post.
  - unfold topicDelete, UnsubscribeTopicOnSafe. post.
Qed.

End Serve.

(** ** The loop of [Process]: total and safe on every input, and the meaning of one
    packet. *)

Section Loop.
Context {MO : MapOrder} `{Deflate} `{Proto} (cf : config).

(** A goroutine that, run from any state between two commands, ends in one. *)
Definition good (t : prog unit) : Prop := forall w, Inv w -> wp t w (fun _ w' => Inv w').

Lemma wps_framed {A} (m : prog A) w Q :
  framed m -> wps m w Q -> wps m w (fun a w' ts => Q a w' ts /\ outside w' = outside w).
Proof. intros Hf. specialize (Hf w). unfold wps. destruct (run m w); done. Qed.

Lemma run_recover (m : prog unit) w a w' ts : run m w = Done a w' ts -> run (recover m) w = Done a w' ts.
Proof.
  revert m w ts; fix IH 1; intros [b| | |B f k|t k|k] w ts; cbn; [done|done|done|..].
  - destruct (f w) as [b w1| |]; [|done|done]. apply IH.
  - pose proof (IH k) as Hk. clear IH. destruct (run k w) as [a1 w1 ts1| | | |] eqn:E; [|done..]. intros [= <- <- <-]. by rewrite (Hk w ts1 E).
  - clear IH. by destruct (run k w).
Qed.

Lemma wps_recover (m : prog unit) w Q : wps m w Q -> wps (recover m) w Q.
Proof.
  unfold wps. destruct (run m w) as [a w' ts| | | |] eqn:E; [|done..]. by rewrite (run_recover m w a w' ts E).
Qed.

Lemma wp_recover (m : prog unit) w Q : wp m w Q -> wp (recover m) w Q.
Proof. apply wps_recover. Qed.

Lemma good_recover t : good t -> good (recover t).
Proof. intros Ht w Hw. by apply wp_recover, Ht. Qed.

(** ** The commands that change the gateway *)

Definition post_ok (cb : bytes -> prog unit) : Prop :=
  forall param w, Inv w -> wps (cb param) w (fun _ w' ts => Inv w' /\ Forall good ts).

Lemma post_ok_wp cb : (forall param w, Inv w -> wp (cb param) w (fun _ w' => Inv w')) -> post_ok cb.
Proof. intros Hcb param w Hw. apply wp_wps. eapply wp_mono; [by apply Hcb|]. done. Qed.

Lemma good_forceOfflineGuest_body payload : good (forceOfflineGuest_body cf payload).
Proof. intros w Hw. by eapply forceOfflineGuest_body_run. Qed.

Lemma nonblocking_safe :
  Forall (fun x => forall param w, Inv w -> wp (x.2 param) w (fun _ w' => Inv w')) (postNonBlockingCallback cf).
Proof.
  repeat (apply Forall_cons; split); [..|constructor]; cbn [snd]; intros param w Hw.
  - destruct (unmarshal_TopicPublishBulk param) eqn:E; [by eapply topicPublishBulk_run|].
    unfold topicPublishBulk. rewrite E. by apply wp_ret.
  - destruct (unmarshal_SingleCastBulk param) eqn:E; [by eapply singleCastBulk_run|].
    unfold singleCastBulk. rewrite E. by apply wp_ret.
  - destruct (unmarshal_SingleCastBulkByCustomerId param) eqn:E; [by eapply singleCastBulkByCustomerId_run|].
    unfold singleCastBulkByCustomerId. rewrite E. by apply wp_ret.
  - destruct (unmarshal_BroadcastBulk param) eqn:E; [by eapply broadcastBulk_run|].
    unfold broadcastBulk. rewrite E. by apply wp_ret.
Qed.

Lemma blocking_safe : Forall (fun x => post_ok x.2) (postBlockingCallback cf).
Proof.
  repeat (apply Forall_cons; split); [..|constructor]; cbn [snd].
  5: { intros param w Hw. destruct (unmarshal_ForceOfflineGuest param) as [payload|] eqn:E.
    - eapply forceOfflineGuest_run; [done|done|done| |done]. intros _ _. split; [done|].
      constructor; [|done]. apply good_recover, good_forceOfflineGuest_body.
    - unfold forceOfflineGuest. rewrite E. done. }
  all: apply post_ok_wp; intros param w Hw.
  - destruct (unmarshal_ConnInfoUpdate param) eqn:E; [by eapply connInfoUpdate_run|].
    unfold connInfoUpdate. rewrite E. by apply wp_ret.
  - destruct (unmarshal_ConnInfoDelete param) eqn:E; [by eapply connInfoDelete_run|].
    unfold connInfoDelete. rewrite E. by apply wp_ret.
  - destruct (unmarshal_ForceOffline param) eqn:E; [by eapply forceOffline_run|].
    unfold forceOffline. rewrite E. by apply wp_ret.
  - destruct (unmarshal_ForceOfflineByCustomerId param) eqn:E; [by eapply forceOfflineByCustomerId_run|].
    unfold forceOfflineByCustomerId. rewrite E. by apply wp_ret.
  - destruct (unmarshal_TopicSubscribe param) eqn:E; [by eapply topicSubscribe_run|].
    unfold topicSubscribe. rewrite E. by apply wp_ret.
  - destruct (unmarshal_TopicUnsubscribe param) eqn:E; [by eapply topicUnsubscribe_run|].
    unfold topicUnsubscribe. rewrite E. by apply wp_ret.
  - destruct (unmarshal_TopicDelete param) eqn:E; [by eapply topicDelete_run|].
    unfold topicDelete. rewrite E. by apply wp_ret.
Qed.

(** ** The questions *)

Lemma Inv_ext w w' : heap w' = heap w -> reg w' = reg w -> frame_pool w' = frame_pool w -> Inv w -> Inv w'.
Proof. intros E1 E2 E3 (Hc & Hu & Hp). unfold Inv, pool_clean in *. by rewrite E1, E2, E3. Qed.

Lemma net_send_in m cmd n : n_in (net_send m cmd n) = n_in n.
Proof.
  unfold net_send. destruct (marshal m); [|done]. cbv zeta. unfold net_write_deadline, net_write. cbn.
  destruct (n_closed n || _); cbn; [done|]. destruct (n_closed n); cbn; [done|].
  destruct (default None _); cbn; [|done]. by destruct (_ =? 0)%nat.
Qed.

(** After a question: the invariant, and the stream as it was. *)
Definition asked_ok (conn : ptr) (n : netConn) (w' : world) : Prop :=
  Inv w' /\ exists n', tasks w' !! conn = Some n' /\ n_in n' = n_in n.

Lemma asked_answered w conn n m cmd : Inv w -> asked_ok conn n (answered w conn n m cmd).
Proof.
  intros Hw. split; [by eapply Inv_ext|]. exists (net_send m cmd n). split; [apply lookup_insert_eq|].
  apply net_send_in.
Qed.

Lemma get_safe conn n param :
  Forall (fun x => forall w, Inv w -> tasks w !! conn = Some n -> wp (x.2 param conn) w (fun _ => asked_ok conn n))
         getCallback.
Proof.
  assert (forall w, Inv w -> tasks w !! conn = Some n -> asked_ok conn n w) as Hnone.
  { intros w Hw Hn. split; [done|]. by exists n. }
  repeat (apply Forall_cons; split); [..|constructor]; cbn [snd]; intros w Hw Hn.
  - eapply uniqIdList_run; [done|done|..]; intros; by apply asked_answered.
  - eapply uniqIdCount_run; [done|done|..]; intros; by apply asked_answered.
  - destruct (unmarshal_TopicsReq Cmd_TopicUniqIdList param) eqn:E;
      [eapply topicUniqIdList_run; [done..|]; intros; by apply asked_answered|].
    unfold topicUniqIdList. rewrite E. by apply wp_ret, Hnone.
  - destruct (unmarshal_TopicsReq Cmd_TopicUniqIdCount param) eqn:E;
      [eapply topicUniqIdCount_run; [done..|]; intros; by apply asked_answered|].
    unfold topicUniqIdCount. rewrite E. by apply wp_ret, Hnone.
  - unfold topicCount. eapply wp_bind, wp_Topic_Len; [apply Hw|]. eapply wp_send; [done|]. by apply asked_answered.
  - eapply topicList_run; [done|done|]. intros; by apply asked_answered.
  - destruct (unmarshal_ConnInfoReq param) eqn:E;
      [eapply connInfo_run; [done..|]; intros; by apply asked_answered|].
    unfold connInfo. rewrite E. by apply wp_ret, Hnone.
  - destruct (unmarshal_ConnInfoByCustomerIdReq param) eqn:E;
      [eapply connInfoByCustomerId_run; [done..|]; intros; by apply asked_answered|].
    unfold connInfoByCustomerId. rewrite E. by apply wp_ret, Hnone.
  - eapply metrics_run; [done|]. intros; by apply asked_answered.
  - destruct (unmarshal_CheckOnlineReq param) eqn:E;
      [eapply checkOnline_run; [done..|]; intros; by apply asked_answered|].
    unfold checkOnline. rewrite E. by apply wp_ret, Hnone.
  - destruct (unmarshal_LimitReq param) eqn:E; [|unfold limit; rewrite E; by apply wp_ret, Hnone].
    eapply limit_run; [done..|]. split; [by eapply Inv_ext|]. eexists. split; [apply lookup_insert_eq|].
    apply net_send_in.
  - unfold customerIdCount. eapply wp_bind, wp_Binder_Len; [apply Hw|]. eapply wp_send; [done|]. by apply asked_answered.
  - eapply customerIdList_run; [done|done|]. intros; by apply asked_answered.
  - destruct (unmarshal_TopicsReq Cmd_TopicCustomerIdList param) eqn:E;
      [eapply topicCustomerIdList_run; [done..|]; intros; by apply asked_answered|].
    unfold topicCustomerIdList. rewrite E. by apply wp_ret, Hnone.
  - destruct (unmarshal_TopicsReq Cmd_TopicCustomerIdCount param) eqn:E;
      [eapply topicCustomerIdCount_run; [done..|]; intros; by apply asked_answered|].
    unfold topicCustomerIdCount. rewrite E. by apply wp_ret, Hnone.
  - destruct (unmarshal_TopicsReq Cmd_TopicCustomerIdToUniqIdsList param) eqn:E;
      [eapply topicCustomerIdToUniqIdsList_run; [done..|]; intros; by apply asked_answered|].
    unfold topicCustomerIdToUniqIdsList. rewrite E. by apply wp_ret, Hnone.
Qed.

(** ** One packet *)

Lemma wps_bind_wp {A B} (m : prog A) (g : A -> prog B) w Q :
  wp m w (fun a w' => wps (g a) w' Q) -> wps (bind m g) w Q.
Proof.
  intros Hm. apply wps_bind. eapply wps_mono; [exact Hm|]. cbn. intros a w' ts [-> Hg].
  eapply wps_mono; [exact Hg|]. done.
Qed.

Lemma wps_bind_ret {A B} (m : prog A) (b : B) w Q :
  wps m w (fun _ w' ts => Q b w' ts) -> wps (m ;; Ret b) w Q.
Proof.
  intros Hm. apply wps_bind. eapply wps_mono; [exact Hm|]. cbn. intros a w' ts HQ.
  unfold wps. cbn. by rewrite app_nil_r.
Qed.

Lemma outside_tasks w w' conn n : outside w' = outside w -> tasks w !! conn = Some n -> tasks w' !! conn = Some n.
Proof. unfold outside. intros [= E1 E2 E3 E4 E5]. by rewrite E3. Qed.

Lemma wps_Submit (fn : prog unit) w (Q : option string -> world -> list (prog unit) -> Prop) :
  (forall e err, Q (Some err) (with_env e w) []) -> (forall e, Q None (with_env e w) [fn]) -> wps (Submit fn) w Q.
Proof.
  intros H1 H2. unfold Submit. apply wps_bind_wp. unfold ask. apply wp_act. cbn [fst snd].
  destruct (next_submit (env w)) as [[err|] e]; cbn [fst snd]; [apply H1|apply H2].
Qed.

Lemma exec_safe conn cmd param n w :
  Inv w -> tasks w !! conn = Some n ->
  wps (exec cf conn cmd param) w (fun _ w' ts => asked_ok conn n w' /\ Forall good ts).
Proof.
  intros Hw Hn. unfold exec.
  destruct (lookup_cmd cmd (postNonBlockingCallback cf)) as [cb|] eqn:E1.
  { pose proof (lookup_cmd_Forall (fun cb => forall param w, Inv w -> wp (cb param) w (fun _ w' => Inv w')) _ _ _
      nonblocking_safe E1) as Hcb.
    assert (good (recover (cb param))) as Hg by (apply good_recover; intros w1 Hw1; by apply Hcb).
    assert (forall e, asked_ok conn n (with_env e w)) as Ha.
    { intros e. split; [by eapply Inv_ext|]. by exists n. }
    apply wps_bind. apply wps_Submit; [intros e err|intros e]; apply wps_bind_ret; cbn; auto. }
  destruct (lookup_cmd cmd (postBlockingCallback cf)) as [cb|] eqn:E2.
  { assert (framed (cb param)) as Hf.
    { eapply (framed_post cf cmd). revert E1 E2. induction (postNonBlockingCallback cf) as [|[k x] l IH]; [done|].
      cbn. by destruct (cmd =? k). }
    pose proof (lookup_cmd_Forall (fun cb => post_ok cb) _ _ _ blocking_safe E2) as Hcb.
    apply wps_bind_ret, wps_recover. eapply wps_mono; [apply wps_framed; [done|by apply Hcb]|].
    cbn beta. intros _ w' ts [[Hw' Hts] Ho]. split; [|done]. split; [done|]. exists n.
    split; [by eapply outside_tasks|done]. }
  destruct (lookup_cmd cmd getCallback) as [cb|] eqn:E3.
  - pose proof (lookup_cmd_Forall (fun cb => forall w, Inv w -> tasks w !! conn = Some n ->
      wp (cb param conn) w (fun _ => asked_ok conn n)) _ _ _ (get_safe conn n param) E3 w Hw Hn) as Hcb.
    apply wps_bind_ret, wps_recover, wp_wps. eapply wp_mono; [exact Hcb|]. cbn. auto.
  - apply wp_wps, wp_ret. split; [|done]. split; [done|]. by exists n.
Qed.

(** The state after a turn, with what is left of the stream. *)
Definition turned (conn : ptr) (w' : world) (left : nat) : Prop :=
  Inv w' /\ exists n', tasks w' !! conn = Some n' /\ (length (n_in n') <= left)%nat.

Lemma turned_with_task conn n w left :
  Inv w -> (length (n_in n) <= left)%nat -> turned conn (with_task conn n w) left.
Proof. intros Hw Hn. split; [by eapply Inv_ext|]. exists n. split; [apply lookup_insert_eq|done]. Qed.

Definition with_in (l : bytes) (n : netConn) : netConn :=
  mkNet l (n_out n) (n_closed n) (read_deadline_fails n) (write_deadline_fails n) (write_fails_at n).

Lemma net_read_cases k n :
  (len (n_in n) < k /\ net_read k n = (None, with_in [] n)) \/
  (k <= len (n_in n) /\ net_read k n = (Some (take (Z.to_nat k) (n_in n)), with_in (drop (Z.to_nat k) (n_in n)) n)).
Proof. unfold net_read. destruct (Z.ltb_spec (len (n_in n)) k); auto. Qed.

Lemma net_read_app k n a b :
  n_in n = a ++ b -> len a = k -> net_read k n = (Some a, with_in b n).
Proof.
  intros Hin Hk. unfold net_read. rewrite Hin, len_app. pose proof (len_nonneg b).
  destruct (Z.ltb_spec (len a + len b) k); [lia|].
  assert (Z.to_nat k = length a) as -> by (unfold len in Hk; lia).
  by rewrite take_app_length, drop_app_length.
Qed.

Lemma process_turn_safe conn n w :
  Inv w -> tasks w !! conn = Some n ->
  wps (process_turn cf conn) w (fun continue w' ts => Forall good ts /\
    turned conn w' (if (continue : bool) then length (n_in n) - 4 else length (n_in n)) /\
    (continue = true -> 4 <= length (n_in n))%nat).
Proof.
  intros Hw Hn. unfold process_turn.
  assert (forall n1 w1, tasks (with_task conn n1 w1) !! conn = Some n1) as Hl by (intros; apply lookup_insert_eq).
  apply wps_bind_wp. eapply wp_net_act; [done|]. unfold net_read_deadline at 1 2. cbn [fst snd].
  set (n1 := mkNet (n_in n) _ _ _ _ _).
  assert (turned conn (with_task conn n1 w) (length (n_in n))) as Hstop by (by apply turned_with_task).
  destruct (n_closed n || _).
  { apply wp_wps, wp_ret. done. }
  apply wps_bind_wp. eapply wp_net_act; [apply Hl|]. rewrite with_task_twice.
  destruct (net_read_cases 4 n1) as [[Hlen ->]|[Hlen ->]]; change (n_in n1) with (n_in n) in *; cbn [fst snd].
  { apply wp_wps, wp_ret. split_and!; [done| |done]. apply turned_with_task; [done|]. cbn. lia. }
  assert (4 <= length (n_in n))%nat as H4 by (unfold len in Hlen; lia).
  set (n2 := with_in _ _).
  assert (length (n_in n2) = length (n_in n) - 4)%nat as Hn2 by (cbn; rewrite length_drop; lia).
  destruct (cf_TaskReceivePackLimit cf <? _).
  { apply wp_wps, wp_ret. split_and!; [done| |done]. apply turned_with_task; [done|]. lia. }
  apply wps_bind_wp. eapply wp_net_act; [apply Hl|]. rewrite with_task_twice.
  match goal with |- context [net_read ?k n2] => destruct (net_read_cases k n2) as [[Hlen2 ->]|[Hlen2 ->]] end;
    cbn [fst snd].
  { apply wp_wps, wp_ret. split_and!; [done| |done]. apply turned_with_task; [done|]. cbn. lia. }
  set (n3 := with_in _ n2).
  assert (length (n_in n3) <= length (n_in n) - 4)%nat as Hn3.
  { cbn [n_in n3 with_in]. rewrite length_drop, Hn2. lia. }
  case_bool_decide.
  { apply wp_wps, wp_ret. split_and!; [done| |done]. by apply turned_with_task. }
  destruct (_ <? 4).
  { apply wp_wps, wp_ret. split_and!; [done| |done]. apply turned_with_task; [done|]. lia. }
  eapply wps_mono; [apply (exec_safe conn _ _ n3); [by eapply Inv_ext|apply Hl]|].
  cbn beta. intros c w' ts [(Hw' & n' & Hn' & Ein) Hts]. split_and!; [done| |done].
  split; [done|]. exists n'. split; [done|]. rewrite Ein. destruct c; lia.
Qed.

Lemma process_loop_run fuel conn n w :
  Inv w -> tasks w !! conn = Some n -> (length (n_in n) < fuel)%nat ->
  wps (process_loop cf fuel conn) w (fun _ w' ts => turned conn w' (length (n_in n)) /\ Forall good ts).
Proof.
  revert n w; induction fuel as [|fuel IH]; intros n w Hw Hn Hf; [lia|]. cbn [process_loop].
  apply wps_bind. eapply wps_mono; [by apply process_turn_safe|].
  cbn beta. intros [] w1 ts (Hts & (Hw1 & n1 & Hn1 & Hle) & H4).
  - specialize (H4 eq_refl). eapply wps_mono; [apply (IH n1); [done|done|lia]|].
    cbn beta. intros _ w2 ts2 ((Hw2 & n2 & Hn2 & Hle2) & Hts2). split; [|by apply Forall_app].
    split; [done|]. exists n2. split; [done|lia].
  - apply wp_wps, wp_ret. rewrite app_nil_r. split; [|done]. split; [done|]. eauto.
Qed.

(** A packet that is well formed is taken off the stream and executed. *)
Definition read_on (n : netConn) (rest : bytes) : netConn :=
  mkNet rest (n_out n) (n_closed n) (tail (read_deadline_fails n)) (write_deadline_fails n) (write_fails_at n).

Lemma run_net_act {A B} conn (f : netConn -> A * netConn) (g : A -> prog B) n w :
  tasks w !! conn = Some n ->
  run (bind (net_act conn f) g) w = run (g (f n).1) (with_task conn (f n).2 w).
Proof. intros Hn. unfold net_act. cbn. rewrite Hn. done. Qed.

Lemma be_put4 v : 0 <= v < 2 ^ 32 -> be (put_be 4 v) = v.
Proof. intros Hv. rewrite be_put_be. apply Z.mod_small. exact Hv. Qed.

Lemma process_turn_run conn n w cmd param rest :
  tasks w !! conn = Some n -> n_in n = packet_of cmd param ++ rest ->
  n_closed n = false -> head (read_deadline_fails n) <> Some true ->
  - 2 ^ 31 <= cmd < 2 ^ 31 -> len param + 4 < 2 ^ 32 ->
  len param + 4 <= cf_TaskReceivePackLimit cf ->
  cf_TaskHeartbeatMessage cf <> put_be 4 (u32 cmd) ++ param ->
  run (process_turn cf conn) w = run (exec cf conn cmd param) (with_task conn (read_on n rest) w).
Proof.
  intros Hn Hin Hcl Hdl Hcmd Hlen Hlim Hhb. unfold process_turn.
  assert (forall n1 w1, tasks (with_task conn n1 w1) !! conn = Some n1) as Hl by (intros; apply lookup_insert_eq).
  pose proof (len_nonneg param) as Hpos. set (data := put_be 4 (u32 cmd) ++ param).
  assert (len data = len param + 4) as Hld.
  { unfold data. rewrite len_app. unfold len at 1. rewrite length_put_be. lia. }
  assert (n_in n = put_be 4 (u32 (len param + 4)) ++ data ++ rest) as Hin'.
  { rewrite Hin. unfold packet_of, data. by rewrite <- !app_assoc. }
  erewrite run_net_act by done. unfold net_read_deadline. cbn [fst snd].
  assert (n_closed n || default false (head (read_deadline_fails n)) = false) as ->.
  { rewrite Hcl. cbn. destruct (head (read_deadline_fails n)) as [[]|]; done. }
  erewrite run_net_act by apply Hl. rewrite with_task_twice.
  rewrite (net_read_app 4 _ (put_be 4 (u32 (len param + 4))) (data ++ rest)); [|exact Hin'|by unfold len; rewrite length_put_be].
  cbn [fst snd]. rewrite u32_small, be_put4 by lia.
  destruct (Z.ltb_spec (cf_TaskReceivePackLimit cf) (len param + 4)); [lia|].
  erewrite run_net_act by apply Hl. rewrite with_task_twice.
  rewrite (net_read_app (len param + 4) _ data rest); [|done|done]. cbn [fst snd].
  rewrite bool_decide_eq_false_2 by done.
  destruct (Z.ltb_spec (len data) 4); [lia|]. unfold data.
  rewrite take_app_length', drop_app_length' by (by rewrite length_put_be).
  rewrite be_put4 by apply u32_range.
  assert (i32 (u32 cmd) = cmd) as -> by (unfold i32, u32; divlia). done.
Qed.

End Loop.
