(* ===== verification/Lifecycle.v ===== *)
(** The life of a connection in the registries: what opening adds, what closing
    removes, on the invariant of [Consistency]. *)

From S2P Require Export Server Loop.

Section Change.

(** One connection, online or not, changes; the registries change for it alone: [b] says
    whether it is online afterwards. *)
Section OneConn.
Context (h : gmap ptr Conn) (r : registries) (p : ptr) (c c' : Conn) (r' : registries) (b : bool).
Hypothesis Hc : consistent h r.
Hypothesis Hp : h !! p = Some c.
Hypothesis Hune : uniqId (c_info c) <> EmptyString.
Hypothesis Hold : m_lookup r (uniqId (c_info c)) = None \/ is_online r p c.
Hypothesis Hid : id (c_info c') = id (c_info c).
Hypothesis Hu : uniqId (c_info c') = uniqId (c_info c).
Hypothesis Hne : subscribed (c_info c') EmptyString = false.
Hypothesis Hwm : wf_manager r'.
Hypothesis Hwb : wf_binder r'.
Hypothesis Hwt : wf_topic r'.
Hypothesis Hm : forall u, m_lookup r' u = if decide (u = uniqId (c_info c)) then if b then Some p else None else m_lookup r u.
Hypothesis Hb : forall k j, member (b_lookup r' k) j =
  if decide (j = id (c_info c))
  then if decide (b = true /\ customerId (c_info c') = k /\ k <> EmptyString) then Some p else None
  else member (b_lookup r k) j.
Hypothesis Ht : forall k j, member (t_lookup r' k) j =
  if decide (j = id (c_info c)) then if b && subscribed (c_info c') k then Some p else None
  else member (t_lookup r k) j.

Lemma changed_heap q d : <[p := c']> h !! q = Some d -> (q = p /\ d = c') \/ (q <> p /\ h !! q = Some d).
Proof.
  intros Hq. destruct (decide (q = p)) as [->|]; [left|right].
  - rewrite lookup_insert_eq in Hq. by simplify_eq.
  - by rewrite lookup_insert_ne in Hq.
Qed.

Lemma changed_id q d : h !! q = Some d -> id (c_info d) = id (c_info c) -> q = p.
Proof. intros Hq Heq. by eapply (cs_ids h r Hc). Qed.

Lemma online_others q d : q <> p -> h !! q = Some d -> is_online r' q d <-> is_online r q d.
Proof.
  intros Hne' Hd. unfold is_online. rewrite Hm.
  destruct (decide (uniqId (c_info d) = uniqId (c_info c))) as [E|E]; [|tauto]. rewrite E. split; intros Hl; exfalso.
  - destruct b; simplify_eq; done.
  - destruct Hold as [Hn|Hon]; [congruence|]. unfold is_online in Hon. congruence.
Qed.

Lemma online_changed : is_online r' p c' <-> b = true.
Proof. unfold is_online. rewrite Hm, Hu, decide_True by done. by destruct b. Qed.

Lemma binder_changed k i q :
  member (b_lookup r' k) i = Some q <->
  exists d, <[p := c']> h !! q = Some d /\ id (c_info d) = i /\ is_online r' q d /\ customerId (c_info d) = k /\ k <> EmptyString.
Proof.
  rewrite Hb. split.
  - destruct (decide (i = id (c_info c))) as [Hi|Hi].
    + destruct (decide (b = true /\ customerId (c_info c') = k /\ k <> EmptyString)) as [Hk|Hk]; [|done]. intros [= <-].
      exists c'. rewrite lookup_insert_eq. split_and!; [done|congruence| |tauto|tauto]. apply online_changed. tauto.
    + intros Hmem. apply (cs_binder h r Hc) in Hmem as (d & Hd & Hid' & Hon & Hrest).
      assert (q <> p) as Hqp by (intros ->; congruence).
      exists d. rewrite lookup_insert_ne by done. split_and!; [done|done|by apply online_others|tauto|tauto].
  - intros (d & Hd & Hid' & Hon' & Hk & Hke). destruct (changed_heap q d Hd) as [[-> ->]|[Hne' Hd1]].
    + rewrite decide_True by congruence. rewrite decide_True; [done|]. split; [by apply online_changed|done].
    + rewrite decide_False; [apply (cs_binder h r Hc); exists d; split_and!; try done; by apply online_others|].
      intros ->. apply Hne'. by eapply changed_id.
Qed.

Lemma topic_changed k i q :
  member (t_lookup r' k) i = Some q <->
  exists d, <[p := c']> h !! q = Some d /\ id (c_info d) = i /\ is_online r' q d /\ subscribed (c_info d) k = true.
Proof.
  rewrite Ht. split.
  - destruct (decide (i = id (c_info c))) as [Hi|Hi].
    + destruct (b && subscribed (c_info c') k) eqn:Hk; [|done]. intros [= <-]. exists c'.
      apply andb_true_iff in Hk as [Hb' Hk]. rewrite lookup_insert_eq. split_and!; [done|congruence|by apply online_changed|done].
    + intros Hmem. apply (cs_topic h r Hc) in Hmem as (d & Hd & Hid' & Hon & Hrest).
      assert (q <> p) as Hqp by (intros ->; congruence).
      exists d. rewrite lookup_insert_ne by done. split_and!; [done|done|by apply online_others|done].
  - intros (d & Hd & Hid' & Hon' & Hk). destruct (changed_heap q d Hd) as [[-> ->]|[Hne' Hd1]].
    + rewrite decide_True by congruence. apply online_changed in Hon' as ->. by rewrite Hk.
    + rewrite decide_False; [apply (cs_topic h r Hc); exists d; split_and!; try done; by apply online_others|].
      intros ->. apply Hne'. by eapply changed_id.
Qed.

Lemma consistent_change : consistent (<[p := c']> h) r'.
Proof.
  split; try done.
  - intros u q. rewrite Hm. destruct (decide (u = uniqId (c_info c))) as [E|E].
    + destruct b; cbn; [|done]. intros [= <-]. exists c'. rewrite lookup_insert_eq. split; [done|congruence].
    + intros Hu'. destruct (cs_online h r Hc u q Hu') as (d & Hd & Hud).
      exists d. rewrite lookup_insert_ne; [done|]. intros ->. congruence.
  - intros q q' d d' Hd Hd' Heq.
    destruct (changed_heap q d Hd) as [[-> ->]|[? Hd1]], (changed_heap q' d' Hd') as [[-> ->]|[? Hd2]]; try done.
    + symmetry. eapply changed_id; [done|congruence].
    + eapply changed_id; [done|congruence].
    + by eapply (cs_ids h r Hc).
  - apply binder_changed.
  - apply topic_changed.
  - intros q d Hd. destruct (changed_heap q d Hd) as [[-> ->]|[? Hd1]]; [done|]. by eapply (cs_topic_name h r Hc).
Qed.
End OneConn.

(** A connection that is not online is in no registry. *)
Definition unregistered (r : registries) (p : ptr) : Prop :=
  (forall u, m_lookup r u <> Some p) /\
  (forall k i, member (b_lookup r k) i <> Some p) /\
  (forall k i, member (t_lookup r k) i <> Some p).

Lemma offline_unregistered h r p c :
  consistent h r -> h !! p = Some c -> ~ is_online r p c -> unregistered r p.
Proof.
  intros Hc Hp Hoff. split_and!.
  - intros u Hu. destruct (cs_online h r Hc u p Hu) as (d & Hd & Hud). simplify_eq. by apply Hoff.
  - intros k i Hm. apply (cs_binder h r Hc) in Hm as (d & Hd & _ & Hon & _). simplify_eq. by apply Hoff.
  - intros k i Hm. apply (cs_topic h r Hc) in Hm as (d & Hd & _ & Hon & _). simplify_eq. by apply Hoff.
Qed.

(** The own entries of a connection that is offline. *)
Lemma offline_members h r p c k :
  consistent h r -> h !! p = Some c -> ~ is_online r p c ->
  member (b_lookup r k) (id (c_info c)) = None /\ member (t_lookup r k) (id (c_info c)) = None.
Proof.
  intros Hc Hp Hoff. split.
  - destruct (member _ _) as [q|] eqn:E; [|done]. exfalso. apply (cs_binder h r Hc) in E as (d & Hd & Hi & Hon & _).
    assert (q = p) as -> by (by eapply (cs_ids h r Hc)). simplify_eq. by apply Hoff.
  - destruct (member _ _) as [q|] eqn:E; [|done]. exfalso. apply (cs_topic h r Hc) in E as (d & Hd & Hi & Hon & _).
    assert (q = p) as -> by (by eapply (cs_ids h r Hc)). simplify_eq. by apply Hoff.
Qed.

End Change.

Section Boot.
Context {MO : MapOrder}.

(** The registries when the process starts. *)
Definition no_registries : registries := mkReg empty_shards 0 empty_shards empty_shards.

Lemma no_shard_lookup {V} (k : string) : shard_lookup (empty_shards (V := V)) k = None.
Proof.
  unfold shard_lookup, shard, empty_shards. rewrite lookup_replicate_2 by apply shard_index_lt. cbn. apply lookup_empty.
Qed.

(** A process whose connections are all new. *)
Lemma Inv_empty w :
  reg w = no_registries -> pool_clean w ->
  (forall p c, heap w !! p = Some c -> locked (c_info c) = false) ->
  (forall p c, heap w !! p = Some c -> subscribed (c_info c) EmptyString = false) ->
  (forall p q c d, heap w !! p = Some c -> heap w !! q = Some d -> id (c_info c) = id (c_info d) -> p = q) ->
  Inv w.
Proof.
  intros Er Hpool Hl Hs Hids. split; [|done]. rewrite Er.
  assert (forall u, m_lookup no_registries u = None) as Hm by (intros u; apply no_shard_lookup).
  assert (forall k i, member (b_lookup no_registries k) i = None) as Hb by (intros k i; unfold b_lookup; cbn [b_shards no_registries]; by rewrite no_shard_lookup).
  assert (forall k i, member (t_lookup no_registries k) i = None) as Ht by (intros k i; unfold t_lookup; cbn [t_shards no_registries]; by rewrite no_shard_lookup).
  split; try done.
  - split_and!; [apply wf_empty_shards|apply Hm|]. by vm_compute.
  - split; [apply wf_empty_shards|]. intros k. unfold b_lookup. cbn [b_shards no_registries]. by rewrite no_shard_lookup.
  - split; [apply wf_empty_shards|]. intros k. unfold t_lookup. cbn [t_shards no_registries]. by rewrite no_shard_lookup.
  - intros u p. by rewrite Hm.
  - intros k i p. rewrite Hb. split; [done|]. intros (c & _ & _ & Hon & _). unfold is_online in Hon. by rewrite Hm in Hon.
  - intros k i p. rewrite Ht. split; [done|]. intros (c & _ & _ & Hon & _). unfold is_online in Hon. by rewrite Hm in Hon.
Qed.

End Boot.

Section Registries.

(** The registries after the opening of a connection. *)
Definition reg_opened (p : ptr) (i : info) (l : list string) (r : registries) : registries :=
  let r1 := m_insert (uniqId i) p r in
  let r2 := if is_empty (customerId i) then r1 else b_insert (customerId i) (id i) p r1 in
  t_update (rel_set (id i) p) l r2.

(** ... and after its closing. *)
Definition reg_closed (i : info) (l : list string) (r : registries) : registries :=
  let r1 := m_remove (uniqId i) r in
  let r2 := if is_empty (customerId i) then r1 else b_remove (customerId i) (id i) r1 in
  t_update (rel_del (id i)) l r2.

Lemma consistent_opened h r p c c' l :
  consistent h r -> h !! p = Some c -> uniqId (c_info c) <> EmptyString ->
  m_lookup r (uniqId (c_info c)) = None ->
  id (c_info c') = id (c_info c) -> uniqId (c_info c') = uniqId (c_info c) ->
  (forall k, subscribed (c_info c') k = bool_decide (k ∈ l /\ k <> EmptyString)) ->
  consistent (<[p := c']> h) (reg_opened p (c_info c') l r).
Proof.
  intros Hc Hp Hune Hoff Hid Hu Hs.
  assert (~ is_online r p c) as Hnot by (unfold is_online; congruence).
  pose proof (cs_wf_binder h r Hc) as Hwb. pose proof (cs_wf_topic h r Hc) as Hwt.
  pose proof (cs_manager h r Hc) as Hwm. pose proof Hwm as (Hwfm & _).
  set (r1 := m_insert (uniqId (c_info c')) p r).
  assert (wf_manager r1) as Hwm1 by (apply m_insert_wf; [by rewrite Hu|done]).
  assert (wf_binder r1) as Hwb1 by apply Hwb. assert (wf_topic r1) as Hwt1 by apply Hwt.
  set (r2 := if is_empty (customerId (c_info c')) then r1 else b_insert (customerId (c_info c')) (id (c_info c')) p r1).
  assert (wf_manager r2) as Hwm2 by (unfold r2; destruct (is_empty _); exact Hwm1).
  assert (wf_topic r2) as Hwt2 by (unfold r2; destruct (is_empty _); exact Hwt1).
  assert (wf_binder r2) as Hwb2 by (unfold r2; destruct (is_empty _); [exact Hwb1|by apply b_insert_wf]).
  assert (forall u, m_lookup r2 u = m_lookup r1 u) as Em by (intros u; unfold r2; by destruct (is_empty _)).
  assert (forall k, t_lookup r2 k = t_lookup r k) as Et by (intros k; unfold r2; by destruct (is_empty _)).
  change (reg_opened p (c_info c') l r) with (t_update (rel_set (id (c_info c')) p) l r2).
  apply (consistent_change h r p c c' _ true); try done; [by left| |by apply t_set_wf|..].
  - rewrite Hs. apply bool_decide_eq_false. tauto.
  - intros u. rewrite m_lookup_t_update, Em. unfold r1. rewrite m_insert_lookup by done. rewrite Hu.
    apply decide_ext. naive_solver.
  - intros k j. change (b_lookup (t_update _ _ r2) k) with (b_lookup r2 k).
    destruct (offline_members h r p c k Hc Hp Hnot) as [Hnone _]. unfold r2.
    destruct (is_empty (customerId (c_info c'))) eqn:E.
    + apply is_empty_true in E. change (b_lookup r1 k) with (b_lookup r k). case_decide as Hj; [subst j|done].
      rewrite Hnone. rewrite decide_False; [done|]. rewrite E. naive_solver.
    + apply is_empty_false in E. rewrite b_insert_lookup by apply Hwb1.
      change (b_lookup r1 k) with (b_lookup r k). rewrite Hid.
      destruct (decide (customerId (c_info c') = k)) as [Hk|Hk].
      * rewrite member_set. destruct (decide (id (c_info c) = j)), (decide (j = id (c_info c))); try congruence.
        rewrite decide_True; [done|]. split_and!; [done|done|congruence].
      * case_decide as Hj; [subst j|done]. rewrite Hnone. rewrite decide_False; [done|]. tauto.
  - intros k j. rewrite t_set_lookup by apply Hwt2. rewrite Et, Hid.
    destruct (offline_members h r p c k Hc Hp Hnot) as [_ Hnone]. rewrite Hs. cbn [andb].
    case_decide as Hk.
    + rewrite member_set, bool_decide_eq_true_2 by done. repeat case_decide; congruence.
    + rewrite bool_decide_eq_false_2 by done. case_decide as Hj; [by subst j|done].
Qed.

Lemma consistent_closed h r p c :
  consistent h r -> h !! p = Some c -> uniqId (c_info c) <> EmptyString ->
  (m_lookup r (uniqId (c_info c)) = None \/ is_online r p c) ->
  forall l, (forall k, k ∈ l <-> subscribed (c_info c) k = true) ->
  consistent h (reg_closed (c_info c) l r) /\ ~ is_online (reg_closed (c_info c) l r) p c.
Proof.
  intros Hc Hp Hune Hold l Hl.
  pose proof (cs_wf_binder h r Hc) as Hwb. pose proof (cs_wf_topic h r Hc) as Hwt.
  pose proof (cs_manager h r Hc) as Hwm. pose proof Hwm as (Hwfm & _).
  set (r1 := m_remove (uniqId (c_info c)) r).
  assert (wf_manager r1) as Hwm1 by (by apply m_remove_wf).
  assert (forall k, b_lookup r1 k = b_lookup r k) as Eb1 by (intros k; unfold r1, m_remove; by destruct (m_lookup _ _)).
  assert (forall k, t_lookup r1 k = t_lookup r k) as Et1 by (intros k; unfold r1, m_remove; by destruct (m_lookup _ _)).
  assert (wf_binder r1) as Hwb1 by (unfold r1, m_remove; destruct (m_lookup _ _); exact Hwb).
  assert (wf_topic r1) as Hwt1 by (unfold r1, m_remove; destruct (m_lookup _ _); exact Hwt).
  set (r2 := if is_empty (customerId (c_info c)) then r1 else b_remove (customerId (c_info c)) (id (c_info c)) r1).
  assert (wf_manager r2) as Hwm2 by (unfold r2; destruct (is_empty _); exact Hwm1).
  assert (wf_topic r2) as Hwt2 by (unfold r2; destruct (is_empty _); exact Hwt1).
  assert (wf_binder r2) as Hwb2 by (unfold r2; destruct (is_empty _); [exact Hwb1|by apply b_remove_wf]).
  assert (forall u, m_lookup r2 u = m_lookup r1 u) as Em by (intros u; unfold r2; by destruct (is_empty _)).
  assert (forall k, t_lookup r2 k = t_lookup r k) as Et by (intros k; unfold r2; destruct (is_empty _); apply Et1).
  assert (forall k, ~ (customerId (c_info c) = k /\ k <> EmptyString) -> member (b_lookup r k) (id (c_info c)) = None) as Hbm.
  { intros k Hk. destruct Hold as [Hn|Hon].
    - assert (~ is_online r p c) as Hnot by (unfold is_online; congruence).
      by destruct (offline_members h r p c k Hc Hp Hnot) as [-> _].
    - rewrite (own_binder h r p c k Hc Hp Hon). by rewrite decide_False. }
  change (reg_closed (c_info c) l r) with (t_update (rel_del (id (c_info c))) l r2).
  assert (forall u, m_lookup (t_update (rel_del (id (c_info c))) l r2) u =
            if decide (u = uniqId (c_info c)) then None else m_lookup r u) as Hml.
  { intros u. rewrite m_lookup_t_update, Em. unfold r1. rewrite m_remove_lookup by done. apply decide_ext. naive_solver. }
  split; [|unfold is_online; by rewrite Hml, decide_True].
  rewrite <- (insert_id h p c) by done.
  apply (consistent_change h r p c c _ false); try done; [|by apply t_del_wf|..].
  - by apply (cs_topic_name h r Hc p c).
  - intros k j. change (b_lookup (t_update _ _ r2) k) with (b_lookup r2 k).
    rewrite (decide_False (P := false = true /\ _)) by naive_solver. unfold r2.
    destruct (is_empty (customerId (c_info c))) eqn:E.
    + apply is_empty_true in E. rewrite Eb1. destruct (decide (j = id (c_info c))) as [->|]; [|done]. apply Hbm. rewrite E. naive_solver.
    + rewrite b_remove_lookup by apply Hwb1. rewrite Eb1. destruct (decide (customerId (c_info c) = k)) as [Hk|Hk].
      * rewrite member_del. destruct (decide (id (c_info c) = j)), (decide (j = id (c_info c))); congruence.
      * destruct (decide (j = id (c_info c))) as [->|]; [|done]. apply Hbm. tauto.
  - intros k j. rewrite t_del_lookup by apply Hwt2. rewrite Et. cbn [andb].
    case_decide as Hk.
    + rewrite member_del. destruct (decide (id (c_info c) = j)), (decide (j = id (c_info c))); congruence.
    + case_decide as Hj; [subst j|done]. destruct Hold as [Hn|Hon].
      * assert (~ is_online r p c) as Hnot by (unfold is_online; congruence).
        by destruct (offline_members h r p c k Hc Hp Hnot) as [_ ->].
      * rewrite (own_topic h r p c k Hc Hp Hon). destruct (subscribed (c_info c) k) eqn:Es; [|done].
        exfalso. apply Hk. split; [by apply Hl|]. intros ->. by rewrite (cs_topic_name h r Hc p c Hp) in Es.
Qed.

End Registries.
