(* ===== verification/Forward.v ===== *)
(** Forwarding an event: to the queues that are configured for it, and to the
    next business process registered for it, in turn; the HTTP callbacks. *)

From S2P Require Export Lifecycle.

Section Forward.
Context {MO : MapOrder} `{Deflate} `{Proto} (cf : config).

(** The parts of the state that only the connections and the registries use. *)
Definition same_core (w w' : world) : Prop :=
  heap w' = heap w /\ reg w' = reg w /\ frame_pool w' = frame_pool w.

Lemma same_core_refl w : same_core w w.
Proof. done. Qed.

Lemma same_core_trans w1 w2 w3 : same_core w1 w2 -> same_core w2 w3 -> same_core w1 w3.
Proof. unfold same_core. intuition congruence. Qed.

Lemma same_core_Inv w w' : same_core w w' -> Inv w -> Inv w'.
Proof. intros (E1 & E2 & E3). by apply Inv_ext. Qed.

(** ** Business processes *)

(** With a listen address every event has its list, of worker connections. *)
Definition is_event (v : Z) : Prop := v = Event_OnOpen \/ v = Event_OnClose \/ v = Event_OnMessage.

Definition workers_ok (w : world) : Prop :=
  is_empty (cf_WorkerListenAddress cf) = false ->
  forall v, is_event v -> exists k, collects w !! v = Some k /\ Forall (fun p => is_Some (workers w !! p)) (k_conn k).

(** The one whose turn it is. *)
Definition next_worker (v : Z) (w : world) : option ptr :=
  if is_empty (cf_WorkerListenAddress cf) then None
  else match collects w !! v with
       | Some k => match k_conn k with
                   | [] => None
                   | l => l !! Z.to_nat (u32 (k_index k + 1) mod u32 (len l))
                   end
       | None => None
       end.

Definition turn (k : collect) : collect := mkCollect (k_conn k) (u32 (k_index k + 1)).

(** The lists after an event. *)
Definition next_turn (v : Z) (w : world) : gmap Z collect :=
  if is_empty (cf_WorkerListenAddress cf) then collects w else alter turn v (collects w).

(** The packet goes to the end of the queue, if there is room. *)
Definition enqueued (pkg : packet) (c : workerConn) : workerConn :=
  set_sendCh (fifo_enqueue pkg (sendCh c)).2 c.

Definition delivered (v : Z) (m : message) (cmd : Z) (w : world) : gmap ptr workerConn :=
  match next_worker v w, packet_set m cmd with
  | Some p, Some pkg => alter (enqueued pkg) p (workers w)
  | _, _ => workers w
  end.

Definition queued (v : Z) (m : message) : list effect :=
  (if bool_decide (v ∈ cf_AMQPEvents cf) then [EForward Amqp091 v m] else []) ++
  (if bool_decide (v ∈ cf_RedisEvents cf) then [EForward RedisQueue v m] else []).

Definition forwarded (v : Z) (m : message) (cmd : Z) (w w' : world) : Prop :=
  same_core w w' /\ env w' = env w /\ limiters w' = limiters w /\ tasks w' = tasks w /\
  collects w' = next_turn v w /\ workers w' = delivered v m cmd w /\ effects w' = effects w ++ queued v m.

Lemma insert_alter_collect (f : collect -> collect) v k (m : gmap Z collect) :
  m !! v = Some k -> <[v := f k]> m = alter f v m.
Proof.
  intros Hk. apply map_eq. intros i. destruct (decide (v = i)) as [<-|].
  - by rewrite lookup_insert_eq, lookup_alter_eq, Hk.
  - by rewrite lookup_insert_ne, lookup_alter_ne.
Qed.

Lemma insert_alter_worker (f : workerConn -> workerConn) v k (m : gmap ptr workerConn) :
  m !! v = Some k -> <[v := f k]> m = alter f v m.
Proof.
  intros Hk. apply map_eq. intros i. destruct (decide (v = i)) as [<-|].
  - by rewrite lookup_insert_eq, lookup_alter_eq, Hk.
  - by rewrite lookup_insert_ne, lookup_alter_ne.
Qed.

Lemma wp_WManager_Get v w Q :
  workers_ok w -> is_event v ->
  Q (next_worker v w) (with_collects (fun _ => next_turn v w) w) -> wp (WManager_Get cf v) w Q.
Proof.
  intros Hok Hv. unfold WManager_Get, next_worker, next_turn.
  destruct (is_empty (cf_WorkerListenAddress cf)) eqn:E; intros HQ.
  { apply wp_ret. by destruct w. }
  destruct (Hok E v Hv) as (k & Hk & _). rewrite Hk in HQ. unfold wp, wps, Collect_Get, collect_act.
  cbn [bind run]. rewrite Hk. cbn [run fst snd with_collects collects]. rewrite lookup_insert_eq. cbn [run fst snd].
  split; [done|]. unfold with_collects in *. cbn in *. rewrite insert_insert_eq.
  rewrite <- (insert_alter_collect turn v k) in HQ by done. unfold turn in HQ. by destruct (k_conn k).
Qed.

Lemma wp_Worker_Send p c m cmd w Q :
  workers w !! p = Some c ->
  (forall w', same_core w w' -> env w' = env w -> limiters w' = limiters w -> tasks w' = tasks w ->
     collects w' = collects w -> effects w' = effects w ->
     workers w' = (match packet_set m cmd with Some pkg => alter (enqueued pkg) p (workers w) | None => workers w end) ->
     Q tt w') ->
  wp (Worker_Send p m cmd) w Q.
Proof.
  intros Hp HQ. unfold Worker_Send. destruct (packet_set m cmd) as [pkg|]; [|by apply wp_ret, HQ].
  apply wp_bind. unfold wp at 1, wps at 1, worker_act. cbn [run]. rewrite Hp. cbn [run fst snd]. split; [done|].
  fold (enqueued pkg c).
  assert (<[p := enqueued pkg c]> (workers w) = alter (enqueued pkg) p (workers w)) as Ew by (by apply insert_alter_worker).
  destruct (fifo_enqueue pkg (sendCh c)).1.
  - apply wp_ret, HQ; done.
  - apply wp_modify, HQ; done.
Qed.

Lemma next_worker_is_Some v w p :
  workers_ok w -> is_event v -> next_worker v w = Some p -> is_Some (workers w !! p).
Proof.
  intros Hok Hv. unfold next_worker. destruct (is_empty (cf_WorkerListenAddress cf)) eqn:E; [done|].
  destruct (Hok E v Hv) as (k & -> & Hall). destruct (k_conn k) as [|q l]; [done|].
  intros Hp. apply list_elem_of_lookup_2 in Hp. by apply (proj1 (Forall_forall _ (q :: l)) Hall).
Qed.

Lemma wp_queue (b : bool) e w Q :
  (forall w', w' = (if b then with_effect e w else w) -> Q tt w') ->
  wp (if b then emit e else Ret tt) w Q.
Proof. intros HQ. destruct b; [by apply wp_modify, HQ|by apply wp_ret, HQ]. Qed.

Lemma wp_forward v m cmd w Q :
  workers_ok w -> is_event v ->
  (forall w', forwarded v m cmd w w' -> Q tt w') -> wp (forward cf v m cmd) w Q.
Proof.
  intros Hok Hv HQ. unfold forward. apply wp_bind, wp_queue. intros w1 E1. apply wp_bind, wp_queue. intros w2 E2.
  assert (w2 = mkWorld (heap w) (reg w) (frame_pool w) (meters w) (limiters w) (env w) (tasks w) (workers w)
            (collects w) (effects w ++ queued v m)) as ->.
  { subst. unfold queued, with_effect. destruct w as [a1 a2 a3 a4 a5 a6 a7 a8 a9 l].
    destruct (bool_decide (v ∈ cf_AMQPEvents cf)), (bool_decide (v ∈ cf_RedisEvents cf));
      cbn [app heap reg frame_pool meters limiters env tasks workers collects effects]; f_equal;
      rewrite ?app_nil_r, <- ?app_assoc; done. }
  clear E1 E2. eapply wp_bind, wp_WManager_Get; [done|done|].
  set (w2 := mkWorld _ _ _ _ _ _ _ _ _ _). assert (next_worker v w2 = next_worker v w) as -> by done.
  destruct (next_worker v w) as [p|] eqn:Ep.
  - destruct (next_worker_is_Some v w p Hok Hv Ep) as [c Hp].
    eapply wp_Worker_Send; [done|]. intros w' (E1 & E2 & E3) E4 E5 E6 E7 E8 E9. apply HQ. split_and!; try done.
    rewrite E9. unfold delivered. rewrite Ep. by destruct (packet_set m cmd).
  - apply wp_ret, HQ. split_and!; try done. unfold delivered. by rewrite Ep.
Qed.

Lemma delivered_is_Some v m cmd w p : is_Some (workers w !! p) -> is_Some (delivered v m cmd w !! p).
Proof.
  intros Hp. unfold delivered. destruct (next_worker v w) as [q|]; [|done].
  destruct (packet_set m cmd); [|done]. by rewrite lookup_alter_is_Some.
Qed.

Lemma next_workers_ok v m cmd w w' :
  workers_ok w -> collects w' = next_turn v w -> workers w' = delivered v m cmd w -> workers_ok w'.
Proof.
  intros Hok Ec Ew E u Hu. destruct (Hok E u Hu) as (k & Hk & Hall).
  rewrite Ec, Ew. unfold next_turn. rewrite E.
  assert (exists k', alter turn v (collects w) !! u = Some k' /\ k_conn k' = k_conn k) as (k' & -> & Ek).
  { destruct (decide (v = u)) as [->|].
    - rewrite lookup_alter_eq, Hk. cbn. by eexists.
    - rewrite lookup_alter_ne by done. by exists k. }
  exists k'. split; [done|]. rewrite Ek. eapply Forall_impl; [done|]. intros p. apply delivered_is_Some.
Qed.

(** ** Callbacks *)

Definition called (api : string) (req : message) : list effect :=
  match marshal req with Some b => [ECallback api b] | None => [] end.

(** The answer that a callback gets. *)
Definition post_answer (req : message) (w : world) : (Z * (bytes + string)) + string :=
  match marshal req with
  | None => inr (marshal_error req)
  | Some _ => match (next_http (env w)).1 with
              | HttpError err => inr err
              | HttpStatus status body => inl (status, body)
              end
  end.

Definition open_answer (req : ConnOpen) (w : world) : ConnOpenResp + string :=
  match post_answer (MConnOpen req) w with
  | inr err => inr err
  | inl (status, body) =>
      if negb (status =? 200)
      then inr (String.append "receive error http status code: " (pretty status))
      else match body with
           | inr err => inr err
           | inl b => match unmarshal_ConnOpenResp b with
                      | None => inr (unmarshal_error b)
                      | Some data => inl data
                      end
           end
  end.

(** A callback changes the log, the metrics and what the environment has left. *)
Definition posted (api : string) (req : message) (w w' : world) : Prop :=
  same_core w w' /\ limiters w' = limiters w /\ tasks w' = tasks w /\ collects w' = collects w /\
  workers w' = workers w /\ effects w' = effects w ++ called api req.

Lemma wp_callback_post api req w Q :
  (forall w', posted api req w w' -> Q (post_answer req w) w') -> wp (callback_post api req) w Q.
Proof.
  intros HQ. unfold callback_post, post_answer, posted, called in *. destruct (marshal req) as [b|].
  - apply wp_bind, wp_modify, wp_bind, wp_act. cbn [fst snd].
    change (env (with_effect _ w)) with (env w).
    destruct (next_http (env w)).1 as [err|status body].
    + apply wp_bind, wp_modify, wp_ret, HQ; done.
    + apply wp_bind, wp_modify, wp_bind, wp_modify, wp_ret, HQ; done.
  - apply wp_bind, wp_modify, wp_ret, HQ. split_and!; try done. cbn. by rewrite app_nil_r.
Qed.

Lemma wp_callback_OnOpen req w Q :
  (forall w', posted (cf_OnOpenApi cf) (MConnOpen req) w w' -> Q (open_answer req w) w') ->
  wp (callback_OnOpen cf req) w Q.
Proof.
  intros HQ. unfold callback_OnOpen. apply wp_bind, wp_callback_post. intros w' Hw'. apply wp_ret.
  by apply HQ.
Qed.

Lemma posted_workers_ok api req w w' : posted api req w w' -> workers_ok w -> workers_ok w'.
Proof. intros (_ & _ & _ & Ec & Ew & _) Hok E u Hu. rewrite Ec, Ew. by apply Hok. Qed.

End Forward.
