(* ===== verification/Owner.v ===== *)
(** Who may do what to the shared state of the gateway while many goroutines run.

    The tokens: the lock of a connection, the close event of a connection in its
    three phases (the connection is registered; taken out of the manager; its info read
    for the last time), the goroutine that serves a business connection, and those who
    read the bytes of a connection or of a business connection for events.  [good] is
    what holds of the state between any two actions; [rely] is what the owner of some
    tokens may count on.  The connections in [tracked] have been opened before: for
    them [good] ties the binder to the customerId whenever their lock is free. *)

From S2P Require Export Rely Forward.

Inductive token :=
  | TLock (p : ptr)      (* between [conn.Lock()] and [conn.UnLock()] *)
  | TOnline (p : ptr)    (* the close event has not begun *)
  | TLeaving (p : ptr)   (* [manager.Del] is done, [SnapshotOnSafe] is not *)
  | TGone (p : ptr)      (* [SnapshotOnSafe] is done, [binder.DelRelation] is not *)
  | TTask (p : ptr)      (* serves the business connection [p] *)
  | TLoop (p : ptr)      (* the event loop that goes through the bytes of [p] *)
  | TReader (p : ptr).   (* reads what the business connection for events [p] sends *)

#[export] Instance token_eq_dec : EqDecision token.
Proof. solve_decision. Defined.

#[export] Instance token_countable : Countable token.
Proof.
  refine (inj_countable'
    (fun t => match t with
              | TLock p => (0%nat, p) | TOnline p => (1%nat, p) | TLeaving p => (2%nat, p)
              | TGone p => (3%nat, p) | TTask p => (4%nat, p)
              | TLoop p => (5%nat, p) | TReader p => (6%nat, p)
              end)
    (fun x => match x.1 with
              | 0%nat => TLock x.2 | 1%nat => TOnline x.2 | 2%nat => TLeaving x.2
              | 3%nat => TGone x.2 | 4%nat => TTask x.2 | 5%nat => TLoop x.2 | _ => TReader x.2
              end) _).
  by intros [].
Defined.

(** The configuration, the connections whose opening is over, those whose bytes are gone
    through, of which no more arrive meanwhile, and the business connections for events
    that are read, all of whose bytes have arrived. *)
Class Serving := { sv_config : config; tracked : gset ptr; busy : gset ptr; reading : gset ptr }.

Section Owner.
Context {MO : MapOrder} {SV : Serving}.

(** The fields of [info] that its lock guards. *)
Definition guarded (r : info) : string * string * option (gmap string unit) := (customerId r, session r, topics r).

Definition closed_conn (c : Conn) : bool := IsClosedOnSafe (c_codec c).

(** The flag is 0 or 1. *)
Definition flagged (c : Conn) : Prop := closed (c_codec c) = 0 \/ closed (c_codec c) = 1.

(** What the event loop of a connection alone changes: the bytes that have arrived, and
    whether the handshake is done. *)
Definition own_view (c : Conn) : gnetConn * bool := (c_gnet c, isUpgraded (c_codec c)).

Definition alive (G : gset token) (p : ptr) : Prop := TOnline p ∈ G \/ TLeaving p ∈ G.

(** The connection under a customerId. *)
Definition entry (r : registries) (k : string) (i : Z) : option ptr := member (b_lookup r k) i.

(** A connection and its entries in the manager and the binder. *)
Record linked (r : registries) (G : gset token) (p : ptr) (c : Conn) : Prop := {
  lk_entry k q : entry r k (id (c_info c)) = Some q ->
    k <> EmptyString /\ (alive G p \/ TGone p ∈ G) /\
    (k = customerId (c_info c) \/ (alive G p /\ TLock p ∈ G));
  lk_customer : alive G p -> TLock p ∉ G -> customerId (c_info c) <> EmptyString ->
    entry r (customerId (c_info c)) (id (c_info c)) = Some p;
  lk_closed : ~ alive G p -> closed_conn c = true;
  lk_online : m_lookup r (uniqId (c_info c)) = Some p <-> TOnline p ∈ G;
}.

(** The registries hold connections, each under its own name. *)
Record registered (h : gmap ptr Conn) (r : registries) : Prop := {
  rg_manager : wf_manager r;
  rg_binder : wf_binder r;
  rg_topic : wf_topic r;
  rg_online u p : m_lookup r u = Some p -> exists c, h !! p = Some c /\ uniqId (c_info c) = u;
  rg_entry k i p : entry r k i = Some p -> exists c, h !! p = Some c /\ id (c_info c) = i;
  rg_topics k i p : member (t_lookup r k) i = Some p -> exists c, h !! p = Some c /\ id (c_info c) = i;
}.

(** No two connections have an identifier in common. *)
Definition distinct (h : gmap ptr Conn) : Prop :=
  forall p q c d, h !! p = Some c -> h !! q = Some d ->
    id (c_info c) = id (c_info d) \/ uniqId (c_info c) = uniqId (c_info d) -> p = q.

(** The phases of a close event. *)
Record phased (G : gset token) : Prop := {
  ph_tracked p : alive G p \/ TGone p ∈ G -> p ∈ tracked;
  ph_online p : TOnline p ∈ G -> TLeaving p ∉ G;
  ph_alive p : alive G p -> TGone p ∉ G;
}.

Record good (w : world) (G : gset token) : Prop := {
  gd_lock p : TLock p ∈ G <-> exists c, heap w !! p = Some c /\ locked (c_info c) = true;
  gd_registered : registered (heap w) (reg w);
  gd_distinct : distinct (heap w);
  gd_flagged p c : heap w !! p = Some c -> flagged c;
  gd_phased : phased G;
  gd_workers : workers_ok sv_config w;
  gd_linked p : p ∈ tracked -> exists c, heap w !! p = Some c /\ linked (reg w) G p c;
  gd_busy p : (TLoop p ∈ G -> p ∈ busy) /\ (TReader p ∈ G -> p ∈ reading);
}.

(** The identity of a connection stays, and so does being closed and being upgraded. *)
Definition same_conn (c c' : Conn) : Prop :=
  id (c_info c') = id (c_info c) /\ uniqId (c_info c') = uniqId (c_info c) /\
  (closed_conn c = true -> closed_conn c' = true) /\ (flagged c -> flagged c') /\
  (isUpgraded (c_codec c) = true -> isUpgraded (c_codec c') = true).

(** What no step of any goroutine undoes. *)
Record grows (w w' : world) : Prop := {
  gw_heap p c : heap w !! p = Some c -> exists c', heap w' !! p = Some c' /\ same_conn c c';
  gw_workers p : is_Some (workers w !! p) -> is_Some (workers w' !! p);
  gw_tasks p : is_Some (tasks w !! p) -> is_Some (tasks w' !! p);
}.

(** What the owner of [h] may count on besides. *)
Record rely (h : gset token) (s s' : world * gset token) : Prop := {
  rl_grows : grows s.1 s'.1;
  rl_guarded p c c' : TLock p ∈ h -> heap s.1 !! p = Some c -> heap s'.1 !! p = Some c' ->
    guarded (c_info c') = guarded (c_info c);
  rl_gone p c c' : TGone p ∈ h -> heap s.1 !! p = Some c -> heap s'.1 !! p = Some c' ->
    customerId (c_info c') = customerId (c_info c);
  rl_held p c : TLock p ∈ h -> alive s.2 p -> heap s.1 !! p = Some c ->
    alive s'.2 p /\ forall k, entry (reg s'.1) k (id (c_info c)) = entry (reg s.1) k (id (c_info c));
  rl_task p : TTask p ∈ h -> tasks s'.1 !! p = tasks s.1 !! p;
  rl_phase p : alive s'.2 p -> alive s.2 p;
  rl_buffer p c c' : TLoop p ∈ h -> heap s.1 !! p = Some c -> heap s'.1 !! p = Some c' -> own_view c' = own_view c;
  rl_input p c c' : TReader p ∈ h -> workers s.1 !! p = Some c -> workers s'.1 !! p = Some c' ->
    n_in (w_net c') = n_in (w_net c);
}.

Lemma same_conn_refl c : same_conn c c.
Proof. done. Qed.

Lemma same_conn_trans c1 c2 c3 : same_conn c1 c2 -> same_conn c2 c3 -> same_conn c1 c3.
Proof. unfold same_conn. intuition congruence. Qed.

Lemma grows_refl w : grows w w.
Proof. split; [|done|done]. intros p c Hp. by exists c. Qed.

Lemma grows_trans w1 w2 w3 : grows w1 w2 -> grows w2 w3 -> grows w1 w3.
Proof.
  intros [H1 H2 H3] [K1 K2 K3]. split; [|eauto|eauto]. intros p c Hp.
  destruct (H1 p c Hp) as (c2 & Hp2 & Hs). destruct (K1 p c2 Hp2) as (c3 & Hp3 & Hs').
  exists c3. split; [done|]. by eapply same_conn_trans.
Qed.

Lemma rely_refl h s : rely h s s.
Proof. split; [apply grows_refl|by intros; simplify_eq|by intros; simplify_eq|done|done|done|by intros; simplify_eq|by intros; simplify_eq]. Qed.

Lemma rely_trans h s1 s2 s3 : rely h s1 s2 -> rely h s2 s3 -> rely h s1 s3.
Proof.
  intros [H1 H2 H2' H3 H4 H5 H6 H7] [K1 K2 K2' K3 K4 K5 K6 K7]. split.
  - by eapply grows_trans.
  - intros p c c' Ht Hp Hp'. destruct (gw_heap _ _ H1 p c Hp) as (c2 & Hp2 & _).
    rewrite (K2 p c2 c' Ht Hp2 Hp'). by apply (H2 p).
  - intros p c c' Ht Hp Hp'. destruct (gw_heap _ _ H1 p c Hp) as (c2 & Hp2 & _).
    rewrite (K2' p c2 c' Ht Hp2 Hp'). by apply (H2' p).
  - intros p c Ht Hal Hp. destruct (gw_heap _ _ H1 p c Hp) as (c2 & Hp2 & Hid & _).
    destruct (H3 p c Ht Hal Hp) as [Hal2 He]. destruct (K3 p c2 Ht Hal2 Hp2) as [Hal3 He'].
    split; [done|]. intros k. rewrite <- Hid, He', Hid. apply He.
  - intros p Ht. by rewrite K4, H4.
  - eauto.
  - intros p c c' Ht Hp Hp'. destruct (gw_heap _ _ H1 p c Hp) as (c2 & Hp2 & _).
    rewrite (K6 p c2 c' Ht Hp2 Hp'). by apply (H6 p).
  - intros p c c' Ht Hp Hp'. destruct (gw_workers _ _ H1 p (mk_is_Some _ _ Hp)) as [c2 Hp2].
    rewrite (K7 p c2 c' Ht Hp2 Hp'). by apply (H7 p).
Qed.

Lemma rely_mono h h' s s' : h ⊆ h' -> rely h' s s' -> rely h s s'.
Proof.
  intros Hh [H1 H2 H2' H3 H4 H5 H6 H7].
  split; [done|intros p c c' Ht; apply (H2 p)|intros p c c' Ht; apply (H2' p)|eauto|eauto|done|intros p c c' Ht; apply (H6 p)|intros p c c' Ht; apply (H7 p)]; by apply Hh.
Qed.

Definition is_lock (t : token) : Prop := match t with TLock _ => True | _ => False end.

#[export] Instance gateway : Discipline world token := {|
  d_inv := good; d_rely := rely; d_lock := is_lock;
  d_rely_refl := rely_refl; d_rely_trans := rely_trans; d_rely_mono := rely_mono;
|}.

(** ** The steps that change nothing of this *)

Record aside (w w' : world) : Prop := {
  as_heap : heap w' = heap w;
  as_reg : reg w' = reg w;
  as_workers : workers_ok sv_config w -> workers_ok sv_config w';
  as_grow p : is_Some (workers w !! p) -> is_Some (workers w' !! p);
  as_tasks : tasks w' = tasks w;
  as_input p c c' : workers w !! p = Some c -> workers w' !! p = Some c' -> n_in (w_net c') = n_in (w_net c);
}.

Lemma aside_inner w w' :
  heap w' = heap w -> reg w' = reg w -> workers w' = workers w -> collects w' = collects w -> tasks w' = tasks w ->
  aside w w'.
Proof.
  intros E1 E2 E3 E4 E5. split; [done|done| |by rewrite E3|done|rewrite E3; by intros; simplify_eq].
  unfold workers_ok. by rewrite E3, E4.
Qed.

Lemma aside_good w w' G : aside w w' -> good w G -> good w' G.
Proof. intros [E1 E2 E3 E4 E5 _] [H1 H2 H3 H4 H5 H6]. split; rewrite ?E1, ?E2; auto. Qed.

Lemma aside_rely w w' G ho : aside w w' -> rely ho (w, G) (w', G).
Proof.
  intros [E1 E2 E3 E4 E5 E6]. split; cbn; rewrite ?E1, ?E2, ?E5; [|by intros; simplify_eq|by intros; simplify_eq|done|done|done|by intros; simplify_eq|by intros p c c' _; apply E6].
  split; rewrite ?E1, ?E5; [|done|done]. intros p c Hp. by exists c.
Qed.

(** ** One connection changes *)

Lemma rely_conn w G G' p c c' ho :
  heap w !! p = Some c -> same_conn c c' ->
  (TLock p ∈ ho -> guarded (c_info c') = guarded (c_info c)) ->
  (TGone p ∈ ho -> customerId (c_info c') = customerId (c_info c)) ->
  (forall q, alive G' q <-> alive G q) ->
  (TLoop p ∈ ho -> own_view c' = own_view c) ->
  rely ho (w, G) (with_heap (insert p c') w, G').
Proof.
  intros Hp Hs Hg Hg' Hal Hb. split; cbn.
  - split; cbn; [|done|done]. intros q d Hq. destruct (decide (p = q)) as [<-|Hne].
    + simplify_eq. exists c'. by rewrite lookup_insert_eq.
    + exists d. by rewrite lookup_insert_ne.
  - intros q d d' Ht Hq Hq'. destruct (decide (p = q)) as [<-|Hne].
    + rewrite lookup_insert_eq in Hq'. simplify_eq. by apply Hg.
    + rewrite lookup_insert_ne in Hq' by done. by simplify_eq.
  - intros q d d' Ht Hq Hq'. destruct (decide (p = q)) as [<-|Hne].
    + rewrite lookup_insert_eq in Hq'. simplify_eq. by apply Hg'.
    + rewrite lookup_insert_ne in Hq' by done. by simplify_eq.
  - intros q d _ Hq _. split; [by apply Hal|done].
  - done.
  - intros q. apply Hal.
  - intros q d d' Ht Hq Hq'. destruct (decide (p = q)) as [<-|Hne].
    + rewrite lookup_insert_eq in Hq'. simplify_eq. by apply Hb.
    + rewrite lookup_insert_ne in Hq' by done. by simplify_eq.
  - by intros; simplify_eq.
Qed.

Lemma good_conn w G G' p c c' :
  good w G -> heap w !! p = Some c -> same_conn c c' ->
  (forall q, q <> p -> TLock q ∈ G' <-> TLock q ∈ G) ->
  (TLock p ∈ G' <-> locked (c_info c') = true) ->
  (forall q, (TOnline q ∈ G' <-> TOnline q ∈ G) /\ (TLeaving q ∈ G' <-> TLeaving q ∈ G) /\ (TGone q ∈ G' <-> TGone q ∈ G) /\
     (TLoop q ∈ G' -> TLoop q ∈ G) /\ (TReader q ∈ G' -> TReader q ∈ G)) ->
  (p ∈ tracked -> linked (reg w) G p c -> linked (reg w) G' p c') ->
  good (with_heap (insert p c') w) G'.
Proof.
  intros [H1 H2 H3 H3' H4 H5 H6 H7] Hp (Hid & Hu & Hcl & Hfl & _) Hother Hself Hph Hlk.
  assert (forall q, alive G' q <-> alive G q) as Hal by (intros q; unfold alive; destruct (Hph q) as (? & ? & ? & ? & ?); tauto).
  assert (forall q d, (<[p := c']> (heap w)) !! q = Some d ->
            exists d0, heap w !! q = Some d0 /\ id (c_info d) = id (c_info d0) /\ uniqId (c_info d) = uniqId (c_info d0)) as Hback.
  { intros q d Hq. destruct (decide (p = q)) as [<-|Hne].
    - rewrite lookup_insert_eq in Hq. simplify_eq. by exists c.
    - rewrite lookup_insert_ne in Hq by done. by exists d. }
  assert (forall q d, heap w !! q = Some d ->
            exists d', (<[p := c']> (heap w)) !! q = Some d' /\ id (c_info d') = id (c_info d) /\ uniqId (c_info d') = uniqId (c_info d)) as Hforth.
  { intros q d Hq. destruct (decide (p = q)) as [<-|Hne].
    - simplify_eq. exists c'. by rewrite lookup_insert_eq.
    - exists d. by rewrite lookup_insert_ne. }
  split; cbn.
  - intros q. destruct (decide (p = q)) as [<-|Hne].
    + rewrite Hself, lookup_insert_eq. naive_solver.
    + by rewrite Hother, lookup_insert_ne, H1 by done.
  - destruct H2 as [R1 R2 R3 R4 R5 R6]. split; try done.
    + intros u q Hq. destruct (R4 u q Hq) as (d & Hd & Hud). destruct (Hforth q d Hd) as (d' & Hd' & _ & E).
      exists d'. split; [done|congruence].
    + intros k i q Hq. destruct (R5 k i q Hq) as (d & Hd & Hud). destruct (Hforth q d Hd) as (d' & Hd' & E & _).
      exists d'. split; [done|congruence].
    + intros k i q Hq. destruct (R6 k i q Hq) as (d & Hd & Hud). destruct (Hforth q d Hd) as (d' & Hd' & E & _).
      exists d'. split; [done|congruence].
  - intros q1 q2 d1 d2 Hq1 Hq2 Heq. destruct (Hback q1 d1 Hq1) as (e1 & He1 & E1 & E1').
    destruct (Hback q2 d2 Hq2) as (e2 & He2 & E2 & E2'). eapply (H3 q1 q2 e1 e2); [done|done|].
    destruct Heq; [left|right]; congruence.
  - intros q d Hq. destruct (decide (p = q)) as [<-|Hne].
    + rewrite lookup_insert_eq in Hq. simplify_eq. by eapply Hfl, H3'.
    + rewrite lookup_insert_ne in Hq by done. by eapply H3'.
  - destruct H4 as [P1 P2 P3]. split; intros q; destruct (Hph q) as (F1 & F2 & F3 & _).
    + rewrite Hal, F3. apply P1.
    + rewrite F1, F2. apply P2.
    + rewrite Hal, F3. apply P3.
  - exact H5.
  - intros q Hq. destruct (H6 q Hq) as (d & Hd & Hl). destruct (decide (p = q)) as [<-|Hne].
    + simplify_eq. exists c'. rewrite lookup_insert_eq. split; [done|]. by apply Hlk.
    + exists d. rewrite lookup_insert_ne by done. split; [done|]. destruct (Hph q) as (F1 & F2 & F3 & _).
      destruct Hl as [L1 L2 L3 L4]. split.
      * intros k x. rewrite Hal, F3, (Hother q) by done. apply L1.
      * rewrite Hal, (Hother q) by done. apply L2.
      * rewrite Hal. apply L3.
      * by rewrite F1.
  - intros q. destruct (H7 q) as [B1 B2], (Hph q) as (_ & _ & _ & F4 & F5). auto.
Qed.

(** The change of one that keeps what [good] sees. *)
Lemma linked_same r G p c c' :
  same_conn c c' -> customerId (c_info c') = customerId (c_info c) -> linked r G p c -> linked r G p c'.
Proof.
  intros (Hid & Hu & Hcl & _) Hk [L1 L2 L3 L4]. split; rewrite ?Hid, ?Hu, ?Hk; auto.
Qed.

(** The change of one that keeps the customerId and the lock, and the buffer while the
    event loop is there. *)
Lemma conn_step w G p c c' :
  good w G -> heap w !! p = Some c -> same_conn c c' ->
  locked (c_info c') = locked (c_info c) -> guarded (c_info c') = guarded (c_info c) ->
  (p ∈ busy -> own_view c' = own_view c) ->
  good (with_heap (insert p c') w) G /\
  forall ho, ho ⊆ G -> rely ho (w, G) (with_heap (insert p c') w, G).
Proof.
  intros Hg Hp Hs Hl Hgd Hb. split.
  - eapply good_conn; [done|done|done|done| |done|].
    + rewrite Hl, (gd_lock _ _ Hg). naive_solver.
    + intros _. apply linked_same; [done|]. unfold guarded in Hgd. congruence.
  - intros ho Hho. eapply rely_conn; [done|done|done| |done|].
    + intros _. unfold guarded in Hgd. congruence.
    + intros Ht. by apply Hb, (gd_busy _ _ Hg), Hho.
Qed.

(** ** The registries change *)

Lemma rely_reg w G G' g ho :
  (forall p, alive G p -> TLock p ∈ ho -> alive G' p) -> (forall p, alive G' p -> alive G p) ->
  (forall p c k, alive G p -> TLock p ∈ ho -> heap w !! p = Some c ->
     entry (g (reg w)) k (id (c_info c)) = entry (reg w) k (id (c_info c))) ->
  rely ho (w, G) (with_reg g w, G').
Proof.
  intros Hal Hal' He. split; cbn; [|by intros; simplify_eq|by intros; simplify_eq|by eauto|done|done|by intros; simplify_eq|by intros; simplify_eq].
  split; cbn; [|done|done]. intros p c Hp. by exists c.
Qed.

Lemma good_reg w G G' g :
  good w G -> (forall q, (TLock q ∈ G' <-> TLock q ∈ G) /\ (TLoop q ∈ G' -> TLoop q ∈ G) /\ (TReader q ∈ G' -> TReader q ∈ G)) -> phased G' -> registered (heap w) (g (reg w)) ->
  (forall p c, p ∈ tracked -> heap w !! p = Some c -> linked (reg w) G p c -> linked (g (reg w)) G' p c) ->
  good (with_reg g w) G'.
Proof.
  intros [H1 H2 H3 H3' H4 H5 H6 H7] Hlock Hph Hreg Hlk. split; cbn; try done.
  - intros p. rewrite (proj1 (Hlock p)). apply H1.
  - intros p Hp. destruct (H6 p Hp) as (c & Hc & Hl). exists c. split; [done|]. by apply Hlk.
  - intros p. destruct (H7 p) as [B1 B2], (Hlock p) as (_ & F1 & F2). auto.
Qed.
End Owner.

#[global] Arguments entry : simpl never.
#[global] Arguments alive : simpl never.

(** ** Rules for the operations of the gateway under the discipline of [Owner]: one
    lemma per operation that disturbs nobody, for any tokens its goroutine owns. *)

Section Rules.
Context {MO : MapOrder} {SV : Serving}.

Abbreviation seen := (world * gset token)%type.

Definition valid (p : ptr) (s : seen) : Prop := is_Some (heap s.1 !! p).

Lemma valid_rely h s s' p : rely h s s' -> valid p s -> valid p s'.
Proof. intros Hr [c Hp]. destruct (gw_heap _ _ (rl_grows _ _ _ Hr) p c Hp) as (c' & Hp' & _). by exists c'. Qed.

Lemma valid_all h s s' l : rely h s s' -> Forall (fun p => valid p s) l -> Forall (fun p => valid p s') l.
Proof. intros Hr Hl. eapply Forall_impl; [exact Hl|]. intros p. by apply (valid_rely h). Qed.

(** ** Actions *)

Lemma calm_aside {A} h s (f : world -> A * world) (P : A -> seen -> Prop) :
  (forall w, aside w (f w).2) -> (forall w G, rely h s (w, G) -> good w G -> P (f w).1 ((f w).2, G)) ->
  calm h s (act f) P.
Proof.
  intros Hf HP. apply calm_do. intros w G Hr Hi _. split_and!.
  - by apply (aside_good w).
  - intros ho _. by apply aside_rely.
  - by apply HP.
Qed.

Lemma calm_step h s (f : world -> world) :
  (forall w, aside w (f w)) -> calm h s (modify f) (fun _ _ => True).
Proof. intros Hf. by apply calm_aside. Qed.

Lemma calm_read {A} h s (f : world -> A) : calm h s (gets f) (fun _ _ => True).
Proof. by apply calm_gets. Qed.

Lemma calm_conn_get {A} h s p (f : Conn -> A) (P : A -> seen -> Prop) :
  valid p s ->
  (forall w G c, rely h s (w, G) -> good w G -> h ⊆ G -> heap w !! p = Some c -> P (f c) (w, G)) ->
  calm h s (conn_get p f) P.
Proof.
  intros Hv HP. apply calm_act. intros w G Hr Hi Hh.
  destruct (valid_rely h s (w, G) p Hr Hv) as [c Hp]. cbn in Hp. rewrite Hp. split_and!; [done| |by eapply HP].
  intros ho _. apply d_rely_refl.
Qed.

Lemma calm_conn_see {A} h s p (f : Conn -> A) : valid p s -> calm h s (conn_get p f) (fun _ _ => True).
Proof. intros Hv. by apply calm_conn_get. Qed.

(** A change that keeps the identity, the lock, what the lock guards, and what is the event loop's. *)
Definition mild (f : Conn -> Conn) : Prop :=
  forall c, same_conn c (f c) /\ locked (c_info (f c)) = locked (c_info c) /\
            guarded (c_info (f c)) = guarded (c_info c) /\ own_view (f c) = own_view c.

Lemma calm_conn_act {A} h s p (f : Conn -> A * Conn) :
  valid p s -> mild (fun c => (f c).2) -> calm h s (conn_act p f) (fun _ _ => True).
Proof.
  intros Hv Hf. apply calm_act. intros w G Hr Hi Hh.
  destruct (valid_rely h s (w, G) p Hr Hv) as [c Hp]. cbn in Hp. rewrite Hp. destruct (Hf c) as (Hs & Hl & Hg & Hb).
  destruct (conn_step w G p c (f c).2 Hi Hp Hs Hl Hg (fun _ => Hb)) as [Hi' Hr']. split_and!; [done| |done].
  intros ho Hho. apply Hr'. set_solver.
Qed.

Lemma calm_info_act {A} h s p (f : info -> A * info) :
  valid p s -> mild (upd_info (fun r => (f r).2)) -> calm h s (info_act p f) (fun _ _ => True).
Proof. intros Hv Hf. by apply calm_conn_act. Qed.

(** Waiting for a lock that is held: somebody owns it. *)
Lemma held_lock w G p c : good w G -> heap w !! p = Some c -> locked (c_info c) = true -> exists t, t ∈ G /\ is_lock t.
Proof. intros Hg Hp Hl. exists (TLock p). split; [|done]. apply (gd_lock _ _ Hg). eauto. Qed.

Lemma calm_locked_get {A} h s p (f : info -> A) (P : A -> seen -> Prop) :
  valid p s -> lock_free h ->
  (forall w G c, rely h s (w, G) -> good w G -> h ⊆ G -> heap w !! p = Some c -> P (f (c_info c)) (w, G)) ->
  calm h s (locked_get p f) P.
Proof.
  intros Hv Hfree HP. apply calm_act. intros w G Hr Hi Hh.
  destruct (valid_rely h s (w, G) p Hr Hv) as [c Hp]. cbn in Hp. rewrite Hp.
  destruct (locked (c_info c)) eqn:Hl.
  - split; [done|]. by apply (held_lock w G p c).
  - split_and!; [done| |by eapply HP]. intros ho _. apply d_rely_refl.
Qed.

Lemma calm_UnsubscribeTopicOnSafe h s p t :
  valid p s -> lock_free h -> calm h s (UnsubscribeTopicOnSafe p t) (fun _ _ => True).
Proof.
  intros Hv Hfree. apply calm_act. intros w G Hr Hi Hh.
  destruct (valid_rely h s (w, G) p Hr Hv) as [c Hp]. cbn in Hp. rewrite Hp.
  destruct (locked (c_info c)) eqn:Hl; [split; [done|]; by apply (held_lock w G p c)|].
  assert (forall r, id (UnsubscribeTopic t r).2 = id r /\ uniqId (UnsubscribeTopic t r).2 = uniqId r /\
            customerId (UnsubscribeTopic t r).2 = customerId r /\ locked (UnsubscribeTopic t r).2 = locked r) as Hu.
  { intros r. unfold UnsubscribeTopic. destruct (topics r) as [m|]; [|done]. by destruct (m !! t). }
  destruct (Hu (c_info c)) as (U1 & U2 & U3 & U4).
  assert (same_conn c (upd_info (fun r => (UnsubscribeTopic t r).2) c)) as Hs by done.
  assert (TLock p ∉ G) as Hn.
  { intros Ht. apply (gd_lock _ _ Hi) in Ht as (c0 & Hc0 & Hl0). congruence. }
  split_and!; [| |done].
  - eapply good_conn; [done|done|done|done| |done|].
    + rewrite (gd_lock _ _ Hi). cbn. rewrite U4. naive_solver.
    + intros _. by apply linked_same.
  - intros ho Hho. eapply rely_conn; [done|done| |done|done|done]. intros Ht. by destruct (Hn (Hho _ Ht)).
Qed.

(** ** The business connections *)

Definition task_valid (p : ptr) (s : seen) : Prop := is_Some (tasks s.1 !! p).

(** The tokens of the business connections do not matter to the state, and those of the
    event loops may go. *)
Lemma good_tasks w G G' :
  (forall t, match t with TTask _ => True | TLoop _ | TReader _ => t ∈ G' -> t ∈ G | _ => t ∈ G' <-> t ∈ G end) -> good w G -> good w G'.
Proof.
  intros HG [H1 H2 H3 H3' H4 H5 H6 H7].
  assert (forall q, TLock q ∈ G' <-> TLock q ∈ G) as E1 by (intros q; apply (HG (TLock q))).
  assert (forall q, TOnline q ∈ G' <-> TOnline q ∈ G) as E2 by (intros q; apply (HG (TOnline q))).
  assert (forall q, TLeaving q ∈ G' <-> TLeaving q ∈ G) as E3 by (intros q; apply (HG (TLeaving q))).
  assert (forall q, TGone q ∈ G' <-> TGone q ∈ G) as E4 by (intros q; apply (HG (TGone q))).
  assert (forall q, alive G' q <-> alive G q) as E5 by (intros q; unfold alive; by rewrite E2, E3).
  split; try done.
  - intros q. rewrite E1. apply H1.
  - destruct H4 as [P1 P2 P3]. split; intros q; rewrite ?E5, ?E4, ?E2, ?E3; auto.
  - intros q Hq. destruct (H6 q Hq) as (c & Hc & [L1 L2 L3 L4]). exists c. split; [done|].
    split; [intros k x Hx| | |]; rewrite ?E5, ?E4, ?E2, ?E1; auto. by apply (L1 k x).
  - intros q. destruct (H7 q) as [B1 B2]. split; [intros Hq; by apply B1, (HG (TLoop q))|intros Hq; by apply B2, (HG (TReader q))].
Qed.

(** The goroutine that serves a business connection knows its state; with its last
    action it may give its token up. *)
Lemma safe_net_act_to {A} s p n h' (f : netConn -> A * netConn) (Q : A -> gset token -> seen -> Prop) :
  tasks s.1 !! p = Some n -> h' ⊆ {[TTask p]} ->
  (forall s', tasks s'.1 !! p = Some (f n).2 -> Q (f n).1 h' s') ->
  safe (net_act p f) {[TTask p]} s Q.
Proof.
  intros Hn Hh' HQ w G Hr Hi Hh.
  pose proof (rl_task _ _ _ Hr p (elem_of_singleton_2 _ _ eq_refl)) as Ht. cbn in Ht. rewrite Ht, Hn.
  exists h'. set (G' := G ∖ {[TTask p]} ∪ h').
  assert (forall t, match t with TTask _ => True | TLoop _ | TReader _ => t ∈ G' -> t ∈ G | _ => t ∈ G' <-> t ∈ G end) as HG.
  { intros []; try done; unfold G'; set_solver. }
  assert (forall q, alive G' q <-> alive G q) as Hal.
  { intros q. pose proof (HG (TOnline q)) as E1. pose proof (HG (TLeaving q)) as E2. unfold alive. cbn in E1, E2. tauto. }
  split; [split_and!|].
  - set_solver.
  - apply (good_tasks _ G); [exact HG|]. destruct Hi as [H1 H2 H3 H3' H4 H5 H6 H7]. by split.
  - intros ho Hho. split; cbn; [|by intros; simplify_eq|by intros; simplify_eq| | | |by intros; simplify_eq|by intros; simplify_eq].
    + split; cbn; [|done|]. { intros q c Hq. by exists c. }
      intros q Hq. destruct (decide (p = q)) as [<-|Hne]; [by rewrite lookup_insert_eq|by rewrite lookup_insert_ne].
    + intros q c _ Ha _. split; [by apply Hal|done].
    + intros q Hq. rewrite lookup_insert_ne; [done|]. intros <-. set_solver.
    + intros q. apply Hal.
  - apply HQ. cbn. by rewrite lookup_insert_eq.
Qed.

Lemma safe_net_act {A} s p n (f : netConn -> A * netConn) (Q : A -> gset token -> seen -> Prop) :
  tasks s.1 !! p = Some n ->
  (forall s', tasks s'.1 !! p = Some (f n).2 -> Q (f n).1 {[TTask p]} s') ->
  safe (net_act p f) {[TTask p]} s Q.
Proof. intros Hn. by apply safe_net_act_to. Qed.
End Rules.
