(* ===== verification/OwnerReg.v ===== *)
(** The registries under the discipline of [Owner]: every critical section of the
    manager, the binder and the topic registry keeps them well formed and holding
    connections only, whatever happens between two sections of a loop. *)

From S2P Require Export Owner.

Section Registries.
Context {MO : MapOrder} {SV : Serving}.
Abbreviation seen := (world * gset token)%type.

(** ** One shard of a map of names *)

Section OneGroup.
Context (f : gmap string (gmap Z ptr) -> string -> gmap string (gmap Z ptr)) (g : option (gmap Z ptr) -> option (gmap Z ptr)).
Hypothesis f_lookup : forall m t k, f m t !! k = if decide (t = k) then g (m !! k) else m !! k.
Hypothesis g_idemp : forall o, g (g o) = g o.
Hypothesis g_no_empty : forall o, no_empty o -> no_empty (g o).

Lemma group_update i l s :
  wf_shards s -> (i < shardCount)%nat -> Forall (in_shard i) l ->
  wf_shards (alter (fun m => foldl f m l) i s) /\
  forall k, shard_lookup (alter (fun m => foldl f m l) i s) k =
    if decide (k ∈ l) then g (shard_lookup s k) else shard_lookup s k.
Proof.
  intros Hwf Hi Hl. rewrite Forall_forall in Hl. split.
  - apply wf_alter; [done|]. intros m k. rewrite (foldl_f_lookup f g) by done. case_decide as Hk; [|auto].
    intros _. right. by apply Hl.
  - intros k. rewrite lookup_alter_shard, (foldl_f_lookup f g) by done. unfold shard_lookup.
    destruct (decide (k ∈ l)) as [Hk|Hk].
    + destruct (Hl k Hk) as [_ E]. by rewrite decide_True, E.
    + case_decide as E; [by rewrite E|done].
Qed.

(** A step that updates a shard of the topics. *)
Lemma registered_group h r i l :
  registered h r -> (i < shardCount)%nat -> Forall (in_shard i) l ->
  (forall o j q, member (g o) j = Some q -> member o j = Some q \/ exists c, h !! q = Some c /\ id (c_info c) = j) ->
  registered h (with_t (alter (fun m => foldl f m l) i (t_shards r)) r).
Proof.
  intros [R1 R2 [R3 R3'] R4 R5 R6] Hi Hl Hg. destruct (group_update i l (t_shards r) R3 Hi Hl) as [Hwf Hlk].
  split; try done.
  - split; [done|]. intros k. unfold t_lookup. cbn [t_shards with_t]. rewrite Hlk.
    case_decide; [|apply R3']. apply g_no_empty, R3'.
  - intros k j q. unfold t_lookup. cbn [t_shards with_t]. rewrite Hlk. case_decide; [|apply R6].
    intros Hm. destruct (Hg _ _ _ Hm) as [Hm'|Hm']; [|done]. by eapply R6.
Qed.

Lemma elem_of_groups x keys : x ∈ groups keys -> (x.1 < shardCount)%nat /\ Forall (in_shard x.1) x.2.
Proof.
  intros Hx. apply list_elem_of_lookup in Hx as [i Hi].
  assert (i < shardCount)%nat as Hlt by (rewrite <- (length_groups keys); by eapply lookup_lt_Some).
  rewrite groups_lookup in Hi by done. injection Hi as <-. cbn. split; [done|].
  apply Forall_forall. intros k Hk. by apply list_elem_of_filter in Hk as [? _].
Qed.

Lemma calm_update_groups h s keys :
  (forall w G o j q, rely h s (w, G) -> good w G -> member (g o) j = Some q ->
     member o j = Some q \/ exists c, heap w !! q = Some c /\ id (c_info c) = j) ->
  calm h s (update_groups f keys) (fun _ _ => True).
Proof.
  intros Hg. unfold update_groups. apply (calm_for_each h s _ _ (fun _ => True)); [done|].
  intros x s1 Hx Hr1 _. apply elem_of_groups in Hx as [Hx Hin].
  destruct (no_keys x); [by apply (calm_ret h s1 tt (fun _ _ => True))|].
  apply calm_modify. intros w G Hr Hi Hh. split_and!; [| |done].
  - apply (good_reg w G); [done|done|apply Hi| |].
    + apply registered_group; [apply Hi|done|done|]. intros o j q. apply (Hg w G); [|done].
      by eapply rely_trans.
    + intros p c Hp _ [L1 L2 L3 L4]. by split.
  - intros ho _. by apply rely_reg; eauto.
Qed.
End OneGroup.

Lemma calm_topics_set h s i p keys :
  (exists c, heap s.1 !! p = Some c /\ id (c_info c) = i) ->
  calm h s (update_groups (rel_set i p) keys) (fun _ _ => True).
Proof.
  intros (c & Hp & Hid). apply (calm_update_groups _ (set_entry i p)).
  - intros. apply rel_set_lookup.
  - apply set_entry_idemp.
  - intros. apply no_empty_set.
  - intros w G o j q Hr _. rewrite member_set. case_decide as Hj; [|by left]. intros [= <-]. right.
    destruct (gw_heap _ _ (rl_grows _ _ _ Hr) p c Hp) as (c' & Hp' & E & _). exists c'. split; [done|congruence].
Qed.

Lemma calm_topics_del h s i keys : calm h s (update_groups (rel_del i) keys) (fun _ _ => True).
Proof.
  apply (calm_update_groups _ (del_entry i)).
  - intros. apply rel_del_lookup.
  - apply del_entry_idemp.
  - intros. apply no_empty_del.
  - intros w G o j q _ _. rewrite member_del. case_decide; [done|by left].
Qed.

(** ** The topics *)

Lemma calm_Topic_SetRelation h s l p : valid p s -> calm h s (Topic_SetRelation l (Some p)) (fun _ _ => True).
Proof.
  intros Hv. unfold Topic_SetRelation. destruct l as [|t l]; [by apply (calm_ret h s tt (fun _ _ => True))|].
  eapply (calm_bind h s _ _ (fun i s' => exists c, heap s'.1 !! p = Some c /\ id (c_info c) = i)).
  - apply calm_conn_get; [done|]. intros w G c _ _ _ Hp. by exists c.
  - intros i s' Hr Hi. by apply calm_topics_set.
Qed.

Lemma calm_Topic_DelRelationBySlice h s l p : valid p s -> calm h s (Topic_DelRelationBySlice l p) (fun _ _ => True).
Proof.
  intros Hv. unfold Topic_DelRelationBySlice. destruct l as [|t l]; [by apply (calm_ret h s tt (fun _ _ => True))|].
  eapply calm_bind; [by apply calm_conn_see|]. intros. apply calm_topics_del.
Qed.

Lemma calm_Topic_DelRelationByMap h s m p : valid p s -> calm h s (Topic_DelRelationByMap m p) (fun _ _ => True).
Proof.
  intros Hv. unfold Topic_DelRelationByMap. cbv zeta.
  destruct (size (default ∅ m) =? 0)%nat; [by apply (calm_ret h s tt (fun _ _ => True))|].
  eapply calm_bind; [by apply calm_conn_see|]. intros. apply calm_topics_del.
Qed.

(** What is in a shard is a connection. *)
Lemma shard_topics w G i t m j q :
  good w G -> (i < shardCount)%nat -> t_shard i w !! t = Some m -> m !! j = Some q -> is_Some (heap w !! q).
Proof.
  intros Hi Hlt Ht Hj. pose proof (gd_registered _ _ Hi) as R. destruct (rg_topic _ _ R) as [Hwf _].
  destruct (rg_topics _ _ R t j q) as (c & Hc & _); [|by exists c].
  unfold t_lookup. rewrite (shard_entry _ i (t_shard i w) t m); [exact Hj|done|by apply shard_at|done].
Qed.

Lemma shard_binder w G i t m j q :
  good w G -> (i < shardCount)%nat -> b_shard i w !! t = Some m -> m !! j = Some q -> is_Some (heap w !! q).
Proof.
  intros Hi Hlt Ht Hj. pose proof (gd_registered _ _ Hi) as R. destruct (rg_binder _ _ R) as [Hwf _].
  destruct (rg_entry _ _ R t j q) as (c & Hc & _); [|by exists c].
  unfold entry, b_lookup. rewrite (shard_entry _ i (b_shard i w) t m); [exact Hj|done|by apply shard_at|done].
Qed.

Lemma shard_manager w G i u q :
  good w G -> (i < shardCount)%nat -> m_shard i w !! u = Some q -> is_Some (heap w !! q).
Proof.
  intros Hi Hlt Ht. pose proof (gd_registered _ _ Hi) as R. destruct (rg_manager _ _ R) as (Hwf & _).
  destruct (rg_online _ _ R u q) as (c & Hc & _); [|by exists c].
  by rewrite <- (shard_entry _ i (m_shard i w) u q Hwf (shard_at _ i Hwf Hlt) Ht).
Qed.

(** Sets of connections that are all there. *)
Definition valid_map (m : gmap Z ptr) (s : seen) : Prop := forall j q, m !! j = Some q -> valid q s.

Lemma valid_map_rely h s s' m : rely h s s' -> valid_map m s -> valid_map m s'.
Proof. intros Hr Hm j q Hq. eapply valid_rely; [done|]. by eapply Hm. Qed.

Lemma valid_map_list m s : valid_map m s -> Forall (fun p => valid p s) (range_map m).*2.
Proof.
  intros Hm. apply Forall_forall. intros q Hq. apply list_elem_of_fmap in Hq as ([j q'] & -> & Hj).
  apply elem_of_range in Hj. by eapply Hm.
Qed.

(** [Del] gives the connections of the topics it takes out. *)
Lemma calm_Topic_Del h s keys :
  calm h s (Topic_Del keys) (fun ret s' => forall t m, ret !! t = Some m -> valid_map m s').
Proof.
  assert (forall s (ret : gmap string (gmap Z ptr)), (forall t m, ret !! t = Some m -> valid_map m s) ->
    forall h s', rely h s s' -> forall t m, ret !! t = Some m -> valid_map m s') as Hkeep.
  { intros s0 ret Hret h0 s' Hr t m Ht. eapply valid_map_rely; [done|]. by eapply Hret. }
  unfold Topic_Del. destruct keys as [|k0 keys].
  { apply calm_ret. intros t m. by rewrite lookup_empty. }
  set (l := k0 :: keys). apply (calm_for_fold h s (groups l) ∅ _ (fun ret s' => forall t m, ret !! t = Some m -> valid_map m s')).
  { intros t m. by rewrite lookup_empty. }
  intros ret x s1 Hx Hr1 Hret. apply elem_of_groups in Hx as [Hx Hin]. destruct (no_keys x); [by apply calm_ret|].
  apply calm_do. intros w G Hr Hi Hh. cbn [fst snd]. split_and!.
  - apply (good_reg w G); [done|done|apply Hi| |].
    + assert (alter (fun _ => (del_group (t_shard x.1 w, ret) x.2).1) x.1 (t_shards (reg w))
              = alter (fun m => foldl drop_key m x.2) x.1 (t_shards (reg w))) as ->.
      { rewrite del_group_fst. apply list_eq. intros i. pose proof (gd_registered _ _ Hi) as R. destruct (rg_topic _ _ R) as [Hwf _].
        destruct (decide (x.1 = i)) as [<-|Hne]; [|by rewrite !list_lookup_alter_ne].
        rewrite !list_lookup_alter_eq. by rewrite (shard_at _ _ Hwf Hx). }
      apply (registered_group drop_key (fun _ => None)); [apply drop_key_lookup|done|done|apply Hi|done|done|].
      by intros o j q [=].
    + intros p c Hp _ [L1 L2 L3 L4]. by split.
  - intros ho _. by apply rely_reg; eauto.
  - intros t m. destruct (del_group_spec x.2 (t_shard x.1 w) ret t) as [_ ->]. intros Ht j q Hq.
    assert (forall w', heap w' = heap w -> ret !! t = Some m -> valid q (w', G)) as Hold.
    { intros w' Ew Ht'. destruct (Hkeep s1 ret Hret _ _ Hr t m Ht' j q Hq) as [c Hc]. exists c. cbn in *. by rewrite Ew. }
    case_decide; [|by apply Hold]. destruct (t_shard x.1 w !! t) as [m'|] eqn:E; [|by apply Hold].
    injection Ht as ->. by apply (shard_topics w G x.1 t m j q).
Qed.

(** ** Reading *)

(** A loop that only reads. *)
Lemma calm_fold_reads {X A R} h s (l : list X) (a : A) (skip : X -> bool) (rd : X -> world -> R) (c : A -> X -> R -> A)
    (J : A -> seen -> Prop) :
  (forall a s1 s2, rely h s1 s2 -> J a s1 -> J a s2) -> J a s ->
  (forall a x w G, x ∈ l -> good w G -> J a (w, G) -> J (c a x (rd x w)) (w, G)) ->
  calm h s (for_fold l a (fun a x => if skip x then Ret a else r <- gets (rd x) ;; Ret (c a x r))) J.
Proof.
  intros Hk HJ Hc. apply (calm_for_fold h s); [done|]. intros a1 x s1 Hx Hr1 HJ1.
  destruct (skip x); [by apply calm_ret|].
  eapply (calm_bind h s1 _ _ (fun r s2 => J (c a1 x r) s2)).
  - apply calm_gets. intros w G Hr Hi Hh. apply Hc; [done|exact Hi|]. by eapply Hk.
  - intros r s2 _ HJ2. by apply calm_ret.
Qed.

Lemma calm_fold_any {X A R} h s (l : list X) (a : A) (skip : X -> bool) (rd : X -> world -> R) (c : A -> X -> R -> A) :
  calm h s (for_fold l a (fun a x => if skip x then Ret a else r <- gets (rd x) ;; Ret (c a x r))) (fun _ _ => True).
Proof. by apply calm_fold_reads. Qed.

Lemma calm_Manager_Get h s u :
  calm h s (Manager_Get u) (fun o s' => match o with Some p => valid p s' | None => True end).
Proof.
  unfold Manager_Get. destruct (is_empty u); [by apply calm_ret|]. apply calm_gets. intros w G _ Hi _.
  destruct (m_shard (shard_index u) w !! u) as [p|] eqn:E; [|done].
  by apply (shard_manager w G (shard_index u) u); [exact Hi|apply shard_index_lt|].
Qed.

Lemma calm_Manager_GetConnections h s :
  calm h s Manager_GetConnections (fun o s' => match o with Some l => Forall (fun p => valid p s') l | None => True end).
Proof.
  unfold Manager_GetConnections, Manager_Len. eapply calm_bind; [apply calm_read|]. intros n s1 _ _. cbv beta.
  destruct (n =? 0); [by apply calm_ret|].
  eapply (calm_bind h s1 _ _ (fun l s2 => Forall (fun p => valid p s2) l)).
  - apply (calm_fold_reads h s1 (seq 0 shardCount) [] (fun _ => false) (fun i w => (range_map (m_shard i w)).*2)
             (fun a _ r => a ++ r) (fun l s2 => Forall (fun p => valid p s2) l)).
    + intros a s2 s3. apply valid_all.
    + constructor.
    + intros a i w G Hx Hi Ha. apply Forall_app. split; [done|]. apply Forall_forall. intros q Hq.
      apply list_elem_of_fmap in Hq as ([u q'] & -> & Hj). apply elem_of_range in Hj.
      apply elem_of_seq in Hx. by apply (shard_manager w G i u q'); [done|lia|].
  - intros l s2 _ Hl. by apply calm_ret.
Qed.

Lemma calm_Binder_GetConnListByCustomerId h s k :
  calm h s (Binder_GetConnListByCustomerId k) (fun l s' => Forall (fun p => valid p s') l).
Proof.
  unfold Binder_GetConnListByCustomerId. destruct (is_empty k); [by apply calm_ret|].
  apply calm_gets. intros w G _ Hi _. destruct (b_shard (shard_index k) w !! k) as [c|] eqn:E; [|constructor].
  apply valid_map_list. intros j q Hq.
  by apply (shard_binder w G (shard_index k) k c j); [exact Hi|apply shard_index_lt| |].
Qed.

(** Lists under names, all there. *)
Definition valid_lists (m : gmap string (list ptr)) (s : seen) : Prop :=
  forall k l, m !! k = Some l -> Forall (fun p => valid p s) l.

Lemma valid_lists_rely h s s' m : rely h s s' -> valid_lists m s -> valid_lists m s'.
Proof. intros Hr Hm k l Hk. eapply valid_all; [done|]. by eapply Hm. Qed.

Lemma valid_lists_range h s s' m x : rely h s s' -> valid_lists m s -> x ∈ range_map m -> Forall (fun p => valid p s') x.2.
Proof. intros Hr Hm Hx. destruct x as [k l]. apply elem_of_range in Hx. eapply valid_all; [done|]. by eapply Hm. Qed.

Lemma valid_lists_group (m : gmap string (gmap Z ptr)) ret l s :
  (forall t c, m !! t = Some c -> valid_map c s) -> valid_lists ret s -> valid_lists (select_group conn_list m ret l) s.
Proof.
  intros Hm Hret k x. rewrite select_group_lookup. case_decide; [|by apply Hret].
  destruct (m !! k) as [c|] eqn:E; [|by apply Hret]. intros [= <-]. by eapply valid_map_list, Hm.
Qed.

Lemma calm_Binder_GetConnListByCustomerIds h s l : calm h s (Binder_GetConnListByCustomerIds l) valid_lists.
Proof.
  apply (calm_fold_reads h s (groups l) ∅ no_keys (fun x w => b_shard x.1 w)
           (fun ret x m => select_group (fun c => (range_map c).*2) m ret x.2) valid_lists).
  - intros a s1 s2. apply valid_lists_rely.
  - intros k x. by rewrite lookup_empty.
  - intros ret x w G Hx Hi Hret. apply elem_of_groups in Hx as [Hx _]. apply valid_lists_group; [|done].
    intros t c Ht j q Hq. by apply (shard_binder w G x.1 t c j).
Qed.

Lemma calm_Topic_GetConnListByTopics h s l : calm h s (Topic_GetConnListByTopics l) valid_lists.
Proof.
  unfold Topic_GetConnListByTopics, some_topics. destruct l as [|t0 l].
  { apply calm_ret. intros k x. by rewrite lookup_empty. }
  apply (calm_fold_reads h s (groups (t0 :: l)) ∅ no_keys (fun x w => t_shard x.1 w)
           (fun ret x m => select_group conn_list m ret x.2) valid_lists).
  - intros a s1 s2. apply valid_lists_rely.
  - intros k x. by rewrite lookup_empty.
  - intros ret x w G Hx Hi Hret. apply elem_of_groups in Hx as [Hx _]. apply valid_lists_group; [|done].
    intros t c Ht j q Hq. by apply (shard_topics w G x.1 t c j).
Qed.

Lemma calm_Topic_Len h s : calm h s Topic_Len (fun _ _ => True).
Proof. apply (calm_fold_any h s _ 0 (fun _ => false) _ (fun total _ n => total + n)). Qed.

Lemma calm_Topic_GetConnList h s : calm h s Topic_GetConnList valid_lists.
Proof.
  unfold Topic_GetConnList, all_topics. eapply calm_bind; [apply calm_Topic_Len|]. intros _ s1 _ _.
  apply (calm_fold_reads h s1 (seq 0 shardCount) ∅ (fun _ => false) (fun i w => t_shard i w)
           (fun ret _ m => foldl (fun ret x => <[x.1 := conn_list x.2]> ret) ret (range_map m)) valid_lists).
  - intros a s2 s3. apply valid_lists_rely.
  - intros k x. by rewrite lookup_empty.
  - intros ret i w G Hx Hi Hret. apply elem_of_seq in Hx.
    assert (forall t c, (t, c) ∈ range_map (t_shard i w) -> valid_map c (w, G)) as Hin.
    { intros t c Ht j q Hq. apply elem_of_range in Ht. apply (shard_topics w G i t c j); [done|lia|done|done]. }
    revert ret Hret Hin. induction (range_map (t_shard i w)) as [|[t c] l IH]; intros ret Hret Hin; [done|].
    cbn [foldl fst snd]. apply IH; [|intros t' c' Ht'; apply (Hin t'); by constructor].
    intros k x. destruct (decide (t = k)) as [<-|Hne]; [rewrite lookup_insert_eq|rewrite lookup_insert_ne by done; apply Hret].
    intros [= <-]. apply valid_map_list. apply (Hin t). constructor.
Qed.

Lemma calm_Topic_GetConnListByTopic h s t :
  calm h s (Topic_GetConnListByTopic t) (fun o s' => match o with Some l => Forall (fun p => valid p s') l | None => True end).
Proof.
  unfold Topic_GetConnListByTopic. destruct (is_empty t); [by apply calm_ret|].
  apply calm_gets. intros w G _ Hi _. destruct (t_shard (shard_index t) w !! t) as [c|] eqn:E; [|done].
  apply valid_map_list. intros j q Hq.
  by apply (shard_topics w G (shard_index t) t c j); [exact Hi|apply shard_index_lt| |].
Qed.
End Registries.
