(* ===== verification/OwnerOut.v ===== *)
(** What the goroutines do besides the registries, under the discipline of [Owner]:
    writing to connections, forwarding events, and the parts of the commands and of the
    events of a connection that take no lock for longer than one action. *)

From S2P Require Export OwnerReg.

Section Loops.
Context {MO : MapOrder} {SV : Serving}.
Abbreviation seen := (world * gset token)%type.
Abbreviation any := (fun _ _ => True).

Lemma calm_any {A} h s (m : prog A) (P : A -> seen -> Prop) : calm h s m P -> calm h s m any.
Proof. intros Hm. by eapply calm_mono. Qed.

Lemma calm_done {A} h s (a : A) : calm h s (Ret a) any.
Proof. by apply calm_ret. Qed.

Lemma calm_each {X} h s (l : list X) (body : X -> prog unit) :
  (forall x s', x ∈ l -> rely h s s' -> calm h s' (body x) any) -> calm h s (for_each l body) any.
Proof. intros Hb. apply (calm_for_each h s l body (fun _ => True)); [done|]. intros. by apply Hb. Qed.

Lemma calm_fold {X A} h s (l : list X) (a : A) (body : A -> X -> prog A) :
  (forall a x s', x ∈ l -> rely h s s' -> calm h s' (body a x) any) -> calm h s (for_fold l a body) any.
Proof. intros Hb. apply (calm_for_fold h s l a body any); [done|]. intros. by apply Hb. Qed.

Lemma calm_while {X} h s (l : list X) (body : X -> prog bool) :
  (forall x s', x ∈ l -> rely h s s' -> calm h s' (body x) any) -> calm h s (for_while l body) any.
Proof. intros Hb. apply calm_for_while. intros. by apply Hb. Qed.

Lemma valid_in s (l : list ptr) x : Forall (fun p => valid p s) l -> x ∈ l -> valid x s.
Proof. rewrite Forall_forall. auto. Qed.
End Loops.

Create HintDb calm.
#[export] Hint Resolve calm_done calm_read calm_conn_see calm_UnsubscribeTopicOnSafe
  calm_Topic_SetRelation calm_Topic_DelRelationBySlice calm_Topic_DelRelationByMap calm_Topic_Del
  calm_Manager_Get calm_Manager_GetConnections calm_Binder_GetConnListByCustomerId
  calm_Binder_GetConnListByCustomerIds calm_Topic_GetConnListByTopics calm_Topic_Len calm_Topic_GetConnList
  calm_Topic_GetConnListByTopic : calm.

(** What is known of an earlier state is carried over to the present one. *)
Ltac advance Hr :=
  match type of Hr with
  | d_rely ?h ?s ?s' => change (rely h s s') in Hr
  | _ => idtac
  end;
  match type of Hr with
  | rely ?h ?s ?s' =>
      repeat match goal with
        | H : valid ?p s |- _ => apply (valid_rely h s s' p Hr) in H
        | H : Forall (fun p => valid p s) ?l |- _ => apply (valid_all h s s' l Hr) in H
        | H : valid_map ?m s |- _ => apply (valid_map_rely h s s' m Hr) in H
        | H : valid_lists ?m s |- _ => apply (valid_lists_rely h s s' m Hr) in H
        end
  end.

(** Walks through a program that disturbs nobody. *)
Ltac calm_leaf := solve [eauto with calm | eapply calm_any; eauto with calm].

Ltac calm_step :=
  match goal with
  | |- calm _ _ (Ret _) _ => apply calm_ret; done
  | |- calm _ _ (bind _ _) _ =>
      first [ eapply calm_bind; [calm_leaf|let Hr := fresh "Hr" in intros ? ? Hr ?; cbv beta in *; advance Hr]
            | eapply (calm_bind _ _ _ _ (fun _ _ => True)); [|let Hr := fresh "Hr" in intros ? ? Hr _; advance Hr] ]
  | |- calm _ _ (match ?x with _ => _ end) _ => destruct x eqn:?
  | |- calm _ _ (let '_ := ?x in _) _ => destruct x eqn:?
  | |- calm _ _ (for_each _ _) _ => apply calm_each; let Hr := fresh "Hr" in let Hx := fresh "Hx" in intros ? ? Hx Hr; advance Hr
  | |- calm _ _ (for_fold _ _ _) _ => apply calm_fold; let Hr := fresh "Hr" in let Hx := fresh "Hx" in intros ? ? ? Hx Hr; advance Hr
  | |- calm _ _ (for_while _ _) _ => apply calm_while; let Hr := fresh "Hr" in let Hx := fresh "Hx" in intros ? ? Hx Hr; advance Hr
  | |- calm _ _ _ _ => calm_leaf
  end.

Ltac calm := repeat calm_step.

Section Out.
Context {MO : MapOrder} `{Deflate} `{Proto} {SV : Serving}.
Abbreviation cf := sv_config.
Abbreviation any := (fun _ _ => True).

(** ** The write path *)

Lemma calm_Mark h s i n : calm h s (Mark i n) any.
Proof. apply calm_step. intros w. by apply aside_inner. Qed.
Lemma calm_emit h s e : calm h s (emit e) any.
Proof. apply calm_step. intros w. by apply aside_inner. Qed.
Lemma calm_FrameObjPool_Get h s op d : calm h s (FrameObjPool_Get op d) any.
Proof. apply calm_aside; [|done]. intros w. destruct (frame_pool w); by apply aside_inner. Qed.
Lemma calm_FrameObjPool_Put h s fr : calm h s (FrameObjPool_Put fr) any.
Proof. apply calm_step. intros w. by apply aside_inner. Qed.
Lemma calm_ask {A} h s (f : environment -> A * environment) : calm h s (ask f) any.
Proof. apply calm_aside; [|done]. intros w. by apply aside_inner. Qed.
Hint Resolve calm_Mark calm_emit calm_FrameObjPool_Get calm_FrameObjPool_Put calm_ask : calm.

Lemma calm_AsyncWriteOnSafe h s p b : valid p s -> calm h s (AsyncWriteOnSafe p b) any.
Proof.
  intros Hv. apply calm_act. intros w G Hr Hi Hh.
  destruct (valid_rely h s (w, G) p Hr Hv) as [c Hp]. cbn in Hp. rewrite Hp. destruct (async_fails c).
  - split_and!; [done| |done]. intros ho _. apply d_rely_refl.
  - assert (aside w (with_effect (EAsyncWrite p b) w)) as Ha by (by apply aside_inner).
    split_and!; [by eapply aside_good| |done]. intros ho _. by apply aside_rely.
Qed.
Hint Resolve calm_AsyncWriteOnSafe : calm.

Lemma calm_WriteTo h s fr p : valid p s -> calm h s (WriteTo cf fr p) any.
Proof. intros Hv. unfold WriteTo, send_encoded, encode_failed. calm. Qed.
Hint Resolve calm_WriteTo : calm.

Lemma calm_WriteTo_each h s fr l : Forall (fun p => valid p s) l -> calm h s (WriteTo_each cf fr l) any.
Proof. intros Hl. unfold WriteTo_each. calm. eapply calm_any, calm_WriteTo. by eapply valid_in. Qed.
Hint Resolve calm_WriteTo_each : calm.

Lemma calm_WriteMessage h s p op d : valid p s -> calm h s (WriteMessage cf p op d) any.
Proof. intros Hv. unfold WriteMessage. calm. Qed.
Hint Resolve calm_WriteMessage : calm.

Lemma calm_write_data h s p d : valid p s -> calm h s (write_data cf p d) any.
Proof. intros Hv. unfold write_data. calm. Qed.
Hint Resolve calm_write_data : calm.

(** Setting the closed flag. *)
Lemma calm_SetClosedFlag h s p :
  valid p s ->
  calm h s (conn_act p (fun c => let r := SetClosedFlagOnSafe (c_codec c) in (r.1, upd_codec (fun _ => r.2) c)))
    (fun _ s' => exists c, heap s'.1 !! p = Some c /\ closed_conn c = true).
Proof.
  intros Hv. apply calm_act. intros w G Hr Hi Hh.
  destruct (valid_rely h s (w, G) p Hr Hv) as [c Hp]. cbn in Hp. rewrite Hp. cbn [fst snd].
  set (c' := upd_codec (fun _ => (SetClosedFlagOnSafe (c_codec c)).2) c).
  assert (closed (c_codec c') = 1) as Hcl.
  { unfold SetClosedFlagOnSafe, c'. cbn. unfold SetClosedFlagOnSafe.
    destruct (gd_flagged _ _ Hi p c Hp) as [E|E]; rewrite E; cbn; done. }
  assert (closed_conn c' = true) as Hcl' by (unfold closed_conn, IsClosedOnSafe; by rewrite Hcl).
  assert (isUpgraded (c_codec c') = isUpgraded (c_codec c)) as Hup.
  { unfold c', SetClosedFlagOnSafe. cbn. unfold SetClosedFlagOnSafe. by destruct (closed (c_codec c) =? 0). }
  destruct (conn_step w G p c c' Hi Hp) as [Hi' Hr']; [split_and!; [done..|by right|congruence]|done|done|intros _; unfold own_view; by rewrite Hup|].
  split_and!; [done|intros ho Hho; apply Hr'; set_solver|]. exists c'. cbn. by rewrite lookup_insert_eq.
Qed.

Lemma calm_WriteCloseFrame h s p f : valid p s -> calm h s (WriteCloseFrame p f) any.
Proof.
  intros Hv. unfold WriteCloseFrame, CloseOnSafe.
  eapply calm_bind; [by apply calm_SetClosedFlag|]. intros first s' Hr _. advance Hr. calm.
Qed.
Hint Resolve calm_WriteCloseFrame : calm.

Lemma calm_WriteClose h s p st e : valid p s -> calm h s (WriteClose p st e) any.
Proof. intros Hv. by apply calm_WriteCloseFrame. Qed.
Hint Resolve calm_WriteClose : calm.

(** ** Forwarding *)

Definition worker_valid (p : ptr) (s : world * gset token) : Prop := is_Some (workers s.1 !! p).

Lemma worker_valid_rely h s s' p : rely h s s' -> worker_valid p s -> worker_valid p s'.
Proof. intros Hr. apply (gw_workers _ _ (rl_grows _ _ _ Hr)). Qed.

(** The list of an event, with its connections. *)
Definition listed (k : collect) (w : world) : Prop := Forall (fun p => is_Some (workers w !! p)) (k_conn k).

Lemma aside_lists v k k' w :
  collects w !! v = Some k -> (listed k w -> listed k' w) -> aside w (with_collects (insert v k') w).
Proof.
  intros Hk Hl'. split; cbn; [done|done| |done|done|by intros; simplify_eq]. intros Hok E u Hu. destruct (Hok E u Hu) as (c & Hc & Hl).
  cbn. destruct (decide (v = u)) as [<-|Hne].
  - exists k'. rewrite lookup_insert_eq. simplify_eq. split; [done|by apply Hl'].
  - exists c. by rewrite lookup_insert_ne.
Qed.

Lemma aside_collect v k k' w :
  collects w !! v = Some k -> k_conn k' = k_conn k -> aside w (with_collects (insert v k') w).
Proof. intros Hk Ek. apply (aside_lists v k); [done|]. unfold listed. by rewrite Ek. Qed.

Lemma calm_collect_act {A} h s v (f : world -> collect -> A * collect) (P : A -> world * gset token -> Prop) :
  is_event v -> is_empty (cf_WorkerListenAddress cf) = false ->
  (forall w k, k_conn (f w k).2 = k_conn k) ->
  (forall w G k, listed k w -> P (f w k).1 (with_collects (insert v (f w k).2) w, G)) ->
  calm h s (collect_act v f) P.
Proof.
  intros Hv E Hf HP. apply calm_act. intros w G Hr Hi Hh.
  destruct (gd_workers _ _ Hi E v Hv) as (k & Hk & Hl). rewrite Hk.
  assert (aside w (with_collects (insert v (f w k).2) w)) as Ha by (by eapply aside_collect).
  split_and!; [by eapply aside_good| |by apply HP]. intros ho _. by apply aside_rely.
Qed.

Lemma calm_WManager_Get h s v :
  is_event v -> calm h s (WManager_Get cf v) (fun o s' => match o with Some p => worker_valid p s' | None => True end).
Proof.
  intros Hv. unfold WManager_Get. destruct (is_empty (cf_WorkerListenAddress cf)) eqn:E; [by apply calm_ret|].
  unfold Collect_Get. eapply (calm_bind _ _ _ _ any); [by apply calm_collect_act|]. intros i s' _ _.
  apply calm_collect_act; [done|done|done|]. intros w G k Hl. cbn.
  destruct (k_conn k) as [|p l] eqn:Ek; [done|]. destruct (_ !! _) as [q|] eqn:Eq; [|done].
  unfold listed in Hl. rewrite Ek, Forall_forall in Hl. apply Hl. by eapply list_elem_of_lookup_2.
Qed.

(** A business connection for events changes, or is new; what it has sent is for its
    reader only. *)
Lemma worker_step w G p c' :
  good w G -> good (with_workers (insert p c') w) G /\
  forall ho, (TReader p ∈ ho -> forall c, workers w !! p = Some c -> n_in (w_net c') = n_in (w_net c)) ->
    rely ho (w, G) (with_workers (insert p c') w, G).
Proof.
  intros [H1 H2 H3 H3' H4 H5 H6 H7]. assert (forall q, is_Some (workers w !! q) -> is_Some (<[p := c']> (workers w) !! q)) as Hgrow.
  { intros q Hq. destruct (decide (p = q)) as [<-|Hne]; [by rewrite lookup_insert_eq|by rewrite lookup_insert_ne]. }
  split.
  - split; try done. intros E v Hv. destruct (H5 E v Hv) as (k & Hk & Hl). exists k. split; [done|].
    eapply Forall_impl; [exact Hl|]. apply Hgrow.
  - intros ho Hin. split; cbn; [|by intros; simplify_eq|by intros; simplify_eq|done|done|done|by intros; simplify_eq|].
    + split; cbn; [|exact Hgrow|done]. intros q c Hq. by exists c.
    + intros q c d Hq Hc Hd. destruct (decide (p = q)) as [<-|Hne].
      * rewrite lookup_insert_eq in Hd. simplify_eq. by apply Hin.
      * rewrite lookup_insert_ne in Hd by done. by simplify_eq.
Qed.

Definition quiet {A} (f : workerConn -> A * workerConn) : Prop := forall c, n_in (w_net (f c).2) = n_in (w_net c).

Lemma calm_worker_act {A} h s p (f : workerConn -> A * workerConn) :
  worker_valid p s -> quiet f -> calm h s (worker_act p f) any.
Proof.
  intros Hp Hf. apply calm_act. intros w G Hr Hi Hh. destruct (worker_valid_rely h s (w, G) p Hr Hp) as [c Hc]. cbn in Hc. rewrite Hc.
  destruct (worker_step w G p (f c).2 Hi) as [Hi' Hr']. split_and!; [done| |done].
  intros ho _. apply Hr'. intros _ d Hd. cbn in Hc. simplify_eq. apply Hf.
Qed.

Lemma calm_Worker_Send h s p m cmd : worker_valid p s -> calm h s (Worker_Send p m cmd) any.
Proof.
  intros Hp. unfold Worker_Send. destruct (packet_set m cmd) as [pkg|]; [|apply calm_done].
  eapply (calm_bind _ _ _ _ any); [|intros [] s' _ _; [apply calm_done|apply calm_Mark]]. by apply calm_worker_act.
Qed.

Lemma calm_forward h s v m cmd : is_event v -> calm h s (forward cf v m cmd) any.
Proof.
  intros Hv. unfold forward. calm_step; [calm|]. calm_step; [calm|].
  eapply calm_bind; [by apply calm_WManager_Get|]. intros [p|] s9 Hr9 Hp; [by apply calm_Worker_Send|apply calm_done].
Qed.

Lemma calm_callback_post h s api req : calm h s (callback_post api req) any.
Proof. unfold callback_post, callback_failed. calm. Qed.
Hint Resolve calm_callback_post : calm.

Lemma calm_callback_OnOpen h s co : calm h s (callback_OnOpen cf co) any.
Proof. unfold callback_OnOpen. calm. Qed.
Lemma calm_callback_OnClose h s cl : calm h s (callback_OnClose cf cl) any.
Proof. unfold callback_OnClose. calm. Qed.
Lemma calm_callback_OnMessage h s tf : calm h s (callback_OnMessage cf tf) any.
Proof. unfold callback_OnMessage. calm. Qed.
Hint Resolve calm_callback_OnOpen calm_callback_OnClose calm_callback_OnMessage : calm.

Lemma calm_Limit_Allow h s v : calm h s (Limit_Allow v) any.
Proof. unfold Limit_Allow. calm. Qed.
Hint Resolve calm_Limit_Allow : calm.

(** ** Tasks of the pool *)

Lemma calm_go h s (t : prog unit) : calm ∅ s t any -> calm h s (spawn (recover t)) any.
Proof. intros Ht. by apply calm_spawn; [apply calm_recover|]. Qed.

Lemma calm_submit_or_go h s (t : prog unit) :
  (forall s', rely h s s' -> calm ∅ s' t any) -> calm h s (submit_or_go (recover t)) any.
Proof.
  intros Ht. unfold submit_or_go, Submit.
  eapply (calm_bind _ _ _ _ any).
  - eapply (calm_bind _ _ _ _ any); [apply calm_ask|]. intros [e|] s' Hr _; [apply calm_done|].
    eapply (calm_bind _ _ _ _ any); [by apply calm_go, Ht|]. intros. apply calm_done.
  - intros [e|] s' Hr _; [by apply calm_go, Ht|apply calm_done].
Qed.

(** ** Events of a connection *)

Lemma calm_close_task s cl : calm ∅ s (close_task cf cl) any.
Proof.
  unfold close_task. calm_step. calm_step; [calm|]. apply calm_forward. by right; left.
Qed.

Lemma calm_heartbeat_check s p : valid p s -> calm ∅ s (heartbeat_check cf p) any.
Proof. intros Hv. unfold heartbeat_check. calm. Qed.

Lemma mild_touch now : mild (upd_info (UpdateLastActiveTimeOnSafe now)).
Proof. by intros c. Qed.

Lemma calm_touch h s p : valid p s -> calm h s (touch p) any.
Proof.
  intros Hv. unfold touch. calm_step. by apply calm_info_act.
Qed.

Lemma calm_OnWebsocketPing s p : valid p s -> calm ∅ s (OnWebsocketPing p) any.
Proof.
  intros Hv. unfold OnWebsocketPing. eapply calm_bind; [by apply calm_touch|]. intros. apply calm_Mark.
Qed.

Lemma lock_free_nil : lock_free (∅ : gset token).
Proof. intros t Ht. set_solver. Qed.

Lemma calm_message_task s p allow d : valid p s -> calm ∅ s (message_task cf p allow d) any.
Proof.
  intros Hv. unfold message_task.
  eapply (calm_bind _ _ _ _ any); [by apply calm_locked_get; [|apply lock_free_nil|]|].
  intros [[[u k] se] l] s' Hr _. advance Hr. calm_step; [calm|]. calm_step; [calm|]. calm_step. calm_step; [calm|].
  cbv zeta. calm_step; [calm|]. apply calm_forward. by right; right.
Qed.

Lemma mild_Allow now : mild (upd_info (fun r => (Allow cf now r).2)).
Proof.
  intros c. unfold same_conn. unfold Allow. destruct (limitWindowRequests (c_info c) <? 0) eqn:E0; cbn; rewrite E0; cbn; [done|].
  destruct (cf_LimitWindowSizeSeconds cf <? _) eqn:E1; cbn; destruct (_ <? cf_LimitWindowMaxRequests cf) eqn:E2; cbn; by rewrite ?E2.
Qed.

Lemma calm_OnWebsocketMessage s p op d : valid p s -> calm ∅ s (OnWebsocketMessage cf p op d) any.
Proof.
  intros Hv. unfold OnWebsocketMessage.
  eapply (calm_bind _ _ _ _ any); [by apply calm_touch|]. intros _ s1 Hr1 _. advance Hr1.
  calm_step; [calm|]. calm_step.
  eapply (calm_bind _ _ _ _ any); [apply calm_info_act; [done|apply mild_Allow]|]. intros allow s3 Hr3 _. advance Hr3.
  apply calm_submit_or_go. intros s4 Hr4. advance Hr4. by apply calm_message_task.
Qed.
End Out.

#[export] Hint Resolve calm_Mark calm_emit calm_FrameObjPool_Get calm_FrameObjPool_Put calm_ask calm_AsyncWriteOnSafe
  calm_WriteTo calm_WriteTo_each calm_WriteMessage calm_write_data calm_WriteCloseFrame calm_WriteClose
  calm_callback_post calm_callback_OnOpen calm_callback_OnClose calm_callback_OnMessage calm_Limit_Allow lock_free_nil : calm.
