(* ===== verification/OwnerLock.v ===== *)
(** The sections between [conn.Lock()] and [conn.UnLock()].  The owner of the lock
    knows what the lock guards, and knows the binder entries of the connection as long
    as its close event has not read the info: at [UnLock] the customerId and the entries
    agree again. *)

From S2P Require Export OwnerOut.

Section Locked.
Context {MO : MapOrder} {SV : Serving}.
Abbreviation seen := (world * gset token)%type.
Abbreviation any := (fun _ _ => True).

(** The binder has the connection under its customerId and nowhere else. *)
Definition settled (p : ptr) (s : seen) : Prop :=
  exists c, heap s.1 !! p = Some c /\
    forall k, entry (reg s.1) k (id (c_info c)) =
      if decide (k = customerId (c_info c) /\ k <> EmptyString) then Some p else None.

(** What the owner of the lock knows after it has seen that the connection is open. *)
Record held (p : ptr) (s : seen) : Prop := {
  hl_valid : valid p s;
  hl_alive : p ∈ tracked -> alive s.2 p;
  hl_settled : alive s.2 p -> settled p s;
}.

Lemma in_own p : TLock p ∈ ({[TLock p]} : gset token).
Proof. by apply elem_of_singleton. Qed.

(** What the others leave to the owner of a lock. *)
Lemma lock_owner p s s' c :
  rely {[TLock p]} s s' -> heap s.1 !! p = Some c ->
  exists c', heap s'.1 !! p = Some c' /\ id (c_info c') = id (c_info c) /\ guarded (c_info c') = guarded (c_info c) /\
    (alive s.2 p -> alive s'.2 p /\ forall k, entry (reg s'.1) k (id (c_info c)) = entry (reg s.1) k (id (c_info c))).
Proof.
  intros Hr Hp. destruct (gw_heap _ _ (rl_grows _ _ _ Hr) p c Hp) as (c' & Hp' & Hid & _).
  exists c'. split_and!; [done|done| |].
  - eapply (rl_guarded _ _ _ Hr p); [apply in_own|done|done].
  - intros Hal. by apply (rl_held _ _ _ Hr p c (in_own p)).
Qed.

Lemma settled_rely p s s' : rely {[TLock p]} s s' -> alive s.2 p -> settled p s -> settled p s'.
Proof.
  intros Hr Hal (c & Hp & He). destruct (lock_owner p s s' c Hr Hp) as (c' & Hp' & Hid & Hg & Hen).
  destruct (Hen Hal) as [_ Hen']. exists c'. split; [done|]. intros k.
  rewrite Hid, Hen', He. unfold guarded in Hg. by assert (customerId (c_info c') = customerId (c_info c)) as -> by congruence.
Qed.

Lemma held_rely p s s' : rely {[TLock p]} s s' -> held p s -> held p s'.
Proof.
  intros Hr [Hv Hal Hs]. split.
  - by eapply valid_rely.
  - intros Ht. destruct Hv as [c Hp]. destruct (lock_owner p s s' c Hr Hp) as (c' & _ & _ & _ & Hen). by apply Hen, Hal.
  - intros Hal'. assert (alive s.2 p) as Hal0 by (by eapply (rl_phase _ _ _ Hr)). eapply settled_rely; [done|done|auto].
Qed.

(** The two tokens sets of a section. *)
Lemma take_token (G : gset token) t : t ∉ G -> G ∖ ∅ ∪ {[t]} = G ∪ {[t]}.
Proof. intros _. by rewrite difference_empty_L. Qed.

(** [conn.Lock()] *)
Lemma safe_Lock p s (Q : unit -> gset token -> seen -> Prop) :
  valid p s ->
  (forall s', rely ∅ s s' -> valid p s' -> (alive s'.2 p -> settled p s') -> Q tt {[TLock p]} s') ->
  safe (Lock p) ∅ s Q.
Proof.
  intros Hv HQ w G Hr Hi Hh. destruct (valid_rely ∅ s (w, G) p Hr Hv) as [c Hp]. cbn in Hp. rewrite Hp.
  destruct (locked (c_info c)) eqn:Hl.
  { split; [apply lock_free_nil|]. by apply (held_lock w G p c). }
  assert (TLock p ∉ G) as Hn.
  { intros Ht. apply (gd_lock _ _ Hi) in Ht as (c0 & Hc0 & Hl0). congruence. }
  set (c' := upd_info (fun r => with_locked r true) c). exists {[TLock p]}.
  rewrite difference_empty_L. set (G' := G ∪ {[TLock p]}).
  assert (forall q, alive G' q <-> alive G q) as Hal by (intros q; unfold alive, G'; set_solver).
  assert (forall ho, ho ⊆ G -> rely ho (w, G) (with_heap (insert p c') w, G')) as Hrely.
  { intros ho Hho. by eapply rely_conn. }
  split; [unfold keeps; rewrite difference_empty_L; split_and!|].
  - set_solver.
  - change (good (with_heap (insert p c') w) G'). eapply good_conn; [done|done|done|..].
    + intros q Hq. unfold G'. set_solver.
    + unfold G', c'. cbn. set_solver.
    + intros q. unfold G'. set_solver.
    + intros _ [L1 L2 L3 L4]. assert (TGone p ∈ G' <-> TGone p ∈ G) as Hgo by (unfold G'; set_solver). split; cbn.
      * intros k q Hq. rewrite Hal, Hgo. destruct (L1 k q Hq) as (E1 & E2 & [E3|E3]); [split_and!; auto|tauto].
      * intros _ Hnl. exfalso. apply Hnl. unfold G'. set_solver.
      * intros Hna. apply L3. by rewrite <- Hal.
      * rewrite L4. unfold G'. set_solver.
  - exact Hrely.
  - cbn. apply HQ.
    + eapply rely_trans; [exact Hr|]. apply Hrely. set_solver.
    + exists c'. cbn. by rewrite lookup_insert_eq.
    + cbn. rewrite Hal. intros Hal0. exists c'. split; [cbn; by rewrite lookup_insert_eq|]. intros k. cbn.
      assert (p ∈ tracked) as Ht by (eapply (ph_tracked _ (gd_phased _ _ Hi)); by left).
      destruct (gd_linked _ _ Hi p Ht) as (c0 & Hc0 & [L1 L2 L3 L4]). simplify_eq.
      case_decide as Hk.
      * destruct Hk as [-> Hk]. by apply L2.
      * destruct (entry (reg w) k (id (c_info c))) as [q|] eqn:Eq; [|done].
        destruct (L1 k q Eq) as (E1 & _ & [E3|E3]); [by destruct Hk|tauto].
Qed.

(** [conn.UnLock()] *)
Lemma safe_UnLock p s (Q : unit -> gset token -> seen -> Prop) :
  valid p s -> (p ∈ tracked -> alive s.2 p -> settled p s) ->
  (forall s', Q tt ∅ s') ->
  safe (UnLock p) {[TLock p]} s Q.
Proof.
  intros Hv Hset HQ w G Hr Hi Hh. destruct (valid_rely _ s (w, G) p Hr Hv) as [c Hp]. cbn in Hp. rewrite Hp.
  assert (TLock p ∈ G) as Hin by (apply Hh, in_own).
  assert (locked (c_info c) = true) as Hl.
  { apply (gd_lock _ _ Hi) in Hin as (c0 & Hc0 & Hl0). by simplify_eq. }
  rewrite Hl. set (c' := upd_info (fun r => with_locked r false) c). exists ∅.
  set (G' := G ∖ {[TLock p]} ∪ ∅).
  assert (forall q, alive G' q <-> alive G q) as Hal by (intros q; unfold alive, G'; set_solver).
  split; [split_and!|].
  - set_solver.
  - change (good (with_heap (insert p c') w) G'). eapply good_conn; [done|done|done|..].
    + intros q Hq. unfold G'. set_solver.
    + unfold G', c'. cbn. set_solver.
    + intros q. unfold G'. set_solver.
    + intros _ [L1 L2 L3 L4]. assert (TGone p ∈ G' <-> TGone p ∈ G) as Hgo by (unfold G'; set_solver).
      assert (alive G p -> settled p (w, G)) as Hset'.
      { intros Ha. assert (alive s.2 p) as Ha0 by (by eapply (rl_phase _ _ _ Hr)). eapply settled_rely; [done|done|].
        apply Hset; [|done]. apply (ph_tracked _ (gd_phased _ _ Hi)). by left. }
      split; cbn.
      * intros k q Hq. rewrite Hal, Hgo. destruct (L1 k q Hq) as (E1 & E2 & [E3|[E3 _]]); [split_and!; auto|].
        destruct (Hset' E3) as (c0 & Hc0 & He). cbn in *. simplify_eq. rewrite He in Hq. case_decide as Hk; [|done].
        destruct Hk as [-> Hk]. split_and!; auto.
      * rewrite Hal. intros Ha _ Hk. destruct (Hset' Ha) as (c0 & Hc0 & He). cbn in *. simplify_eq.
        rewrite He. by rewrite decide_True.
      * intros Hna. apply L3. by rewrite <- Hal.
      * rewrite L4. unfold G'. set_solver.
  - intros ho Hho. eapply rely_conn; [done|done|done|done|exact Hal|done].
  - cbn. apply HQ.
Qed.

(** ** Inside *)

(** A change of the guarded info keeps the identity and the lock. *)
Definition info_keeps (f : info -> info) : Prop :=
  forall r, id (f r) = id r /\ uniqId (f r) = uniqId r /\ locked (f r) = locked r.

Definition put_info (p : ptr) (f : info -> info) (c : Conn) (w : world) : world :=
  with_heap (insert p (upd_info f c)) w.

Lemma own_back (G : gset token) t : t ∈ G -> G ∖ {[t]} ∪ {[t]} = G.
Proof. intros Ht. rewrite union_comm_L, <- union_difference_L; set_solver. Qed.

Lemma safe_info_act {A} p (f : info -> A * info) s (Q : A -> gset token -> seen -> Prop) :
  valid p s -> (p ∈ tracked -> alive s.2 p) -> info_keeps (fun r => (f r).2) ->
  (forall w G c, rely {[TLock p]} s (w, G) -> heap w !! p = Some c ->
     Q (f (c_info c)).1 {[TLock p]} (put_info p (fun r => (f r).2) c w, G)) ->
  safe (info_act p f) {[TLock p]} s Q.
Proof.
  intros Hv Hal Hf HQ w G Hr Hi Hh. destruct (valid_rely _ s (w, G) p Hr Hv) as [c Hp]. cbn in Hp. rewrite Hp.
  assert (TLock p ∈ G) as Hin by (apply Hh, in_own). exists {[TLock p]}. unfold keeps. rewrite own_back by done.
  assert (p ∈ tracked -> alive G p) as Hal'.
  { intros Ht. destruct Hv as [c0 Hp0]. destruct (lock_owner p s (w, G) c0 Hr Hp0) as (_ & _ & _ & _ & Hen). by apply Hen, Hal. }
  destruct (Hf (c_info c)) as (F1 & F2 & F3).
  split; [split_and!|].
  - set_solver.
  - eapply good_conn; [done|done|done|done| |done|].
    + cbn. rewrite F3, (gd_lock _ _ Hi). naive_solver.
    + intros Ht [L1 L2 L3 L4]. specialize (Hal' Ht). split; cbn; rewrite ?F1, ?F2; try done.
      intros k q Hq. destruct (L1 k q Hq) as (E1 & E2 & _). split_and!; auto.
  - intros ho Hho. eapply rely_conn; [done|done| | |done|done].
    + intros Ht. set_solver.
    + intros Ht. assert (TGone p ∈ G) as Hg by set_solver.
      exfalso. apply (ph_alive _ (gd_phased _ _ Hi) p); [|done]. apply Hal'.
      eapply (ph_tracked _ (gd_phased _ _ Hi)). by right.
  - cbn. by apply (HQ w G c).
Qed.

(** The binder changes for the owner of the lock. *)
Lemma safe_binder p s (g : Z -> registries -> registries) (F : option ptr -> string -> option ptr)
    (Q : unit -> gset token -> seen -> Prop) :
  valid p s -> (p ∈ tracked -> alive s.2 p) ->
  (forall h r c, registered h r -> h !! p = Some c -> registered h (g (id (c_info c)) r)) ->
  (forall i r, wf_binder r -> forall k, entry (g i r) k i = F (entry r k i) k) ->
  (forall i r, wf_binder r -> forall k j, j <> i -> entry (g i r) k j = entry r k j) ->
  (forall i r u, m_lookup (g i r) u = m_lookup r u) ->
  (forall o k q, F o k = Some q -> o = Some q \/ k <> EmptyString) ->
  (forall w G c, rely {[TLock p]} s (w, G) -> heap w !! p = Some c ->
     (forall k, entry (g (id (c_info c)) (reg w)) k (id (c_info c)) = F (entry (reg w) k (id (c_info c))) k) ->
     Q tt {[TLock p]} (with_reg (g (id (c_info c))) w, G)) ->
  safe (i <- conn_get p (fun c => id (c_info c)) ;; modify (with_reg (g i))) {[TLock p]} s Q.
Proof.
  intros Hv Hal Hreg Hself Hother Hman HF HQ.
  eapply (safe_calm_bind _ _ _ _ (fun i s' => exists c, heap s'.1 !! p = Some c /\ id (c_info c) = i)).
  { apply calm_conn_get; [done|]. intros w G c _ _ _ Hp. by exists c. }
  intros i s1 Hr1 (c1 & Hp1 & Hid1) w G Hr Hi Hh.
  destruct (gw_heap _ _ (rl_grows _ _ _ Hr) p c1 Hp1) as (c & Hp & Hid & _). cbn in Hp.
  assert (rely {[TLock p]} s (w, G)) as Hr' by (eapply rely_trans; [exact Hr1|exact Hr]).
  assert (TLock p ∈ G) as Hin by (apply Hh, in_own). exists {[TLock p]}. unfold keeps. rewrite own_back by done.
  assert (p ∈ tracked -> alive G p) as Hal'.
  { intros Ht. destruct Hv as [c0 Hp0]. destruct (lock_owner p s (w, G) c0 Hr' Hp0) as (_ & _ & _ & _ & Hen). by apply Hen, Hal. }
  assert (i = id (c_info c)) as -> by congruence.
  pose proof (gd_registered _ _ Hi) as R. pose proof (rg_binder _ _ R) as Hwb.
  assert (forall q d, heap w !! q = Some d -> q <> p -> id (c_info d) <> id (c_info c)) as Hne.
  { intros q d Hq Hqp E. apply Hqp. eapply (gd_distinct _ _ Hi); [done|done|by left]. }
  split; [split_and!|].
  - set_solver.
  - apply (good_reg w G); [done|done|apply Hi|by eapply Hreg|].
    intros q d Hq Hd [L1 L2 L3 L4]. destruct (decide (q = p)) as [->|Hqp].
    + simplify_eq. specialize (Hal' Hq). split; rewrite ?Hman; try done.
      intros k x. rewrite Hself by done. intros Hx. split_and!; [|by left|by right].
      destruct (HF _ _ _ Hx) as [Hx'|Hx']; [by apply (L1 k x)|done].
    + assert (forall k, entry (g (id (c_info c)) (reg w)) k (id (c_info d)) = entry (reg w) k (id (c_info d))) as E
        by (intros k; apply Hother; [done|by eapply Hne]).
      split; rewrite ?Hman, ?E; try done. intros k x. rewrite E. apply L1.
  - intros ho Hho. apply rely_reg; [done|done|]. intros q d k _ Hq Hd.
    destruct (decide (q = p)) as [->|Hqp]; [set_solver|]. apply Hother; [done|by eapply Hne].
  - cbn. apply (HQ w G c); [done|done|]. by apply Hself.
Qed.

Lemma b_insert_registered h r k p c :
  registered h r -> h !! p = Some c -> registered h (b_insert k (id (c_info c)) p r).
Proof.
  intros [R1 R2 R3 R4 R5 R6] Hp. split; try done; [by apply b_insert_wf|].
  intros k' i q. unfold entry. rewrite b_insert_lookup by apply R2. case_decide; [|apply R5].
  rewrite member_set. case_decide as Hi; [|apply R5]. intros [= <-]. by exists c.
Qed.

Lemma b_remove_registered h r k i : registered h r -> registered h (b_remove k i r).
Proof.
  intros [R1 R2 R3 R4 R5 R6]. split; try done; [by apply b_remove_wf|].
  intros k' j q. unfold entry. rewrite b_remove_lookup by apply R2. case_decide; [|apply R5].
  rewrite member_del. case_decide; [done|apply R5].
Qed.

Lemma entry_insert r k i p k' j :
  wf_binder r -> entry (b_insert k i p r) k' j = if decide (k = k' /\ i = j) then Some p else entry r k' j.
Proof.
  intros Hwf. unfold entry. rewrite b_insert_lookup by apply Hwf. destruct (decide (k = k')) as [<-|Hk].
  - rewrite member_set. apply decide_ext. naive_solver.
  - rewrite decide_False; [done|]. tauto.
Qed.

Lemma entry_remove r k i k' j :
  wf_binder r -> entry (b_remove k i r) k' j = if decide (k = k' /\ i = j) then None else entry r k' j.
Proof.
  intros Hwf. unfold entry. rewrite b_remove_lookup by apply Hwf. destruct (decide (k = k')) as [<-|Hk].
  - rewrite member_del. apply decide_ext. naive_solver.
  - rewrite decide_False; [done|]. tauto.
Qed.

Lemma safe_Binder_SetRelation p k s (Q : unit -> gset token -> seen -> Prop) :
  valid p s -> (p ∈ tracked -> alive s.2 p) -> k <> EmptyString ->
  (forall w G c, rely {[TLock p]} s (w, G) -> heap w !! p = Some c ->
     (forall k', entry (b_insert k (id (c_info c)) p (reg w)) k' (id (c_info c)) =
        if decide (k = k') then Some p else entry (reg w) k' (id (c_info c))) ->
     Q tt {[TLock p]} (with_reg (b_insert k (id (c_info c)) p) w, G)) ->
  safe (Binder_SetRelation k p) {[TLock p]} s Q.
Proof.
  intros Hv Hal Hk HQ.
  apply (safe_binder p s (fun i => b_insert k i p) (fun o k' => if decide (k = k') then Some p else o)); try done.
  - intros. by apply b_insert_registered.
  - intros i r Hwf k'. rewrite entry_insert by done. apply decide_ext. tauto.
  - intros i r Hwf k' j Hj. rewrite entry_insert by done. rewrite decide_False; [done|]. naive_solver.
  - intros o k' q. case_decide; [subst; by right|by left].
Qed.

Lemma safe_Binder_DelRelation p k s (Q : unit -> gset token -> seen -> Prop) :
  valid p s -> (p ∈ tracked -> alive s.2 p) ->
  (forall w G c, rely {[TLock p]} s (w, G) -> heap w !! p = Some c ->
     (forall k', entry (b_remove k (id (c_info c)) (reg w)) k' (id (c_info c)) =
        if decide (k = k') then None else entry (reg w) k' (id (c_info c))) ->
     Q tt {[TLock p]} (with_reg (b_remove k (id (c_info c))) w, G)) ->
  safe (Binder_DelRelation k p) {[TLock p]} s Q.
Proof.
  intros Hv Hal HQ.
  apply (safe_binder p s (fun i => b_remove k i) (fun o k' => if decide (k = k') then None else o)); try done.
  - intros. by apply b_remove_registered.
  - intros i r Hwf k'. rewrite entry_remove by done. apply decide_ext. tauto.
  - intros i r Hwf k' j Hj. rewrite entry_remove by done. rewrite decide_False; [done|]. naive_solver.
  - intros o k' q. case_decide; [done|by left].
Qed.
End Locked.
