(* ===== verification/OwnerCmds.v ===== *)
(** The commands of the business processes under the discipline of [Owner]. *)

From S2P Require Export OwnerLock.

Section Sections.
Context {MO : MapOrder} {SV : Serving}.
Abbreviation seen := (world * gset token)%type.
Abbreviation any := (fun _ _ => True).

(** What may stand between [Lock] and [UnLock]. *)
Definition guards {A} (p : ptr) (m : prog A) : Prop :=
  forall s, held p s -> safe m {[TLock p]} s (fun _ h' s' => h' = {[TLock p]} /\ held p s').

Lemma guards_ret {A} p (a : A) : guards p (Ret a).
Proof. by intros s Hs. Qed.

Lemma guards_bind {A B} p (m : prog A) (g : A -> prog B) :
  guards p m -> (forall a, guards p (g a)) -> guards p (bind m g).
Proof.
  intros Hm Hg s Hs. apply safe_bind. eapply safe_mono; [by apply Hm|]. cbn. intros a h' s' [-> Hs']. by apply Hg.
Qed.

Lemma guards_calm {A} p (m : prog A) : (forall s, valid p s -> calm {[TLock p]} s m any) -> guards p m.
Proof.
  intros Hm s Hs. eapply safe_mono; [apply Hm, Hs|]. cbn. intros a h' s' (-> & Hr & _).
  split; [done|]. by eapply held_rely.
Qed.

Lemma put_lookup p f c w : heap (put_info p f c w) !! p = Some (upd_info f c).
Proof. unfold put_info. cbn. by rewrite lookup_insert_eq. Qed.

(** Any change of the info but of the customerId. *)
Lemma held_put p f c w G :
  info_keeps f -> (forall r, customerId (f r) = customerId r) -> heap w !! p = Some c ->
  held p (w, G) -> held p (put_info p f c w, G).
Proof.
  intros Hf Hk Hp [Hv Hal Hset]. split.
  - eexists. apply put_lookup.
  - exact Hal.
  - intros Ha. destruct (Hset Ha) as (c0 & Hp0 & He). cbn in Hp0. simplify_eq.
    eexists. split; [apply put_lookup|]. intros k. cbn. rewrite Hk. destruct (Hf (c_info c)) as (-> & _ & _). apply He.
Qed.

Lemma guards_info_act {A} p (f : info -> A * info) :
  info_keeps (fun r => (f r).2) -> (forall r, customerId (f r).2 = customerId r) -> guards p (info_act p f).
Proof.
  intros Hf Hk s Hs. apply safe_info_act; [apply Hs|apply Hs|done|]. intros w G c Hr Hp. split; [done|].
  apply held_put; [done|done|done|]. by eapply held_rely.
Qed.

Lemma guards_info_set p f : info_keeps f -> (forall r, customerId (f r) = customerId r) -> guards p (info_set p f).
Proof. intros Hf Hk. by apply guards_info_act. Qed.

(** ** Changing the customerId *)

(** The binder has the connection under [ko] and nowhere else. *)
Record bound (p : ptr) (ko : option string) (s : seen) : Prop := {
  bd_valid : valid p s;
  bd_alive : p ∈ tracked -> alive s.2 p;
  bd_entry : alive s.2 p -> exists c, heap s.1 !! p = Some c /\
    forall k, entry (reg s.1) k (id (c_info c)) = if decide (ko = Some k) then Some p else None;
}.

Lemma bound_rely p ko s s' : rely {[TLock p]} s s' -> bound p ko s -> bound p ko s'.
Proof.
  intros Hr [Hv Hal He]. split.
  - by eapply valid_rely.
  - intros Ht. destruct Hv as [c Hp]. destruct (lock_owner p s s' c Hr Hp) as (c' & _ & _ & _ & Hen). by apply Hen, Hal.
  - intros Ha. assert (alive s.2 p) as Ha0 by (by eapply (rl_phase _ _ _ Hr)). destruct (He Ha0) as (c & Hp & Hc).
    destruct (lock_owner p s s' c Hr Hp) as (c' & Hp' & Hid & _ & Hen). destruct (Hen Ha0) as [_ Hen'].
    exists c'. split; [done|]. intros k. by rewrite Hid, Hen', Hc.
Qed.

(** The entry a customerId asks for. *)
Definition name_of (k : string) : option string := if is_empty k then None else Some k.

Lemma held_bound p s c w G :
  held p s -> rely {[TLock p]} s (w, G) -> heap w !! p = Some c -> bound p (name_of (customerId (c_info c))) (w, G).
Proof.
  intros Hs Hr Hp. pose proof (held_rely p s (w, G) Hr Hs) as [Hv Hal Hset]. split; [done|done|].
  intros Ha. destruct (Hset Ha) as (c0 & Hp0 & He). cbn in Hp0. simplify_eq. exists c. split; [done|].
  intros k. rewrite He. apply decide_ext. unfold name_of. destruct (is_empty (customerId (c_info c))) eqn:E.
  - apply is_empty_true in E. rewrite E. naive_solver.
  - apply is_empty_false in E. naive_solver.
Qed.

(** Two states that differ in what [bound] does not see. *)
Lemma bound_put p ko f c w G :
  info_keeps f -> heap w !! p = Some c -> bound p ko (w, G) -> bound p ko (put_info p f c w, G).
Proof.
  intros Hf Hp [Hv Hal He]. split; [eexists; apply put_lookup|done|].
  intros Ha. destruct (He Ha) as (c0 & Hp0 & Hc). cbn in Hp0. simplify_eq.
  eexists. split; [apply put_lookup|]. intros k. cbn. destruct (Hf (c_info c)) as (-> & _ & _). apply Hc.
Qed.

Lemma bound_held p k f c w G :
  info_keeps f -> (forall r, customerId (f r) = k) -> heap w !! p = Some c ->
  bound p (name_of k) (w, G) -> held p (put_info p f c w, G).
Proof.
  intros Hf Hk Hp Hb. destruct (bound_put p _ f c w G Hf Hp Hb) as [Hv Hal He]. split; [done|done|].
  intros Ha. destruct (He Ha) as (c0 & Hp0 & Hc). exists c0. split; [done|].
  cbn [fst] in Hp0. rewrite put_lookup in Hp0. simplify_eq.
  intros k'. rewrite Hc. cbn. rewrite Hk. apply decide_ext. unfold name_of. destruct (is_empty k) eqn:E.
  - apply is_empty_true in E. rewrite E. naive_solver.
  - apply is_empty_false in E. naive_solver.
Qed.

Lemma bound_binder p ko ko' s g w G c :
  bound p ko s -> rely {[TLock p]} s (w, G) -> heap w !! p = Some c ->
  (forall k, (forall k', entry (reg w) k' (id (c_info c)) = if decide (ko = Some k') then Some p else None) ->
     entry (g (reg w)) k (id (c_info c)) = if decide (ko' = Some k) then Some p else None) ->
  bound p ko' (with_reg g w, G).
Proof.
  intros Hb Hr Hp Hg. destruct (bound_rely p ko s (w, G) Hr Hb) as [Hv Hal He]. split; [done|done|].
  intros Ha. destruct (He Ha) as (c0 & Hp0 & Hc). cbn in Hp0. simplify_eq. exists c. split; [done|]. intros k. by apply Hg.
Qed.

Lemma safe_leave p k s :
  bound p (Some k) s ->
  safe (Binder_DelRelation k p) {[TLock p]} s (fun _ h' s' => h' = {[TLock p]} /\ bound p None s').
Proof.
  intros Hb. apply safe_Binder_DelRelation; [apply Hb|apply Hb|]. intros w G c Hr Hp He. split; [done|].
  eapply bound_binder; [done|done|done|]. intros k' Hc. rewrite He, Hc. repeat case_decide; congruence.
Qed.

Lemma safe_join p k s :
  k <> EmptyString -> bound p None s ->
  safe (Binder_SetRelation k p) {[TLock p]} s (fun _ h' s' => h' = {[TLock p]} /\ bound p (Some k) s').
Proof.
  intros Hk Hb. apply safe_Binder_SetRelation; [apply Hb|apply Hb|done|]. intros w G c Hr Hp He. split; [done|].
  eapply bound_binder; [done|done|done|]. intros k' Hc. rewrite He, Hc. repeat case_decide; congruence.
Qed.

Lemma safe_name p k s :
  bound p (name_of k) s ->
  safe (info_set p (SetCustomerId k)) {[TLock p]} s (fun _ h' s' => h' = {[TLock p]} /\ held p s').
Proof.
  intros Hb. apply safe_info_act; [apply Hb|apply Hb|done|]. intros w G c Hr Hp. split; [done|].
  apply (bound_held p k); [done|done|done|]. by eapply bound_rely.
Qed.

Lemma safe_old p s (Q : string -> gset token -> seen -> Prop) :
  held p s -> (forall k s', bound p (name_of k) s' -> held p s' -> Q k {[TLock p]} s') ->
  safe (info_act p (fun r => (customerId r, r))) {[TLock p]} s Q.
Proof.
  intros Hs HQ. apply safe_info_act; [apply Hs|apply Hs|done|]. intros w G c Hr Hp. apply HQ.
  - apply bound_put; [done|done|]. by eapply held_bound.
  - apply held_put; [done|done|done|]. by eapply held_rely.
Qed.

(** Out of the old entry, if there is one. *)
Lemma safe_unbind p k s (Q : unit -> gset token -> seen -> Prop) :
  bound p (name_of k) s -> (forall s', bound p None s' -> Q tt {[TLock p]} s') ->
  safe (if is_empty k then Ret tt else Binder_DelRelation k p) {[TLock p]} s Q.
Proof.
  unfold name_of. destruct (is_empty k); intros Hb HQ; [by apply HQ|].
  eapply safe_mono; [by apply safe_leave|]. cbn. intros [] h' s' [-> Hs']. by apply HQ.
Qed.

Lemma guards_rebind p k : k <> EmptyString -> guards p (rebind p k).
Proof.
  intros Hk s Hs. unfold rebind. apply safe_bind, safe_old; [done|]. intros old s1 Hs1 _.
  apply safe_bind, safe_unbind; [done|]. intros s2 Hs2.
  apply safe_bind. eapply safe_mono; [by apply safe_join|]. cbn. intros _ h' s3 [-> Hs3].
  apply safe_name. unfold name_of. by rewrite (proj2 (is_empty_false k) Hk).
Qed.

Lemma guards_unbind p :
  guards p (customerId <- info_act p (fun r => (customerId r, r)) ;;
            if is_empty customerId then Ret tt
            else (Binder_DelRelation customerId p ;; info_set p (SetCustomerId EmptyString))).
Proof.
  intros s Hs. apply safe_bind, safe_old; [done|]. intros k s1 Hb Hs1. unfold name_of in Hb.
  destruct (is_empty k); [done|]. apply safe_bind. eapply safe_mono; [by apply safe_leave|].
  cbn. intros _ h' s2 [-> Hs2]. by apply safe_name.
Qed.

(** ** The section *)

Lemma calm_with_open_conn s p k :
  guards p k -> valid p s -> calm ∅ s (with_open_conn p k) any.
Proof.
  intros Hk Hv. unfold calm. eapply safe_mono; [apply safe_grows|].
  2: { intros a h' s' [Hr Hh']. split; [exact Hh'|done]. }
  unfold with_open_conn. apply safe_bind, safe_Lock; [done|]. intros s1 Hr1 Hv1 Hset1.
  eapply (safe_calm_bind _ _ _ _ (fun closed s2 => closed = false -> p ∈ tracked -> alive s2.2 p)).
  { apply calm_conn_get; [done|]. intros w G c Hr Hi Hh Hp Hcl Ht.
    destruct (gd_linked _ _ Hi p Ht) as (c0 & Hp0 & Hl). simplify_eq. cbn.
    destruct (decide (TOnline p ∈ G \/ TLeaving p ∈ G)) as [Ha|Hna]; [exact Ha|].
    pose proof (lk_closed _ _ _ _ Hl Hna) as E. unfold closed_conn in E. congruence. }
  intros closed s2 Hr2 Hopen.
  assert (valid p s2) as Hv2 by (by eapply valid_rely).
  assert (alive s2.2 p -> settled p s2) as Hset2.
  { intros Ha. assert (alive s1.2 p) as Ha1 by (by eapply (rl_phase _ _ _ Hr2)). eapply settled_rely; [done|done|auto]. }
  apply safe_bind. destruct closed.
  - apply safe_ret, safe_UnLock; [done|auto|]. intros s3. done.
  - eapply safe_mono; [apply Hk; by split; auto|]. cbv beta. intros _ h' s3 [-> Hs3].
    apply safe_UnLock; [apply Hs3|intros _; apply Hs3|]. intros s4. done.
Qed.
End Sections.

Section Commands.
Context {MO : MapOrder} `{Deflate} `{Proto} {SV : Serving}.
Abbreviation cf := sv_config.
Abbreviation any := (fun _ _ => True).

(** ** The commands with one target *)

Lemma guards_write_data p d : guards p (write_data cf p d).
Proof. apply guards_calm. intros s Hv. by apply calm_write_data. Qed.

Lemma guards_Topic_SetRelation p l : guards p (Topic_SetRelation l (Some p)).
Proof. apply guards_calm. intros s Hv. by apply calm_Topic_SetRelation. Qed.

Lemma guards_Topic_DelRelationBySlice p l : guards p (Topic_DelRelationBySlice l p).
Proof. apply guards_calm. intros s Hv. by apply calm_Topic_DelRelationBySlice. Qed.

Lemma guards_Topic_DelRelationByMap p m : guards p (Topic_DelRelationByMap m p).
Proof. apply guards_calm. intros s Hv. by apply calm_Topic_DelRelationByMap. Qed.

Lemma guards_subscribe p l : guards p (info_set p (SubscribeTopics l)).
Proof. by apply guards_info_set. Qed.

Lemma guards_unsubscribe p l : guards p (info_set p (UnsubscribeTopics l)).
Proof. apply guards_info_set; intros r; unfold UnsubscribeTopics; by destruct (topics r). Qed.

Lemma guards_session p v : guards p (info_set p (SetSession v)).
Proof. by apply guards_info_set. Qed.

Lemma guards_pull p : guards p (info_act p PullTopics).
Proof. by apply guards_info_act. Qed.

Lemma calm_on_target s u (skip : bool) k :
  (forall p, guards p (k p)) ->
  calm ∅ s (if is_empty u || skip then Ret tt else
            conn <- Manager_Get u ;;
            match conn with None => Ret tt | Some conn => with_open_conn conn (k conn) end) any.
Proof.
  intros Hk. destruct (is_empty u || skip); [apply calm_done|].
  eapply calm_bind; [apply calm_Manager_Get|]. intros [p|] s' Hr Hp; [by apply calm_with_open_conn|apply calm_done].
Qed.

Lemma calm_topicSubscribe s param : calm ∅ s (topicSubscribe cf param) any.
Proof.
  unfold topicSubscribe. destruct (unmarshal_TopicSubscribe param) as [u|]; [|apply calm_done].
  apply calm_on_target. intros p. apply guards_bind; [apply guards_subscribe|]. intros _.
  apply guards_bind; [apply guards_Topic_SetRelation|]. intros _. apply guards_write_data.
Qed.

Lemma calm_topicUnsubscribe s param : calm ∅ s (topicUnsubscribe cf param) any.
Proof.
  unfold topicUnsubscribe. destruct (unmarshal_TopicUnsubscribe param) as [u|]; [|apply calm_done].
  apply calm_on_target. intros p. apply guards_bind; [apply guards_unsubscribe|]. intros _.
  apply guards_bind; [apply guards_Topic_DelRelationBySlice|]. intros _. apply guards_write_data.
Qed.

Lemma guards_if {A} p (b : bool) (m k : prog A) : guards p m -> (b = false -> guards p k) -> guards p (if b then m else k).
Proof. destruct b; auto. Qed.

Lemma calm_connInfoUpdate s param : calm ∅ s (connInfoUpdate cf param) any.
Proof.
  unfold connInfoUpdate. destruct (unmarshal_ConnInfoUpdate param) as [u|]; [|apply calm_done].
  rewrite <- (orb_false_r (is_empty (cu_UniqId u))). apply calm_on_target. intros p.
  apply guards_bind; [apply guards_if; [apply guards_ret|intros _; apply guards_session]|]. intros _.
  apply guards_bind.
  { apply guards_if; [apply guards_ret|]. intros E. apply (guards_rebind p). by apply is_empty_false. }
  intros _. apply guards_bind; [|intros _; apply guards_write_data].
  apply guards_if; [apply guards_ret|]. intros _.
  apply guards_bind; [apply guards_pull|]. intros m.
  apply guards_bind; [apply guards_Topic_DelRelationByMap|]. intros _.
  apply guards_bind; [apply guards_subscribe|]. intros _. apply guards_Topic_SetRelation.
Qed.

Lemma calm_connInfoDelete s param : calm ∅ s (connInfoDelete cf param) any.
Proof.
  unfold connInfoDelete. destruct (unmarshal_ConnInfoDelete param) as [u|]; [|apply calm_done].
  rewrite <- (orb_false_r (is_empty (cd_UniqId u))). apply calm_on_target. intros p.
  apply guards_bind.
  { apply guards_if; [|intros _; apply guards_ret]. apply guards_bind; [apply guards_pull|]. intros m.
    apply guards_Topic_DelRelationByMap. }
  intros _. apply guards_bind; [apply guards_if; [apply guards_session|intros _; apply guards_ret]|]. intros _.
  apply guards_bind; [|intros _; apply guards_write_data].
  apply guards_if; [apply guards_unbind|intros _; apply guards_ret].
Qed.

(** ** Deleting topics *)

Lemma calm_topicDelete s param : calm ∅ s (topicDelete cf param) any.
Proof.
  unfold topicDelete. destruct (unmarshal_TopicDelete param) as [u|]; [|apply calm_done].
  eapply calm_bind; [apply calm_Topic_Del|]. intros arr s1 Hr1 Harr.
  assert (forall x, x ∈ deleted_pairs arr -> valid x.2 s1) as Hall.
  { intros x Hx. unfold deleted_pairs in Hx. apply list_elem_of_join in Hx as (l & Hl & Hx).
    apply list_elem_of_fmap in Hx as ([t m] & -> & Hm). apply elem_of_range in Hm.
    apply list_elem_of_fmap in Hl as ([j q] & -> & Hq). apply elem_of_range in Hq. by eapply (Harr t m). }
  destruct (_ =? 0)%nat; [apply calm_done|]. destruct (isNil (td_Data u)).
  - apply calm_each. intros x s2 Hx Hr2. pose proof (valid_rely _ _ _ _ Hr2 (Hall x Hx)) as Hv.
    eapply calm_bind; [by apply calm_UnsubscribeTopicOnSafe; [|apply lock_free_nil]|]. intros. apply calm_done.
  - eapply (calm_bind _ _ _ _ (fun m s' => valid_map m s')).
    + apply (calm_for_fold ∅ s1); [intros j q; by rewrite lookup_empty|].
      intros m x s2 Hx Hr2 Hm. pose proof (valid_rely _ _ _ _ Hr2 (Hall x Hx)) as Hv.
      eapply calm_bind; [by apply calm_UnsubscribeTopicOnSafe; [|apply lock_free_nil]|].
      intros ok s3 Hr3 _. advance Hr3. destruct ok; [|by apply calm_ret].
      eapply (calm_bind _ _ _ _ any); [by apply calm_conn_see|]. intros i s4 Hr4 _. advance Hr4.
      apply calm_ret. intros j q Hq. destruct (decide (i = j)) as [->|Hne].
      * rewrite lookup_insert_eq in Hq. by simplify_eq.
      * rewrite lookup_insert_ne in Hq by done. by eapply Hm.
    + intros m s2 Hr2 Hm. eapply (calm_bind _ _ _ _ any); [apply calm_FrameObjPool_Get|]. intros fr s3 Hr3 _. advance Hr3.
      eapply (calm_bind _ _ _ _ any); [by apply calm_WriteTo_each, valid_map_list|]. intros. apply calm_FrameObjPool_Put.
Qed.

(** ** Casts *)

Lemma calm_broadcastBulk s param : calm ∅ s (broadcastBulk cf param) any.
Proof.
  unfold broadcastBulk. destruct (unmarshal_BroadcastBulk param) as [u|]; [|apply calm_done].
  destruct (isNil (bb_Data u)); [apply calm_done|].
  eapply calm_bind; [apply calm_Manager_GetConnections|]. intros [l|] s1 Hr1 Hl; [|apply calm_done]. calm.
Qed.

Lemma calm_singleCastBulk s param : calm ∅ s (singleCastBulk cf param) any.
Proof.
  unfold singleCastBulk. destruct (unmarshal_SingleCastBulk param) as [u|]; [|apply calm_done]. calm.
Qed.

Lemma calm_singleCastBulkByCustomerId s param : calm ∅ s (singleCastBulkByCustomerId cf param) any.
Proof.
  unfold singleCastBulkByCustomerId. destruct (unmarshal_SingleCastBulkByCustomerId param) as [u|]; [|apply calm_done]. calm.
Qed.

Lemma calm_topicPublishBulk s param : calm ∅ s (topicPublishBulk cf param) any.
Proof.
  unfold topicPublishBulk. destruct (unmarshal_TopicPublishBulk param) as [u|]; [|apply calm_done]. calm.
Qed.

(** ** Forcing connections offline *)

Lemma calm_offline h s f msg p : valid p s -> calm h s (offline cf f msg p) any.
Proof. intros Hv. unfold offline. calm. Qed.
Hint Resolve calm_offline : calm.

Lemma calm_with_message h s d k :
  (forall msg s', rely h s s' -> calm h s' (k msg) any) -> calm h s (with_message cf d k) any.
Proof.
  intros Hk. unfold with_message. destruct (isNil d).
  - eapply (calm_bind _ _ _ _ any); [apply Hk, rely_refl|]. intros. apply calm_done.
  - eapply (calm_bind _ _ _ _ any); [apply calm_FrameObjPool_Get|]. intros fr s1 Hr1 _.
    eapply (calm_bind _ _ _ _ any); [by apply Hk|]. intros [fr'|] s2 _ _; [apply calm_FrameObjPool_Put|apply calm_done].
Qed.

Lemma calm_forceOffline s param : calm ∅ s (forceOffline cf param) any.
Proof.
  unfold forceOffline. destruct (unmarshal_ForceOffline param) as [u|]; [|apply calm_done].
  destruct (isNil (fo_UniqIds u)); [apply calm_done|]. cbv zeta. apply calm_with_message. intros msg s1 Hr1. calm.
Qed.

Lemma calm_forceOfflineByCustomerId s param : calm ∅ s (forceOfflineByCustomerId cf param) any.
Proof.
  unfold forceOfflineByCustomerId. destruct (unmarshal_ForceOfflineByCustomerId param) as [u|]; [|apply calm_done].
  cbv zeta. eapply calm_bind; [apply calm_Binder_GetConnListByCustomerIds|]. intros m s1 Hr1 Hm.
  apply calm_with_message. intros msg s2 Hr2. apply calm_fold. intros msg' x s3 Hx Hr3.
  assert (Forall (fun p => valid p s3) x.2) as Hl.
  { eapply valid_lists_range; [eapply rely_trans; [exact Hr2|exact Hr3]|exact Hm|exact Hx]. }
  apply calm_fold. intros msg2 p s4 Hp Hr4. advance Hr4. apply calm_offline. by eapply valid_in.
Qed.

Lemma calm_forceOfflineGuest s param : calm ∅ s (forceOfflineGuest cf param) any.
Proof.
  unfold forceOfflineGuest. destruct (unmarshal_ForceOfflineGuest param) as [u|]; [|apply calm_done].
  destruct (isNil (fg_UniqIds u)); [apply calm_done|]. cbv zeta. set (body := with_message _ _ _).
  assert (forall s, calm ∅ s body any) as Hb.
  { intros s1. apply calm_with_message. intros msg s2 Hr2. apply calm_fold. intros msg' x s3 Hx Hr3.
    eapply calm_bind; [apply calm_Manager_Get|]. intros [p|] s4 Hr4 Hp; [|apply calm_done].
    eapply (calm_bind _ _ _ _ any); [by apply calm_locked_get; [|apply lock_free_nil|]|].
    intros [] s5 Hr5 _; [apply calm_done|]. advance Hr5. by apply calm_offline. }
  destruct (_ <=? 0); [apply Hb|].
  eapply (calm_bind _ _ _ _ any); [apply calm_emit|]. intros. by apply calm_go.
Qed.

(** Every command that asks for no answer. *)
Lemma calm_post s cmd cb param :
  lookup_cmd cmd (postNonBlockingCallback cf ++ postBlockingCallback cf) = Some cb -> calm ∅ s (cb param) any.
Proof.
  apply (lookup_cmd_Forall (fun cb => calm ∅ s (cb param) any)).
  repeat (apply Forall_cons; split); [..|constructor]; cbn [snd];
    auto using calm_topicPublishBulk, calm_singleCastBulk, calm_singleCastBulkByCustomerId, calm_broadcastBulk,
      calm_connInfoUpdate, calm_connInfoDelete, calm_forceOffline, calm_forceOfflineByCustomerId, calm_forceOfflineGuest,
      calm_topicSubscribe, calm_topicUnsubscribe, calm_topicDelete.
Qed.
End Commands.
