(* ===== verification/OwnerTask.v ===== *)
(** The goroutine that serves a business connection under the discipline of [Owner]:
    the questions, their answers, and the loop of [Process] for any bytes. *)

From S2P Require Export OwnerCmds.

Section Task.
Context {MO : MapOrder} `{Deflate} `{Proto} {SV : Serving}.
Abbreviation cf := sv_config.
Abbreviation any := (fun _ _ => True).
Abbreviation seen := (world * gset token)%type.

Lemma lock_free_task p : lock_free ({[TTask p]} : gset token).
Proof. intros t Ht. apply elem_of_singleton in Ht as ->. by intros []. Qed.

Lemma own_task p : TTask p ∈ ({[TTask p]} : gset token).
Proof. by apply elem_of_singleton. Qed.

Lemma task_rely p s s' : rely {[TTask p]} s s' -> tasks s'.1 !! p = tasks s.1 !! p.
Proof. intros Hr. apply (rl_task _ _ _ Hr p), own_task. Qed.

(** A question: the input that is left stays as it is. *)
Definition serves {A} (p : ptr) (m : prog A) : Prop :=
  forall s n, tasks s.1 !! p = Some n ->
    safe m {[TTask p]} s (fun _ h' s' => h' = {[TTask p]} /\ exists n', tasks s'.1 !! p = Some n' /\ n_in n' = n_in n).

Lemma serves_ret {A} p (a : A) : serves p (Ret a).
Proof. intros s n Hn. split; [done|]. by exists n. Qed.

Lemma serves_bind {A B} p (m : prog A) (g : A -> prog B) (P : A -> seen -> Prop) :
  (forall s, calm {[TTask p]} s m P) -> (forall a, serves p (g a)) -> serves p (bind m g).
Proof.
  intros Hm Hg s n Hn. eapply safe_calm_bind; [apply Hm|]. intros a s' Hr _. apply Hg. by rewrite (task_rely p s s' Hr).
Qed.

Lemma serves_net p (f : netConn -> unit * netConn) :
  (forall n, n_in (f n).2 = n_in n) -> serves p (net_act p f).
Proof.
  intros Hf s n Hn. eapply safe_net_act; [exact Hn|]. intros s' Hs'. split; [done|].
  eexists. split; [exact Hs'|apply Hf].
Qed.

Lemma serves_net_bind {A B} p (f : netConn -> A * netConn) (g : A -> prog B) :
  (forall n, n_in (f n).2 = n_in n) -> (forall a, serves p (g a)) -> serves p (bind (net_act p f) g).
Proof.
  intros Hf Hg s n Hn. apply safe_bind. eapply safe_net_act; [exact Hn|]. intros s' Hs'.
  eapply safe_mono; [apply Hg, Hs'|]. cbv beta. intros _ h' s2 (-> & n' & Hn' & Ein).
  split; [done|]. exists n'. split; [done|]. by rewrite Ein.
Qed.

Lemma serves_send p m cmd : serves p (send p m cmd).
Proof.
  unfold send. destruct (marshal m) as [body|]; [|apply serves_ret].
  apply serves_net_bind; [done|]. intros failed. destruct failed; [by apply serves_net|].
  apply serves_net_bind.
  { intros n. unfold net_write. cbv zeta. destruct (n_closed n); [done|]. by destruct (default None _). }
  intros r. destruct (negb r.2); [apply serves_ret|]. destruct (r.1 =? 0)%nat; [apply serves_ret|]. by apply serves_net.
Qed.

(** ** What the questions read *)

Lemma calm_locked_see {A} h s p (f : info -> A) : valid p s -> lock_free h -> calm h s (locked_get p f) any.
Proof. intros Hv Hf. by apply calm_locked_get. Qed.
Hint Resolve calm_locked_see lock_free_task : calm.

Lemma calm_Manager_GetUniqIds h s : calm h s Manager_GetUniqIds any.
Proof.
  unfold Manager_GetUniqIds, Manager_Len. eapply (calm_bind _ _ _ _ any); [apply calm_read|]. intros n s' _ _.
  destruct (n =? 0); [apply calm_done|].
  apply (calm_fold_any h s' _ [] (fun _ => false) (fun i w => (range_map (m_shard i w)).*1) (fun a _ r => a ++ r)).
Qed.

Lemma calm_Binder_Len h s : calm h s Binder_Len any.
Proof. apply (calm_fold_any h s _ 0 (fun _ => false) _ (fun total _ n => total + n)). Qed.

Lemma calm_Binder_GetCustomerIds h s : calm h s Binder_GetCustomerIds any.
Proof.
  unfold Binder_GetCustomerIds. eapply (calm_bind _ _ _ _ any); [apply calm_Binder_Len|]. intros n s' _ _.
  destruct (n =? 0); [apply calm_done|].
  apply (calm_fold_any h s' _ [] (fun _ => false) (fun i w => (range_map (b_shard i w)).*1) (fun a _ r => a ++ r)).
Qed.

Lemma calm_Topic_Get h s : calm h s Topic_Get any.
Proof.
  unfold Topic_Get. eapply (calm_bind _ _ _ _ any); [apply calm_Topic_Len|]. intros n s' _ _.
  apply (calm_fold_any h s' _ [] (fun _ => false) (fun i w => (range_map (t_shard i w)).*1) (fun a _ r => a ++ r)).
Qed.

Lemma calm_Topic_CountConn h s : calm h s Topic_CountConn any.
Proof.
  unfold Topic_CountConn, all_topics. eapply (calm_bind _ _ _ _ any); [apply calm_Topic_Len|]. intros n s' _ _.
  apply (calm_fold_any h s' _ ∅ (fun _ => false) (fun i w => t_shard i w)
    (fun ret _ m => foldl (fun ret x => <[x.1 := conn_count x.2]> ret) ret (range_map m))).
Qed.

Lemma calm_Topic_CountConnByTopic h s l : calm h s (Topic_CountConnByTopic l) any.
Proof.
  unfold Topic_CountConnByTopic, some_topics. destruct l as [|t l]; [apply calm_done|].
  apply (calm_fold_any h s _ ∅ no_keys (fun x w => t_shard x.1 w) (fun ret x m => select_group conn_count m ret x.2)).
Qed.

Lemma calm_Manager_Has h s u : calm h s (Manager_Has u) any.
Proof. unfold Manager_Has. calm. Qed.

Lemma calm_GetUniqIds h s l : Forall (fun p => valid p s) l -> calm h s (GetUniqIds l) any.
Proof.
  intros Hl. unfold GetUniqIds. apply calm_fold. intros a p s' Hp Hr. advance Hr.
  eapply (calm_bind _ _ _ _ any); [apply calm_conn_see; by eapply valid_in|]. intros. apply calm_done.
Qed.

Lemma calm_customerIdSet h s l : lock_free h -> Forall (fun p => valid p s) l -> calm h s (customerIdSet l) any.
Proof.
  intros Hf Hl. unfold customerIdSet. apply calm_fold. intros a p s' Hp Hr. advance Hr.
  eapply (calm_bind _ _ _ _ any); [apply calm_locked_see; [by eapply valid_in|done]|]. intros. apply calm_done.
Qed.

Lemma calm_GetCustomerIds h s l : lock_free h -> Forall (fun p => valid p s) l -> calm h s (GetCustomerIds l) any.
Proof.
  intros Hf Hl. unfold GetCustomerIds. eapply (calm_bind _ _ _ _ any); [by apply calm_customerIdSet|]. intros. apply calm_done.
Qed.

(** A function of every list of connections. *)
Lemma calm_map_all {R} h s (m : gmap string (list ptr)) (f : list ptr -> prog R) :
  valid_lists m s -> (forall l s', rely h s s' -> Forall (fun p => valid p s') l -> calm h s' (f l) any) ->
  calm h s (map_all m f) any.
Proof.
  intros Hm Hf. unfold map_all. apply calm_fold. intros ret x s' Hx Hr.
  eapply (calm_bind _ _ _ _ any); [apply Hf; [done|by eapply valid_lists_range]|]. intros. apply calm_done.
Qed.

(** The part of a question before its answer. *)
Lemma serves_ask {A} p (m : prog A) (g : A -> message) cmd :
  (forall s, calm {[TTask p]} s m any) -> serves p (a <- m ;; send p (g a) cmd).
Proof. intros Hm. eapply serves_bind; [exact Hm|]. intros a. apply serves_send. Qed.

Lemma serves_assoc {A B C} p (m : prog A) (f : A -> prog B) (g : B -> prog C) :
  serves p (b <- (a <- m ;; f a) ;; g b) -> serves p (a <- m ;; b <- f a ;; g b).
Proof.
  intros Hm s n Hn. apply safe_assoc. by apply Hm.
Qed.

Lemma calm_metrics_items h s :
  calm h s (for_fold (seqZ 1 (itemLen - 1)) ∅ (fun (items : gmap Z MetricsRespItem) item =>
    count <- gets (fun w => meters w !! item) ;;
    Ret (match count with Some n => <[i32 item := mkMetricsRespItem (i32 item) n]> items | None => items end))) any.
Proof. calm. Qed.

Lemma calm_Limit_Update h s u : calm h s (Limit_Update u) any.
Proof.
  assert (forall v n s, calm h s (modify (with_limiters (Limit_SetLimit v n))) any) as Hset
    by (intros v n s1; apply calm_step; intros w; by apply aside_inner).
  unfold Limit_Update. eapply (calm_bind _ _ _ _ any).
  - destruct (0 <? _); [|apply calm_done]. eapply (calm_bind _ _ _ _ any); [apply calm_read|]. intros c s1 _ _.
    destruct (negb _); [apply Hset|apply calm_done].
  - intros _ s1 _ _. destruct (0 <? _); [|apply calm_done]. eapply (calm_bind _ _ _ _ any); [apply calm_read|]. intros c s2 _ _.
    destruct (negb _); [apply Hset|apply calm_done].
Qed.

(** ** Every question *)

Lemma serves_topicUniqIdList p param : serves p (topicUniqIdList param p).
Proof.
  unfold topicUniqIdList. destruct (unmarshal_TopicsReq _ param) as [u|]; [|apply serves_ret].
  apply serves_assoc, serves_ask. intros s. eapply calm_bind; [apply calm_Topic_GetConnListByTopics|].
  intros m s1 _ Hm. apply calm_map_all; [done|]. intros l s2 _ Hl. by apply calm_GetUniqIds.
Qed.

Lemma serves_topicUniqIdCount p param : serves p (topicUniqIdCount param p).
Proof.
  unfold topicUniqIdCount. destruct (unmarshal_TopicsReq _ param) as [u|]; [|apply serves_ret].
  apply serves_ask. intros s. destruct (isNil _); [apply calm_Topic_CountConn|apply calm_Topic_CountConnByTopic].
Qed.

Lemma serves_topicCustomerIdList p param : serves p (topicCustomerIdList param p).
Proof.
  unfold topicCustomerIdList. destruct (unmarshal_TopicsReq _ param) as [u|]; [|apply serves_ret].
  apply serves_assoc, serves_ask. intros s. eapply calm_bind; [apply calm_Topic_GetConnListByTopics|].
  intros m s1 _ Hm. apply calm_map_all; [done|]. intros l s2 _ Hl. by apply calm_GetCustomerIds; [apply lock_free_task|].
Qed.

Lemma serves_topicCustomerIdCount p param : serves p (topicCustomerIdCount param p).
Proof.
  unfold topicCustomerIdCount. destruct (unmarshal_TopicsReq _ param) as [u|]; [|apply serves_ret].
  apply serves_assoc, serves_ask. intros s. eapply (calm_bind _ _ _ _ valid_lists).
  - destruct (isNil _); [apply calm_Topic_GetConnList|apply calm_Topic_GetConnListByTopics].
  - intros m s1 _ Hm. apply calm_map_all; [done|]. intros l s2 _ Hl. unfold CountCustomerIds.
    eapply (calm_bind _ _ _ _ any); [|intros; apply calm_done].
    eapply (calm_bind _ _ _ _ any); [by apply calm_customerIdSet; [apply lock_free_task|]|]. intros. apply calm_done.
Qed.

Lemma serves_topicCustomerIdToUniqIdsList p param : serves p (topicCustomerIdToUniqIdsList param p).
Proof.
  unfold topicCustomerIdToUniqIdsList. destruct (unmarshal_TopicsReq _ param) as [u|]; [|apply serves_ret].
  apply serves_assoc, serves_ask. intros s. eapply calm_bind; [apply calm_Topic_GetConnListByTopics|].
  intros m s1 _ Hm. apply calm_map_all; [done|]. intros l s2 _ Hl.
  eapply (calm_bind _ _ _ _ any); [by apply calm_GetCustomerIds; [apply lock_free_task|]|]. intros ks s3 _ _.
  eapply calm_bind; [apply calm_Binder_GetConnListByCustomerIds|]. intros m' s4 _ Hm'.
  apply calm_map_all; [done|]. intros l' s5 _ Hl'. by apply calm_GetUniqIds.
Qed.

Lemma serves_connInfo p param : serves p (connInfo param p).
Proof.
  unfold connInfo. destruct (unmarshal_ConnInfoReq param) as [u|]; [|apply serves_ret].
  apply serves_ask. intros s. apply calm_fold. intros items v s1 Hx Hr1.
  eapply calm_bind; [apply calm_Manager_Get|]. intros [q|] s2 Hr2 Hq; [|apply calm_done].
  eapply (calm_bind _ _ _ _ any); [by apply calm_locked_see; [|apply lock_free_task]|]. intros. apply calm_done.
Qed.

Lemma serves_connInfoByCustomerId p param : serves p (connInfoByCustomerId param p).
Proof.
  unfold connInfoByCustomerId. destruct (unmarshal_ConnInfoByCustomerIdReq param) as [u|]; [|apply serves_ret].
  apply serves_assoc, serves_ask. intros s. eapply calm_bind; [apply calm_Binder_GetConnListByCustomerIds|].
  intros m s1 _ Hm. apply calm_fold. intros ret x s2 Hx Hr2.
  assert (Forall (fun q => valid q s2) x.2) as Hl by (by eapply valid_lists_range).
  eapply (calm_bind _ _ _ _ any); [|intros; apply calm_done]. apply calm_fold. intros items q s3 Hq Hr3. advance Hr3.
  eapply (calm_bind _ _ _ _ any); [apply calm_locked_see; [by eapply valid_in|apply lock_free_task]|]. intros. apply calm_done.
Qed.

Lemma serves_checkOnline p param : serves p (checkOnline param p).
Proof.
  unfold checkOnline. destruct (unmarshal_CheckOnlineReq param) as [u|]; [|apply serves_ret].
  apply serves_ask. intros s. apply calm_fold. intros l v s1 Hx Hr1.
  eapply (calm_bind _ _ _ _ any); [apply calm_Manager_Has|]. intros. apply calm_done.
Qed.

Lemma serves_limit p param : serves p (limit param p).
Proof.
  unfold limit. destruct (unmarshal_LimitReq param) as [u|]; [|apply serves_ret].
  eapply serves_bind; [intros s; apply calm_Limit_Update|]. intros _. apply serves_ask. intros s. unfold Limit_Get. calm.
Qed.

Lemma serves_question p cmd cb param : lookup_cmd cmd getCallback = Some cb -> serves p (cb param p).
Proof.
  apply (lookup_cmd_Forall (fun cb => serves p (cb param p))).
  repeat (apply Forall_cons; split); [..|constructor]; cbn [snd].
  - apply serves_ask. intros s. apply calm_Manager_GetUniqIds.
  - apply serves_ask. intros s. apply calm_read.
  - apply serves_topicUniqIdList.
  - apply serves_topicUniqIdCount.
  - apply serves_ask. intros s. apply calm_Topic_Len.
  - apply serves_ask. intros s. apply calm_Topic_Get.
  - apply serves_connInfo.
  - apply serves_connInfoByCustomerId.
  - apply serves_ask. intros s. apply calm_metrics_items.
  - apply serves_checkOnline.
  - apply serves_limit.
  - apply serves_ask. intros s. apply calm_Binder_Len.
  - apply serves_ask. intros s. apply calm_Binder_GetCustomerIds.
  - apply serves_topicCustomerIdList.
  - apply serves_topicCustomerIdCount.
  - apply serves_topicCustomerIdToUniqIdsList.
Qed.
(** ** The loop *)

Lemma lookup_cmd_app {A} cmd (l k : list (Z * A)) :
  lookup_cmd cmd (l ++ k) = match lookup_cmd cmd l with Some a => Some a | None => lookup_cmd cmd k end.
Proof. induction l as [|[c a] l IH]; cbn; [done|]. by destruct (cmd =? c). Qed.

Lemma serves_exec p cmd param : serves p (exec cf p cmd param).
Proof.
  assert (forall (m : prog unit), serves p m -> serves p (recover m ;; Ret true)) as Hserve.
  { intros m Hm s n Hn. apply safe_bind, safe_recover. eapply safe_mono; [by apply Hm|].
    intros [] h' s' [-> Hs']. done. }
  assert (forall (m : prog unit), (forall s, calm ∅ s m any) -> serves p m) as Hcalm.
  { intros m Hm s n Hn. eapply safe_mono; [apply calm_frame; [apply lock_free_task|apply Hm]|].
    cbv beta. intros [] h' s' (-> & Hr & _). split; [done|]. exists n. split; [|done]. by rewrite (task_rely p s s' Hr). }
  unfold exec. destruct (lookup_cmd cmd (postNonBlockingCallback cf)) as [cb|] eqn:E1.
  { assert (forall s, calm ∅ s (cb param) any) as Hcb.
    { intros s. apply (calm_post s cmd). by rewrite lookup_cmd_app, E1. }
    cbv zeta. apply (serves_assoc p (Submit (recover (cb param)))
      (fun err => match err with Some _ => spawn (recover (cb param)) | None => Ret tt end) (fun _ => Ret true)).
    fold (submit_or_go (recover (cb param))).
    eapply (serves_bind p _ _ any); [|intros; apply serves_ret]. intros s. by apply calm_submit_or_go. }
  destruct (lookup_cmd cmd (postBlockingCallback cf)) as [cb|] eqn:E2.
  { apply Hserve, Hcalm. intros s. apply (calm_post s cmd). by rewrite lookup_cmd_app, E1. }
  destruct (lookup_cmd cmd getCallback) as [cb|] eqn:E3; [|apply serves_ret].
  by apply Hserve, (serves_question p cmd).
Qed.

(** A turn that goes on leaves less to read. *)
Definition reads (p : ptr) (m : prog bool) : Prop :=
  forall s n, tasks s.1 !! p = Some n ->
    safe m {[TTask p]} s (fun go_on h' s' => h' = {[TTask p]} /\ exists n', tasks s'.1 !! p = Some n' /\
      (go_on = true -> length (n_in n') < length (n_in n))%nat).

Lemma reads_turn p : reads p (process_turn cf p).
Proof.
  intros s n Hn. unfold process_turn.
  assert (forall h' s' n', h' = {[TTask p]} -> tasks s'.1 !! p = Some n' ->
    safe (Ret false) h' s' (fun go_on h' s' => h' = {[TTask p]} /\ exists n', tasks s'.1 !! p = Some n' /\
      (go_on = true -> length (n_in n') < length (n_in n))%nat)) as Hstop.
  { intros h' s' n' -> Hn'. split; [done|]. by exists n'. }
  apply safe_bind. eapply safe_net_act; [exact Hn|]. intros s1 Hn1.
  destruct (net_read_deadline n).1; [by eapply Hstop|]. set (n1 := (net_read_deadline n).2) in *.
  assert (n_in n1 = n_in n) as E1 by done.
  apply safe_bind. eapply safe_net_act; [exact Hn1|]. intros s2 Hn2.
  unfold net_read in Hn2 |- *. rewrite E1 in *. unfold len in *.
  destruct (Z.ltb_spec (Z.of_nat (length (n_in n))) 4) as [Hlt|Hge]; cbn [fst snd] in *; [by eapply Hstop|].
  set (n2 := mkNet _ _ _ _ _ _) in Hn2.
  assert (length (n_in n2) < length (n_in n))%nat as Hless by (unfold n2; cbn [n_in]; rewrite length_drop; lia).
  destruct (_ <? be _); [by eapply Hstop|].
  apply safe_bind. eapply safe_net_act; [exact Hn2|]. intros s3 Hn3.
  destruct (_ <? be _); cbn [fst snd] in *; [by eapply Hstop|].
  set (n3 := mkNet _ _ _ _ _ _) in Hn3.
  assert (length (n_in n3) <= length (n_in n2))%nat as Hle by (unfold n3; cbn [n_in]; rewrite length_drop; lia).
  case_bool_decide.
  { split; [done|]. exists n3. split; [done|]. lia. }
  destruct (_ <? 4); [by eapply Hstop|].
  eapply safe_mono; [by apply serves_exec|]. cbv beta. intros go_on h' s4 (-> & n4 & Hn4 & E4).
  split; [done|]. exists n4. split; [done|]. rewrite E4. lia.
Qed.

Lemma serves_loop p fuel s n :
  tasks s.1 !! p = Some n -> (length (n_in n) < fuel)%nat ->
  safe (process_loop cf fuel p) {[TTask p]} s (fun _ h' s' => h' = {[TTask p]} /\ exists n', tasks s'.1 !! p = Some n').
Proof.
  revert s n; induction fuel as [|fuel IH]; intros s n Hn Hlt; [lia|]. cbn [process_loop].
  apply safe_bind. eapply safe_mono; [by apply reads_turn|]. cbv beta. intros [] h' s' (-> & n' & Hn' & Hl).
  - eapply (IH s' n'); [done|]. specialize (Hl eq_refl). lia.
  - split; [done|]. by exists n'.
Qed.

(** [Process] reads what the business process sends, whatever it is, to its end. *)
Lemma safe_Process s p n :
  tasks s.1 !! p = Some n -> safe (Process cf p) {[TTask p]} s (fun _ h' _ => h' = ∅).
Proof.
  intros Hn. unfold Process. apply safe_bind. eapply safe_net_act; [exact Hn|]. intros s1 Hn1. cbn [fst snd] in *.
  apply safe_bind, safe_recover. eapply safe_mono; [eapply serves_loop; [exact Hn1|lia]|].
  cbv beta. intros _ h' s2 (-> & n2 & Hn2). by apply (safe_net_act_to _ p n2 ∅); [exact Hn2|set_solver|].
Qed.
End Task.
