(* ===== verification/OwnerEvents.v ===== *)
(** The events of a connection under the discipline of [Owner]: the task that opens
    a connection that is not tracked yet, and the close event in its phases. *)

From S2P Require Export OwnerTask.

Section Events.
Context {MO : MapOrder} `{Deflate} `{Proto} {SV : Serving}.
Abbreviation cf := sv_config.
Abbreviation any := (fun _ _ => True).
Abbreviation seen := (world * gset token)%type.

(** ** The manager *)

Lemma m_insert_registered h r u p c :
  registered h r -> h !! p = Some c -> uniqId (c_info c) = u -> u <> EmptyString -> registered h (m_insert u p r).
Proof.
  intros [R1 R2 R3 R4 R5 R6] Hp Hu Hne. split; try done; [by apply m_insert_wf|].
  intros v q. rewrite m_insert_lookup by apply R1. case_decide as E; [|apply R4].
  intros [= <-]. exists c. split; [done|congruence].
Qed.

Lemma m_remove_registered h r u : registered h r -> registered h (m_remove u r).
Proof.
  intros [R1 R2 R3 R4 R5 R6].
  assert (b_shards (m_remove u r) = b_shards r /\ t_shards (m_remove u r) = t_shards r) as [E1 E2]
    by (unfold m_remove; by destruct (m_lookup r u)).
  split.
  - by apply m_remove_wf.
  - destruct R2 as [W1 W2]. split; [by rewrite E1|]. intros k. unfold b_lookup. rewrite E1. apply W2.
  - destruct R3 as [W1 W2]. split; [by rewrite E2|]. intros k. unfold t_lookup. rewrite E2. apply W2.
  - intros v q. rewrite m_remove_lookup by apply R1. case_decide; [done|]. apply R4.
  - intros k i q. unfold entry, b_lookup. rewrite E1. apply R5.
  - intros k i q. unfold t_lookup. rewrite E2. apply R6.
Qed.

Lemma entry_m_insert u p r k i : entry (m_insert u p r) k i = entry r k i.
Proof. done. Qed.

Lemma entry_m_remove u r k i : entry (m_remove u r) k i = entry r k i.
Proof. unfold m_remove. by destruct (m_lookup r u). Qed.

Lemma set_is_insert u p w :
  with_reg (fun r => with_m (alter (insert u p) (shard_index u) (m_shards r))
    (if match shard (m_shards r) (shard_index u) !! u with Some _ => true | None => false end
     then m_len r else u32 (m_len r + 1)) r) w = with_reg (m_insert u p) w.
Proof. unfold with_reg, m_insert, m_lookup, shard_lookup. by destruct (shard _ _ !! u). Qed.

(** A connection that is not tracked is not linked to those that are. *)
Lemma other_uniqId w G p q c d :
  good w G -> heap w !! p = Some c -> heap w !! q = Some d -> p <> q -> uniqId (c_info d) <> uniqId (c_info c).
Proof. intros Hi Hp Hq Hne E. apply Hne. eapply (gd_distinct _ _ Hi); [done|done|by right]. Qed.

Lemma other_id w G p q c d :
  good w G -> heap w !! p = Some c -> heap w !! q = Some d -> p <> q -> id (c_info d) <> id (c_info c).
Proof. intros Hi Hp Hq Hne E. apply Hne. eapply (gd_distinct _ _ Hi); [done|done|by left]. Qed.

(** Who a connection is. *)
Definition named (p : ptr) (u : string) (s : seen) : Prop :=
  exists c, heap s.1 !! p = Some c /\ uniqId (c_info c) = u.

Lemma named_rely h s s' p u : rely h s s' -> named p u s -> named p u s'.
Proof.
  intros Hr (c & Hp & Hu). destruct (gw_heap _ _ (rl_grows _ _ _ Hr) p c Hp) as (c' & Hp' & _ & E & _).
  exists c'. split; [done|congruence].
Qed.

Lemma calm_name h s p : valid p s -> calm h s (conn_get p (fun c => uniqId (c_info c))) (fun u s' => named p u s').
Proof. intros Hv. apply calm_conn_get; [done|]. intros w G c _ _ _ Hp. by exists c. Qed.

Lemma calm_Manager_Set h s u p : p ∉ tracked -> named p u s -> calm h s (Manager_Set u p) any.
Proof.
  intros Hnt Hn. unfold Manager_Set. destruct (is_empty u) eqn:E; [apply calm_done|]. apply is_empty_false in E. cbv zeta.
  apply calm_modify. intros w G Hr Hi Hh. rewrite set_is_insert.
  destruct (named_rely h s (w, G) p u Hr Hn) as (c & Hp & Hu). cbn in Hp.
  assert (forall q d, q ∈ tracked -> heap w !! q = Some d -> m_lookup (m_insert u p (reg w)) (uniqId (c_info d)) = m_lookup (reg w) (uniqId (c_info d))) as Hm.
  { intros q d Hq Hd. rewrite m_insert_lookup by apply (gd_registered _ _ Hi). rewrite decide_False; [done|].
    rewrite <- Hu. intros Eu. by eapply (other_uniqId w G p q); [exact Hi|done|done|intros ->|]. }
  split_and!; [| |done].
  - apply (good_reg w G); [done|done|apply Hi|by eapply m_insert_registered; [apply Hi|..]|].
    intros q d Hq Hd [L1 L2 L3 L4]. split; rewrite ?(Hm q d) by done; done.
  - intros ho _. apply rely_reg; eauto.
Qed.

Lemma calm_Manager_Del h s u p : p ∉ tracked -> named p u s -> calm h s (Manager_Del u) any.
Proof.
  intros Hnt Hn. unfold Manager_Del. destruct (is_empty u) eqn:E; [apply calm_done|]. cbv zeta.
  apply calm_modify. intros w G Hr Hi Hh.
  destruct (named_rely h s (w, G) p u Hr Hn) as (c & Hp & Hu). cbn in Hp.
  split_and!; [change (good (with_reg (m_remove u) w) G)| |done].
  - apply (good_reg w G); [done|done|apply Hi|by apply m_remove_registered, Hi|].
    intros q d Hq Hd [L1 L2 L3 L4]. split; try done.
    + intros k x. rewrite entry_m_remove. apply L1.
    + intros. rewrite entry_m_remove. by apply L2.
    + rewrite m_remove_lookup by apply (gd_registered _ _ Hi). rewrite decide_False; [done|].
      rewrite <- Hu. intros Eu. by eapply (other_uniqId w G p q); [exact Hi|done|done|intros ->|].
  - intros ho _. change (rely ho (w, G) (with_reg (m_remove u) w, G)).
    apply rely_reg; [eauto|eauto|]. intros. apply entry_m_remove.
Qed.

(** The binder, for a connection that is not tracked. *)
Lemma calm_binder h s p (g : Z -> registries -> registries) :
  valid p s -> p ∉ tracked ->
  (forall h r c, registered h r -> h !! p = Some c -> registered h (g (id (c_info c)) r)) ->
  (forall i r, wf_binder r -> forall k j, j <> i -> entry (g i r) k j = entry r k j) ->
  (forall i r u, m_lookup (g i r) u = m_lookup r u) ->
  calm h s (i <- conn_get p (fun c => id (c_info c)) ;; modify (with_reg (g i))) any.
Proof.
  intros Hv Hnt Hreg Hother Hman.
  eapply (calm_bind _ _ _ _ (fun i s' => exists c, heap s'.1 !! p = Some c /\ id (c_info c) = i)).
  { apply calm_conn_get; [done|]. intros w G c _ _ _ Hp. by exists c. }
  intros i s1 Hr1 (c1 & Hp1 & Hid1). apply calm_modify. intros w G Hr Hi Hh.
  destruct (gw_heap _ _ (rl_grows _ _ _ Hr) p c1 Hp1) as (c & Hp & Hid & _). cbn in Hp.
  assert (i = id (c_info c)) as -> by congruence.
  assert (forall q d k, q ∈ tracked -> heap w !! q = Some d -> entry (g (id (c_info c)) (reg w)) k (id (c_info d)) = entry (reg w) k (id (c_info d))) as He.
  { intros q d k Hq Hd. apply Hother; [apply (gd_registered _ _ Hi)|]. eapply (other_id w G p q); [exact Hi|done|done|]. by intros ->. }
  split_and!; [| |done].
  - apply (good_reg w G); [done|done|apply Hi|by apply Hreg; [apply Hi|]|].
    intros q d Hq Hd [L1 L2 L3 L4]. split; rewrite ?Hman, ?(He q d) by done; try done.
    intros k x. rewrite (He q d) by done. apply L1.
  - intros ho _. apply rely_reg; [eauto|eauto|]. intros q d k Ha _ Hd. apply (He q d); [|done].
    apply (ph_tracked _ (gd_phased _ _ Hi)). by left.
Qed.

Lemma calm_Binder_SetRelation h s k p : valid p s -> p ∉ tracked -> calm h s (Binder_SetRelation k p) any.
Proof.
  intros Hv Hnt. apply (calm_binder h s p (fun i => b_insert k i p)); [done|done| | |done].
  - intros. by apply b_insert_registered.
  - intros i r Hwf k' j Hj. rewrite entry_insert by done. rewrite decide_False; [done|]. naive_solver.
Qed.

Lemma calm_Binder_DelRelation h s k p : valid p s -> p ∉ tracked -> calm h s (Binder_DelRelation k p) any.
Proof.
  intros Hv Hnt. apply (calm_binder h s p (fun i => b_remove k i)); [done|done| | |done].
  - intros. by apply b_remove_registered.
  - intros i r Hwf k' j Hj. rewrite entry_remove by done. rewrite decide_False; [done|]. naive_solver.
Qed.

(** ** Opening *)

Lemma calm_set_info s p f : valid p s -> p ∉ tracked -> info_keeps f -> calm ∅ s (Lock p ;; info_set p f ;; UnLock p) any.
Proof.
  intros Hv Hnt Hf. unfold calm. eapply safe_mono; [apply safe_grows|].
  2: { intros a h' s' [Hr Hh']. split; [exact Hh'|done]. }
  apply safe_bind, safe_Lock; [done|]. intros s1 Hr1 Hv1 _.
  apply safe_bind, safe_info_act; [done|done|done|]. intros w G c Hr Hp.
  apply safe_UnLock; [eexists; apply put_lookup|done|done].
Qed.

Lemma calm_open_accepted s p co resp : valid p s -> p ∉ tracked -> calm ∅ s (open_accepted cf p co resp) any.
Proof.
  intros Hv Hnt. unfold open_accepted.
  eapply (calm_bind _ _ _ _ any); [apply calm_Mark|]. intros _ s1 Hr1 _. advance Hr1.
  eapply (calm_bind _ _ _ _ any).
  { destruct resp as [r|]; [|apply calm_done]. apply calm_set_info; [done|done|].
    intros i. unfold open_info. by destruct (is_empty (or_NewSession r)), (is_empty (or_NewCustomerId r)), (isNil (or_NewTopics r)). }
  intros _ s2 Hr2 _. advance Hr2.
  eapply calm_bind; [by apply calm_name|]. intros u s3 Hr3 Hu. advance Hr3.
  eapply (calm_bind _ _ _ _ any); [by eapply calm_Manager_Set|]. intros _ s4 Hr4 _. advance Hr4.
  eapply (calm_bind _ _ _ _ any).
  { destruct resp as [r|]; [|apply calm_done]. eapply (calm_bind _ _ _ _ any).
    { destruct (is_empty (or_NewCustomerId r)); [apply calm_done|by apply calm_Binder_SetRelation]. }
    intros _ s5 Hr5 _. advance Hr5. eapply (calm_bind _ _ _ _ any).
    { destruct (isNil (or_NewTopics r)); [apply calm_done|by apply calm_Topic_SetRelation]. }
    intros _ s6 Hr6 _. advance Hr6. by apply calm_write_data. }
  intros _ s7 Hr7 _. eapply (calm_bind _ _ _ _ any); [apply calm_emit|]. intros _ s8 _ _.
  apply calm_forward. by left.
Qed.

Lemma calm_open_task s p req : valid p s -> p ∉ tracked -> calm ∅ s (open_task cf p req) any.
Proof.
  intros Hv Hnt. unfold open_task, open_message, open_answered.
  eapply (calm_bind _ _ _ _ any); [by apply calm_conn_see|]. intros closed s1 Hr1 _. advance Hr1.
  destruct closed; [apply calm_done|]. eapply (calm_bind _ _ _ _ any).
  { eapply (calm_bind _ _ _ _ any); [by apply calm_conn_see|]. intros u s2 Hr2 _. advance Hr2.
    eapply (calm_bind _ _ _ _ any); [by apply calm_conn_see|]. intros. apply calm_done. }
  intros co s4 Hr4 _. advance Hr4. destruct (is_empty (cf_OnOpenApi cf)); [by apply calm_open_accepted|].
  eapply (calm_bind _ _ _ _ any); [apply calm_callback_OnOpen|]. intros answer s5 Hr5 _. advance Hr5.
  eapply (calm_bind _ _ _ _ any); [by apply calm_conn_see|]. intros cl s6 Hr6 _. advance Hr6.
  destruct cl; [apply calm_done|]. destruct answer as [r|err]; [|by apply calm_WriteClose].
  destruct (or_Allow r); [by apply calm_open_accepted|].
  eapply (calm_bind _ _ _ _ any); [by apply calm_write_data|]. intros _ s7 Hr7 _. advance Hr7. by apply calm_WriteClose.
Qed.

(** ** Closing a connection that is not tracked *)

Lemma calm_close_rest s p cl l : valid p s -> calm ∅ s (Topic_DelRelationBySlice l p ;; submit_or_go (recover (close_task cf cl))) any.
Proof.
  intros Hv. eapply (calm_bind _ _ _ _ any); [by apply calm_Topic_DelRelationBySlice|]. intros _ s1 _ _.
  apply calm_submit_or_go. intros s2 _. apply calm_close_task.
Qed.

Lemma calm_OnWebsocketClose s p : valid p s -> p ∉ tracked -> calm ∅ s (OnWebsocketClose cf p) any.
Proof.
  intros Hv Hnt. unfold OnWebsocketClose.
  eapply calm_bind; [by apply calm_name|]. intros u s1 Hr1 Hu. advance Hr1.
  eapply (calm_bind _ _ _ _ any); [by eapply calm_Manager_Del|]. intros _ s2 Hr2 _. advance Hr2.
  eapply (calm_bind _ _ _ _ any); [by apply calm_locked_get; [|apply lock_free_nil|]|].
  intros [[[u' k] se] l] s3 Hr3 _. advance Hr3. eapply (calm_bind _ _ _ _ any).
  { destruct (is_empty k); [apply calm_done|by apply calm_Binder_DelRelation]. }
  intros _ s4 Hr4 _. advance Hr4. by apply calm_close_rest.
Qed.

Lemma calm_mark_closed_flag h s p :
  valid p s -> calm h s (mark_closed_flag p) (fun _ s' => exists c, heap s'.1 !! p = Some c /\ closed_conn c = true).
Proof. apply calm_SetClosedFlag. Qed.

Lemma calm_OnClose s p : valid p s -> p ∉ tracked -> calm ∅ s (OnClose cf p) any.
Proof.
  intros Hv Hnt. unfold OnClose.
  eapply (calm_bind _ _ _ _ any); [by apply calm_conn_see|]. intros upgraded s1 Hr1 _. advance Hr1.
  eapply (calm_bind _ _ _ _ any); [|intros; apply calm_done]. destruct upgraded; [|apply calm_done].
  eapply calm_bind; [by apply calm_mark_closed_flag|]. intros first s2 Hr2 _. advance Hr2. by apply calm_OnWebsocketClose.
Qed.
End Events.

(** ** The close event of a tracked connection, phase by phase: out of the manager, the
    info read for the last time, out of the binder.  When it ends, the connection is in
    neither, and no command that still holds the connection can put it back. *)

Section Close.
Context {MO : MapOrder} `{Deflate} `{Proto} {SV : Serving}.
Abbreviation cf := sv_config.
Abbreviation any := (fun _ _ => True).
Abbreviation seen := (world * gset token)%type.

Context (p : ptr) (Ht : p ∈ tracked).

(** What the close event knows of the connection. *)
Definition shut (s : seen) : Prop := exists c, heap s.1 !! p = Some c /\ closed_conn c = true.

Lemma shut_rely h s s' : rely h s s' -> shut s -> shut s'.
Proof.
  intros Hr (c & Hp & Hc). destruct (gw_heap _ _ (rl_grows _ _ _ Hr) p c Hp) as (c' & Hp' & _ & _ & E & _).
  exists c'. split; [done|auto].
Qed.

Lemma shut_valid s : shut s -> valid p s.
Proof. intros (c & Hp & _). by exists c. Qed.

(** One token for another. *)
Lemma swap_token (G h h' : gset token) t : t ∉ h -> t ∉ h' -> t ∈ G ∖ h ∪ h' <-> t ∈ G.
Proof. set_solver. Qed.

Lemma lock_free_phase t : ~ is_lock t -> lock_free ({[t]} : gset token).
Proof. intros Hn x Hx. apply elem_of_singleton in Hx as ->. exact Hn. Qed.

(** The phase of [p] moves on, that of the others and the locks stay. *)
Lemma next_phase w G a (h' : gset token) :
  good w G -> a ∈ G -> a = TOnline p \/ a = TLeaving p \/ a = TGone p ->
  h' = {[TLeaving p]} /\ a = TOnline p \/ h' = {[TGone p]} /\ a = TLeaving p \/ h' = ∅ ->
  let G' := G ∖ {[a]} ∪ h' in
  phased G' /\ (forall q, TLock q ∈ G' <-> TLock q ∈ G) /\
  (forall q, q <> p -> (alive G' q <-> alive G q) /\ (TOnline q ∈ G' <-> TOnline q ∈ G) /\ (TGone q ∈ G' <-> TGone q ∈ G)) /\
  (forall q, alive G' q -> alive G q) /\
  (forall q, (TLoop q ∈ G' -> TLoop q ∈ G) /\ (TReader q ∈ G' -> TReader q ∈ G)).
Proof.
  intros Hi Ha Hcase Hh' G'. destruct (gd_phased _ _ Hi) as [P1 P2 P3].
  assert (forall q, q <> p -> (TOnline q ∈ G' <-> TOnline q ∈ G) /\ (TLeaving q ∈ G' <-> TLeaving q ∈ G) /\ (TGone q ∈ G' <-> TGone q ∈ G)) as Hother.
  { intros q Hq. unfold G'. split_and!; apply swap_token; destruct Hcase as [-> | [-> | ->]]; destruct Hh' as [[-> ?]|[[-> ?]| ->]]; set_solver. }
  assert (forall q, TLock q ∈ G' <-> TLock q ∈ G) as Hlock.
  { intros q. unfold G'. apply swap_token; destruct Hcase as [-> | [-> | ->]]; destruct Hh' as [[-> ?]|[[-> ?]| ->]]; set_solver. }
  assert (forall q, q <> p -> alive G' q <-> alive G q) as Hal by (intros q Hq; unfold alive; destruct (Hother q Hq) as (? & ? & _); tauto).
  assert (TOnline p ∈ G' -> False) as N1.
  { unfold G'. specialize (P2 p). specialize (P3 p). unfold alive in P3. intros Hin.
    destruct Hcase as [-> | [-> | ->]]; destruct Hh' as [[-> ?]|[[-> ?]| ->]]; set_solver. }
  assert (TLeaving p ∈ G' -> a = TOnline p) as N2.
  { unfold G'. specialize (P2 p). specialize (P3 p). unfold alive in P3. intros Hin.
    destruct Hcase as [-> | [-> | ->]]; destruct Hh' as [[-> ?]|[[-> ?]| ->]]; set_solver. }
  assert (TLeaving p ∈ G' -> TGone p ∉ G') as N3.
  { intros Hin. specialize (N2 Hin). subst a. unfold G'. specialize (P3 p). unfold alive in P3.
    destruct Hh' as [[-> ?]|[[-> ?]| ->]]; set_solver. }
  split_and!; [split|exact Hlock| | |].
  - intros q Hq. destruct (decide (q = p)) as [->|Hne]; [done|]. apply P1.
    rewrite Hal in Hq by done. destruct (Hother q Hne) as (_ & _ & E). tauto.
  - intros q Hq. destruct (decide (q = p)) as [->|Hne]; [by destruct N1|]. destruct (Hother q Hne) as (E1 & E2 & _).
    rewrite E2. apply P2. tauto.
  - intros q Hq. destruct (decide (q = p)) as [->|Hne].
    + destruct Hq as [Hq|Hq]; [by destruct N1|auto].
    + destruct (Hother q Hne) as (_ & _ & ->). apply P3. by apply Hal.
  - intros q Hq. destruct (Hother q Hq) as (E1 & _ & E3). split; [by apply Hal|tauto].
  - intros q Hq. destruct (decide (q = p)) as [->|Hne]; [|by apply Hal].
    destruct Hq as [Hq|Hq]; [by destruct N1|]. left. by rewrite <- (N2 Hq).
  - intros q. unfold G'. destruct Hh' as [[-> ?]|[[-> ?]| ->]]; set_solver.
Qed.

(** Out of the manager. *)
Lemma safe_leave_manager s u (Q : unit -> gset token -> seen -> Prop) :
  shut s -> named p u s -> u <> EmptyString ->
  (forall s', shut s' -> Q tt {[TLeaving p]} s') ->
  safe (Manager_Del u) {[TOnline p]} s Q.
Proof.
  intros Hsh Hn Hne HQ. unfold Manager_Del. rewrite (proj2 (is_empty_false u) Hne). cbv zeta.
  intros w G Hr Hi Hh. cbn [fst snd].
  assert (TOnline p ∈ G) as Hin by set_solver.
  destruct (named_rely _ _ _ _ _ Hr Hn) as (c & Hp & Hu). cbn in Hp.
  destruct (next_phase w G (TOnline p) {[TLeaving p]}) as (Hph & Hlock & Hoth & Hal & Hloop); [done|done|by left|by left|].
  set (G' := G ∖ {[TOnline p]} ∪ {[TLeaving p]}) in *.
  assert (alive G' p) as Hlive by (right; unfold G'; set_solver).
  assert (TGone p ∈ G' <-> TGone p ∈ G) as Hgo by (unfold G'; set_solver).
  exists {[TLeaving p]}. fold G'. split; [split_and!|].
  - apply disjoint_singleton_l. intros [Hl _]%elem_of_difference. by apply (ph_online _ (gd_phased _ _ Hi) p).
  - change (good (with_reg (m_remove u) w) G'). apply (good_reg w G); [done|intros q; split; [apply Hlock|apply Hloop]|done|by apply m_remove_registered, Hi|].
    intros q d Hq Hd [L1 L2 L3 L4]. destruct (decide (q = p)) as [->|Hqp].
    + simplify_eq. assert (alive G p) as Ha0 by (by left). split.
      * intros k x. rewrite entry_m_remove, Hlock, Hgo. intros Hx. destruct (L1 k x Hx) as (E1 & _ & E3).
        split_and!; [done|by left|]. tauto.
      * intros _. rewrite Hlock, entry_m_remove. by apply L2.
      * done.
      * rewrite m_remove_lookup by apply (gd_registered _ _ Hi). rewrite decide_True by done.
        split; [done|]. unfold G'. set_solver.
    + destruct (Hoth q Hqp) as (E1 & E2 & E3). split.
      * intros k x. rewrite entry_m_remove, Hlock, E1, E3. apply L1.
      * rewrite E1, Hlock, entry_m_remove. apply L2.
      * rewrite E1. apply L3.
      * rewrite m_remove_lookup, E2 by apply (gd_registered _ _ Hi). rewrite decide_False; [done|].
        rewrite <- Hu. intros Eu. by eapply (other_uniqId w G p q).
  - intros ho Hho. change (rely ho (w, G) (with_reg (m_remove u) w, G')). apply rely_reg.
    + intros q Hq _. destruct (decide (q = p)) as [->|Hqp]; [done|]. by apply Hoth.
    + exact Hal.
    + intros. apply entry_m_remove.
  - cbn. apply HQ. apply (shut_rely {[TOnline p]} s (w, G) Hr Hsh).
Qed.

(** The info for the last time: after this nobody changes the customerId. *)
Lemma safe_snapshot s (Q : string * string * string * list string -> gset token -> seen -> Prop) :
  shut s ->
  (forall w G c h', heap w !! p = Some c -> good w G -> shut (w, G) -> (h' = if is_empty (customerId (c_info c)) then ∅ else {[TGone p]}) ->
     Q (SnapshotOnSafe (c_info c)) h' (w, G)) ->
  safe (locked_get p SnapshotOnSafe) {[TLeaving p]} s Q.
Proof.
  intros Hsh HQ w G Hr Hi Hh.
  assert (TLeaving p ∈ G) as Hin by set_solver.
  destruct (shut_rely _ _ _ Hr Hsh) as (c & Hp & Hcl). cbn in Hp. rewrite Hp.
  destruct (locked (c_info c)) eqn:Hl.
  { split; [by apply lock_free_phase; intros []|]. by apply (held_lock w G p c). }
  assert (TLock p ∉ G) as Hnl.
  { intros Hx. apply (gd_lock _ _ Hi) in Hx as (c0 & Hc0 & Hl0). congruence. }
  set (h' := if is_empty (customerId (c_info c)) then ∅ else {[TGone p]} : gset token).
  destruct (next_phase w G (TLeaving p) h') as (Hph & Hlock & Hoth & Hal & Hloop); [done|done|by right; left| |].
  { unfold h'. destruct (is_empty _); [by right; right|by right; left]. }
  set (G' := G ∖ {[TLeaving p]} ∪ h') in *.
  assert (TGone p ∉ G) as Hng by (apply (ph_alive _ (gd_phased _ _ Hi)); by right).
  assert (TOnline p ∉ G) as Hno by (intros Hx; by apply (ph_online _ (gd_phased _ _ Hi) p)).
  assert (~ alive G' p) as Hdead.
  { unfold alive, G', h'. destruct (is_empty _); set_solver. }
  assert (good w G') as Hi'.
  { destruct Hi as [H1 H2 H3 H3' H4 H5 H6 H7]. split; try done; [| |intros q; destruct (H7 q), (Hloop q); auto].
    - intros q. rewrite Hlock. apply H1.
    - intros q Hq. destruct (H6 q Hq) as (d & Hd & [L1 L2 L3 L4]). exists d. split; [done|].
      destruct (decide (q = p)) as [->|Hqp].
      + simplify_eq. split.
        * intros k x Hx. destruct (L1 k x Hx) as (E1 & _ & [E3|[_ E3]]); [|done]. split_and!; [done| |by left].
          right. unfold G', h'. subst k. rewrite (proj2 (is_empty_false _) E1). set_solver.
        * done.
        * done.
        * rewrite L4. unfold G', h'. destruct (is_empty _); set_solver.
      + destruct (Hoth q Hqp) as (E1 & E2 & E3). split; [intros k x| | |]; rewrite ?E1, ?E2, ?E3, ?Hlock; auto; apply L1. }
  exists h'. fold G'. split; [split_and!|].
  - unfold h'. destruct (is_empty _); set_solver.
  - exact Hi'.
  - intros ho Hho. split; cbn; [apply grows_refl|by intros; simplify_eq|by intros; simplify_eq| |done|exact Hal|by intros; simplify_eq|by intros; simplify_eq].
    intros q d Htq Ha Hd. split; [|done]. destruct (decide (q = p)) as [->|Hqp]; [|by apply Hoth].
    exfalso. apply Hnl. set_solver.
  - apply (HQ w G' c h'); [done|done|by exists c|done].
Qed.

(** Out of the binder. *)
Lemma safe_leave_binder s k (Q : unit -> gset token -> seen -> Prop) :
  (exists c, heap s.1 !! p = Some c /\ closed_conn c = true /\ customerId (c_info c) = k) ->
  (forall s', shut s' -> Q tt ∅ s') ->
  safe (Binder_DelRelation k p) {[TGone p]} s Q.
Proof.
  intros (c0 & Hp0 & Hcl0 & Hk0) HQ. unfold Binder_DelRelation.
  eapply (safe_calm_bind _ _ _ _ (fun i s' => exists c, heap s'.1 !! p = Some c /\ id (c_info c) = i)).
  { apply calm_conn_get; [by exists c0|]. intros w G c _ _ _ Hp. by exists c. }
  intros i s1 Hr1 (c1 & Hp1 & Hid1) w G Hr Hi Hh. cbn [fst snd].
  assert (rely {[TGone p]} s (w, G)) as Hr0 by (eapply rely_trans; [exact Hr1|exact Hr]).
  assert (TGone p ∈ G) as Hin by set_solver.
  destruct (gw_heap _ _ (rl_grows _ _ _ Hr0) p c0 Hp0) as (c & Hp & _ & _ & Hclc & _). cbn in Hp.
  destruct (gw_heap _ _ (rl_grows _ _ _ Hr) p c1 Hp1) as (c' & Hp' & Hid & _). cbn in Hp'.
  assert (c' = c) as -> by congruence. clear Hp'. subst i k.
  assert (customerId (c_info c) = customerId (c_info c0)) as Hk.
  { by eapply (rl_gone _ _ _ Hr0 p c0 c); [set_solver| |]. }
  assert (~ alive G p) as Hdead by (intros Ha; by apply (ph_alive _ (gd_phased _ _ Hi) p)).
  destruct (next_phase w G (TGone p) ∅) as (Hph & Hlock & Hoth & Hal & Hloop); [done|done|by right; right|by right; right|].
  set (G' := G ∖ {[TGone p]} ∪ ∅) in *. rewrite <- Hid.
  pose proof (gd_registered _ _ Hi) as R. pose proof (rg_binder _ _ R) as Hwb.
  assert (forall q d k', heap w !! q = Some d -> q <> p ->
            entry (b_remove (customerId (c_info c0)) (id (c_info c)) (reg w)) k' (id (c_info d)) = entry (reg w) k' (id (c_info d))) as He.
  { intros q d k' Hd Hqp. rewrite entry_remove by done. rewrite decide_False; [done|]. intros [_ E].
    by eapply (other_id w G p q); [exact Hi|exact Hp|exact Hd|intros ->|]. }
  exists ∅. fold G'. split; [split_and!|].
  - set_solver.
  - change (good (with_reg (b_remove (customerId (c_info c0)) (id (c_info c))) w) G').
    apply (good_reg w G); [done|intros q; split; [apply Hlock|apply Hloop]|done|by apply b_remove_registered|].
    intros q d Hq Hd [L1 L2 L3 L4]. destruct (decide (q = p)) as [->|Hqp].
    + simplify_eq. split.
      * intros k' x. rewrite entry_remove by done. case_decide as E; [done|]. intros Hx.
        destruct (L1 k' x Hx) as (_ & _ & [E3|[E3 _]]); [|done]. destruct E. split; [congruence|done].
      * intros Ha. by apply Hal in Ha.
      * intros _. by apply L3.
      * rewrite (L4 : m_lookup (b_remove _ _ (reg w)) _ = _ <-> _). unfold G'. set_solver.
    + destruct (Hoth q Hqp) as (E1 & E2 & E3). split.
      * intros k' x. rewrite (He q d) by done. rewrite E1, E3, Hlock. apply L1.
      * rewrite (He q d) by done. rewrite E1, Hlock. apply L2.
      * rewrite E1. apply L3.
      * by rewrite E2.
  - intros ho Hho. change (rely ho (w, G) (with_reg (b_remove (customerId (c_info c0)) (id (c_info c))) w, G')).
    apply rely_reg.
    + intros q Ha _. destruct (decide (q = p)) as [->|Hqp]; [done|by apply Hoth].
    + exact Hal.
    + intros q d k' Ha _ Hd. apply (He q d); [done|]. by intros ->.
  - cbn. apply HQ. exists c. cbn. auto.
Qed.

(** [OnClose] from the first phase to the end. *)
Lemma safe_OnClose s :
  (exists c, heap s.1 !! p = Some c /\ isUpgraded (c_codec c) = true) ->
  safe (OnClose cf p) {[TOnline p]} s (fun _ h' _ => h' = ∅).
Proof.
  intros (c0 & Hp0 & Hup). unfold OnClose.
  eapply (safe_calm_bind _ _ _ _ (fun b s' => b = true /\ valid p s')).
  { apply calm_conn_get; [by exists c0|]. intros w G c Hr _ _ Hp. split; [|by exists c].
    destruct (gw_heap _ _ (rl_grows _ _ _ Hr) p c0 Hp0) as (c' & Hp' & _ & _ & _ & _ & E). cbn in Hp'. simplify_eq. auto. }
  intros b s1 Hr1 [-> Hv1]. apply safe_bind, (safe_calm_bind _ _ _ _ (fun _ s' => shut s')); [by apply calm_mark_closed_flag|].
  intros first s2 Hr2 Hsh2. unfold OnWebsocketClose.
  eapply (safe_calm_bind _ _ _ _ (fun u s' => named p u s' /\ u <> EmptyString)).
  { apply calm_conn_get; [by apply shut_valid|]. intros w G c Hr Hi Hh Hp. split; [by exists c|].
    destruct (gd_linked _ _ Hi p Ht) as (d & Hd & Hl). simplify_eq. intros E.
    assert (TOnline p ∈ G) as Hin by set_solver. apply (lk_online _ _ _ _ Hl) in Hin. rewrite E in Hin.
    destruct (rg_manager _ _ (gd_registered _ _ Hi)) as (_ & Hnone & _). congruence. }
  intros u s3 Hr3 [Hn3 Hne]. assert (shut s3) as Hsh3 by (by eapply shut_rely).
  apply safe_bind, safe_leave_manager; [done|done|done|]. intros s4 Hsh4.
  apply safe_bind, safe_snapshot; [done|]. intros w G c h' Hp Hi Hsh ->. unfold SnapshotOnSafe. cbv beta iota.
  assert (forall s', shut s' -> safe (Topic_DelRelationBySlice (getTopics (c_info c)) p ;;
            submit_or_go (recover (close_task cf (mkConnClose (uniqId (c_info c)) (customerId (c_info c)) (session (c_info c)) (getTopics (c_info c))))))
            ∅ s' (fun _ h' s'' => safe (Ret ActNone) h' s'' (fun _ h' _ => h' = ∅))) as Hrest.
  { intros s' Hs'. eapply safe_mono; [apply calm_close_rest; by apply shut_valid|]. by intros ? ? ? (-> & _). }
  destruct (is_empty (customerId (c_info c))) eqn:E.
  - apply Hrest. exact Hsh.
  - apply safe_bind. eapply safe_leave_binder; [|intros s5 Hsh5; by apply Hrest].
    destruct Hsh as (c1 & Hp1 & Hc1). cbn in *. simplify_eq. by exists c.
Qed.
End Close.
