(* ===== verification/Opening.v ===== *)
(** The opening of a connection, from receipt to end, and its closing: the checks of the event
    loop, the callback that decides, the registries, the message and the events. *)

From S2P Require Export Forward.

Section Opening.
Context {MO : MapOrder} `{Deflate} `{Proto} (cf : config).

(** A connection as [NewConn] makes it: in no registry, with nothing in its info. *)
Definition unopened (w : world) (p : ptr) (c : Conn) : Prop :=
  heap w !! p = Some c /\ uniqId (c_info c) <> EmptyString /\
  m_lookup (reg w) (uniqId (c_info c)) = None /\ customerId (c_info c) = EmptyString /\
  forall k, subscribed (c_info c) k = false.

(** What the answer sets. *)
Definition open_change (resp : option ConnOpenResp) (i : info) : info :=
  match resp with Some r => open_info r i | None => i end.
Definition open_topics (resp : option ConnOpenResp) : list string :=
  match resp with Some r => or_NewTopics r | None => [] end.
Definition open_sent (resp : option ConnOpenResp) (h : gmap ptr Conn) (p : ptr) : list effect :=
  match resp with Some r => data_sent cf (or_Data r) h p | None => [] end.

Lemma open_info_blind r : lock_blind (open_info r).
Proof.
  intros i b. unfold open_info.
  destruct (is_empty (or_NewSession r)), (is_empty (or_NewCustomerId r)), (isNil (or_NewTopics r)); by destruct i.
Qed.

Lemma open_change_blind resp : lock_blind (open_change resp).
Proof. destruct resp; [apply open_info_blind|done]. Qed.

Lemma open_change_id resp i : id (open_change resp i) = id i /\ uniqId (open_change resp i) = uniqId i.
Proof.
  destruct resp as [r|]; [|done]. cbn [open_change]. unfold open_info.
  by destruct (is_empty (or_NewSession r)), (is_empty (or_NewCustomerId r)), (isNil (or_NewTopics r)).
Qed.

Lemma open_change_customerId resp i :
  customerId i = EmptyString -> customerId (open_change resp i) = match resp with Some r => or_NewCustomerId r | None => EmptyString end.
Proof.
  intros Hi. destruct resp as [r|]; [|done]. cbn [open_change]. unfold open_info.
  destruct (is_empty (or_NewCustomerId r)) eqn:E; [apply is_empty_true in E as ->|];
    by destruct (is_empty (or_NewSession r)), (isNil (or_NewTopics r)).
Qed.

Lemma open_change_subscribed resp i k :
  (forall k, subscribed i k = false) ->
  subscribed (open_change resp i) k = bool_decide (k ∈ open_topics resp /\ k <> EmptyString).
Proof.
  intros Hi.
  assert (forall j, subscribed i k = subscribed j k -> subscribed j k = bool_decide (k ∈ [] /\ k <> EmptyString)) as Hnil.
  { intros j <-. rewrite Hi, bool_decide_eq_false_2; set_solver. }
  destruct resp as [r|]; [|by apply Hnil]. cbn [open_change open_topics]. unfold open_info.
  set (j1 := if is_empty (or_NewSession r) then i else SetSession (or_NewSession r) i).
  set (j2 := if is_empty (or_NewCustomerId r) then j1 else SetCustomerId (or_NewCustomerId r) j1).
  assert (subscribed i k = subscribed j2 k) as E
    by (unfold j2, j1; by destruct (is_empty (or_NewSession r)), (is_empty (or_NewCustomerId r))).
  destruct (or_NewTopics r) as [|t l]; [by apply Hnil|].
  cbn [isNil]. by rewrite subscribed_SubscribeTopics, <- E, Hi.
Qed.

(** The state after an accepted opening. *)
Definition opened (resp : option ConnOpenResp) (co : ConnOpen) (p : ptr) (c : Conn) (w w' : world) : Prop :=
  heap w' = <[p := upd_info (open_change resp) c]> (heap w) /\
  reg w' = reg_opened p (open_change resp (c_info c)) (open_topics resp) (reg w) /\
  effects w' = effects w ++ open_sent resp (heap w) p ++ [EHeartbeat p] ++ queued cf Event_OnOpen (MConnOpen co) /\
  collects w' = next_turn cf Event_OnOpen w /\
  workers w' = delivered cf Event_OnOpen (MConnOpen co) Cmd_ConnOpen w /\ tasks w' = tasks w.

(** The steps under the lock. *)
Lemma st_open_info resp p c w0 w Q :
  st w0 (heap w0) (reg w0) [] w -> heap w0 !! p = Some c -> locked (c_info c) = false ->
  (forall w', st w0 (<[p := upd_info (open_change resp) c]> (heap w0)) (reg w0) [] w' -> Q tt w') ->
  wp (match resp with
      | Some r => Lock p ;; info_set p (open_info r) ;; UnLock p
      | None => Ret tt
      end) w Q.
Proof.
  intros Hst Hp Hl HQ. destruct resp as [r|]; cbn [open_change] in *.
  - eapply wp_bind, st_Lock; [done|done|done|]. intros w1 Hst1.
    eapply wp_bind, st_info_set; [done|by rewrite lookup_insert_eq|]. intros w2 Hst2.
    eapply st_UnLock; [done|by rewrite lookup_insert_eq| |].
    { cbn [c_info upd_info lock]. by rewrite lock_blind_locked by apply open_info_blind. }
    intros w3 Hst3. rewrite !insert_insert_eq, unlock_lock in Hst3 by (done || apply open_info_blind). by apply HQ.
  - apply wp_ret, HQ. change (upd_info (fun i => i) c) with (upd_info (fun r => r) c).
    by rewrite upd_info_id, insert_id.
Qed.

Lemma st_forward v m cmd w0 w Q h r e :
  st w0 h r e w -> workers_ok cf w0 -> is_event v ->
  (forall w', heap w' = h -> reg w' = r -> pool_clean w' -> effects w' = effects w0 ++ e ++ queued cf v m ->
     collects w' = next_turn cf v w0 -> workers w' = delivered cf v m cmd w0 -> tasks w' = tasks w0 ->
     limiters w' = limiters w0 -> env w' = env w0 -> Q tt w') ->
  wp (forward cf v m cmd) w Q.
Proof.
  intros (E1 & E2 & E3 & E4 & E5 & E6 & E7 & E8 & E9) Hok Hv HQ.
  eapply wp_forward; [|done|].
  { intros E u Hu. rewrite E9, E8. by apply Hok. }
  intros w' ((F1 & F2 & F3) & F4 & F5 & F6 & F7 & F8 & F9). apply HQ; try congruence.
  - unfold pool_clean in *. by rewrite F3.
  - by rewrite F9, E3, app_assoc.
  - rewrite F7. unfold next_turn. by rewrite E9.
  - rewrite F8. unfold delivered, next_worker. by rewrite E8, E9.
Qed.

Section Accepted.
Context (p : ptr) (c : Conn) (co : ConnOpen) (resp : option ConnOpenResp) (w : world) (Q : unit -> world -> Prop).
Hypothesis Hw : Inv w.
Hypothesis Hok : workers_ok cf w.
Hypothesis Hun : unopened w p c.
Hypothesis HQ : forall w', opened resp co p c w w' -> Inv w' -> workers_ok cf w' -> Q tt w'.

Abbreviation c' := (upd_info (open_change resp) c).
Abbreviation h' := (<[p := c']> (heap w)).
(** What is left when the registries are done. *)
Abbreviation last_steps := (emit (EHeartbeat p) ;; forward cf Event_OnOpen (MConnOpen co) Cmd_ConnOpen).

Lemma open_end w' :
  st w h' (reg_opened p (c_info c') (open_topics resp) (reg w)) (open_sent resp (heap w) p) w' -> wp last_steps w' Q.
Proof.
  destruct Hw as (Hc & Hu & Hpool), Hun as (Hp & Hune & Hnone & Hcid & Hsub). pose proof (Hu p c Hp) as Hl.
  destruct (open_change_id resp (c_info c)) as [Hid Huid].
  intros Hst. eapply wp_bind, st_emit; [done|]. intros w5 Hst5.
  eapply st_forward; [done|done|by left|]. intros w6 F1 F2 F3 F4 F5 F6 F7 F8 F9.
  assert (consistent h' (reg_opened p (c_info c') (open_topics resp) (reg w))) as Hc'.
  { apply (consistent_opened _ _ p c c'); try done. intros k. by apply open_change_subscribed. }
  apply HQ.
  - split_and!; try done. by rewrite F4, <- app_assoc.
  - split_and!; rewrite ?F1, ?F2; [done| |done]. apply unlocked_insert; [done|].
    cbn [c_info upd_info]. by rewrite lock_blind_locked by apply open_change_blind.
  - by eapply next_workers_ok.
Qed.

(** The topics and the data of an answer. *)
Lemma open_rest r r2 w' :
  resp = Some r -> reg_opened p (c_info c') (or_NewTopics r) (reg w) = t_update (rel_set (id (c_info c')) p) (or_NewTopics r) r2 ->
  st w h' r2 [] w' ->
  wp ((if isNil (or_NewTopics r) then Ret tt else Topic_SetRelation (or_NewTopics r) (Some p)) ;; write_data cf p (or_Data r)) w'
     (fun _ w' => wp last_steps w' Q).
Proof.
  intros Er Ereg Hst. destruct Hun as (Hp & _). pose proof (lookup_insert_eq (heap w) p c') as Hp'. apply wp_bind.
  assert (forall w5, st w h' (t_update (rel_set (id (c_info c')) p) (or_NewTopics r) r2) [] w5 ->
            wp (write_data cf p (or_Data r)) w5 (fun _ w' => wp last_steps w' Q)) as Hwrite.
  { intros w5 Hst5. eapply st_write_data; [done|done|]. intros w6 Hst6. apply open_end.
    cbn [app] in Hst6. rewrite (data_sent_insert cf (or_Data r) (heap w) p c c') in Hst6 by done.
    rewrite Er in *. cbn [open_topics open_sent]. by rewrite Ereg. }
  destruct (or_NewTopics r) as [|t l]; cbn [isNil].
  - apply wp_ret, Hwrite. by destruct r2.
  - eapply st_Topic_SetRelation; [done|done|]. intros w5 Hst5. by apply Hwrite.
Qed.

Lemma open_accepted_run : wp (open_accepted cf p co resp) w Q.
Proof.
  destruct Hw as (Hc & Hu & Hpool), Hun as (Hp & Hune & Hnone & Hcid & Hsub). pose proof (Hu p c Hp) as Hl.
  destruct (open_change_id resp (c_info c)) as [Hid Huid]. pose proof (open_change_customerId resp _ Hcid) as Hcid'.
  unfold open_accepted. apply wp_bind, wp_Mark. intros w1 (Hq1 & Hpl1 & He1).
  assert (st w (heap w) (reg w) [] w1) as Hst1.
  { eapply st_quiet; [by apply st_start|done|unfold pool_clean; by rewrite Hpl1|]. by rewrite He1, app_nil_r. }
  eapply wp_bind, st_open_info; [done|done|done|]. intros w2 Hst2.
  pose proof (lookup_insert_eq (heap w) p c') as Hp'.
  eapply wp_bind, st_conn_get; [done|done|]. cbn [c_info upd_info].
  eapply wp_bind, st_Manager_Set; [done|]. rewrite Huid. rewrite (proj2 (is_empty_false _)) by done.
  intros w3 Hst3. apply wp_bind. pose proof open_rest as Hrest. pose proof open_end as Hend. destruct resp as [r|]; cbn [open_topics open_sent] in *.
  2: { apply wp_ret, Hend. unfold reg_opened. cbn [c_info upd_info]. rewrite Hcid', Huid. exact Hst3. }
  apply wp_bind. set (r3 := m_insert (uniqId (c_info c)) p (reg w)) in *.
  assert (forall r2, (if is_empty (or_NewCustomerId r) then r3 else b_insert (or_NewCustomerId r) (id (c_info c)) p r3) = r2 ->
            reg_opened p (open_change (Some r) (c_info c)) (or_NewTopics r) (reg w) = t_update (rel_set (id (c_info c)) p) (or_NewTopics r) r2) as Ereg.
  { intros r2 <-. unfold reg_opened, r3. by rewrite Hcid', Huid, Hid. }
  destruct (is_empty (or_NewCustomerId r)) eqn:Enew.
  - apply wp_ret. apply (Hrest r r3); [done| |done]. cbn [c_info upd_info]. rewrite Hid. by apply Ereg.
  - eapply st_Binder_SetRelation; [done|done|]. intros w4 Hst4. eapply Hrest; [done| |exact Hst4].
    cbn [c_info upd_info]. rewrite Hid. by apply Ereg.
Qed.
End Accepted.

(** ** The answer of the callback *)

(** The state after a close frame has been asked for, with [d] before it. *)
Definition refused (d : bytes) (statusCode : Z) (err : string) (p : ptr) (c : Conn) (w w' : world) : Prop :=
  heap w' = <[p := mark_closed c]> (heap w) /\ reg w' = reg w /\
  effects w' = effects w ++ data_sent cf d (heap w) p ++ close_sent (BuildCloseFrame statusCode err) (heap w) p /\
  env w' = env w /\ tasks w' = tasks w /\ workers w' = workers w /\ collects w' = collects w.

Lemma refused_Inv d s err p c w w' :
  heap w !! p = Some c -> refused d s err p c w w' -> pool_clean w' -> Inv w -> Inv w'.
Proof.
  intros Hp (E1 & E2 & _) Hpool (Hc & Hu & _). split_and!; rewrite ?E1, ?E2; [| |done].
  - eapply consistent_same_links; [|done]. by apply (same_links_insert _ _ c).
  - apply unlocked_insert; [done|]. by apply (Hu p c).
Qed.

Lemma refused_run d s err p c w Q :
  Inv w -> heap w !! p = Some c ->
  (forall w', refused d s err p c w w' -> Inv w' -> Q tt w') ->
  wp (write_data cf p d ;; WriteClose p s err) w Q.
Proof.
  intros Hw Hp HQ. pose proof Hw as (_ & _ & Hpool).
  eapply wp_bind, st_write_data; [by apply st_start|done|]. intros w1 Hst1.
  eapply st_WriteCloseFrame; [done|done|]. intros w2 (E1 & E2 & E3 & E4 & E5 & E6 & E7 & E8 & E9).
  assert (refused d s err p c w w2) as Hr by done. apply HQ; [done|]. by eapply refused_Inv.
Qed.

(** What the answer means for the connection. *)
Definition decided (answer : ConnOpenResp + string) (co : ConnOpen) (p : ptr) (c : Conn) (w w' : world) : Prop :=
  if IsClosedOnSafe (c_codec c) then w' = w
  else match answer with
       | inr err => refused [] StatusInternalServerError err p c w w'
       | inl r => if or_Allow r then opened (Some r) co p c w w'
                  else refused (or_Data r) StatusPolicyViolation "unauthorized" p c w w'
       end.

Lemma open_answered_run answer co p c w Q :
  Inv w -> workers_ok cf w -> unopened w p c ->
  (forall w', decided answer co p c w w' -> Inv w' -> workers_ok cf w' -> Q tt w') ->
  wp (open_answered cf p co answer) w Q.
Proof.
  intros Hw Hok Hf HQ. pose proof Hf as (Hp & _). unfold open_answered, decided in *.
  eapply wp_bind, wp_conn_get; [done|]. destruct (IsClosedOnSafe (c_codec c)); [by apply wp_ret, HQ|].
  assert (forall d s err w', refused d s err p c w w' -> workers_ok cf w') as Hkeep.
  { intros d s err w' (_ & _ & _ & _ & _ & Ew & Ec) E u Hu. rewrite Ew, Ec. by apply Hok. }
  destruct answer as [r|err].
  - destruct (or_Allow r); [by eapply open_accepted_run|].
    eapply refused_run; [done|done|]. intros w' Hr Hw'. apply HQ; [done|done|by eapply Hkeep].
  - change (WriteClose p StatusInternalServerError err) with
      (write_data cf p [] ;; WriteClose p StatusInternalServerError err).
    eapply refused_run; [done|done|]. intros w' Hr Hw'. apply HQ; [done|done|by eapply Hkeep].
Qed.

(** ** The whole task *)

Definition open_request (c : Conn) (req : request) : ConnOpen :=
  mkConnOpen (uniqId (c_info c)) (RawQuery req) (Header_Get "X-Forwarded-For" req)
             (Header_Get "X-Real-IP" req) (c_remote c).

Definition open_outcome (req : request) (p : ptr) (c : Conn) (w w' : world) : Prop :=
  let co := open_request c req in
  if IsClosedOnSafe (c_codec c) then w' = w
  else if is_empty (cf_OnOpenApi cf) then opened None co p c w w'
  else exists w1, posted (cf_OnOpenApi cf) (MConnOpen co) w w1 /\ decided (open_answer co w) co p c w1 w'.

Lemma open_task_run req p c w Q :
  Inv w -> workers_ok cf w -> unopened w p c ->
  (forall w', open_outcome req p c w w' -> Inv w' -> workers_ok cf w' -> Q tt w') ->
  wp (open_task cf p req) w Q.
Proof.
  intros Hw Hok Hf HQ. pose proof Hf as (Hp & _). unfold open_task, open_outcome in *. cbv zeta in HQ.
  eapply wp_bind, wp_conn_get; [done|]. destruct (IsClosedOnSafe (c_codec c)) eqn:Hclosed; [by apply wp_ret, HQ|].
  apply wp_bind. unfold open_message. eapply wp_bind, wp_conn_get; [done|]. eapply wp_bind, wp_conn_get; [done|].
  apply wp_ret. fold (open_request c req). destruct (is_empty (cf_OnOpenApi cf)); [by eapply open_accepted_run|].
  eapply wp_bind, wp_callback_OnOpen. intros w1 Hw1. pose proof Hw1 as (Hcore & _).
  pose proof Hcore as (Eh & Er & _).
  eapply (open_answered_run _ _ p c); [by eapply same_core_Inv|by eapply posted_workers_ok| |].
  { unfold unopened. by rewrite Eh, Er. }
  intros w' Hd Hw' Hok'. apply HQ; [|done|done]. by exists w1.
Qed.

End Opening.

(** ** A connection that sends, pings, falls silent and leaves. *)

Section Closing.
Context {MO : MapOrder} `{Deflate} `{Proto} (cf : config).

(** ** Leaving *)

Definition close_message (i : info) : ConnClose :=
  mkConnClose (uniqId i) (customerId i) (session i) (getTopics i).

(** The state when the event loop is done with the connection. *)
Definition left_registries (i : info) (w w' : world) : Prop :=
  heap w' = heap w /\ reg w' = reg_closed i (getTopics i) (reg w) /\ effects w' = effects w /\
  tasks w' = tasks w /\ workers w' = workers w /\ collects w' = collects w.

Lemma wps_submit_or_go fn w (Q : unit -> world -> list (prog unit) -> Prop) :
  (forall e, now e = now (env w) -> Q tt (with_env e w) [fn]) -> wps (submit_or_go fn) w Q.
Proof.
  intros HQ. unfold submit_or_go, Submit. apply wps_bind, wps_bind_wp. unfold ask. apply wp_act. cbn [fst snd].
  assert (now (next_submit (env w)).2 = now (env w)) as E by done.
  destruct (next_submit (env w)) as [[err|] e]; unfold wps; cbn [run bind spawn fst snd app] in *; by apply HQ.
Qed.

Lemma OnWebsocketClose_run p c w Q :
  Inv w -> heap w !! p = Some c -> uniqId (c_info c) <> EmptyString ->
  (m_lookup (reg w) (uniqId (c_info c)) = None \/ is_online (reg w) p c) ->
  (forall w', left_registries (c_info c) w w' -> Inv w' -> unregistered (reg w') p ->
     Q tt w' [recover (close_task cf (close_message (c_info c)))]) ->
  wps (OnWebsocketClose cf p) w Q.
Proof.
  intros (Hc & Hu & Hpool) Hp Hune Hold HQ. pose proof (Hu p c Hp) as Hl. unfold OnWebsocketClose.
  apply wps_bind_wp. eapply st_conn_get; [by apply st_start|done|].
  apply wps_bind_wp. eapply st_Manager_Del; [by apply st_start|].
  rewrite (proj2 (is_empty_false _)) by done. intros w1 Hst1.
  apply wps_bind_wp. eapply st_locked_get; [done|done|done|]. unfold SnapshotOnSafe. cbv beta iota.
  destruct (consistent_closed (heap w) (reg w) p c Hc Hp Hune Hold (getTopics (c_info c))) as [Hc' Hoff];
    [apply elem_of_getTopics|].
  assert (forall w3, st w (heap w) (reg_closed (c_info c) (getTopics (c_info c)) (reg w)) [] w3 ->
            wps (submit_or_go (recover (close_task cf (close_message (c_info c))))) w3 Q) as Hend.
  { intros w3 (E1 & E2 & E3 & E4 & E5 & E6 & E7 & E8 & E9). rewrite app_nil_r in E3.
    apply wps_submit_or_go. intros e _. apply HQ.
    - by split_and!.
    - split_and!; cbn; rewrite ?E1, ?E2; done.
    - cbn. rewrite E2. by eapply offline_unregistered. }
  apply wps_bind_wp.
  assert (forall w2, st w (heap w) (if is_empty (customerId (c_info c)) then m_remove (uniqId (c_info c)) (reg w)
             else b_remove (customerId (c_info c)) (id (c_info c)) (m_remove (uniqId (c_info c)) (reg w))) [] w2 ->
            wps (Topic_DelRelationBySlice (getTopics (c_info c)) p ;;
                 submit_or_go (recover (close_task cf (close_message (c_info c))))) w2 Q) as Htopics.
  { intros w2 Hst2. apply wps_bind_wp. eapply st_Topic_DelRelationBySlice; [done|done|]. intros w3 Hst3. by apply Hend. }
  destruct (is_empty (customerId (c_info c))).
  - apply wp_ret. by apply Htopics.
  - eapply st_Binder_DelRelation; [done|done|]. intros w2 Hst2. by apply Htopics.
Qed.

(** What the task of a closing does. *)
Lemma close_task_run cl w Q :
  Inv w -> workers_ok cf w ->
  (forall w1 w', (if is_empty (cf_OnCloseApi cf) then same_core w w1 /\ effects w1 = effects w /\
                     workers w1 = workers w /\ collects w1 = collects w
                  else posted (cf_OnCloseApi cf) (MConnClose cl) w w1) ->
     forwarded cf Event_OnClose (MConnClose cl) Cmd_ConnClose w1 w' -> Inv w' -> workers_ok cf w' -> Q tt w') ->
  wp (close_task cf cl) w Q.
Proof.
  intros Hw Hok HQ. unfold close_task. apply wp_bind, wp_modify. set (w0 := with_meters _ w).
  assert (forall w1 w', same_core w w1 -> workers_ok cf w1 ->
            forwarded cf Event_OnClose (MConnClose cl) Cmd_ConnClose w1 w' -> Inv w' /\ workers_ok cf w') as Hinv.
  { intros w1 w' Hs Hok1 (Hs' & _ & _ & _ & Ec & Ew & _). split.
    - eapply same_core_Inv; [|done]. by eapply same_core_trans.
    - by eapply next_workers_ok. }
  apply wp_bind. destruct (is_empty (cf_OnCloseApi cf)).
  - apply wp_ret. eapply wp_forward; [done|by right; left|]. intros w' Hw'.
    destruct (Hinv w0 w') as [Hw1 Hok1]; [done|done|done|]. by eapply (HQ w0 w').
  - unfold callback_OnClose. apply wp_bind, wp_callback_post. intros w1 Hw1. apply wp_ret.
    assert (workers_ok cf w1) as Hok1 by (by eapply (posted_workers_ok cf _ _ w0)).
    eapply wp_forward; [done|by right; left|]. intros w' Hw'.
    destruct (Hinv w1 w') as [Hw2 Hok2]; [apply Hw1|done|done|]. by eapply (HQ w1 w').
Qed.

End Closing.
