(* ===== verification/Messages.v ===== *)
(** The event loop on a connection that opens, sends a message or pings: what it
    decides at once and the task it starts; the task of a message; the timer. *)

From S2P Require Export Opening.

Section Messages.
Context {MO : MapOrder} `{Deflate} `{Proto} (cf : config).

(** Only the environment, the limiters and the metrics may differ. *)
Definition same_wires (w w' : world) : Prop :=
  same_core w w' /\ tasks w' = tasks w /\ workers w' = workers w /\ collects w' = collects w /\ effects w' = effects w.

Lemma same_wires_Inv w w' : same_wires w w' -> Inv w -> Inv w'.
Proof. intros [Hs _]. by apply same_core_Inv. Qed.

Lemma same_wires_ok w w' : same_wires w w' -> workers_ok cf w -> workers_ok cf w'.
Proof. intros (_ & _ & Ew & Ec & _) Hok E u Hu. rewrite Ew, Ec. by apply Hok. Qed.

(** ** A handshake that is done *)

(** The reason to refuse, in the order of the checks. *)
Definition open_verdict (w : world) : option (Z * string) :=
  if quitting (env w) then Some (1012, "service restart"%string)
  else if cf_MaxOnlineNum cf <? online (env w) then Some (1013, "open rate limited, try again later"%string)
  else
    let limited := bool_decide (is_Some (limiters w !! Event_OnOpen)) in
    let '(allow, e) := if limited then next_rate (env w) else (true, env w) in
    if negb allow then Some (1013, "open rate limited, try again later"%string)
    else (fun err => (StatusInternalServerError, err)) <$> (next_submit e).1.

Lemma OnWebsocketOpen_run p req w (Q : option (Z * string) -> world -> list (prog unit) -> Prop) :
  (forall w', same_wires w w' ->
     Q (open_verdict w) w' (match open_verdict w with Some _ => [] | None => [recover (open_task cf p req)] end)) ->
  wps (OnWebsocketOpen cf p req) w Q.
Proof.
  unfold OnWebsocketOpen, open_verdict. intros HQ.
  apply wps_bind_wp, wp_gets. destruct (quitting (env w)); [by apply HQ|].
  apply wps_bind_wp, wp_gets. destruct (cf_MaxOnlineNum cf <? online (env w)); [by apply HQ|].
  apply wps_bind_wp. unfold Limit_Allow. apply wp_bind, wp_gets.
  assert (forall e w1, same_wires w w1 -> env w1 = e ->
            (forall w', same_wires w w' ->
               Q ((fun err => (StatusInternalServerError, err)) <$> (next_submit e).1) w'
                 (match (fun err => (StatusInternalServerError, err)) <$> (next_submit e).1 with
                  | Some _ => [] | None => [recover (open_task cf p req)] end)) ->
            wps (err <- Submit (recover (open_task cf p req)) ;;
                 Ret match err with Some e => Some (StatusInternalServerError, e) | None => None end) w1 Q) as Hsubmit.
  { intros e w1 Hw1 <- HQ'. unfold Submit. apply wps_bind, wps_bind_wp. unfold ask. apply wp_act. cbn [fst snd].
    destruct (next_submit (env w1)).1 as [err|]; by apply HQ'. }
  destruct (bool_decide (is_Some (limiters w !! Event_OnOpen))).
  - unfold ask. apply wp_act. cbn [fst snd]. destruct (next_rate (env w)) as [allow e]. cbn [fst snd].
    destruct allow; cbn [negb] in *; [by eapply Hsubmit|]. by apply HQ.
  - apply wp_ret. cbn [negb]. by eapply Hsubmit.
Qed.

(** ** A message *)

(** The connection after its last activity is noted, and its own limiter. *)
Definition touched (now : Z) (c : Conn) : Conn := upd_info (UpdateLastActiveTimeOnSafe now) c.
Definition limited_conn (now : Z) (c : Conn) : Conn := upd_info (fun i => (Allow cf now i).2) (touched now c).

Lemma Allow_same_link now i : same_link i (Allow cf now i).2.
Proof. unfold Allow. repeat case_match; done. Qed.

Lemma Allow_locked now i : locked (Allow cf now i).2 = locked i.
Proof. unfold Allow. repeat case_match; done. Qed.

Lemma info_change_Inv p c c' w w' :
  Inv w -> heap w !! p = Some c -> same_link (c_info c) (c_info c') -> locked (c_info c') = locked (c_info c) ->
  heap w' = <[p := c']> (heap w) -> reg w' = reg w -> frame_pool w' = frame_pool w -> Inv w'.
Proof.
  intros (Hc & Hu & Hpool) Hp Hl Hk E1 E2 E3. split_and!.
  - rewrite E1, E2. eapply consistent_same_links; [|done]. by apply (same_links_insert _ _ c).
  - rewrite E1. apply unlocked_insert; [done|]. rewrite Hk. by apply (Hu p c).
  - unfold pool_clean in *. by rewrite E3.
Qed.

Lemma wp_info_act {A} (f : info -> A * info) p c w Q :
  heap w !! p = Some c ->
  Q (f (c_info c)).1 (with_heap (insert p (upd_info (fun i => (f i).2) c)) w) -> wp (info_act p f) w Q.
Proof. intros Hp HQ. unfold wp, wps, info_act, conn_act. cbn [run]. rewrite Hp. by cbn. Qed.

Definition is_heartbeat (d : bytes) : bool := bool_decide (d = cf_CustomerHeartbeatMessage cf).

(** What the event loop does with a message. *)
Definition received (p : ptr) (c : Conn) (d : bytes) (w w' : world) : Prop :=
  heap w' = <[p := if is_heartbeat d then touched (now (env w)) c else limited_conn (now (env w)) c]> (heap w) /\
  reg w' = reg w /\ frame_pool w' = frame_pool w /\ effects w' = effects w /\
  tasks w' = tasks w /\ workers w' = workers w /\ collects w' = collects w /\ now (env w') = now (env w).

Definition received_task (p : ptr) (c : Conn) (d : bytes) (w : world) : list (prog unit) :=
  if is_heartbeat d then []
  else [recover (message_task cf p (Allow cf (now (env w)) (c_info (touched (now (env w)) c))).1 d)].

Lemma OnWebsocketMessage_run p c messageType d w (Q : unit -> world -> list (prog unit) -> Prop) :
  Inv w -> heap w !! p = Some c ->
  (forall w', received p c d w w' -> Inv w' -> Q tt w' (received_task p c d w)) ->
  wps (OnWebsocketMessage cf p messageType d) w Q.
Proof.
  intros Hw Hp HQ. unfold OnWebsocketMessage.
  assert (forall w', received p c d w w' -> Inv w') as Hinv.
  { intros w' (E1 & E2 & E3 & _). eapply info_change_Inv; [done|done| | |exact E1|done|done].
    - destruct (is_heartbeat d); [done|]. by destruct (Allow_same_link (now (env w)) (c_info (touched (now (env w)) c))) as (? & ? & ? & ?).
    - destruct (is_heartbeat d); [done|]. cbn [limited_conn c_info upd_info]. by rewrite Allow_locked. }
  apply wps_bind_wp. unfold touch. apply wp_bind, wp_gets. unfold info_set. eapply wp_info_act; [done|].
  unfold received, received_task, is_heartbeat in *. destruct (bool_decide (d = cf_CustomerHeartbeatMessage cf)).
  - apply wp_wps, wp_modify. apply HQ; [done|]. by apply Hinv.
  - apply wps_bind_wp, wp_gets, wps_bind_wp. eapply wp_info_act; [apply lookup_insert_eq|].
    apply wps_submit_or_go. intros e He. cbn [env with_heap].
    set (w' := with_env e _).
    assert (heap w' = <[p:=limited_conn (now (env w)) c]> (heap w)) as E1.
    { cbn. by rewrite insert_insert_eq. }
    apply HQ; [done|]. by apply Hinv.
Qed.

Definition transfer_of (i : info) (d : bytes) : Transfer :=
  mkTransfer (uniqId i) (customerId i) (session i) (getTopics i) d.

(** The task of a message: too big, limited by either limiter, or passed on. *)
Definition handled (p : ptr) (c : Conn) (allow : bool) (d : bytes) (w w' : world) : Prop :=
  if cf_CustomerReceivePackLimit cf <? len d then refused cf [] StatusMessageTooBig "message too big" p c w w'
  else if negb (allow && (if bool_decide (is_Some (limiters w !! Event_OnMessage)) then (next_rate (env w)).1 else true))
  then same_wires w w'
  else exists w0 w1, same_wires w w0 /\
         (if is_empty (cf_OnMessageApi cf) then w1 = w0
          else posted (cf_OnMessageApi cf) (MTransfer (transfer_of (c_info c) d)) w0 w1) /\
         forwarded cf Event_OnMessage (MTransfer (transfer_of (c_info c) d)) Cmd_Transfer w1 w'.

Lemma message_task_run p c allow d w Q :
  Inv w -> workers_ok cf w -> heap w !! p = Some c ->
  (forall w', handled p c allow d w w' -> Inv w' -> workers_ok cf w' -> Q tt w') ->
  wp (message_task cf p allow d) w Q.
Proof.
  intros Hw Hok Hp HQ. pose proof Hw as (Hc & Hu & Hpool). pose proof (Hu p c Hp) as Hl.
  unfold message_task, handled in *.
  eapply wp_bind, st_locked_get; [by apply st_start|done|done|]. unfold SnapshotOnSafe. cbv beta iota.
  destruct (cf_CustomerReceivePackLimit cf <? len d).
  { change (WriteClose p StatusMessageTooBig "message too big") with
      (write_data cf p [] ;; WriteClose p StatusMessageTooBig "message too big").
    eapply refused_run; [done|done|]. intros w' Hr Hw'. apply HQ; [done|done|].
    destruct Hr as (_ & _ & _ & _ & _ & Ew & Ec). intros E u Hv. rewrite Ew, Ec. by apply Hok. }
  assert (forall w', same_wires w w' -> Inv w' /\ workers_ok cf w') as Hkeep.
  { intros w' Hs. split; [by eapply same_wires_Inv|by eapply same_wires_ok]. }
  destruct allow; cbn [negb andb] in *.
  2: { apply wp_modify. destruct (Hkeep (with_meters (alter (Z.add 1) ItemConnectionMessageRateLimitCount) w)) as [Hw' Hok']; [done|].
    by apply HQ. }
  apply wp_bind. unfold Limit_Allow. apply wp_bind, wp_gets.
  assert (forall w0, same_wires w w0 ->
            (forall w', (exists w0 w1, same_wires w w0 /\
                (if is_empty (cf_OnMessageApi cf) then w1 = w0
                 else posted (cf_OnMessageApi cf) (MTransfer (transfer_of (c_info c) d)) w0 w1) /\
                forwarded cf Event_OnMessage (MTransfer (transfer_of (c_info c) d)) Cmd_Transfer w1 w') ->
              Inv w' -> workers_ok cf w' -> Q tt w') ->
            wp ((if is_empty (cf_OnMessageApi cf) then Ret tt else callback_OnMessage cf (transfer_of (c_info c) d)) ;;
                forward cf Event_OnMessage (MTransfer (transfer_of (c_info c) d)) Cmd_Transfer) w0 Q) as Hpass.
  { intros w0 Hs HQ'. destruct (Hkeep w0 Hs) as [Hw0 Hok0].
    assert (forall w1 w', same_core w0 w1 -> workers_ok cf w1 ->
        forwarded cf Event_OnMessage (MTransfer (transfer_of (c_info c) d)) Cmd_Transfer w1 w' -> Inv w' /\ workers_ok cf w') as Hinv.
    { intros w1 w' Hs1 Hok1 (Hs' & _ & _ & _ & Ec & Ew & _). split; [|by eapply next_workers_ok].
      eapply same_core_Inv; [|exact Hw0]. by eapply same_core_trans. }
    apply wp_bind. destruct (is_empty (cf_OnMessageApi cf)).
    - apply wp_ret. eapply wp_forward; [done|by right; right|]. intros w' Hf.
      destruct (Hinv w0 w') as [Hw' Hok']; [done|done|done|]. apply HQ'; [by exists w0, w0|done|done].
    - unfold callback_OnMessage. apply wp_bind, wp_callback_post. intros w1 Hw1. apply wp_ret.
      assert (workers_ok cf w1) as Hok1 by (by eapply posted_workers_ok).
      eapply wp_forward; [done|by right; right|]. intros w' Hf.
      destruct (Hinv w1 w') as [Hw' Hok']; [apply Hw1|done|done|]. apply HQ'; [by exists w0, w1|done|done]. }
  destruct (bool_decide (is_Some (limiters w !! Event_OnMessage))).
  - unfold ask. apply wp_act. cbn [fst snd]. destruct (next_rate (env w)).1; cbn [negb] in *.
    + apply Hpass; [done|exact HQ].
    + apply wp_modify. destruct (Hkeep (with_meters (alter (Z.add 1) ItemMessageRateLimitCount) (with_env (next_rate (env w)).2 w)))
        as [Hw' Hok']; [done|]. by apply HQ.
  - apply wp_ret. cbn [negb] in *. apply Hpass; [done|exact HQ].
Qed.

(** ** The timer of the heartbeat *)

(** The age of the last activity, as the code computes it. *)
Definition silent (w : world) (c : Conn) : bool :=
  cf_HeartbeatIntervalSecond cf <? u32 (u32 (now (env w)) - lastActiveTime (c_info c)).

Lemma heartbeat_check_run p c w Q :
  Inv w -> heap w !! p = Some c ->
  (forall w', Inv w' ->
     (if negb (IsClosedOnSafe (c_codec c)) && silent w c
      then refused cf [] StatusGoingAway "heartbeat timeout" p c w w' else w' = w) ->
     Q (negb (IsClosedOnSafe (c_codec c) || silent w c)) w') ->
  wp (heartbeat_check cf p) w Q.
Proof.
  intros Hw Hp HQ. unfold heartbeat_check, silent in *. eapply wp_bind, wp_conn_get; [done|].
  destruct (IsClosedOnSafe (c_codec c)); cbn [negb andb orb] in *; [by apply wp_ret, HQ|].
  eapply wp_bind, wp_conn_get; [done|]. apply wp_bind, wp_gets.
  destruct (cf_HeartbeatIntervalSecond cf <? u32 (u32 (now (env w)) - lastActiveTime (c_info c))); cbn [negb] in *.
  - change (WriteClose p StatusGoingAway "heartbeat timeout") with
      (write_data cf p [] ;; WriteClose p StatusGoingAway "heartbeat timeout").
    apply wp_bind. eapply refused_run; [done|done|]. intros w' Hr Hw'. by apply wp_ret, HQ.
  - by apply wp_ret, HQ.
Qed.

End Messages.
