(* ===== verification/Traffic.v ===== *)
(** The event loop on the bytes of an upgraded connection: it ends, the state
    between two events stays good, and what it starts are tasks of messages; a
    run of well-formed messages is handed over in order. *)

From S2P Require Export CodecSpec Messages CodecProps.

(** ** Decoding a buffer *)

Section Decoding.
Context `{Deflate}.

Lemma decode_fuel_takes n c g m c' g' :
  wf_inbound g -> decode_fuel n c g = Some (DMsg m, c', g') ->
  wf_inbound g' /\ (length (inbound g') < length (inbound g))%nat.
Proof.
  revert c g; induction n as [|n IH]; intros c g Hg Hd; [done|]. cbn [decode_fuel] in Hd.
  pose proof (decode_round_takes c g Hg) as Ht.
  destruct (decode_round c g) as [r c1 g1|c1 g1]; cbn [round_rest consumed] in Ht.
  - simplify_eq. by apply Ht.
  - destruct Ht as [Hg1 Hlt]; [done|]. destruct (IH _ _ Hg1 Hd). split; [done|lia].
Qed.

(** A frame that declares a length of the last four below 2^63. *)
Definition overflowing (l : bytes) : Prop :=
  Z.land (byte_at l 1) 127 = 127 /\ 2 ^ 63 - 4 <= be (take 8 (drop 2 l)) < 2 ^ 63.

(** ... somewhere in the buffer. *)
Definition holds_overflow (l : bytes) : Prop := exists x y, l = x ++ y /\ overflowing y.

Lemma holds_overflow_app x y : holds_overflow y -> holds_overflow (x ++ y).
Proof. intros (u & v & -> & Hv). exists (x ++ u), v. by rewrite app_assoc. Qed.

Lemma decode_fuel_panic n c g c' g' :
  wf_inbound g -> decode_fuel n c g = Some (DPanic, c', g') -> holds_overflow (inbound g).
Proof.
  revert c g; induction n as [|n IH]; intros c g Hg Hd; [done|]. cbn [decode_fuel] in Hd.
  pose proof (decode_round_suffix c g) as [x Hx].
  destruct (decode_round c g) as [r c1 g1|c1 g1] eqn:E; cbn [round_rest] in Hx.
  - simplify_eq. exists [], (inbound g). split; [done|]. by eapply decode_round_overflow.
  - rewrite Hx. apply holds_overflow_app. eapply IH; [|done]. by eapply decode_round_again.
Qed.

End Decoding.

(** ** Runs that may panic *)

(** The goroutine ends with [Q], or panics where [P] allows it; it does not block, nor do its loops use up their turns. *)
Definition wpp {A} (m : prog A) (w : world) (Q : A -> world -> list (prog unit) -> Prop) (P : Prop) : Prop :=
  match run m w with
  | Done a w' ts => Q a w' ts
  | Panicked _ => P
  | _ => False
  end.

Lemma wpp_bind {A B} (m : prog A) (g : A -> prog B) w Q P :
  wpp m w (fun a w' ts => wpp (g a) w' (fun b w'' ts' => Q b w'' (ts ++ ts')) P) P -> wpp (bind m g) w Q P.
Proof.
  unfold wpp. rewrite run_bind. destruct (run m w) as [a w' ts| | | |]; [|done..].
  by destruct (run (g a) w').
Qed.

Lemma wpp_mono {A} (m : prog A) w (Q Q' : A -> world -> list (prog unit) -> Prop) (P P' : Prop) :
  wpp m w Q P -> (forall a w' ts, Q a w' ts -> Q' a w' ts) -> (P -> P') -> wpp m w Q' P'.
Proof. unfold wpp. destruct (run m w); auto. Qed.

Lemma wps_wpp {A} (m : prog A) w Q P : wps m w Q -> wpp m w Q P.
Proof. unfold wps, wpp. by destruct (run m w). Qed.

Section Traffic.
Context {MO : MapOrder} `{Deflate} `{Proto} `{Http} (cf : config).

(** The codec and the buffer of a connection change. *)
Lemma codec_change_Inv p c c' w w' :
  Inv w -> heap w !! p = Some c -> c_info c' = c_info c ->
  heap w' = <[p := c']> (heap w) -> reg w' = reg w -> frame_pool w' = frame_pool w -> Inv w'.
Proof.
  intros Hw Hp Hi E1 E2 E3. eapply (info_change_Inv p c c' w w'); [done|done| |by rewrite Hi|done|done|done].
  by rewrite Hi.
Qed.

(** Between two turns: the connection is there, and its buffer is an end of [n]. *)
Definition at_rest (p : ptr) (n : bytes) (w : world) : Prop :=
  Inv w /\ exists c, heap w !! p = Some c /\ wf_inbound (c_gnet c) /\ inbound (c_gnet c) `suffix_of` n.

(** Changes of one connection that keep its buffer. *)
Lemma at_rest_change p n c c' w w' :
  Inv w -> heap w !! p = Some c -> heap w' = <[p := c']> (heap w) -> reg w' = reg w -> frame_pool w' = frame_pool w ->
  c_gnet c' = c_gnet c -> wf_inbound (c_gnet c) -> inbound (c_gnet c) `suffix_of` n ->
  same_link (c_info c) (c_info c') -> locked (c_info c') = locked (c_info c) -> at_rest p n w'.
Proof.
  intros Hw Hp E1 E2 E3 Hg Hwf Hn Hl Hk. split; [by eapply info_change_Inv|].
  exists c'. rewrite E1, lookup_insert_eq, Hg. done.
Qed.

(** What the loop starts. *)
Definition message_job (p : ptr) (t : prog unit) : Prop :=
  exists allow d, t = recover (message_task cf p allow d).

Definition turn_ok (p : ptr) (n : bytes) (r : option action) (w' : world) (ts : list (prog unit)) : Prop :=
  (exists k, at_rest p k w' /\ k `suffix_of` n /\ (r = None -> (length k < length n)%nat)) /\ Forall (message_job p) ts.

Lemma wp_mark_closed_flag p n w (Q : bool -> world -> Prop) :
  at_rest p n w -> (forall b w', at_rest p n w' -> Q b w') -> wp (mark_closed_flag p) w Q.
Proof.
  intros (Hw & c & Hp & Hg & Hn) HQ. unfold mark_closed_flag, wp, wps, conn_act. cbn [run]. rewrite Hp.
  cbn [run]. split; [done|]. apply HQ. by eapply at_rest_change.
Qed.

Lemma wp_WriteServerMessage p n op d w (Q : bool -> world -> Prop) :
  at_rest p n w -> (forall b w', at_rest p n w' -> Q b w') -> wp (WriteServerMessage p op d) w Q.
Proof.
  intros Hr HQ. pose proof Hr as (Hw & c & Hp & Hg & Hn). unfold WriteServerMessage.
  eapply wp_bind, wp_conn_get; [done|]. destruct (write_fails c); [by apply wp_ret, HQ|].
  destruct (WriteFrame _); [|by apply wp_ret, HQ]. apply wp_bind, wp_modify, wp_ret, HQ.
  split; [by eapply Inv_ext|]. by exists c.
Qed.

Lemma wp_next_message p n w (Q : option action -> world -> Prop) :
  at_rest p n w -> (forall r w', at_rest p n w' -> Q r w') -> wp (next_message p) w Q.
Proof.
  intros (Hw & c & Hp & Hg & Hn) HQ. unfold next_message, reset_message.
  apply wp_bind. unfold wp at 1, wps at 1, conn_act. cbn [run]. rewrite Hp. cbn [run fst snd]. split; [done|].
  eapply wp_bind, wp_conn_get; [apply lookup_insert_eq|]. apply wp_ret, HQ.
  by eapply at_rest_change.
Qed.

Lemma wp_OnWebsocketPing p n w (Q : unit -> world -> Prop) :
  at_rest p n w -> (forall w', at_rest p n w' -> Q tt w') -> wp (OnWebsocketPing p) w Q.
Proof.
  intros (Hw & c & Hp & Hg & Hn) HQ. unfold OnWebsocketPing, touch. apply wp_bind, wp_bind, wp_gets.
  unfold info_set. eapply wp_info_act; [done|]. apply wp_modify, HQ.
  by eapply at_rest_change.
Qed.

Lemma wps_message p n op d w (Q : unit -> world -> list (prog unit) -> Prop) :
  at_rest p n w -> (forall w' ts, at_rest p n w' -> Forall (message_job p) ts -> Q tt w' ts) ->
  wps (OnWebsocketMessage cf p op d) w Q.
Proof.
  intros (Hw & c & Hp & Hg & Hn) HQ. eapply OnWebsocketMessage_run; [done|done|].
  intros w' (E1 & _) Hw'. apply HQ.
  - split; [done|]. eexists. rewrite E1, lookup_insert_eq. split; [done|]. by destruct (is_heartbeat cf d).
  - unfold received_task. destruct (is_heartbeat cf d); [done|]. constructor; [|done]. unfold message_job. eauto.
Qed.

Lemma traffic_turn_safe p n w :
  at_rest p n w -> wpp (traffic_turn cf p) w (turn_ok p n) (holds_overflow n).
Proof.
  intros (Hw & c & Hp & Hg & Hn). unfold traffic_turn.
  destruct (decode_is_Some (c_codec c) (c_gnet c) Hg) as [[[d k] g] Hd].
  apply wpp_bind. unfold wpp at 1, decode_conn. cbn [run]. rewrite Hp, Hd. cbn [run].
  set (w1 := with_heap _ w).
  assert (exists x, inbound (c_gnet c) = x ++ inbound g) as [x Hx] by (by eapply decode_fuel_suffix).
  assert (wf_inbound g) as Hg1.
  { destruct Hg as [Hwf Hlen]. rewrite Hx in Hwf, Hlen. apply Forall_app in Hwf as [_ Hwf]. split; [done|].
    rewrite len_app in Hlen. pose proof (len_nonneg x). lia. }
  assert (at_rest p (inbound g) w1) as Hrest.
  { split.
    - by apply (codec_change_Inv p c (upd_codec (fun _ => k) (upd_gnet (fun _ => g) c)) w w1).
    - eexists. unfold w1. cbn [heap with_heap]. rewrite lookup_insert_eq. split; [done|]. done. }
  assert (inbound g `suffix_of` n) as Hs by (etrans; [by exists x|done]).
  assert (forall r, r <> None -> forall w', at_rest p (inbound g) w' -> turn_ok p n r w' []) as Hend.
  { intros r Hr w' Hw'. split; [|done]. by exists (inbound g). }
  destruct d as [m|status e|].
  - destruct (decode_fuel_takes _ _ _ _ _ _ Hg Hd) as [_ Hlt].
    apply suffix_length in Hn.
    assert (forall r w', at_rest p (inbound g) w' -> turn_ok p n r w' []) as Hgo.
    { intros r w' Hw'. split; [|done]. exists (inbound g). split_and!; [done|done|]. intros _. lia. }
    apply wps_wpp. apply wps_bind_wp. pose proof Hrest as (_ & c1 & Hp1 & _). eapply wp_conn_get; [done|].
    set (op := currMessageOpCode (c_codec c1)). destruct (IsData op).
    { apply wps_bind. eapply wps_message; [done|]. intros w2 ts Hw2 Hts. apply wp_wps.
      eapply wp_next_message; [done|]. intros r w3 Hw3. rewrite app_nil_r. split; [|done].
      exists (inbound g). split_and!; [done|done|]. intros _. lia. }
    apply wp_wps. destruct (op =? OpClose).
    { eapply wp_bind, wp_mark_closed_flag; [done|]. intros b w2 Hw2. apply wp_bind. destruct b.
      - eapply wp_bind, wp_WriteServerMessage; [done|]. intros b w3 Hw3. apply wp_ret, wp_ret. by apply Hend.
      - apply wp_ret, wp_ret. by apply Hend. }
    destruct (op =? OpPing).
    { eapply wp_bind, wp_WriteServerMessage; [done|]. intros b w2 Hw2. destruct b; [apply wp_ret; by apply Hend|].
      eapply wp_bind, wp_OnWebsocketPing; [done|]. intros w3 Hw3. eapply wp_next_message; [done|]. intros r w4 Hw4. by apply Hgo. }
    destruct (op =? OpPong); [eapply wp_next_message; [done|]; intros r w2 Hw2; by apply Hgo|].
    destruct (IsReserved op).
    { eapply wp_bind, wp_mark_closed_flag; [done|]. intros b w2 Hw2.
      eapply wp_bind, wp_WriteServerMessage; [done|]. intros b2 w3 Hw3. apply wp_ret. by apply Hend. }
    eapply wp_next_message; [done|]; intros r w2 Hw2; by apply Hgo.
  - apply wps_wpp, wp_wps. destruct (status =? 0); cbn [negb].
    + case_bool_decide; apply wp_ret; by apply Hend.
    + eapply wp_bind, wp_mark_closed_flag; [done|]. intros b w2 Hw2.
      eapply wp_bind, wp_WriteServerMessage; [done|]. intros b2 w3 Hw3. apply wp_ret. by apply Hend.
  - unfold wpp. cbn [run]. destruct Hn as [y ->]. apply holds_overflow_app. by eapply decode_fuel_panic.
Qed.

(** The loop ends: its fuel is never used up. *)
Lemma traffic_loop_safe fuel p n w :
  (length n < fuel)%nat -> at_rest p n w ->
  wpp (traffic_loop cf fuel p) w (fun _ w' ts => (exists k, at_rest p k w' /\ k `suffix_of` n) /\ Forall (message_job p) ts)
      (holds_overflow n).
Proof.
  revert n w; induction fuel as [|fuel IH]; intros n w Hf Hr; [lia|]. cbn [traffic_loop]. apply wpp_bind.
  eapply wpp_mono; [by apply traffic_turn_safe| |done]. cbn beta. intros r w1 ts ((k & Hk & Hs & Hlt) & Hts).
  destruct r as [a|].
  - unfold wpp. cbn [run]. rewrite app_nil_r. split; [|done]. by exists k.
  - eapply wpp_mono; [apply (IH k); [|done]| |].
    + specialize (Hlt eq_refl). lia.
    + cbn beta. intros _ w2 ts2 ((k2 & Hk2 & Hs2) & Hts2). split; [|by apply Forall_app].
      exists k2. split; [done|]. by etrans.
    + destruct Hs as [y ->]. apply holds_overflow_app.
Qed.

Lemma OnTraffic_safe p c w :
  Inv w -> heap w !! p = Some c -> wf_inbound (c_gnet c) -> isUpgraded (c_codec c) = true ->
  wpp (OnTraffic cf p) w
      (fun _ w' ts => Inv w' /\ Forall (message_job p) ts /\
         exists c', heap w' !! p = Some c' /\ inbound (c_gnet c') `suffix_of` inbound (c_gnet c))
      (holds_overflow (inbound (c_gnet c))).
Proof.
  intros Hw Hp Hg Hup. unfold OnTraffic. apply wpp_bind. unfold wpp at 1, conn_get at 1. cbn [run]. rewrite Hp.
  cbn [run]. rewrite Hup. cbn [negb]. apply wpp_bind. unfold wpp at 1, conn_get at 1. cbn [run]. rewrite Hp. cbn [run].
  eapply wpp_mono; [apply (traffic_loop_safe _ p (inbound (c_gnet c))); [lia|]| |done].
  - split; [done|]. by exists c.
  - cbn beta. intros _ w' ts ((k & (Hw' & c' & Hp' & _ & Hs') & Hs) & Hts). split_and!; [done|done|].
    exists c'. split; [done|]. by etrans.
Qed.

End Traffic.

(** ** From the wire to the tasks: a buffer that holds whole messages is handed over
    message by message, in order. *)

(** A message as the client sends it: its fragments, each with its mask. *)
Record client_message := mkClientMessage {
  cm_op : Z;
  cm_deflated : bool;
  cm_data : bytes;
  cm_first : bytes * bytes;
  cm_more : list (bytes * bytes);
}.

Definition cm_wire (m : client_message) : bytes :=
  message_frames (cm_op m) (if cm_deflated m then 4 else 0) (cm_first m) (cm_more m).

Definition wf_message `{Deflate} (c : codec) (m : client_message) : Prop :=
  (cm_op m = OpText \/ cm_op m = OpBinary) /\
  (cm_deflated m = true -> IsCompressOnSafe c = true) /\
  wire (cm_deflated m) (cm_data m) (mjoin ((cm_first m).2 :: (cm_more m).*2)) /\
  (cm_op m = OpText -> utf8_valid (cm_data m) = true) /\
  wf_frag (cm_first m) /\ Forall wf_frag (cm_more m).

Section Delivery.
Context {MO : MapOrder} `{Deflate} `{Proto} `{Http} (cf : config).

(** What one message starts and makes of the connection, at the time [t]. *)
Definition hand (p : ptr) (t : Z) (c : Conn) (d : bytes) : list (prog unit) * Conn :=
  if is_heartbeat cf d then ([], touched t c)
  else ([recover (message_task cf p (Allow cf t (c_info (touched t c))).1 d)], limited_conn cf t c).

Fixpoint hand_all (p : ptr) (t : Z) (c : Conn) (ds : list bytes) : list (prog unit) * Conn :=
  match ds with
  | [] => ([], c)
  | d :: ds => let '(ts, c1) := hand p t c d in let '(ts', c2) := hand_all p t c1 ds in (ts ++ ts', c2)
  end.

Definition with_buffer (b : bytes) (c : Conn) : Conn := upd_gnet (fun g => with_inbound g b) c.

(** A connection between two messages. *)
Definition ready (c : Conn) : Prop :=
  idle (c_codec c) /\ peek_err (c_gnet c) = None /\ discard_err (c_gnet c) = false /\ wf_inbound (c_gnet c).

Lemma hand_keeps p t c d : c_codec (hand p t c d).2 = c_codec c /\ c_gnet (hand p t c d).2 = c_gnet c.
Proof. unfold hand. by destruct (is_heartbeat cf d). Qed.

Lemma hand_buffer p t c d b : hand p t (with_buffer b c) d = ((hand p t c d).1, with_buffer b (hand p t c d).2).
Proof. unfold hand. by destruct (is_heartbeat cf d). Qed.

Lemma hand_all_buffer p t c ds b :
  hand_all p t (with_buffer b c) ds = ((hand_all p t c ds).1, with_buffer b (hand_all p t c ds).2).
Proof.
  revert c; induction ds as [|d ds IH]; intros c; [done|]. cbn [hand_all]. rewrite hand_buffer.
  destruct (hand p t c d) as [ts c1]. cbn [fst snd]. rewrite IH. by destruct (hand_all p t c1 ds).
Qed.

(** What stays the same over the messages. *)
Definition handed_over (w w' : world) : Prop :=
  reg w' = reg w /\ frame_pool w' = frame_pool w /\ effects w' = effects w /\ tasks w' = tasks w /\
  workers w' = workers w /\ collects w' = collects w /\ now (env w') = now (env w).

Lemma traffic_turn_message p c m rest w (Q : option action -> world -> list (prog unit) -> Prop) :
  Inv w -> heap w !! p = Some c -> ready c -> wf_message (c_codec c) m ->
  inbound (c_gnet c) = cm_wire m ++ rest ->
  (forall w', Inv w' -> handed_over w w' ->
     heap w' = <[p := with_buffer rest (hand p (now (env w)) c (cm_data m)).2]> (heap w) ->
     Q (if 0 <? len rest then None else Some ActNone) w' (hand p (now (env w)) c (cm_data m)).1) ->
  wps (traffic_turn cf p) w Q.
Proof.
  intros Hw Hp (Hidle & Hpe & Hde & Hg) (Hop & Hdef & Hwire & Hutf & Hf & Hfs) Hin HQ.
  destruct (decode_message (c_codec c) (c_gnet c) (cm_op m) (cm_deflated m) (cm_data m) (cm_first m) (cm_more m) rest)
    as (k & Hd & Hkop & Hreset); [done..|].
  unfold traffic_turn. apply wps_bind_wp. unfold wp, wps at 1, decode_conn. cbn [run]. rewrite Hp, Hd. cbn [run].
  split; [done|]. set (c1 := upd_codec (fun _ => k) (upd_gnet (fun _ => with_inbound (c_gnet c) rest) c)).
  set (w1 := with_heap _ w).
  assert (heap w1 !! p = Some c1) as Hp1 by apply lookup_insert_eq.
  assert (Inv w1) as Hw1 by (by apply (codec_change_Inv p c c1 w w1)).
  apply wps_bind_wp. eapply wp_conn_get; [done|]. cbn [c1 c_codec upd_codec]. rewrite Hkop.
  assert (IsData (cm_op m) = true) as -> by (by destruct Hop as [-> | ->]).
  apply wps_bind. eapply OnWebsocketMessage_run; [done|done|]. intros w2 Hr Hw2.
  set (c2 := (hand p (now (env w)) c1 (cm_data m)).2).
  assert (heap w2 = <[p := c2]> (heap w1)) as E2.
  { destruct Hr as (E & _). rewrite E. unfold c2, hand. by destruct (is_heartbeat cf (cm_data m)). }
  assert (received_task cf p c1 (cm_data m) w1 = (hand p (now (env w)) c (cm_data m)).1) as ->.
  { unfold received_task, hand. by destruct (is_heartbeat cf (cm_data m)). }
  assert (heap w2 !! p = Some c2) as Hp2 by (rewrite E2; apply lookup_insert_eq).
  destruct (hand_keeps p (now (env w)) c1 (cm_data m)) as [Ek Eg]. fold c2 in Ek, Eg.
  apply wp_wps. unfold next_message, reset_message. apply wp_bind. unfold wp at 1, wps at 1, conn_act. cbn [run].
  rewrite Hp2. cbn [run fst snd]. split; [done|]. set (w3 := with_heap _ w2).
  set (c3 := upd_codec resetCurrMessage c2).
  eapply wp_bind, wp_conn_get; [apply lookup_insert_eq|]. cbn [c_gnet upd_codec]. rewrite Eg. apply wp_ret.
  cbn [c1 c_gnet upd_codec upd_gnet inbound with_inbound]. rewrite app_nil_r. destruct Hr as (_ & R).
  assert (c3 = with_buffer rest (hand p (now (env w)) c (cm_data m)).2) as E3.
  { unfold c3, c2, c1. unfold hand. destruct (is_heartbeat cf (cm_data m)); cbn [snd];
      unfold touched, limited_conn, touched, upd_codec, upd_info, with_buffer, upd_gnet; cbn; by rewrite Hreset. }
  apply HQ.
  - by apply (codec_change_Inv p c2 c3 w2 w3).
  - done.
  - unfold w3. cbn [heap with_heap]. fold c3. rewrite E2, insert_insert_eq, E3. unfold w1. cbn [heap with_heap]. by rewrite insert_insert_eq.
Qed.

Lemma wire_nonempty c m : wf_message c m -> (0 < length (cm_wire m))%nat.
Proof.
  intros (_ & _ & _ & _ & (_ & Hmask & Hb & Hfits) & _). unfold cm_wire, message_frames.
  destruct (client_frame_shape (match cm_more m with [] => true | _ => false end)
              (if cm_deflated m then 4 else 0) (cm_op m) (cm_first m).1 (cm_first m).2) as (l & ext & -> & _); [done..|].
  cbn. lia.
Qed.

Lemma traffic_loop_messages fuel p c ms w :
  Inv w -> heap w !! p = Some c -> ready c -> Forall (wf_message (c_codec c)) ms -> ms <> [] ->
  inbound (c_gnet c) = mjoin (cm_wire <$> ms) -> (length ms <= fuel)%nat ->
  wps (traffic_loop cf fuel p) w (fun r w' ts =>
    r = ActNone /\ Inv w' /\ handed_over w w' /\ ts = (hand_all p (now (env w)) c (cm_data <$> ms)).1 /\
    heap w' = <[p := with_buffer [] (hand_all p (now (env w)) c (cm_data <$> ms)).2]> (heap w)).
Proof.
  revert c ms w; induction fuel as [|fuel IH]; intros c ms w Hw Hp Hready Hms Hne Hin Hf; destruct ms as [|m ms]; try done.
  { cbn in Hf. lia. }
  inversion Hms as [|? ? Hm Hms']; subst. cbn [traffic_loop]. apply wps_bind.
  eapply (traffic_turn_message p c m (mjoin (cm_wire <$> ms))); [done|done|done|done|exact Hin|]. intros w1 Hw1 Ho1 Eh1.
  rewrite fmap_cons. cbn [hand_all].
  destruct (hand p (now (env w)) c (cm_data m)) as [ts1 c1] eqn:Ehand. cbn [fst snd] in *.
  destruct ms as [|m2 ms].
  - cbn. unfold wps. cbn [run fst snd]. split_and!; try done; by rewrite ?app_nil_r.
  - set (rest := mjoin (cm_wire <$> (m2 :: ms))) in *.
    assert (0 < len rest) as Hpos.
    { unfold rest. rewrite fmap_cons. change (mjoin (?x :: ?k)) with (x ++ mjoin k). rewrite len_app.
      pose proof (len_nonneg (mjoin (cm_wire <$> ms))). assert (0 < length (cm_wire m2))%nat by (inversion Hms'; subst; by eapply wire_nonempty). unfold len in *. lia. }
    rewrite (proj2 (Z.ltb_lt _ _) Hpos).
    assert (heap w1 !! p = Some (with_buffer rest c1)) as Hp1 by (rewrite Eh1; apply lookup_insert_eq).
    destruct (hand_keeps p (now (env w)) c (cm_data m)) as [Ek Eg]. rewrite Ehand in Ek, Eg. cbn [snd] in Ek, Eg.
    destruct Hready as (Hidle & Hpe & Hde & Hg).
    assert (ready (with_buffer rest c1)) as Hready1.
    { unfold ready. cbn [with_buffer upd_gnet c_codec c_gnet peek_err discard_err with_inbound]. rewrite Ek, Eg.
      split_and!; try done. apply (wf_inbound_suffix _ (cm_wire m)); [done|exact Hin]. }
    pose proof (IH (with_buffer rest c1) (m2 :: ms) w1 Hw1 Hp1 Hready1) as IH'. clear IH.
    eapply wps_mono; [apply IH'|].
    + cbn [with_buffer upd_gnet c_codec]. by rewrite Ek.
    + done.
    + done.
    + cbn in *. lia.
    + cbn beta. intros r w2 ts (-> & Hw2 & Ho2 & -> & Eh2). destruct Ho1 as (O1 & O2 & O3 & O4 & O5 & O6 & O7), Ho2 as (P1 & P2 & P3 & P4 & P5 & P6 & P7).
      rewrite O7, hand_all_buffer in *. cbn [fst snd] in *.
      destruct (hand_all p (now (env w)) c1 (cm_data <$> m2 :: ms)) as [ts2 c2]. cbn [fst snd] in *. split_and!; try done.
      * unfold handed_over. split_and!; congruence.
      * rewrite Eh2, Eh1, insert_insert_eq. done.
Qed.

End Delivery.
