(* ===== verification/Handshake.v ===== *)
(** The opening handshake: which requests are upgraded, and what each answer is. *)

From S2P Require Export Traffic.

Ltac bool_decide_in E := first [apply bool_decide_eq_true in E | apply bool_decide_eq_false in E].

Section Handshake.
Context {MO : MapOrder} `{Deflate} `{Proto} `{Http} (cf : config).

Definition origin_ok (req : request) : bool :=
  isNil (cf_AllowOrigin cf) || existsb (contains (Header_Get "Origin" req)) (cf_AllowOrigin cf).

(** The extensions that the client offers; [None] when the header is malformed. *)
Definition offered (req : request) : option (list string) :=
  if is_empty (Header_Get "Sec-WebSocket-Extensions" req) then Some []
  else ParseOptions (Header_Get "Sec-WebSocket-Extensions" req).

(** A request the gateway upgrades. *)
Definition acceptable (req : request) : bool :=
  negb (bool_decide (rq_Header req !! "Upgrade"%string = None)) &&
  bool_decide (Method req = "GET"%string) &&
  bool_decide (RequestURI req = cf_HandlePattern cf) && origin_ok req &&
  EqualFold (Header_Get "Upgrade" req) "websocket" &&
  (bool_decide (Header_Get "Connection" req = "Upgrade"%string) || bool_decide (Header_Get "Connection" req = "upgrade"%string)) &&
  bool_decide (Header_Get "Sec-WebSocket-Version" req = "13"%string) &&
  bool_decide (is_Some (offered req)) && negb (is_empty (Header_Get "Sec-WebSocket-Key" req)).

Definition offers_deflate (req : request) : bool := bool_decide (deflate_name ∈ default [] (offered req)).

(** The codec that took the extension up. *)
Definition negotiated (req : request) (k : codec) : codec :=
  if offers_deflate req then setCompression k true else k.

Definition switching (req : request) (k : codec) : response :=
  mkResponse 101 (accept_headers (Header_Get "Sec-WebSocket-Key" req) (IsCompressOnSafe k)) EmptyString.

Definition upgraded (req : request) (c : Conn) : Conn :=
  upd_codec (fun k => setUpgraded (negotiated req k) true) (upd_gnet (fun g => with_inbound g []) c).

(** A connection that was not upgraded: nothing but its flag of the compression
    and its buffer has changed. *)
Definition not_upgraded (c c' : Conn) : Prop :=
  isUpgraded (c_codec c') = isUpgraded (c_codec c) /\ c_info c' = c_info c.

Definition handshake (p : ptr) (c : Conn) (req : request) (r : option request * action) (w w' : world) : Prop :=
  reg w' = reg w /\ frame_pool w' = frame_pool w /\ env w' = env w /\ limiters w' = limiters w /\
  tasks w' = tasks w /\ workers w' = workers w /\ collects w' = collects w /\
  if acceptable req && negb (discard_err (c_gnet c)) && negb (write_fails c)
  then r = (Some req, ActNone) /\ heap w' = <[p := upgraded req c]> (heap w) /\
       effects w' = effects w ++ [EHttp p (switching req (negotiated req (c_codec c)))]
  else r = (None, ActClose) /\ (exists c', heap w' = <[p := c']> (heap w) /\ not_upgraded c c') /\
       (effects w' = effects w \/ exists resp, StatusCode resp <> 101 /\ effects w' = effects w ++ [EHttp p resp]).

Lemma isUpgraded_setCompression k : isUpgraded (setCompression k true) = isUpgraded k.
Proof.
  unfold isUpgraded, setCompression. cbn [flags with_flags]. rewrite Z.land_lor_distr_l.
  change (Z.land 2 1) with 0. by rewrite Z.lor_0_r.
Qed.

Lemma isUpgraded_negotiated req k : isUpgraded (negotiated req k) = isUpgraded k.
Proof. unfold negotiated. destruct (offers_deflate req); [apply isUpgraded_setCompression|done]. Qed.

Lemma isUpgraded_setUpgraded k : isUpgraded (setUpgraded k true) = true.
Proof.
  unfold isUpgraded, setUpgraded. cbn [flags with_flags]. rewrite Z.land_lor_distr_l.
  change (Z.land 1 1) with 1. destruct (Z.eqb_spec (Z.lor (Z.land (flags k) 1) 1) 0) as [E|]; [|done].
  apply Z.lor_eq_0_iff in E as [_ E]. done.
Qed.

Lemma wp_conn_act_simple {A} p (f : Conn -> A * Conn) c w Q :
  heap w !! p = Some c -> Q (f c).1 (with_heap (insert p (f c).2) w) -> wp (conn_act p f) w Q.
Proof. intros Hp HQ. unfold wp, wps, conn_act. cbn [run]. rewrite Hp. by cbn. Qed.

(** A response that refuses. *)
Lemma wp_refused p c0 c1 w0 w resp (Q : option request * action -> world -> Prop) :
  heap w = <[p := c1]> (heap w0) -> not_upgraded c0 c1 -> StatusCode resp <> 101 ->
  (forall w', reg w' = reg w -> frame_pool w' = frame_pool w -> env w' = env w -> limiters w' = limiters w ->
     tasks w' = tasks w -> workers w' = workers w -> collects w' = collects w ->
     (exists c', heap w' = <[p := c']> (heap w0) /\ not_upgraded c0 c') ->
     (effects w' = effects w \/ exists resp, StatusCode resp <> 101 /\ effects w' = effects w ++ [EHttp p resp]) ->
     Q (None, ActClose) w') ->
  wp (_failed <- write_response p resp ;; Ret (None, ActClose)) w Q.
Proof.
  intros Hh Hn Hs HQ. unfold write_response. apply wp_bind.
  eapply wp_bind, wp_conn_get; [rewrite Hh; apply lookup_insert_eq|]. destruct (write_fails c1).
  - apply wp_ret, wp_ret, HQ; try done; [by exists c1|by left].
  - apply wp_bind, wp_modify, wp_ret, wp_ret, HQ; try done; [by exists c1|]. right. by exists resp.
Qed.

Lemma accept_run p c0 c req w0 w (Q : option request * action -> world -> Prop) :
  heap w = <[p := c]> (heap w0) -> not_upgraded c0 c -> c_gnet c = c_gnet c0 -> write_fails c = write_fails c0 ->
  (forall r w', reg w' = reg w -> frame_pool w' = frame_pool w -> env w' = env w -> limiters w' = limiters w ->
     tasks w' = tasks w -> workers w' = workers w -> collects w' = collects w ->
     (if negb (is_empty (Header_Get "Sec-WebSocket-Key" req)) && negb (discard_err (c_gnet c0)) && negb (write_fails c0)
      then r = (Some req, ActNone) /\
           heap w' = <[p := upd_codec (fun k => setUpgraded k true) (upd_gnet (fun g => with_inbound g []) c)]> (heap w0) /\
           effects w' = effects w ++ [EHttp p (switching req (c_codec c))]
      else r = (None, ActClose) /\ (exists c', heap w' = <[p := c']> (heap w0) /\ not_upgraded c0 c') /\
           (effects w' = effects w \/ exists resp, StatusCode resp <> 101 /\ effects w' = effects w ++ [EHttp p resp])) ->
     Q r w') ->
  wp (accept p req) w Q.
Proof.
  intros Hh Hn Hg Hwf HQ. unfold accept.
  destruct (is_empty (Header_Get "Sec-WebSocket-Key" req)) eqn:Ek; cbn [negb andb] in HQ.
  { unfold refuse. eapply wp_refused; [done|done|done|]. intros; by apply HQ. }
  eapply wp_bind, wp_conn_get; [rewrite Hh; apply lookup_insert_eq|].
  eapply wp_bind, wp_conn_act_simple; [rewrite Hh; apply lookup_insert_eq|].
  rewrite Hg. destruct (discard_err (c_gnet c0)); cbn [fst snd negb andb] in *.
  { apply wp_ret, HQ; try done. split_and!; [done| |by left]. exists c. cbn [heap with_heap]. by rewrite Hh, insert_insert_eq. }
  set (c1 := upd_gnet _ c). apply wp_bind. unfold write_response.
  eapply wp_bind, wp_conn_get; [cbn [heap with_heap]; apply lookup_insert_eq|]. cbn [c1 write_fails upd_gnet]. rewrite Hwf.
  destruct (write_fails c0); cbn [negb andb] in *.
  - apply wp_ret, wp_ret, HQ; try done. split_and!; [done| |by left]. exists c1. cbn [heap with_heap].
    by rewrite Hh, insert_insert_eq.
  - apply wp_bind, wp_modify, wp_ret. eapply wp_bind, wp_conn_act_simple; [cbn [heap with_heap with_effect]; apply lookup_insert_eq|].
    apply wp_ret, HQ; try done. split_and!; [done| |done]. cbn [heap with_heap with_effect snd].
    by rewrite Hh, !insert_insert_eq.
Qed.

Lemma not_upgraded_refl c : not_upgraded c c.
Proof. done. Qed.

Lemma acceptable_spec req :
  acceptable req = true <->
  rq_Header req !! "Upgrade"%string <> None /\ Method req = "GET"%string /\ RequestURI req = cf_HandlePattern cf /\
  origin_ok req = true /\ EqualFold (Header_Get "Upgrade" req) "websocket" = true /\
  (Header_Get "Connection" req = "Upgrade"%string \/ Header_Get "Connection" req = "upgrade"%string) /\
  Header_Get "Sec-WebSocket-Version" req = "13"%string /\ is_Some (offered req) /\
  is_empty (Header_Get "Sec-WebSocket-Key" req) = false.
Proof.
  unfold acceptable. rewrite !andb_true_iff, orb_true_iff, !negb_true_iff, !bool_decide_eq_true, bool_decide_eq_false. tauto.
Qed.

(** Without the extension nothing is stored. *)
Lemma negotiated_none p c req w :
  heap w !! p = Some c -> offers_deflate req = false -> with_heap (insert p (upd_codec (negotiated req) c)) w = w.
Proof.
  intros Hp Ho. unfold negotiated. rewrite Ho. destruct w; unfold with_heap; cbn in *. f_equal.
  rewrite insert_id; [done|]. rewrite Hp. by destruct c.
Qed.

Lemma upgrade_run p c req w (Q : option request * action -> world -> Prop) :
  heap w !! p = Some c -> peek_err (c_gnet c) = None ->
  (4 <= length (inbound (c_gnet c)))%nat ->
  drop (length (inbound (c_gnet c)) - 4) (inbound (c_gnet c)) = head_end ->
  ReadRequest (inbound (c_gnet c)) = Some req ->
  (forall r w', handshake p c req r w w' -> Q r w') -> wp (upgrade cf p) w Q.
Proof.
  intros Hp Hpe Hl Hend Hreq HQ. unfold upgrade. eapply wp_bind, wp_conn_get; [done|]. rewrite Hpe.
  destruct (Nat.ltb_spec (length (inbound (c_gnet c))) 4); [lia|]. rewrite Hend. cbn [orb].
  rewrite (bool_decide_eq_true_2 (head_end = head_end)) by done. cbn [negb]. rewrite Hreq.
  assert (heap w = <[p := c]> (heap w)) as Hid by (by rewrite insert_id).
  pose proof (not_upgraded_refl c) as Hnot.
  assert ((acceptable req = true -> False) -> forall resp, StatusCode resp <> 101 ->
            wp (_failed <- write_response p resp ;; Ret (None, ActClose)) w Q) as Hrefuse.
  { intros Ha resp Hresp. eapply wp_refused; [exact Hid|done|done|]. intros w' E1 E2 E3 E4 E5 E6 E7 Hh He. apply HQ.
    unfold handshake. rewrite (not_true_is_false _ Ha). cbn [andb]. done. }
  setoid_rewrite acceptable_spec in Hrefuse. unfold refuse.
  destruct (bool_decide (rq_Header req !! "Upgrade"%string = None)) eqn:E1; bool_decide_in E1; [apply Hrefuse; [tauto|done]|].
  destruct (bool_decide (Method req <> "GET"%string)) eqn:E2; bool_decide_in E2; [apply Hrefuse; [tauto|done]|].
  unfold OnUpgradeCheck.
  destruct (bool_decide (RequestURI req <> cf_HandlePattern cf)) eqn:E3; bool_decide_in E3; [apply Hrefuse; [tauto|done]|].
  destruct (negb (isNil (cf_AllowOrigin cf)) && negb (existsb (contains (Header_Get "Origin" req)) (cf_AllowOrigin cf))) eqn:E4.
  { apply Hrefuse; [|done]. unfold origin_ok. rewrite <- negb_orb, negb_true_iff in E4. rewrite E4. by intros (? & ? & ? & ? & ?). }
  destruct (EqualFold (Header_Get "Upgrade" req) "websocket") eqn:E5; cbn [negb]; [|apply Hrefuse; [by intros (? & ? & ? & ? & ? & ?)|done]].
  destruct (bool_decide (Header_Get "Connection" req <> "Upgrade"%string) && bool_decide (Header_Get "Connection" req <> "upgrade"%string)) eqn:E6.
  { apply andb_true_iff in E6 as [E6 E6']. apply bool_decide_eq_true in E6, E6'. apply Hrefuse; [tauto|done]. }
  destruct (bool_decide (Header_Get "Sec-WebSocket-Version" req <> "13"%string)) eqn:E7; bool_decide_in E7; [apply Hrefuse; [tauto|done]|].
  apply dec_stable in E2, E3, E7.
  assert (Header_Get "Connection" req = "Upgrade"%string \/ Header_Get "Connection" req = "upgrade"%string) as Hconn.
  { apply andb_false_iff in E6 as [E6|E6]; apply bool_decide_eq_false, dec_stable in E6; auto. }
  assert (origin_ok req = true) as Horigin.
  { unfold origin_ok. rewrite <- negb_orb, negb_false_iff in E4. done. }
  assert (is_Some (offered req) -> acceptable req = negb (is_empty (Header_Get "Sec-WebSocket-Key" req))) as Hacc.
  { intros Ho. apply Bool.eq_iff_eq_true. rewrite acceptable_spec, negb_true_iff. tauto. }
  assert (forall c' w1, is_Some (offered req) ->
            c' = upd_codec (negotiated req) c -> w1 = with_heap (insert p c') w ->
            wp (accept p req) w1 Q) as Haccept.
  { intros c' w1 Ho -> ->. eapply (accept_run p c (upd_codec (negotiated req) c) req w); [done| |done|done|].
    { split; [|done]. apply isUpgraded_negotiated. }
    intros r w' F1 F2 F3 F4 F5 F6 F7 Hr. apply HQ. unfold handshake. rewrite Hacc by done.
    split_and!; try done. }
  unfold offered in *. destruct (is_empty (Header_Get "Sec-WebSocket-Extensions" req)) eqn:E8.
  - eapply Haccept; [done|done|]. symmetry. apply negotiated_none; [done|]. unfold offers_deflate, offered. by rewrite E8.
  - destruct (ParseOptions (Header_Get "Sec-WebSocket-Extensions" req)) as [options|] eqn:E9; [|apply Hrefuse; [|done]].
    2: { intros (? & ? & ? & ? & ? & ? & ? & [? [=]] & ?). }
    apply wp_bind. assert (offers_deflate req = bool_decide (deflate_name ∈ options)) as Eo.
    { unfold offers_deflate, offered. by rewrite E8, E9. }
    destruct (bool_decide (deflate_name ∈ options)) eqn:E10.
    + unfold set_compression. eapply wp_conn_act_simple; [done|]. eapply Haccept; [done|done|].
      unfold negotiated. by rewrite Eo.
    + apply wp_ret. eapply Haccept; [done|done|]. symmetry. by apply negotiated_none.
Qed.

(** ** The first event with a complete head *)

Definition close_message_of (v : Z * string) : bytes :=
  default [] (WriteFrame (NewFrame OpClose true (NewCloseFrameBody v.1 (str_bytes v.2)))).

(** What an accepted handshake comes to: a task that opens the connection, or a
    close frame with the reason. *)
Definition arrived (p : ptr) (c : Conn) (req : request) (a : action) (w w' : world) (ts : list (prog unit)) : Prop :=
  let sent := effects w ++ [EHttp p (switching req (negotiated req (c_codec c)))] in
  match open_verdict cf w with
  | None => a = ActNone /\ ts = [recover (open_task cf p req)] /\
            heap w' = <[p := upgraded req c]> (heap w) /\ effects w' = sent
  | Some v => a = ActClose /\ ts = [] /\
              heap w' = <[p := mark_closed (upgraded req c)]> (heap w) /\
              effects w' = sent ++ (if isNil (close_message_of v) then [] else [EWrite p (close_message_of v)])
  end.

Definition first_event (p : ptr) (c : Conn) (req : request) (a : action) (w w' : world) (ts : list (prog unit)) : Prop :=
  reg w' = reg w /\ frame_pool w' = frame_pool w /\
  if acceptable req && negb (discard_err (c_gnet c)) && negb (write_fails c)
  then arrived p c req a w w' ts
  else a = ActClose /\ ts = [] /\ (exists c', heap w' = <[p := c']> (heap w) /\ not_upgraded c c') /\
       (effects w' = effects w \/ exists resp, StatusCode resp <> 101 /\ effects w' = effects w ++ [EHttp p resp]).

Lemma WriteFrame_nonempty f b : WriteFrame f = Some b -> b <> [].
Proof.
  unfold WriteFrame. destruct (WriteHeader _) as [h|] eqn:E; cbn; [|done]. intros [= <-].
  unfold WriteHeader in E. repeat case_match; simplify_eq; done.
Qed.

Lemma OnTraffic_first_run p c req w (Q : action -> world -> list (prog unit) -> Prop) :
  heap w !! p = Some c -> isUpgraded (c_codec c) = false -> peek_err (c_gnet c) = None ->
  (4 <= length (inbound (c_gnet c)))%nat ->
  drop (length (inbound (c_gnet c)) - 4) (inbound (c_gnet c)) = head_end ->
  ReadRequest (inbound (c_gnet c)) = Some req ->
  (forall a w' ts, first_event p c req a w w' ts -> Q a w' ts) -> wps (OnTraffic cf p) w Q.
Proof.
  intros Hp Hup Hpe Hl Hend Hreq HQ. unfold OnTraffic. apply wps_bind_wp. eapply wp_conn_get; [done|].
  rewrite Hup. cbn [negb]. apply wps_bind_wp. eapply upgrade_run; [done..|].
  intros r w1 (E1 & E2 & E3 & E4 & E5 & E6 & E7 & Hr). apply wps_bind_wp. unfold first_event in HQ.
  destruct (acceptable req && negb (discard_err (c_gnet c)) && negb (write_fails c)) eqn:Hacc.
  - destruct Hr as (-> & Eh & Ee).
    eapply wp_conn_get; [rewrite Eh; apply lookup_insert_eq|].
    assert (isUpgraded (c_codec (upgraded req c)) = true) as -> by apply isUpgraded_setUpgraded.
    cbn [fst snd]. apply wps_bind. eapply OnWebsocketOpen_run. intros w2 ((F1 & F2 & F3) & F4 & F5 & F6 & F7).
    assert (open_verdict cf w1 = open_verdict cf w) as Ev by (unfold open_verdict; by rewrite E3, E4).
    rewrite Ev. assert (forall a w' ts, reg w' = reg w2 -> frame_pool w' = frame_pool w2 -> arrived p c req a w w' ts -> Q a w' ts) as HQ'.
    { intros a w' ts G1 G2 Ha. apply HQ. split_and!; [congruence|congruence|done]. }
    clear HQ. unfold arrived in HQ'. destruct (open_verdict cf w) as [[code err]|].
    + assert (heap w2 !! p = Some (upgraded req c)) as Hp2 by (rewrite F1, Eh; apply lookup_insert_eq).
      apply wps_bind_wp. unfold mark_closed_flag. eapply wp_conn_act_simple; [done|]. cbn [fst snd].
      change (upd_codec (fun _ => (SetClosedFlagOnSafe (c_codec (upgraded req c))).2) (upgraded req c)) with (mark_closed (upgraded req c)).
      set (w3 := with_heap _ w2).
      assert (heap w3 = <[p := mark_closed (upgraded req c)]> (heap w)) as Eh3 by (cbn; by rewrite F1, Eh, insert_insert_eq).
      apply wps_bind_wp. unfold WriteServerMessage. eapply wp_bind, wp_conn_get; [rewrite Eh3; apply lookup_insert_eq|].
      apply andb_true_iff in Hacc as [_ Hwf]. apply negb_true_iff in Hwf. cbn [mark_closed upgraded upd_codec upd_gnet write_fails].
      rewrite Hwf. unfold close_message_of in HQ'. cbn [fst snd] in HQ'.
      destruct (WriteFrame _) as [b|] eqn:Eb.
      * change (default [] (Some b)) with b in HQ'. assert (isNil b = false) as Enil by (destruct b; [by apply WriteFrame_nonempty in Eb|done]).
        rewrite Enil in HQ'. apply wp_bind, wp_modify, wp_ret. unfold wps. cbn [run]. apply HQ'; [done|done|].
        split_and!; [done|done|done|]. cbn. by rewrite F7, Ee.
      * change (isNil (default [] (@None bytes))) with true in HQ'. apply wp_ret. unfold wps. cbn [run]. apply HQ'; [done|done|]. split_and!; [done|done|done|].
        cbn. by rewrite F7, Ee, app_nil_r.
    + unfold wps. cbn [run]. apply HQ'; [done|done|]. split_and!; try done; congruence.
  - destruct Hr as (-> & (c' & Eh & Hn) & He). eapply wp_conn_get; [rewrite Eh; apply lookup_insert_eq|].
    destruct Hn as [Hn1 Hn2]. rewrite Hn1, Hup. cbn [fst snd]. unfold wps. cbn [run]. apply HQ.
    split_and!; try done. by exists c'.
Qed.

End Handshake.
