(* ===== verification/Workers.v ===== *)
(** The business processes that receive events: registering and leaving, whose
    turn it is, and the goroutine that drains the send queue. *)

From S2P Require Export Forward.

(** ** Whose turn it is *)

(** The picks of [n] calls of [Get] in a row. *)
Definition pick (k : collect) : option ptr :=
  match k_conn k with
  | [] => None
  | l => l !! Z.to_nat (u32 (k_index k + 1) mod u32 (len l))
  end.

Fixpoint picks (n : nat) (k : collect) : list (option ptr) :=
  match n with
  | O => []
  | S n => pick k :: picks n (turn k)
  end.

Lemma picks_spec n k i :
  k_conn k <> [] -> len (k_conn k) < 2 ^ 32 -> 0 <= k_index k -> k_index k + Z.of_nat n < 2 ^ 32 -> (i < n)%nat ->
  picks n k !! i = Some (k_conn k !! Z.to_nat ((k_index k + Z.of_nat i + 1) mod len (k_conn k))).
Proof.
  revert k i; induction n as [|n IH]; intros k i Hne Hl Hi Hb Hin; [lia|]. cbn [picks].
  destruct i as [|i]; cbn [lookup list_lookup].
  - unfold pick. destruct (k_conn k) as [|p l] eqn:E; [done|]. rewrite !u32_small; [|pose proof (len_nonneg (p :: l)); lia|lia].
    do 2 f_equal. by rewrite Z.add_0_r.
  - assert (k_index (turn k) = k_index k + 1) as E by (unfold turn; cbn; apply u32_small; lia).
    rewrite IH; [|done|done|lia|lia|lia]. rewrite E. cbn [turn k_conn]. by replace (k_index k + 1 + Z.of_nat i + 1) with (k_index k + Z.of_nat (S i) + 1) by lia.
Qed.

(** Each of the connections once in as many calls as there are connections. *)
Lemma picks_round k :
  len (k_conn k) < 2 ^ 32 -> 0 <= k_index k -> k_index k + len (k_conn k) < 2 ^ 32 ->
  picks (length (k_conn k)) k ≡ₚ Some <$> k_conn k.
Proof.
  intros Hl Hi Hb. destruct (decide (k_conn k = [])) as [E|Hne]; [by rewrite E|].
  set (l := k_conn k) in *. set (s := Z.to_nat ((k_index k + 1) mod len l)).
  assert (0 < len l) as Hpos by (unfold len; destruct l; [done|cbn; lia]).
  assert (s < length l)%nat as Hs.
  { unfold s. pose proof (Z.mod_pos_bound (k_index k + 1) (len l) Hpos). unfold len in *. lia. }
  assert (picks (length l) k = Some <$> (drop s l ++ take s l)) as ->.
  { apply list_eq. intros i. rewrite list_lookup_fmap. destruct (decide (i < length l)%nat) as [Hlt|Hge].
    - rewrite picks_spec; [|done|done|lia|unfold len in *; lia|done]. fold l.
      assert (forall j, (j < length l)%nat -> Some <$> l !! j = Some (l !! j)) as Hsome.
      { intros j Hj. by destruct (lookup_lt_is_Some_2 l j Hj) as [x ->]. }
      destruct (decide (s + i < length l)%nat) as [Hc|Hc].
      + rewrite lookup_app_l by (rewrite length_drop; lia). rewrite lookup_drop, Hsome by lia. do 2 f_equal.
        unfold s in *. pose proof (Z.mod_pos_bound (k_index k + 1) (len l) Hpos).
        apply Nat2Z.inj. rewrite Z2Nat.id by (apply Z.mod_pos_bound; lia).
        rewrite Nat2Z.inj_add, Z2Nat.id by lia.
        replace (k_index k + Z.of_nat i + 1) with ((k_index k + 1) + Z.of_nat i) by lia.
        rewrite <- Zplus_mod_idemp_l. apply Z.mod_small. unfold len in *. lia.
      + rewrite lookup_app_r by (rewrite length_drop; lia). rewrite length_drop, lookup_take_lt, Hsome by lia. do 2 f_equal.
        unfold s in *. pose proof (Z.mod_pos_bound (k_index k + 1) (len l) Hpos).
        apply Nat2Z.inj. rewrite Z2Nat.id by (apply Z.mod_pos_bound; lia).
        replace (k_index k + Z.of_nat i + 1) with ((k_index k + 1) + Z.of_nat i) by lia.
        rewrite <- Zplus_mod_idemp_l.
        symmetry. apply (Z.mod_unique_pos _ _ 1); unfold len in *; lia.
    - rewrite !lookup_ge_None_2; [done|rewrite length_app, length_drop, length_take; lia|].
      assert (forall n k, length (picks n k) = n) as -> by (intros n; induction n; intros; cbn; auto). lia. }
  apply fmap_Permutation. rewrite Permutation_app_comm. by rewrite take_drop.
Qed.

(** ** The lists of the events *)

Section Registering.
Context {MO : MapOrder} `{Proto} (cf : config).

Definition add_conn (p : ptr) (k : collect) : collect :=
  if bool_decide (p ∈ k_conn k) then k else mkCollect (k_conn k ++ [p]) (k_index k).

Definition del_conn (ws : gmap ptr workerConn) (c : string) (k : collect) : collect :=
  match remove_conn ws c (k_conn k) with Some l => mkCollect l (k_index k) | None => k end.

Definition collected (cs : gmap Z collect) : Prop := forall v, is_event v -> is_Some (cs !! v).

Lemma elem_of_event_list v : v ∈ event_list <-> is_event v.
Proof.
  unfold event_list, is_event.
  rewrite list_elem_of_filter, (range_map_perm Event_value), list_elem_of_fmap.
  split.
  - intros [Hne ([k x] & -> & Hk)]. apply elem_of_map_to_list in Hk. cbn [snd] in *. unfold Event_value in Hk.
    rewrite !lookup_insert_Some, lookup_singleton_Some in Hk. naive_solver.
  - assert (forall k, Event_value !! k = Some v -> v <> Event_Placeholder ->
              v <> Event_Placeholder /\ exists y, v = y.2 /\ y ∈ map_to_list Event_value) as Hin.
    { intros k Hk Hne. split; [done|]. exists (k, v). split; [done|]. by apply elem_of_map_to_list. }
    intros [-> | [-> | ->]]; [apply (Hin "OnOpen"%string)|apply (Hin "OnClose"%string)|apply (Hin "OnMessage"%string)]; done.
Qed.

(** What the loop over the events does to the lists. *)
Definition lists_with (f : collect -> collect) (sel : Z -> bool) (l : list Z) (cs : gmap Z collect) : gmap Z collect :=
  foldl (fun cs v => if sel v then alter f v cs else cs) cs l.

Lemma NoDup_event_list : NoDup event_list.
Proof.
  unfold event_list. rewrite (range_map_perm Event_value).
  apply (bool_decide_unpack _). vm_compute. done.
Qed.

Lemma lists_with_lookup f sel l cs v :
  NoDup l -> lists_with f sel l cs !! v = if bool_decide (v ∈ l) && sel v then f <$> cs !! v else cs !! v.
Proof.
  unfold lists_with. intros Hnd. revert cs; induction Hnd as [|u l Hu Hnd IH]; intros cs; cbn [foldl]; [done|].
  rewrite IH. assert (bool_decide (v ∈ u :: l) = bool_decide (v = u) || bool_decide (v ∈ l)) as ->.
  { apply Bool.eq_iff_eq_true. rewrite orb_true_iff, !bool_decide_eq_true, elem_of_cons. done. }
  destruct (decide (v = u)) as [->|Hne].
  - rewrite (bool_decide_eq_true_2 (u = u)), (bool_decide_eq_false_2 (u ∈ l)) by done. cbn [orb andb].
    destruct (sel u); [by rewrite lookup_alter_eq|done].
  - rewrite (bool_decide_eq_false_2 (v = u)) by done. cbn [orb]. destruct (sel u); [|done].
    by rewrite !lookup_alter_ne by done.
Qed.

(** The lists after [WManager_Set] and [WManager_Del]. *)
Definition registered (p : ptr) (events : Z) (cs : gmap Z collect) : gmap Z collect :=
  lists_with (add_conn p) (has_event events) event_list cs.

Definition removed (ws : gmap ptr workerConn) (c : string) (cs : gmap Z collect) : gmap Z collect :=
  lists_with (del_conn ws c) (fun _ => true) event_list cs.

Lemma registered_lookup p events cs v :
  is_event v -> registered p events cs !! v = if has_event events v then add_conn p <$> cs !! v else cs !! v.
Proof.
  intros Hv. unfold registered. rewrite lists_with_lookup by apply NoDup_event_list.
  by rewrite bool_decide_eq_true_2 by (by apply elem_of_event_list).
Qed.

Lemma removed_lookup ws c cs v : is_event v -> removed ws c cs !! v = del_conn ws c <$> cs !! v.
Proof.
  intros Hv. unfold removed. rewrite lists_with_lookup by apply NoDup_event_list.
  by rewrite bool_decide_eq_true_2 by (by apply elem_of_event_list).
Qed.

Lemma elem_of_add_conn p q k : q ∈ k_conn (add_conn p k) <-> q = p \/ q ∈ k_conn k.
Proof.
  unfold add_conn. case_bool_decide; cbn [k_conn]; [|rewrite elem_of_app, list_elem_of_singleton; tauto].
  split; [tauto|]. by intros [->|].
Qed.

Lemma NoDup_add_conn p k : NoDup (k_conn k) -> NoDup (k_conn (add_conn p k)).
Proof.
  intros Hnd. unfold add_conn. case_bool_decide; [done|]. cbn [k_conn]. apply NoDup_app.
  split_and!; [done| |apply NoDup_singleton]. by intros x Hx ->%list_elem_of_singleton.
Qed.

(** The connections that stay: those of another connId, given that no two
    connections share one. *)
Lemma elem_of_remove_conn ws c l :
  NoDup l -> (forall p q x y, ws !! p = Some x -> ws !! q = Some y -> connId x = connId y -> p = q) ->
  forall q, q ∈ k_conn (del_conn ws c (mkCollect l 0)) <-> q ∈ l /\ connId <$> ws !! q <> Some c.
Proof.
  intros Hnd Hids q. unfold del_conn. cbn [k_conn k_index].
  assert (forall l', remove_conn ws c l = Some l' -> q ∈ l' <-> q ∈ l /\ connId <$> ws !! q <> Some c) as Hsome.
  { clear -Hnd Hids. induction Hnd as [|v l Hv Hnd IH]; intros l'; cbn [remove_conn]; [done|].
    case_bool_decide as Hc.
    - intros [= <-]. rewrite elem_of_cons. split.
      + intros Hq. split; [by right|]. intros Hq'. apply Hv. enough (q = v) by congruence.
        destruct (ws !! q) as [x|] eqn:Ex, (ws !! v) as [y|] eqn:Ey; try done. cbn in *. eapply Hids; [done|done|congruence].
      + intros [[->|Hq] Hne]; [done|done].
    - destruct (remove_conn ws c l) as [l1|] eqn:E; [|done]. intros [= <-]. rewrite !elem_of_cons, (IH l1) by done.
      split; [|tauto]. intros [->|[? ?]]; tauto. }
  destruct (remove_conn ws c l) as [l'|] eqn:E; cbn [k_conn]; [by apply Hsome|].
  split; [|tauto]. intros Hq. split; [done|]. clear Hsome Hnd. induction l as [|v l IH]; [by apply elem_of_nil in Hq|].
  cbn [remove_conn] in E. case_bool_decide; [done|]. apply elem_of_cons in Hq as [->|Hq]; [done|].
  apply IH; [|done]. by destruct (remove_conn ws c l).
Qed.

(** ** The operations *)

Definition lists_ok (w : world) : Prop := forall v, is_event v -> is_Some (collects w !! v).

Lemma lists_with_is_Some f sel l cs v : is_Some (cs !! v) -> is_Some (lists_with f sel l cs !! v).
Proof.
  unfold lists_with. revert cs; induction l as [|u l IH]; intros cs Hv; cbn [foldl]; [done|]. apply IH.
  destruct (sel u); [|done]. by apply lookup_alter_is_Some.
Qed.

Lemma wp_collect_act {A} v (f : world -> collect -> A * collect) k w Q :
  collects w !! v = Some k -> Q (f w k).1 (with_collects (insert v (f w k).2) w) -> wp (collect_act v f) w Q.
Proof. intros Hk HQ. unfold wp, wps, collect_act. cbn [run]. rewrite Hk. by cbn. Qed.

Lemma wp_worker_act {A} p (f : workerConn -> A * workerConn) c w Q :
  workers w !! p = Some c -> Q (f c).1 (with_workers (insert p (f c).2) w) -> wp (worker_act p f) w Q.
Proof. intros Hp HQ. unfold wp, wps, worker_act. cbn [run]. rewrite Hp. by cbn. Qed.

Lemma wp_worker_get {A} p (f : workerConn -> A) c w Q :
  workers w !! p = Some c -> Q (f c) w -> wp (worker_act p (fun c => (f c, c))) w Q.
Proof.
  intros Hp HQ. eapply wp_worker_act; [done|]. cbn [fst snd].
  assert (with_workers (insert p c) w = w) as -> by (destruct w; unfold with_workers; cbn in *; f_equal; by apply insert_id).
  done.
Qed.

Lemma with_collects_alter v f k w : collects w !! v = Some k -> with_collects (insert v (f k)) w = with_collects (alter f v) w.
Proof. intros Hk. unfold with_collects. f_equal. by apply insert_alter_collect. Qed.

Lemma wp_WManager_Set p c w Q :
  workers w !! p = Some c -> lists_ok w ->
  Q tt (with_collects (registered p (events c)) w) -> wp (WManager_Set p) w Q.
Proof.
  intros Hp Hok HQ. unfold WManager_Set. eapply wp_bind, wp_worker_get; [done|].
  assert (forall v, v ∈ event_list -> is_event v) as Hev by (intros v; apply elem_of_event_list).
  unfold registered in HQ. revert Hev HQ. generalize event_list. intros l.
  assert (forall w1, lists_ok w1 -> (forall v, v ∈ l -> is_event v) ->
            Q tt (with_collects (lists_with (add_conn p) (has_event (events c)) l) w1) ->
            wp (for_each l (fun v => if has_event (events c) v then Collect_Set v p else Ret tt)) w1 Q) as Hloop.
  { clear w Hp Hok. induction l as [|v l IH]; intros w Hok Hev HQ; cbn [for_each].
    - apply wp_ret. by destruct w.
    - apply wp_bind. unfold lists_with in HQ. cbn [foldl] in HQ.
      destruct (Hok v) as [k Hk]; [apply Hev; set_solver|].
      destruct (has_event (events c) v).
      + unfold Collect_Set. eapply wp_collect_act; [done|]. cbn [fst snd]. fold (add_conn p k).
        rewrite with_collects_alter by done. apply IH; [|intros u Hu; apply Hev; set_solver|exact HQ].
        intros u Hu. cbn [collects with_collects]. apply lookup_alter_is_Some. by apply Hok.
      + apply wp_ret, IH; [done|intros u Hu; apply Hev; set_solver|exact HQ]. }
  intros Hev HQ. by apply Hloop.
Qed.

Lemma wp_Collect_Del v c k w Q :
  collects w !! v = Some k -> c <> EmptyString ->
  (forall b, Q b (with_collects (alter (del_conn (workers w) c) v) w)) -> wp (Collect_Del v c) w Q.
Proof.
  intros Hk Hc HQ. unfold Collect_Del. rewrite (proj2 (is_empty_false _)) by done. eapply wp_collect_act; [done|].
  rewrite <- (with_collects_alter v (del_conn (workers w) c) k w Hk) in HQ. unfold del_conn in HQ.
  by destruct (remove_conn (workers w) c (k_conn k)).
Qed.

Lemma wp_WManager_Del c w Q :
  lists_ok w -> c <> EmptyString ->
  (forall b, Q b (with_collects (removed (workers w) c) w)) -> wp (WManager_Del c) w Q.
Proof.
  intros Hok Hc HQ. unfold WManager_Del. unfold removed in HQ.
  assert (forall v, v ∈ event_list -> is_event v) as Hev by (intros v; apply elem_of_event_list).
  revert Hev HQ. generalize event_list. intros l. generalize false as a. revert w Hok.
  induction l as [|v l IH]; intros w Hok a Hev HQ; cbn [for_fold].
  - apply wp_ret. specialize (HQ a). by destruct w.
  - destruct (Hok v) as [k Hk]; [apply Hev; set_solver|]. eapply wp_bind, wp_bind, wp_Collect_Del; [done|done|].
    intros b. apply wp_ret, IH.
    + intros u Hu. cbn [collects with_collects]. apply lookup_alter_is_Some. by apply Hok.
    + intros u Hu. apply Hev. set_solver.
    + exact HQ.
Qed.

(** ** register, unregister *)

(** The queue of a connection after a message. *)
Definition messaged (m : message) (cmd : Z) (c : workerConn) : workerConn :=
  match packet_set m cmd with Some pkg => enqueued pkg c | None => c end.

(** Nothing else than workers, lists and metrics changes. *)
Definition same_but_workers (w w' : world) : Prop :=
  same_core w w' /\ env w' = env w /\ limiters w' = limiters w /\ tasks w' = tasks w /\ effects w' = effects w.

Lemma wp_reply p c m cmd w Q :
  workers w !! p = Some c ->
  (forall w', same_but_workers w w' -> collects w' = collects w -> workers w' = <[p := messaged m cmd c]> (workers w) ->
     Q tt w') -> wp (Worker_Send p m cmd ;; removeMetricsNoise m) w Q.
Proof.
  intros Hp HQ. eapply wp_bind, wp_Worker_Send; [done|]. intros w1 (E1 & E2 & E3) E4 E5 E6 E7 E8 E9.
  unfold removeMetricsNoise. apply wp_bind, wp_modify, wp_modify. apply HQ; [done|done|].
  cbn [workers with_meters]. rewrite E9. unfold messaged. destruct (packet_set m cmd) as [pkg|]; [|by rewrite insert_id].
  symmetry. by apply insert_alter_worker.
Qed.

Definition register_answer (param : bytes) (c : workerConn) : RegisterRespCode :=
  match unmarshal_RegisterReq param with
  | None => UnmarshalError
  | Some payload =>
      if negb (valid_events (rq_Events payload)) then InvalidEvent
      else if 0 <? events c then DuplicateRegister else RegisterSuccess
  end.

(** What a connection becomes by a registration. *)
Definition register_effect (param : bytes) (p : ptr) (c : workerConn) (w w' : world) : Prop :=
  let code := register_answer param c in
  let reply c id := messaged (MRegisterResp code (code_string code) id) Cmd_Register c in
  same_but_workers w w' /\
  match unmarshal_RegisterReq param, code with
  | Some payload, RegisterSuccess =>
      workers w' = <[p := reply (SetEvents (rq_Events payload) c) (connId c)]> (workers w) /\
      collects w' = registered p (rq_Events payload) (collects w)
  | _, _ => workers w' = <[p := reply c EmptyString]> (workers w) /\ collects w' = collects w
  end.

Lemma messaged_events m cmd c : events (messaged m cmd c) = events c.
Proof. unfold messaged. by destruct (packet_set m cmd). Qed.

Lemma register_run param p c w Q :
  workers w !! p = Some c -> lists_ok w ->
  (forall w', register_effect param p c w w' -> Q tt w') -> wp (register param p) w Q.
Proof.
  intros Hp Hok HQ. unfold register, register_effect, register_answer in *. cbv zeta in HQ.
  destruct (unmarshal_RegisterReq param) as [payload|].
  2: { unfold register_reply. eapply wp_reply; [done|]. intros w' E1 E2 E3. by apply HQ. }
  destruct (negb (valid_events (rq_Events payload))).
  { unfold register_reply. eapply wp_reply; [done|]. intros w' E1 E2 E3. by apply HQ. }
  eapply wp_bind, wp_worker_get; [done|]. destruct (0 <? events c).
  { unfold register_reply. eapply wp_reply; [done|]. intros w' E1 E2 E3. by apply HQ. }
  eapply wp_bind, wp_worker_act; [done|]. cbn [fst snd].
  eapply wp_bind, wp_worker_get; [cbn [workers with_workers]; apply lookup_insert_eq|]. cbn [connId SetEvents].
  apply wp_bind. unfold register_reply. eapply wp_reply; [cbn [workers with_workers]; apply lookup_insert_eq|].
  intros w1 E1 E2 E3. cbn [collects workers with_workers] in E2, E3. rewrite insert_insert_eq in E3.
  eapply wp_WManager_Set; [rewrite E3; apply lookup_insert_eq| |].
  { intros v Hv. rewrite E2. by apply Hok. }
  apply HQ. split; [done|]. cbn [workers collects with_collects]. split; [done|].
  rewrite E2, messaged_events. done.
Qed.

Definition unregister_effect (payload : UnRegisterReq) (p : ptr) (c : workerConn) (w w' : world) : Prop :=
  same_but_workers w w' /\ workers w' = <[p := messaged MUnRegisterResp Cmd_Unregister c]> (workers w) /\
  collects w' = removed (workers w) (uq_ConnId payload) (collects w).

Lemma unregister_run param payload p c w Q :
  unmarshal_UnRegisterReq param = Some payload -> uq_ConnId payload <> EmptyString ->
  workers w !! p = Some c -> lists_ok w ->
  (forall w', unregister_effect payload p c w w' -> Q tt w') -> wp (unregister param p) w Q.
Proof.
  intros Hm Hne Hp Hok HQ. unfold unregister. rewrite Hm. eapply wp_bind, wp_WManager_Del; [done|done|].
  intros b. eapply wp_reply; [done|]. intros w' E1 E2 E3. apply HQ. done.
Qed.

End Registering.

(** ** The goroutine that drains the send queue of a business process: what is on
    the wire is whole packets, in the order of the queue, whatever fails. *)

(** ** The stream *)

Definition packet_wire (pkg : packet) : bytes := header pkg ++ body pkg.
Definition wires (l : list packet) : bytes := mjoin (packet_wire <$> l).

Lemma wires_cons pkg l : wires (pkg :: l) = packet_wire pkg ++ wires l.
Proof. done. Qed.

Lemma wires_app l k : wires (l ++ k) = wires l ++ wires k.
Proof. unfold wires. by rewrite fmap_app, join_app. Qed.

Lemma buffers_bytes l : mjoin (buffers_of l).*1 = wires l.
Proof.
  induction l as [|pkg l IH]; [done|]. unfold buffers_of in *. rewrite fmap_cons.
  change (mjoin (?x :: ?k)) with (x ++ mjoin k). rewrite fmap_app, join_app, IH, wires_cons.
  change (mjoin [(header pkg, 8); (body pkg, body_cap pkg)].*1) with (header pkg ++ body pkg ++ []).
  by rewrite app_nil_r.
Qed.

(** What the other side reads: a length, a command, a body, again and again. *)
Fixpoint read_packets (fuel : nat) (l : bytes) : list (Z * bytes) :=
  match fuel with
  | O => []
  | S fuel =>
      if len l <? 8 then []
      else
        let n := be (take 4 l) in
        if len l <? 4 + n then []
        else (be (take 4 (drop 4 l)), take (Z.to_nat (n - 4)) (drop 8 l)) :: read_packets fuel (drop (Z.to_nat (4 + n)) l)
  end.

(** A packet as [packet.set] makes it. *)
Definition packed (cmd : Z) (pkg : packet) : Prop :=
  header pkg = put_be 4 (u32 (len (body pkg) + 4)) ++ put_be 4 (u32 cmd) /\ len (body pkg) + 4 < 2 ^ 32.

Lemma read_packet fuel cmd pkg rest :
  packed cmd pkg -> read_packets (S fuel) (packet_wire pkg ++ rest) = (u32 cmd, body pkg) :: read_packets fuel rest.
Proof.
  intros [Hh Hlen]. pose proof (len_nonneg (body pkg)). pose proof (len_nonneg rest).
  assert (u32 (len (body pkg) + 4) = len (body pkg) + 4) as E by (apply u32_small; lia).
  rewrite E in Hh. unfold packet_wire. rewrite Hh. cbn [read_packets].
  set (h1 := put_be 4 (len (body pkg) + 4)). set (h2 := put_be 4 (u32 cmd)).
  assert (length h1 = 4%nat) as L1 by apply length_put_be. assert (length h2 = 4%nat) as L2 by apply length_put_be.
  rewrite <- !app_assoc.
  assert (len (h1 ++ h2 ++ body pkg ++ rest) = 8 + len (body pkg) + len rest) as L.
  { rewrite !len_app. unfold len in *. lia. }
  rewrite L. destruct (Z.ltb_spec (8 + len (body pkg) + len rest) 8); [lia|].
  assert (take 4 (h1 ++ h2 ++ body pkg ++ rest) = h1) as -> by (rewrite <- L1; apply take_app_length).
  assert (be h1 = len (body pkg) + 4) as ->.
  { unfold h1. rewrite be_put_be. apply Z.mod_small. split; [lia|]. change (256 ^ Z.of_nat 4) with (2 ^ 32). lia. }
  destruct (Z.ltb_spec (8 + len (body pkg) + len rest) (4 + (len (body pkg) + 4))); [lia|].
  assert (drop 4 (h1 ++ h2 ++ body pkg ++ rest) = h2 ++ body pkg ++ rest) as -> by (rewrite <- L1; apply drop_app_length).
  assert (take 4 (h2 ++ body pkg ++ rest) = h2) as -> by (rewrite <- L2; apply take_app_length).
  assert (be h2 = u32 cmd) as ->.
  { unfold h2. rewrite be_put_be. apply Z.mod_small. change (256 ^ Z.of_nat 4) with (2 ^ 32). apply u32_range. }
  assert (drop 8 (h1 ++ h2 ++ body pkg ++ rest) = body pkg ++ rest) as ->.
  { rewrite app_assoc. replace 8%nat with (length (h1 ++ h2)) by (rewrite length_app; lia). apply drop_app_length. }
  assert (take (Z.to_nat (len (body pkg) + 4 - 4)) (body pkg ++ rest) = body pkg) as ->.
  { replace (Z.to_nat (len (body pkg) + 4 - 4)) with (length (body pkg)) by (unfold len; lia). apply take_app_length. }
  do 2 f_equal. rewrite !app_assoc.
  replace (Z.to_nat (4 + (len (body pkg) + 4))) with (length ((h1 ++ h2) ++ body pkg)) by (rewrite !length_app; unfold len; lia).
  apply drop_app_length.
Qed.

Section WorkerSend.
Context {MO : MapOrder} `{Proto} (cf : config).

Lemma packet_set_packed m cmd pkg :
  packet_set m cmd = Some pkg -> len (body pkg) + 4 < 2 ^ 32 -> packed cmd pkg /\ marshal m = Some (body pkg).
Proof. unfold packet_set. destruct (marshal m) as [b|]; [|done]. intros [= <-] Hl. done. Qed.

(** The messages of a queue, read back. *)
Lemma read_wires (l : list (packet * (message * Z))) fuel :
  Forall (fun x => packet_set x.2.1 x.2.2 = Some x.1 /\ len (body x.1) + 4 < 2 ^ 32) l ->
  (length l < fuel)%nat ->
  Forall2 (fun r x => r.1 = u32 x.2.2 /\ marshal x.2.1 = Some r.2) (read_packets fuel (wires l.*1)) l.
Proof.
  revert fuel; induction l as [|[pkg [m cmd]] l IH]; intros fuel Hl Hf; destruct fuel as [|fuel]; try (cbn in Hf; lia).
  { cbn. constructor. }
  inversion Hl as [|? ? [Hs Hb] Hl']; subst. cbn [fst snd] in *. rewrite fmap_cons, wires_cons. cbn [fst].
  destruct (packet_set_packed m cmd pkg Hs Hb) as [Hp Hm].
  rewrite (read_packet fuel cmd) by done. constructor; [done|]. apply IH; [done|]. cbn in Hf. lia.
Qed.

(** ** One write *)

(** What has gone out since [base]: some of the packets [items], in order and
    whole; after a part of one, nothing more, because the connection is closed. *)
Definition sent_ok (base : bytes) (items : list packet) (n : netConn) : Prop :=
  exists l k part, l ++ k `sublist_of` items /\ n_out n = base ++ wires l ++ part /\ part `prefix_of` wires k /\
                   (part = [] \/ n_closed n = true).

Lemma sent_ok_start n : sent_ok (n_out n) [] n.
Proof. exists [], [], []. split_and!; [done| |done|by left]. cbn. by rewrite app_nil_r. Qed.

Lemma sent_ok_more base items more n : sent_ok base items n -> sent_ok base (items ++ more) n.
Proof.
  intros (l & k & part & Hs & Ho & Hp & Hc). exists l, k, part. split_and!; [|done|done|done].
  by apply sublist_inserts_r.
Qed.

Lemma sent_ok_close base items n : sent_ok base items n -> sent_ok base items (net_close n).
Proof. intros (l & k & part & Hs & Ho & Hp & Hc). exists l, k, part. split_and!; [done|done|done|by right]. Qed.

Lemma sent_ok_deadline base items n : sent_ok base items n -> sent_ok base items (net_write_deadline n).2.
Proof. intros (l & k & part & Hs & Ho & Hp & Hc). by exists l, k, part. Qed.

(** A write, and the close after a part. *)
Lemma sent_ok_write base items ps n :
  sent_ok base items n ->
  let r := net_write (wires ps) n in
  sent_ok base (items ++ ps) (if r.1.2 && negb (r.1.1 =? 0)%nat then net_close r.2 else r.2).
Proof.
  intros (l & k & part & Hs & Ho & Hp & Hc). cbv zeta. unfold net_write. destruct (n_closed n) eqn:Ecl.
  { cbn [fst snd Nat.eqb negb andb]. exists l, k, part. split_and!; [by apply sublist_inserts_r| |done|by right].
    cbn [n_out]. by rewrite take_0, app_nil_r. }
  destruct Hc as [->|]; [|done]. rewrite app_nil_r in Ho.
  assert (l ++ ps `sublist_of` items ++ ps) as Hs'.
  { apply sublist_app; [|done]. etrans; [|exact Hs]. by apply sublist_inserts_r. }
  destruct (default None (head (write_fails_at n))) as [j|]; cbn [fst snd].
  - destruct (Nat.min j (length (wires ps)) =? 0)%nat eqn:Ej; cbn [negb andb].
    + apply Nat.eqb_eq in Ej. exists l, [], []. rewrite app_nil_r. split_and!; [|cbn [n_out]|done|by left].
      * etrans; [|exact Hs']. by apply sublist_inserts_r.
      * rewrite Ho, app_nil_r. assert (take j (wires ps) = []) as -> ; [|by rewrite app_nil_r].
        apply nil_length_inv. rewrite length_take. lia.
    + exists l, ps, (take j (wires ps)). split_and!; [done|cbn [n_out net_close]; by rewrite Ho, <- app_assoc| |by right].
      exists (drop j (wires ps)). by rewrite take_drop.
  - exists (l ++ ps), [], []. rewrite app_nil_r. split_and!; [done|cbn [n_out]|done|by left].
    rewrite Ho, wires_app, app_nil_r. rewrite firstn_all. by rewrite <- app_assoc.
Qed.

(** ** Runs that may end in a panic: [Q] at the end, [R] where it panics. *)

Definition wpe {A} (m : prog A) (w : world) (Q : A -> world -> Prop) (R : world -> Prop) : Prop :=
  match run m w with
  | Done a w' _ => Q a w'
  | Panicked w' => R w'
  | _ => False
  end.

Lemma wpe_bind {A B} (m : prog A) (g : A -> prog B) w Q R :
  wpe m w (fun a w' => wpe (g a) w' Q R) R -> wpe (bind m g) w Q R.
Proof.
  unfold wpe. rewrite run_bind. destruct (run m w) as [a w' ts| | | |]; [|done..]. by destruct (run (g a) w').
Qed.

Lemma wps_wpe {A} (m : prog A) w (Q : A -> world -> Prop) R : wps m w (fun a w' _ => Q a w') -> wpe m w Q R.
Proof. unfold wps, wpe. by destruct (run m w). Qed.

Lemma wp_wpe {A} (m : prog A) w (Q : A -> world -> Prop) R : wp m w Q -> wpe m w Q R.
Proof. intros Hm. by apply wps_wpe, wp_wps. Qed.

Lemma wpe_mono {A} (m : prog A) w (Q Q' : A -> world -> Prop) R :
  wpe m w Q R -> (forall a w', Q a w' -> Q' a w') -> wpe m w Q' R.
Proof. unfold wpe. destruct (run m w); auto. Qed.

(** Nothing fails. *)
Definition healthy (n : netConn) : Prop :=
  n_closed n = false /\ write_deadline_fails n = [] /\ write_fails_at n = [].

(** The sending goroutine at [p] has put out some of [items] since [base], all of
    them if [h] and nothing fails; [q] is what is left of the queue. *)
Record sending (h : bool) (p : ptr) (base : bytes) (items : list packet) (q : fifo packet) (size : nat) (w : world) : Prop := {
  sd_conn : exists c, workers w !! p = Some c /\ sent_ok base items (w_net c) /\
              (closeLock c = 0 \/ n_closed (w_net c) = true) /\ sendCh c = q /\ dequeueSize c = size /\
              connId c <> EmptyString /\
              (h = true -> healthy (w_net c) /\ n_out (w_net c) = base ++ wires items);
  sd_lists : lists_ok w;
}.

Lemma sending_worker h p base items q size w c' w' :
  lists_ok w -> workers w' = <[p := c']> (workers w) -> collects w' = collects w ->
  sent_ok base items (w_net c') -> (closeLock c' = 0 \/ n_closed (w_net c') = true) -> sendCh c' = q ->
  dequeueSize c' = size -> connId c' <> EmptyString ->
  (h = true -> healthy (w_net c') /\ n_out (w_net c') = base ++ wires items) -> sending h p base items q size w'.
Proof.
  intros Hl Ew Ec H1 H2 H3 H4 H5 H6. split; [exists c'; rewrite Ew, lookup_insert_eq; by split_and!|].
  intros v Hv. rewrite Ec. by apply Hl.
Qed.

Lemma sending_more h p base items more q size w :
  sending h p base items q size w -> sending false p base (items ++ more) q size w.
Proof.
  intros [(c & Hp & Hs & Hrest) Hl]. split; [|done]. exists c. split_and!; [done|by apply sent_ok_more|apply Hrest..|done].
Qed.

(** The [Close] that closes: the connection leaves the lists and the socket is closed. *)
Lemma Worker_Close_open p c w (Q : unit -> world -> Prop) R :
  workers w !! p = Some c -> closeLock c = 0 -> connId c <> EmptyString -> lists_ok w ->
  (forall w', workers w' !! p = Some (set_net (net_close (w_net c)) (set_closeLock 1 c)) -> lists_ok w' -> Q tt w') ->
  wpe (Worker_Close p) w Q R.
Proof.
  intros Hp E0 Hid Hl HQ. unfold Worker_Close. apply wpe_bind, wp_wpe. eapply wp_worker_act; [done|].
  assert (closeLock c =? 0 = true) as -> by (by apply Z.eqb_eq). cbn [fst snd negb].
  set (c1 := set_closeLock 1 c). set (w1 := with_workers _ w).
  assert (workers w1 !! p = Some c1) as Hp1 by apply lookup_insert_eq.
  apply wpe_bind, wp_wpe. eapply wp_worker_get; [done|]. apply wpe_bind, wp_wpe.
  apply wp_WManager_Del; [done|done|]. intros b. set (w2 := with_collects _ w1).
  assert (lists_ok w2) as Hl2.
  { intros v Hv. unfold w2. cbn [collects with_collects]. rewrite removed_lookup by done. apply fmap_is_Some. by apply Hl. }
  apply wpe_bind, wp_wpe. unfold worker_net. eapply wp_worker_act; [exact Hp1|]. cbn [fst snd].
  unfold wpe. cbn [run spawn]. apply HQ; [apply lookup_insert_eq|exact Hl2].
Qed.

(** Closing keeps what has been said of the wire. *)
Lemma Worker_Close_sending h p base items q size w R :
  sending h p base items q size w ->
  wpe (Worker_Close p) w (fun _ => sending false p base items q size) R.
Proof.
  intros [(c & Hp & Hs & Hlock & Hq & Hsize & Hid & Hh) Hl]. destruct (decide (closeLock c = 0)) as [E0|E0].
  - eapply Worker_Close_open; [done..|]. intros w' Hp' Hl'. split; [|done]. eexists. split; [exact Hp'|].
    split_and!; [by apply sent_ok_close|by right|done..].
  - unfold Worker_Close. apply wpe_bind, wp_wpe. eapply wp_worker_act; [done|].
    destruct (Z.eqb_spec (closeLock c) 0); [done|]. cbn [fst snd negb].
    apply wp_wpe, wp_ret. by eapply (sending_worker false p base items q size w c).
Qed.

(** The state after a panic: something failed. *)
Definition broken (h : bool) (p : ptr) (base : bytes) (items : list packet) (q : fifo packet) (size : nat) (w : world) : Prop :=
  h = false /\ sending false p base items q size w.

Lemma broken_more h p base items more q size w :
  broken h p base items q size w -> broken h p base (items ++ more) q size w.
Proof. intros [Hh Hw]. split; [done|]. by eapply sending_more. Qed.

Lemma Worker_send_sending h p ps base items q size w :
  sending h p base items q size w ->
  wpe (Worker_send p ps) w (fun _ => sending h p base (items ++ ps) q size) (broken h p base (items ++ ps) q size).
Proof.
  intros [(c & Hp & Hs & Hlock & Hq & Hsize & Hid & Hh) Hl]. unfold Worker_send.
  apply wpe_bind, wp_wpe. unfold worker_net at 1. eapply wp_worker_act; [done|]. cbn [fst snd].
  set (c1 := set_net (net_write_deadline (w_net c)).2 c). set (w1 := with_workers (insert p c1) w).
  assert (sending h p base items q size w1) as Hw1.
  { eapply (sending_worker h p base items q size w c1); try done. intros E. destruct (Hh E) as [(F1 & F2 & F3) Fo].
    unfold healthy. cbn. by rewrite F2. }
  destruct (net_write_deadline (w_net c)).1 eqn:Edl.
  { assert (h = false) as ->.
    { destruct h; [|done]. destruct (Hh eq_refl) as [(E1 & E2 & _) _]. unfold net_write_deadline in Edl. by rewrite E1, E2 in Edl. }
    apply wpe_bind. eapply wpe_mono; [by eapply Worker_Close_sending|]. intros [] w2 Hw2. apply wp_wpe, wp_ret. by eapply sending_more. }
  apply wpe_bind, wp_wpe. unfold worker_net. eapply wp_worker_act; [apply lookup_insert_eq|]. cbn [fst snd].
  rewrite buffers_bytes. cbn [c1 w_net set_net].
  pose proof (sent_ok_write base items ps (net_write_deadline (w_net c)).2 (sent_ok_deadline _ _ _ Hs)) as Hw. cbv zeta in Hw.
  destruct (net_write (wires ps) (net_write_deadline (w_net c)).2) as [[k failed] n2] eqn:En. cbn [fst snd] in *.
  assert (n_closed n2 = n_closed (w_net c)) as Ecl.
  { unfold net_write in En. cbn in En. destruct (n_closed (w_net c)) eqn:E; [by simplify_eq|].
    destruct (default None (head (write_fails_at (w_net c)))); simplify_eq; cbn; done. }
  assert (h = true -> failed = false /\ healthy n2 /\ n_out n2 = base ++ wires (items ++ ps)) as Hh2.
  { intros Hht. destruct (Hh Hht) as [(E1 & E2 & E3) Eo]. unfold net_write in En. cbn in En. rewrite E1, E3 in En. cbn in En.
    simplify_eq. unfold healthy. cbn. rewrite E2, firstn_all, Eo, wires_app, <- app_assoc. done. }
  set (c2 := set_net n2 c). set (w2 := with_workers _ w1).
  assert (workers w2 = <[p := c2]> (workers w)) as Ew2 by (unfold w2, w1; cbn; by rewrite insert_insert_eq).
  assert (closeLock c2 = 0 \/ n_closed (w_net c2) = true) as Hlock2 by (cbn [c2 closeLock w_net set_net]; by rewrite Ecl).
  destruct failed; cbn [negb andb] in *.
  2: { apply wp_wpe, wp_ret. eapply (sending_worker h p base (items ++ ps) q size w c2); try done. by apply Hh2. }
  assert (h = false) as -> by (destruct h; [by destruct (Hh2 eq_refl)|done]).
  assert (forall w3, sending false p base (items ++ ps) q size w3 ->
            wpe (if format_panics (consume k (buffers_of ps)) then Panic else Ret false) w3
              (fun _ => sending false p base (items ++ ps) q size) (broken false p base (items ++ ps) q size)) as Hend.
  { intros w3 Hw3. by destruct (format_panics _); [split|]. }
  apply wpe_bind. destruct (Nat.eqb_spec k 0) as [Ek|Ek]; cbn [negb] in *.
  - apply wp_wpe, wp_ret, Hend. by eapply (sending_worker false p base (items ++ ps) q size w c2).
  - assert (n_closed (w_net c) = false) as Hopen.
    { unfold net_write in En. cbn in En. destruct (n_closed (w_net c)); [by simplify_eq|done]. }
    destruct Hlock2 as [H0|Hcl]; [|cbn [c2 w_net set_net] in Hcl; congruence].
    apply (Worker_Close_open p c2); [rewrite Ew2; apply lookup_insert_eq|done..|].
    intros w3 Hp3 Hl3. apply Hend. split; [|done]. eexists. split; [exact Hp3|]. split_and!; try done. by right.
Qed.

(** ** A turn of the loop *)

Lemma sending_metrics h p base items q size w f :
  sending h p base items q size w -> sending h p base items q size (with_meters f w).
Proof. by intros [Hc Hl]. Qed.

Lemma counted_sending h p base items q size w (ok : bool) a b c :
  sending h p base items q size w ->
  wpe (if ok then Mark ItemWorkerToBusinessSucceedCount a ;; Mark ItemWorkerToBusinessSucceedByte b
       else Mark ItemWorkerToBusinessFailedCount c) w (fun _ => sending h p base items q size) (broken h p base items q size).
Proof.
  intros Hw. destruct ok; apply wp_wpe; [apply wp_bind, wp_modify|]; apply wp_modify; by repeat apply sending_metrics.
Qed.

(** One packet at a time. *)
Lemma send_each_sending h p base items ps q size w :
  sending h p base items q size w ->
  wpe (for_each ps (fun pkg =>
         ok <- Worker_send p [pkg] ;;
         if (ok : bool) then
           Mark ItemWorkerToBusinessSucceedCount 1 ;; Mark ItemWorkerToBusinessSucceedByte (packet_size pkg)
         else Mark ItemWorkerToBusinessFailedCount 1)) w
      (fun _ => sending h p base (items ++ ps) q size) (broken h p base (items ++ ps) q size).
Proof.
  revert items w; induction ps as [|pkg ps IH]; intros items w Hw; cbn [for_each].
  { rewrite app_nil_r. by apply wp_wpe, wp_ret. }
  assert (items ++ pkg :: ps = (items ++ [pkg]) ++ ps) as -> by (by rewrite <- app_assoc).
  assert (forall R1 R2 : world -> Prop, (forall w, R1 w -> R2 w) -> forall A (m : prog A) w Q, wpe m w Q R1 -> wpe m w Q R2) as Hpanic.
  { intros R1 R2 HR A m w1 Q. unfold wpe. destruct (run m w1); auto. }
  assert (forall w1, broken h p base (items ++ [pkg]) q size w1 -> broken h p base ((items ++ [pkg]) ++ ps) q size w1) as Hmore
    by (intros w1; eapply broken_more).
  apply wpe_bind, wpe_bind. eapply (Hpanic _ _ Hmore), wpe_mono; [by apply Worker_send_sending|]. cbn beta. intros ok w1 Hw1.
  eapply (Hpanic _ _ Hmore), wpe_mono; [by apply counted_sending|]. cbn beta. intros _ w2 Hw2. by apply IH.
Qed.

Lemma wpe_panic {A} (m : prog A) w (Q : A -> world -> Prop) (R R' : world -> Prop) :
  (forall w, R w -> R' w) -> wpe m w Q R -> wpe m w Q R'.
Proof. intros HR. unfold wpe. destruct (run m w); auto. Qed.

(** A turn takes some packets off the queue, and their bytes go out, as a batch
    or one by one. *)
Lemma loopSend_turn_run h p base items q size w l q' :
  sending h p base items q size w -> fifo_dequeue size q = Some (l, q') ->
  wpe (loopSend_turn cf p) w
      (fun go w' => go = negb (isNil l) /\ sending h p base (items ++ l) q' size w') (broken h p base (items ++ l) q' size).
Proof.
  intros [(c & Hp & Hs & Hlock & Hq & Hsize & Hid & Hh) Hl] Hd. unfold loopSend_turn.
  apply wpe_bind, wp_wpe. eapply wp_worker_get; [done|]. rewrite Hsize.
  apply wpe_bind. unfold wpe at 1, Worker_Dequeue. cbn [run]. rewrite Hp, Hq, Hsize, Hd. cbn [run].
  set (w1 := with_workers _ w).
  assert (sending h p base items q' size w1) as Hw1 by (by eapply (sending_worker h p base items q' size w (set_sendCh q' c))).
  destruct l as [|pkg l].
  { rewrite app_nil_r. by apply wp_wpe, wp_ret. }
  assert (len (pkg :: l) =? 0 = false) as -> by (apply Z.eqb_neq; unfold len; cbn; lia).
  set (ps := pkg :: l) in *.
  apply wpe_bind.
  assert (forall w2, sending h p base (items ++ ps) q' size w2 ->
            wpe (Ret true) w2 (fun go w' => go = negb (isNil ps) /\ sending h p base (items ++ ps) q' size w')
                (broken h p base (items ++ ps) q' size)) as Hend by (intros w2 Hw2; by apply wp_wpe, wp_ret).
  destruct (_ <? _).
  - apply wpe_bind. eapply wpe_mono; [by apply Worker_send_sending|]. cbn beta. intros ok w2 Hw2.
    eapply wpe_mono; [by apply counted_sending|]. intros [] w3 Hw3. by apply Hend.
  - eapply wpe_mono; [by apply send_each_sending|]. intros [] w3 Hw3. by apply Hend.
Qed.

(** The loop on a queue that is closed: everything in it is dealt with. *)
Lemma loopSend_loop_run h fuel p base items q size w :
  sending h p base items q size w -> q_closed q = true -> (0 < size)%nat -> (length (q_items q) < fuel)%nat ->
  wpe (loopSend_loop cf fuel p) w
      (fun _ => sending h p base (items ++ q_items q) (mkFifo (q_cap q) [] true) size)
      (fun w' => exists q', broken h p base (items ++ q_items q) q' size w').
Proof.
  revert items q w; induction fuel as [|fuel IH]; intros items q w Hw Hcl Hsize Hf; [lia|]. cbn [loopSend_loop].
  destruct q as [cap its cl]; cbn [q_closed q_items q_cap] in *. subst cl.
  destruct its as [|x its].
  - apply wpe_bind. eapply (wpe_panic _ _ _ (broken h p base (items ++ []) (mkFifo cap [] true) size)).
    { intros w1 Hw1. by eexists. }
    eapply wpe_mono; [by apply (loopSend_turn_run h p base items (mkFifo cap [] true) size)|]. cbn beta.
    intros go w1 [-> Hw1]. by apply wp_wpe, wp_ret.
  - set (its' := x :: its) in *. set (l := take size its'). set (q' := mkFifo cap (drop size its') true).
    assert (items ++ its' = (items ++ l) ++ drop size its') as E by (rewrite <- app_assoc; unfold l; by rewrite take_drop).
    apply wpe_bind. eapply (wpe_panic _ _ _ (broken h p base (items ++ l) q' size)).
    { intros w1 Hw1. exists q'. rewrite E. by eapply broken_more. }
    eapply wpe_mono; [by apply (loopSend_turn_run h p base items (mkFifo cap its' true) size w l q')|]. cbn beta.
    intros go w1 [-> Hw1]. assert (negb (isNil l) = true) as -> by (unfold l, its'; destruct size; [lia|done]).
    rewrite E. apply (IH (items ++ l) q'); [done|done|done|].
    unfold q'. cbn [q_items]. rewrite length_drop. unfold its' in *. cbn [length] in *. lia.
Qed.

Lemma run_recover_total (m : prog unit) w :
  match run m w with
  | Done _ w' ts => run (recover m) w = Done tt w' ts
  | Panicked w' => exists ts, run (recover m) w = Saved tt w' ts
  | _ => True
  end.
Proof.
  revert m w; fix IH 1; intros [[]| | |B f k|t k|k] w; cbn.
  - done.
  - by exists [].
  - done.
  - destruct (f w) as [b w1| |]; [apply IH|done|by exists []].
  - pose proof (IH k w) as Hk. clear IH. destruct (run k w) as [[] w1 ts| | | |]; [by rewrite Hk|done| |done|done].
    destruct Hk as [ts Hk]. exists (t :: ts). by rewrite Hk.
  - pose proof (IH k w) as Hk. clear IH. destruct (run k w) as [[] w1 ts| | | |]; [done|done| |done|done].
    destruct Hk as [ts Hk]. exists ts. by rewrite Hk.
Qed.

(** The goroutine ends, even if it may have recovered from a panic before. *)
Definition ends {A} (m : prog A) (w : world) (P : world -> Prop) : Prop :=
  match run m w with Done _ w' _ | Saved _ w' _ => P w' | _ => False end.

Lemma wpe_recover (m : prog unit) w (P : world -> Prop) :
  wpe m w (fun _ => P) P -> ends (recover m) w P.
Proof.
  unfold wpe, ends. pose proof (run_recover_total m w) as Hr.
  destruct (run m w) as [a w' ts| |w'| |]; [by rewrite Hr|done| |done|done].
  destruct Hr as [ts ->]. done.
Qed.

End WorkerSend.
