(* ===== verification/OwnerTraffic.v ===== *)
(** The event loop of a connection under the discipline of [Owner], the opening handshake
    and the bytes of an upgraded connection, and the loop on the bytes of a business
    connection for events. A token stands
    for the bytes: nobody else moves them, so the frames and packets that are read are those
    that arrived, whatever is done to the connection meanwhile. *)

From S2P Require Export Workers Handshake OwnerEvents Traffic.

(** ** Decoding keeps the flags *)

Section Keeps.
Context `{Deflate}.

Definition keeps_flags (c c' : codec) : Prop := closed c' = closed c /\ flags c' = flags c.

Definition codec_of (r : round) : codec := match r with Leave _ c _ => c | Again c _ => c end.

Lemma keeps_flags_trans c1 c2 c3 : keeps_flags c1 c2 -> keeps_flags c2 c3 -> keeps_flags c1 c3.
Proof. unfold keeps_flags. intuition congruence. Qed.

Lemma check_following_flags c op rsv c' : check_following c op rsv = inl c' -> keeps_flags c c'.
Proof. unfold check_following. intros Hc. repeat case_match; simplify_eq; done. Qed.

Lemma check_first_flags c op rsv c' e : check_first c op rsv = (c', e) -> keeps_flags c c'.
Proof. unfold check_first. intros Hc. repeat case_match; simplify_eq; done. Qed.

Lemma decode_round_flags c g : keeps_flags c (codec_of (decode_round c g)).
Proof.
  unfold decode_round. cbv zeta. destruct (peek_err g) as [[]|]; [done..|].
  repeat match goal with
  | |- context [check_following c ?op ?rsv] => destruct (check_following c op rsv) as [c1|e] eqn:?; [|done]
  | H : check_following c ?op ?rsv = inl ?c1 |- context [check_first ?c1 ?op' ?rsv'] =>
      apply check_following_flags in H; apply (keeps_flags_trans _ c1); [exact H|]; clear H;
      destruct (check_first c1 op' rsv') as [c2 []] eqn:?; [eapply check_first_flags; eassumption|]
  | H : check_first _ _ _ = (?c2, None) |- _ =>
      apply check_first_flags in H; apply (keeps_flags_trans _ c2); [exact H|]; clear H
  | |- context [if ?b then Leave _ _ _ else _] => destruct b; [first [done|eapply check_following_flags; eassumption]|]
  | |- _ => case_match
  end; first [done|eapply check_following_flags; eassumption].
Qed.

Lemma decode_fuel_flags n c g r c' g' : decode_fuel n c g = Some (r, c', g') -> keeps_flags c c'.
Proof.
  revert c g; induction n as [|n IH]; intros c g Hd; [done|]. cbn [decode_fuel] in Hd.
  pose proof (decode_round_flags c g) as Hk. destruct (decode_round c g) as [r1 c1 g1|c1 g1]; cbn in Hk.
  - by simplify_eq.
  - eapply keeps_flags_trans; [exact Hk|]. by eapply IH.
Qed.
End Keeps.

(** ** Giving the bytes up *)

Section Release.
Context {MO : MapOrder} {SV : Serving}.

Definition is_reader (t : token) : Prop := match t with TLoop _ | TReader _ => True | _ => False end.

Lemma release w (G : gset token) t (h' : gset token) :
  is_reader t -> t ∈ G -> h' ⊆ {[t]} -> Owner.good w G ->
  Owner.good w (G ∖ {[t]} ∪ h') /\ forall ho, rely ho (w, G) (w, G ∖ {[t]} ∪ h').
Proof.
  intros Ht Hin Hh' Hi. set (G' := G ∖ {[t]} ∪ h').
  assert (forall x, match x with TTask _ => True | TLoop _ | TReader _ => x ∈ G' -> x ∈ G | _ => x ∈ G' <-> x ∈ G end) as HG.
  { intros []; try done; unfold G'; destruct t; try done; set_solver. }
  assert (forall q, alive G' q <-> alive G q) as Hal.
  { intros q. pose proof (HG (TOnline q)) as E1. pose proof (HG (TLeaving q)) as E2. unfold alive. cbn in E1, E2. tauto. }
  split; [by apply (good_tasks _ G)|]. intros ho.
  split; cbn; [apply grows_refl|by intros; simplify_eq|by intros; simplify_eq| |done|apply Hal|by intros; simplify_eq|by intros; simplify_eq].
  intros q c _ Ha _. split; [by apply Hal|done].
Qed.
End Release.

Section OwnerTraffic.
Context {MO : MapOrder} `{Deflate} `{Proto} `{Http} {SV : Serving}.
Abbreviation cf := sv_config.
Abbreviation any := (fun _ _ => True).
Abbreviation seen := (world * gset token)%type.
Context (p : ptr).
Abbreviation own := ({[TLoop p]} : gset token).

Lemma lock_free_loop : lock_free own.
Proof. intros t Ht. apply elem_of_singleton in Ht as ->. by intros []. Qed.

(** The connection is there, with the buffer [g] and the handshake done or not. *)
Definition owns (g : gnetConn) (u : bool) (s : seen) : Prop := exists c, heap s.1 !! p = Some c /\ own_view c = (g, u).

Definition buffer (g : gnetConn) : seen -> Prop := owns g true.

Lemma owns_rely g u s s' : rely own s s' -> owns g u s -> owns g u s'.
Proof.
  intros Hr (c & Hp & Hc). destruct (gw_heap _ _ (rl_grows _ _ _ Hr) p c Hp) as (c' & Hp' & _).
  exists c'. split; [done|]. rewrite <- Hc. eapply (rl_buffer _ _ _ Hr); [|done|done]. by apply elem_of_singleton.
Qed.

Lemma owns_valid g u s : owns g u s -> valid p s.
Proof. intros (c & Hp & _). by exists c. Qed.

Lemma buffer_valid g s : buffer g s -> valid p s.
Proof. apply owns_valid. Qed.

(** What the loop does besides leaves what it owns alone. *)
Lemma safe_beside_loop {A B} g u s (m : prog A) (k : A -> prog B) (Q : B -> gset token -> seen -> Prop) :
  owns g u s -> calm own s m any -> (forall a s', owns g u s' -> safe (k a) own s' Q) -> safe (bind m k) own s Q.
Proof.
  intros Hb Hm Hk. eapply safe_calm_bind; [exact Hm|]. intros a s' Hr _. apply Hk. by eapply owns_rely.
Qed.

Definition safe_calm_loop {A B} g := @safe_beside_loop A B g true.

(** It reads what it owns. *)
Lemma safe_loop_get {A B} g u s (f : Conn -> A) (k : A -> prog B) (Q : B -> gset token -> seen -> Prop) :
  owns g u s -> (forall c s', own_view c = (g, u) -> owns g u s' -> safe (k (f c)) own s' Q) ->
  safe (bind (conn_get p f) k) own s Q.
Proof.
  intros Hb Hk. eapply (safe_calm_bind _ _ _ _ (fun a _ => exists c, own_view c = (g, u) /\ f c = a)).
  { apply calm_conn_get; [by eapply owns_valid|]. intros w G c Hr _ _ Hp. exists c. split; [|done].
    destruct (owns_rely _ _ _ _ Hr Hb) as (c' & Hp' & E). cbn in Hp'. by simplify_eq. }
  intros a s' Hr (c & Hc & <-). apply Hk; [done|]. by eapply owns_rely.
Qed.

(** It changes what it owns: the action [f] on a connection with this view. *)
Lemma safe_loop_act {A} g u s (f : world -> ares world A) (Q : A -> gset token -> seen -> Prop) :
  owns g u s ->
  (forall w c, heap w !! p = Some c -> own_view c = (g, u) -> exists a c',
     f w = AOk a (with_heap (insert p c') w) /\ same_conn c c' /\ c_info c' = c_info c /\
     forall s', owns (own_view c').1 (own_view c').2 s' -> Q a own s') ->
  safe (Act f Ret) own s Q.
Proof.
  intros Hb Hf w G Hr Hi Hh. destruct (owns_rely _ _ _ _ Hr Hb) as (c & Hp & Hc). cbn in Hp.
  destruct (Hf w c Hp Hc) as (a & c' & -> & Hs & Einf & HQ). exists own.
  assert (TLoop p ∈ G) as Hin by (by apply Hh, elem_of_singleton). unfold keeps. rewrite own_back by done.
  split; [split_and!|].
  - set_solver.
  - eapply good_conn; [done|done|done|done| |done|].
    + rewrite (gd_lock _ _ Hi). rewrite Einf. naive_solver.
    + intros _. apply linked_same; [done|]. by rewrite Einf.
  - intros ho Hho. eapply rely_conn; [done|done| | |done|].
    + intros _. by rewrite Einf.
    + intros _. by rewrite Einf.
    + intros Ht. exfalso. set_solver.
  - cbn [safe]. apply HQ. exists c'. cbn. rewrite lookup_insert_eq. split; [done|apply surjective_pairing].
Qed.

Lemma calm_WriteServerMessage h s op d : valid p s -> calm h s (WriteServerMessage p op d) any.
Proof.
  intros Hv. unfold WriteServerMessage. eapply (calm_bind _ _ _ _ any); [by apply calm_conn_see|].
  intros failed s' _ _. destruct failed; [apply calm_done|]. destruct (WriteFrame _); [|apply calm_done].
  eapply (calm_bind _ _ _ _ any); [apply calm_emit|]. intros. apply calm_done.
Qed.

Lemma calm_mark h s : valid p s -> calm h s (mark_closed_flag p) any.
Proof. intros Hv. eapply calm_mono; [by apply calm_mark_closed_flag|done]. Qed.

(** The frames are taken off the buffer, by its owner. *)
Lemma safe_decode_conn g s (Q : decoded -> gset token -> seen -> Prop) :
  buffer g s -> wf_inbound g ->
  (forall d k k' g' s', decode k g = Some (d, k', g') -> buffer g' s' -> Q d own s') ->
  safe (decode_conn p) own s Q.
Proof.
  intros Hb Hwf HQ. eapply safe_loop_act; [exact Hb|]. intros w c Hp [= Hc Hu]. rewrite Hp, Hc.
  destruct (decode_is_Some (c_codec c) g Hwf) as [[[d k] g'] Hd]. rewrite Hd.
  destruct (decode_fuel_flags _ _ _ _ _ _ Hd) as [Ek Ef].
  assert (isUpgraded k = true) as Hk by (unfold isUpgraded in *; by rewrite Ef).
  eexists d, (upd_codec (fun _ => k) (upd_gnet (fun _ => g') c)). split_and!; [done| |done|].
  - unfold same_conn, closed_conn, IsClosedOnSafe, flagged. cbn. rewrite ?Ek. tauto.
  - intros s' Hs'. eapply HQ; [exact Hd|]. unfold own_view in Hs'. cbn in Hs'. by rewrite Hk in Hs'.
Qed.

(** After a message. *)
Lemma safe_next_message g s (Q : option action -> gset token -> seen -> Prop) :
  buffer g s -> (forall r s', buffer g s' -> Q r own s') -> safe (next_message p) own s Q.
Proof.
  intros Hb HQ. unfold next_message. eapply safe_calm_loop; [exact Hb| |].
  - unfold reset_message. apply calm_conn_act; [by eapply buffer_valid|]. intros c. unfold same_conn, own_view, flagged, closed_conn, IsClosedOnSafe, isUpgraded, resetCurrMessage.
    cbn. by destruct (preMessageOpCode (c_codec c) =? 255).
  - intros _ s' Hb'. eapply safe_calm_loop; [exact Hb'|apply calm_conn_see; by eapply buffer_valid|].
    intros n s2 Hb2. cbn [safe]. by apply HQ.
Qed.

Lemma calm_message s op d : valid p s -> calm own s (OnWebsocketMessage cf p op d) any.
Proof. intros Hv. apply calm_frame; [apply lock_free_loop|by apply calm_OnWebsocketMessage]. Qed.

Lemma calm_ping s : valid p s -> calm own s (OnWebsocketPing p) any.
Proof. intros Hv. apply calm_frame; [apply lock_free_loop|by apply calm_OnWebsocketPing]. Qed.

(** One turn: a turn that goes on leaves fewer bytes. *)
Lemma safe_traffic_turn g s (Q : option action -> gset token -> seen -> Prop) :
  buffer g s -> wf_inbound g -> ~ holds_overflow (inbound g) ->
  (forall r g' s', buffer g' s' -> wf_inbound g' -> ~ holds_overflow (inbound g') ->
     (r = None -> (length (inbound g') < length (inbound g))%nat) -> Q r own s') ->
  safe (traffic_turn cf p) own s Q.
Proof.
  intros Hb Hwf Hno HQ. unfold traffic_turn. apply safe_bind. eapply safe_decode_conn; [exact Hb|exact Hwf|].
  intros d k k' g' s' Hd Hb'.
  assert (exists x, inbound g = x ++ inbound g') as [x Hx] by (by eapply decode_fuel_suffix).
  assert (wf_inbound g') as Hwf'.
  { destruct Hwf as [Hw Hl]. rewrite Hx in Hw, Hl. apply Forall_app in Hw as [_ Hw]. split; [done|].
    rewrite len_app in Hl. pose proof (len_nonneg x). lia. }
  assert (~ holds_overflow (inbound g')) as Hno' by (rewrite Hx in Hno; intros Hy; by apply Hno, holds_overflow_app).
  destruct d as [m|status e|]; [| |by destruct Hno; eapply decode_fuel_panic].
  - destruct (decode_fuel_takes _ _ _ _ _ _ Hwf Hd) as [_ Hlt].
    assert (forall r s2, buffer g' s2 -> Q r own s2) as Hgo by (intros r s2 Hb2; by eapply HQ).
    eapply safe_calm_loop; [exact Hb'|by apply calm_conn_see, (buffer_valid g')|]. intros op s2 Hb2.
    destruct (IsData op).
    { eapply safe_calm_loop; [exact Hb2|by apply calm_message, (buffer_valid g')|]. intros [] s3 Hb3. by eapply safe_next_message. }
    destruct (op =? OpClose).
    { eapply safe_calm_loop; [exact Hb2|by apply calm_mark, (buffer_valid g')|]. intros first s3 Hb3.
      eapply safe_calm_loop; [exact Hb3| |intros [] s4 Hb4; by apply Hgo]. destruct first; [|apply calm_done].
      eapply (calm_bind _ _ _ _ any); [by apply calm_WriteServerMessage, (buffer_valid g')|]. intros. apply calm_done. }
    destruct (op =? OpPing).
    { eapply safe_calm_loop; [exact Hb2|by apply calm_WriteServerMessage, (buffer_valid g')|]. intros failed s3 Hb3.
      destruct failed; [by apply Hgo|].
      eapply safe_calm_loop; [exact Hb3|by apply calm_ping, (buffer_valid g')|]. intros [] s4 Hb4. by eapply safe_next_message. }
    destruct (op =? OpPong); [by eapply safe_next_message|].
    destruct (IsReserved op); [|by eapply safe_next_message].
    eapply safe_calm_loop; [exact Hb2|by apply calm_mark, (buffer_valid g')|]. intros first s3 Hb3.
    eapply safe_calm_loop; [exact Hb3|by apply calm_WriteServerMessage, (buffer_valid g')|]. intros failed s4 Hb4. by apply Hgo.
  - assert (forall a s2, buffer g' s2 -> Q (Some a) own s2) as Hend by (intros a s2 Hb2; by eapply HQ).
    destruct (negb (status =? 0)); [|case_bool_decide; by apply Hend].
    eapply safe_calm_loop; [exact Hb'|by apply calm_mark, (buffer_valid g')|]. intros first s3 Hb3.
    eapply safe_calm_loop; [exact Hb3|by apply calm_WriteServerMessage, (buffer_valid g')|]. intros failed s4 Hb4. by apply Hend.
Qed.

(** The fuel is enough, whatever the others do. *)
Lemma safe_traffic_loop fuel g s :
  buffer g s -> wf_inbound g -> ~ holds_overflow (inbound g) -> (length (inbound g) < fuel)%nat ->
  safe (traffic_loop cf fuel p) own s (fun _ h' _ => h' = own).
Proof.
  revert g s; induction fuel as [|fuel IH]; intros g s Hb Hwf Hno Hf; [lia|]. cbn [traffic_loop].
  apply safe_bind. eapply safe_traffic_turn; [exact Hb|exact Hwf|exact Hno|]. intros r g' s' Hb' Hwf' Hno' Hlt.
  destruct r as [a|]; [done|]. eapply IH; [done|done|done|]. specialize (Hlt eq_refl). lia.
Qed.

(** ** The handshake *)

Lemma calm_write_response s resp : valid p s -> calm own s (write_response p resp) any.
Proof.
  intros Hv. unfold write_response. eapply (calm_bind _ _ _ _ any); [by apply calm_conn_see|]. intros failed s' _ _.
  destruct failed; [apply calm_done|]. eapply (calm_bind _ _ _ _ any); [apply calm_emit|]. intros. apply calm_done.
Qed.

(** The handshake is done exactly if there is a request. *)
Definition answers (r : option request * action) (s : seen) : Prop :=
  match r.1 with Some _ => exists g, owns g true s | None => exists g, owns g false s end.

Abbreviation handshakes m := (forall g s, owns g false s -> safe m own s (fun r h' s' => h' = own /\ answers r s')).

Lemma safe_response resp act : handshakes (_failed <- write_response p resp ;; Ret (None, act)).
Proof.
  intros g s Hb. eapply safe_beside_loop; [exact Hb|by eapply calm_write_response, owns_valid|].
  intros failed s' Hb'. cbn [safe]. split; [done|]. by exists g.
Qed.

Lemma safe_accept req : handshakes (accept p req).
Proof.
  intros g s Hb. unfold accept. cbv zeta. destruct (is_empty _); [by apply (safe_response _ _ g)|].
  eapply safe_beside_loop; [exact Hb|by eapply calm_conn_see, owns_valid|]. intros compression s1 Hb1.
  assert (forall s', owns g false s' -> safe (Ret (None, ActClose)) own s' (fun r h' s' => h' = own /\ answers r s')) as Hstop
    by (intros s' Hs'; split; [done|by exists g]).
  apply safe_bind. eapply safe_loop_act; [exact Hb1|]. intros w c Hp Hc. rewrite Hp. injection Hc as Hg Hu.
  destruct (discard_err (c_gnet c)).
  { exists true, c. split_and!; [done|apply same_conn_refl|done|]. intros s' Hs'. apply Hstop. unfold own_view in Hs'. cbn in Hs'. by rewrite Hg, Hu in Hs'. }
  eexists false, _. split_and!; [done|done|done|]. intros s2 Hb2. unfold own_view in Hb2. cbn in Hb2. rewrite Hu in Hb2. clear Hstop.
  eapply safe_beside_loop; [exact Hb2|by eapply calm_write_response, owns_valid|]. intros failed s3 Hb3.
  destruct failed; [split; [done|by eexists]|].
  apply safe_bind. eapply safe_loop_act; [exact Hb3|]. intros w2 c2 Hp2 Hc2. rewrite Hp2.
  eexists tt, _. split_and!; [done| |done|].
  - unfold same_conn, closed_conn, IsClosedOnSafe, flagged. cbn. split_and!; try done. intros _. apply isUpgraded_setUpgraded.
  - intros s4 Hb4. cbn [safe]. split; [done|]. exists (own_view c2).1. unfold own_view in Hb4. cbn in Hb4. by rewrite isUpgraded_setUpgraded in Hb4.
Qed.

Lemma safe_upgrade : handshakes (upgrade cf p).
Proof.
  intros g s Hb. unfold upgrade. eapply safe_beside_loop; [exact Hb|by eapply calm_conn_see, owns_valid|]. intros peek s1 Hb1.
  assert (forall a, safe (Ret (None, a)) own s1 (fun r h' s' => h' = own /\ answers r s')) as Hstop by (intros a; split; [done|by exists g]).
  destruct peek as [l|]; [|apply Hstop]. cbv zeta. destruct (_ || _); [apply Hstop|].
  destruct (ReadRequest l) as [req|]; [|by apply (safe_response _ _ g)]. unfold refuse.
  repeat match goal with
  | |- safe (if ?b then (bind (write_response _ _) _) else _) _ _ _ => destruct b; [by apply (safe_response _ _ g)|]
  | |- safe (match OnUpgradeCheck _ _ with _ => _ end) _ _ _ => destruct (OnUpgradeCheck cf req); [by apply (safe_response _ _ g)|]
  end.
  destruct (is_empty _); [by apply (safe_accept req g)|].
  destruct (ParseOptions _) as [options|]; [|by apply (safe_response _ _ g)].
  eapply safe_beside_loop; [exact Hb1| |intros [] s2 Hb2; by apply (safe_accept req g)].
  case_bool_decide; [|apply calm_done]. apply calm_conn_act; [by eapply owns_valid|]. intros c.
  pose proof (isUpgraded_setCompression (c_codec c)) as E.
  unfold same_conn, own_view, flagged, closed_conn, IsClosedOnSafe. cbn. rewrite E. by split_and!.
Qed.

Lemma calm_OnWebsocketOpen s req : valid p s -> p ∉ tracked -> calm own s (OnWebsocketOpen cf p req) any.
Proof.
  intros Hv Hnt. unfold OnWebsocketOpen.
  eapply (calm_bind _ _ _ _ any); [apply calm_read|]. intros quit s1 Hr1 _. apply (valid_rely _ _ _ _ Hr1) in Hv.
  destruct quit; [apply calm_done|].
  eapply (calm_bind _ _ _ _ any); [apply calm_read|]. intros n s2 Hr2 _. apply (valid_rely _ _ _ _ Hr2) in Hv.
  destruct (_ <? n); [apply calm_done|].
  eapply (calm_bind _ _ _ _ any); [apply calm_Limit_Allow|]. intros allow s3 Hr3 _. apply (valid_rely _ _ _ _ Hr3) in Hv.
  destruct (negb allow); [eapply (calm_bind _ _ _ _ any); [apply calm_Mark|intros; apply calm_done]|].
  eapply (calm_bind _ _ _ _ any); [|intros; apply calm_done]. unfold Submit.
  eapply (calm_bind _ _ _ _ any); [apply calm_ask|]. intros [e|] s4 Hr4 _; [apply calm_done|]. apply (valid_rely _ _ _ _ Hr4) in Hv.
  eapply (calm_bind _ _ _ _ any); [by apply calm_go, calm_open_task|]. intros. apply calm_done.
Qed.

(** The first event of a connection, and all that follow. *)
Lemma safe_OnTraffic s c :
  heap s.1 !! p = Some c ->
  (isUpgraded (c_codec c) = true -> wf_inbound (c_gnet c) /\ ~ holds_overflow (inbound (c_gnet c))) ->
  (isUpgraded (c_codec c) = false -> p ∉ tracked) ->
  safe (OnTraffic cf p) own s (fun _ h' _ => h' = own).
Proof.
  intros Hp Hok Hnt. unfold OnTraffic. assert (owns (c_gnet c) (isUpgraded (c_codec c)) s) as Hb by (by exists c).
  eapply safe_loop_get; [exact Hb|]. intros c1 s1 [= E1 E2] Hb1. rewrite E2. destruct (isUpgraded (c_codec c)); cbn [negb].
  - destruct (Hok eq_refl) as [Hwf Hno]. eapply safe_loop_get; [exact Hb1|]. intros c2 s2 [= F1 F2] Hb2.
    eapply safe_traffic_loop; [exact Hb2|done|done|rewrite F1; lia].
  - specialize (Hnt eq_refl). apply safe_bind. eapply safe_mono; [eapply safe_upgrade; exact Hb1|].
    intros r h' s2 [-> Hr]. unfold answers in Hr. destruct r as [[req|] a]; cbn [fst snd] in *; destruct Hr as [g Hg].
    2: { eapply safe_loop_get; [exact Hg|]. intros c3 s3 [= _ ->] _. done. }
    eapply safe_loop_get; [exact Hg|]. intros c3 s3 [= _ ->] Hg3.
    eapply safe_beside_loop; [exact Hg3|by apply calm_OnWebsocketOpen; [eapply owns_valid|]|]. intros refused s4 Hg4.
    destruct refused as [[statusCode err]|]; [|done].
    eapply safe_beside_loop; [exact Hg4|by eapply calm_mark, owns_valid|]. intros first s5 Hg5.
    eapply safe_beside_loop; [exact Hg5|by eapply calm_WriteServerMessage, owns_valid|]. done.
Qed.

(** The goroutine goes back to the library and gives the buffer up. *)
Lemma safe_give_up s (Q : unit -> gset token -> seen -> Prop) :
  (forall s', Q tt ∅ s') -> safe (gets (fun _ => tt)) own s Q.
Proof.
  intros HQ w G Hr Hi Hh. exists ∅. assert (TLoop p ∈ G) as Hin by set_solver.
  destruct (release w G (TLoop p) ∅ I Hin) as [Hi' Hr']; [set_solver|exact Hi|].
  split; [split_and!; [set_solver|exact Hi'|intros ho _; apply Hr']|by apply HQ].
Qed.
End OwnerTraffic.

(** ** The business connections for events *)

Section OwnerReader.
Context {MO : MapOrder} `{Deflate} `{Proto} {SV : Serving}.
Abbreviation cf := sv_config.
Abbreviation any := (fun _ _ => True).
Abbreviation seen := (world * gset token)%type.
(** There is a server for them. *)
Context (Hserver : is_empty (cf_WorkerListenAddress cf) = false) (p : ptr).
Abbreviation own := ({[TReader p]} : gset token).

Lemma calm_lists {A} h s v (f : world -> collect -> A * collect) :
  is_event v -> (forall w G k, rely h s (w, G) -> listed k w -> listed (f w k).2 w) -> calm h s (collect_act v f) any.
Proof.
  intros Hv Hf. apply calm_act. intros w G Hr Hi Hh. destruct (gd_workers _ _ Hi Hserver v Hv) as (k & Hk & _). rewrite Hk.
  assert (aside w (with_collects (insert v (f w k).2) w)) as Ha by (by eapply aside_lists, Hf).
  split_and!; [by eapply aside_good| |done]. intros ho _. by apply aside_rely.
Qed.

Lemma calm_Collect_Set h s v : is_event v -> worker_valid p s -> calm h s (Collect_Set v p) any.
Proof.
  intros Hv Hp. apply calm_lists; [done|]. intros w G k Hr Hl. cbn. case_bool_decide; [done|].
  apply Forall_app. split; [exact Hl|]. apply Forall_singleton. apply (worker_valid_rely _ _ _ _ Hr Hp).
Qed.

Lemma remove_conn_Forall (P : ptr -> Prop) ws c l l' : remove_conn ws c l = Some l' -> Forall P l -> Forall P l'.
Proof.
  revert l'; induction l as [|q l IH]; intros l' Hl' Hl; [done|]. cbn in Hl'. apply Forall_cons in Hl as [Hq Hl].
  case_bool_decide; [by simplify_eq|]. apply fmap_Some in Hl' as (l1 & Hl1 & ->). constructor; auto.
Qed.

Lemma calm_Collect_Del h s v c : is_event v -> calm h s (Collect_Del v c) any.
Proof.
  intros Hv. unfold Collect_Del. destruct (is_empty c); [apply calm_done|]. apply calm_lists; [done|].
  intros w G k Hr Hl. destruct (remove_conn _ _ _) as [l|] eqn:E; [|done]. by eapply remove_conn_Forall.
Qed.

Lemma calm_WManager_Del h s c : calm h s (WManager_Del c) any.
Proof.
  unfold WManager_Del. apply calm_fold. intros ret v s' Hv Hr. apply elem_of_event_list in Hv.
  eapply (calm_bind _ _ _ _ any); [by apply calm_Collect_Del|]. intros. apply calm_done.
Qed.

Lemma calm_WManager_Set h s : worker_valid p s -> calm h s (WManager_Set p) any.
Proof.
  intros Hp. unfold WManager_Set. eapply (calm_bind _ _ _ _ any); [by apply calm_worker_act|]. intros ev s1 Hr1 _.
  apply calm_each. intros v s2 Hv Hr2. apply elem_of_event_list in Hv. destruct (has_event ev v); [|apply calm_done].
  apply calm_Collect_Set; [done|]. by eapply worker_valid_rely, worker_valid_rely.
Qed.

Lemma calm_Worker_Close h s : worker_valid p s -> calm h s (Worker_Close p) any.
Proof.
  intros Hp. unfold Worker_Close.
  eapply (calm_bind _ _ _ _ any); [apply calm_worker_act; [done|]; intros c; by destruct (closeLock c =? 0)|].
  intros first s1 Hr1 _. apply (worker_valid_rely _ _ _ _ Hr1) in Hp. destruct (negb first); [apply calm_done|].
  eapply (calm_bind _ _ _ _ any); [by apply calm_worker_act|]. intros c s2 Hr2 _. apply (worker_valid_rely _ _ _ _ Hr2) in Hp.
  eapply (calm_bind _ _ _ _ any); [by apply calm_WManager_Del|]. intros _ok s3 Hr3 _. apply (worker_valid_rely _ _ _ _ Hr3) in Hp.
  eapply (calm_bind _ _ _ _ any); [by apply calm_worker_act|]. intros [] s4 Hr4 _. apply (worker_valid_rely _ _ _ _ Hr4) in Hp.
  apply calm_spawn; [by apply calm_worker_act|done].
Qed.

Lemma calm_removeMetricsNoise h s m : calm h s (removeMetricsNoise m) any.
Proof. unfold removeMetricsNoise. eapply (calm_bind _ _ _ _ any); [apply calm_Mark|]. intros. apply calm_Mark. Qed.

Lemma calm_register_reply h s c i : worker_valid p s -> calm h s (register_reply p c i) any.
Proof.
  intros Hp. unfold register_reply. cbv zeta. eapply (calm_bind _ _ _ _ any); [by apply calm_Worker_Send|].
  intros. apply calm_removeMetricsNoise.
Qed.

Lemma calm_unregister h s param : worker_valid p s -> calm h s (unregister param p) any.
Proof.
  intros Hp. unfold unregister. destruct (unmarshal_UnRegisterReq param) as [u|]; [|apply calm_done].
  eapply (calm_bind _ _ _ _ any); [apply calm_WManager_Del|]. intros _ok s1 Hr1 _. apply (worker_valid_rely _ _ _ _ Hr1) in Hp.
  eapply (calm_bind _ _ _ _ any); [by apply calm_Worker_Send|]. intros. apply calm_removeMetricsNoise.
Qed.

Lemma calm_register h s param : worker_valid p s -> calm h s (register param p) any.
Proof.
  intros Hp. unfold register. destruct (unmarshal_RegisterReq param) as [u|]; [|by apply calm_register_reply].
  destruct (negb _); [by apply calm_register_reply|].
  eapply (calm_bind _ _ _ _ any); [by apply calm_worker_act|]. intros ev s1 Hr1 _. apply (worker_valid_rely _ _ _ _ Hr1) in Hp.
  destruct (0 <? ev); [by apply calm_register_reply|].
  eapply (calm_bind _ _ _ _ any); [by apply calm_worker_act|]. intros [] s2 Hr2 _. apply (worker_valid_rely _ _ _ _ Hr2) in Hp.
  eapply (calm_bind _ _ _ _ any); [by apply calm_worker_act|]. intros c s3 Hr3 _. apply (worker_valid_rely _ _ _ _ Hr3) in Hp.
  eapply (calm_bind _ _ _ _ any); [by apply calm_register_reply|]. intros [] s4 Hr4 _. apply (worker_valid_rely _ _ _ _ Hr4) in Hp.
  by apply calm_WManager_Set.
Qed.

(** *** What has been sent, and its reader *)

Definition input (l : bytes) (s : seen) : Prop := exists c, workers s.1 !! p = Some c /\ n_in (w_net c) = l.

Lemma input_valid l s : input l s -> worker_valid p s.
Proof. intros (c & Hc & _). by exists c. Qed.

Lemma input_rely l s s' : rely own s s' -> input l s -> input l s'.
Proof.
  intros Hr (c & Hc & Hl). destruct (gw_workers _ _ (rl_grows _ _ _ Hr) p) as [c' Hc']; [by exists c|].
  exists c'. split; [done|]. rewrite <- Hl. apply (rl_input _ _ _ Hr p); [by apply elem_of_singleton|done|done].
Qed.

Lemma safe_beside {A B} l s (m : prog A) (k : A -> prog B) (Q : B -> gset token -> seen -> Prop) :
  input l s -> calm own s m any -> (forall a s', input l s' -> safe (k a) own s' Q) -> safe (bind m k) own s Q.
Proof.
  intros Hl Hm Hk. eapply safe_calm_bind; [exact Hm|]. intros a s' Hr _. apply Hk. by eapply input_rely.
Qed.

(** An action of the reader; with its last one it may give the bytes up. *)
Lemma safe_worker_net_to {A} l s h' (f : netConn -> A * netConn) (Q : A -> gset token -> seen -> Prop) :
  input l s -> h' ⊆ own -> (forall n s', n_in n = l -> input (n_in (f n).2) s' -> Q (f n).1 h' s') ->
  safe (worker_net p f) own s Q.
Proof.
  intros Hl Hh' HQ w G Hr Hi Hh. destruct (input_rely _ _ _ Hr Hl) as (c & Hp & Hc). cbn in Hp. rewrite Hp. exists h'.
  assert (TReader p ∈ G) as Hin by set_solver. set (c' := set_net (f (w_net c)).2 c).
  destruct (worker_step w G p c' Hi) as [Hi1 Hr1].
  destruct (release (with_workers (insert p c') w) G (TReader p) h' I Hin Hh' Hi1) as [Hi2 Hr2].
  split; [split_and!|].
  - set_solver.
  - exact Hi2.
  - intros ho Hho. eapply rely_trans; [|apply Hr2]. apply Hr1. intros Ht. exfalso. set_solver.
  - apply (HQ (w_net c)); [done|]. exists c'. cbn. by rewrite lookup_insert_eq.
Qed.

Lemma safe_worker_turn l s (Q : bool -> gset token -> seen -> Prop) :
  input l s ->
  (forall go_on l' s', input l' s' -> (go_on = true -> (length l' < length l)%nat) -> Q go_on own s') ->
  safe (worker_turn cf p) own s Q.
Proof.
  intros Hl HQ. unfold worker_turn.
  assert (forall l' s', input l' s' -> safe (Ret false) own s' Q) as Hstop by (intros l' s' Hl'; by eapply HQ).
  apply safe_bind. eapply (safe_worker_net_to l _ own); [exact Hl|done|]. intros n s1 Hn Hl1. cbn in Hl1. rewrite Hn in Hl1.
  destruct (net_read_deadline n).1; [by eapply Hstop|].
  apply safe_bind. eapply (safe_worker_net_to l _ own); [exact Hl1|done|]. intros n2 s2 Hn2 Hl2.
  unfold net_read in Hl2 |- *. rewrite Hn2 in *. destruct (Z.ltb_spec (len l) 4) as [Hlt|Hge]; cbn [fst snd n_in] in Hl2 |- *; [by eapply Hstop|].
  set (l2 := drop (Z.to_nat 4) l) in *.
  assert (length l2 < length l)%nat as Hless by (unfold l2, len in *; rewrite length_drop; lia).
  destruct (_ <? be _); [by eapply Hstop|].
  apply safe_bind. eapply (safe_worker_net_to l2 _ own); [exact Hl2|done|]. intros n3 s3 Hn3 Hl3.
  rewrite Hn3 in *. destruct (Z.ltb_spec (len l2) (be (take (Z.to_nat 4) l))) as [Hlt3|Hge3]; cbn [fst snd n_in] in Hl3 |- *; [by eapply Hstop|].
  set (l3 := drop _ l2) in *. assert (length l3 <= length l2)%nat as Hle by (unfold l3; rewrite length_drop; lia).
  assert (forall s', input l3 s' -> Q true own s') as Hgo by (intros s' Hs'; eapply HQ; [exact Hs'|lia]).
  case_bool_decide; [by apply Hgo|]. destruct (_ <? 4); [by eapply Hstop|].
  destruct (_ =? Cmd_Register).
  { eapply safe_beside; [exact Hl3| |intros [] s' Hs'; by apply Hgo]. apply calm_recover, calm_register. by eapply input_valid. }
  destruct (_ =? Cmd_Unregister); [|by eapply Hstop].
  eapply safe_beside; [exact Hl3| |intros [] s' Hs'; by apply Hgo]. apply calm_recover, calm_unregister. by eapply input_valid.
Qed.

Lemma safe_worker_loop fuel l s :
  input l s -> (length l < fuel)%nat -> safe (worker_loop cf fuel p) own s (fun _ h' s' => h' = own /\ exists l', input l' s').
Proof.
  revert l s; induction fuel as [|fuel IH]; intros l s Hl Hf; [lia|]. cbn [worker_loop].
  apply safe_bind. eapply safe_worker_turn; [exact Hl|]. intros [] l' s' Hl' Hlt; [|split; [done|by exists l']].
  eapply IH; [exact Hl'|]. specialize (Hlt eq_refl). lia.
Qed.

(** Whatever a business process sends, its connection is read to the end and closed. *)
Lemma safe_worker_process l s : input l s -> safe (worker_process cf p) own s (fun _ h' _ => h' = ∅).
Proof.
  intros Hl. unfold worker_process. apply safe_bind. eapply (safe_worker_net_to l _ own); [exact Hl|done|].
  intros n s1 Hn Hl1. cbn [fst snd] in *. rewrite Hn in *.
  apply safe_bind, safe_recover. eapply safe_mono; [eapply safe_worker_loop; [exact Hl1|lia]|].
  cbv beta. intros _ h' s2 (-> & l' & Hl').
  eapply safe_beside; [exact Hl'|by eapply calm_Worker_Close, input_valid|]. intros [] s3 Hl3.
  eapply (safe_worker_net_to l' _ ∅); [exact Hl3|set_solver|]. intros; done.
Qed.
End OwnerReader.
