(* ===== verification/Demo.v ===== *)
(** A concrete instance for the witnesses: an encoding by table, a gateway with
    two open connections, reached from an empty one by the opening tasks, and a
    third that was not opened. *)

From S2P Require Export Traffic Handshake Workers Lifecycle.

(** ** The libraries *)

#[export] Existing Instance stored_order.
#[export] Existing Instance stored_deflate.

(** An encoding: one byte chooses the request, everything is sent as one byte. *)
#[export] Instance demo_proto : Proto := {|
  marshal := fun _ => Some [7];
  marshal_error := fun _ => "marshal"%string;
  unmarshal_error := fun _ => "unmarshal"%string;
  proto_size := fun _ => 1;
  byteslice_cap := fun n => Z.max 8 n;
  unmarshal_BroadcastBulk := fun _ => Some (mkBroadcastBulk [[1]; []; [2]]);
  unmarshal_CheckOnlineReq := fun _ => Some (mkCheckOnlineReq ["u1"; "u9"; "u2"]);
  unmarshal_ConnInfoReq := fun _ => Some (mkConnInfoReq ["u1"; "u2"] true true true);
  unmarshal_ConnInfoByCustomerIdReq := fun _ => Some (mkConnInfoByCustomerIdReq ["alice"] true true true);
  unmarshal_ConnInfoUpdate := fun _ => Some (mkConnInfoUpdate "u2" "s" "bob" ["chat"] [5]);
  unmarshal_ConnInfoDelete := fun _ => Some (mkConnInfoDelete "u2" true true true []);
  unmarshal_ForceOffline := fun _ => Some (mkForceOffline ["u1"; "u1"; "u2"] [5]);
  unmarshal_ForceOfflineByCustomerId := fun _ => Some (mkForceOfflineByCustomerId ["alice"] []);
  unmarshal_ForceOfflineGuest := fun _ => Some (mkForceOfflineGuest ["u1"; "u2"] 0 []);
  unmarshal_LimitReq := fun _ => Some (mkLimitReq 10 0);
  unmarshal_SingleCastBulk := fun _ => Some (mkSingleCastBulk [mkSingleCastBulkItem ["u1"; "u2"] [[1]]]);
  unmarshal_SingleCastBulkByCustomerId := fun _ =>
    Some (mkSingleCastBulkByCustomerId [mkSingleCastBulkByCustomerIdItem ["alice"] [[1]]]);
  unmarshal_TopicsReq := fun _ _ => Some (mkTopicsReq ["news"]);
  unmarshal_TopicDelete := fun _ => Some (mkTopicDelete ["news"] [5]);
  unmarshal_TopicPublishBulk := fun _ => Some (mkTopicPublishBulk [mkTopicPublishBulkItem ["news"] [[1]; [2]]]);
  unmarshal_TopicSubscribe := fun _ => Some (mkTopicSubscribe "u1" ["news"; "chat"] [5]);
  unmarshal_TopicUnsubscribe := fun _ => Some (mkTopicUnsubscribe "u2" ["news"] []);
  unmarshal_RegisterReq := fun _ => Some (mkRegisterReq 5);
  unmarshal_UnRegisterReq := fun _ => Some (mkUnRegisterReq "w1");
  unmarshal_ConnOpenResp := fun _ => Some (mkConnOpenResp true "s" "alice" ["news"] [5]);
|}%string.

(** ** The state *)

Definition demo_info (i : Z) (u : string) : info := mkInfo false i 10 u EmptyString EmptyString None 0 10.

Definition demo_client (i : Z) (u : string) : Conn :=
  mkConn (mkCodec None newMessagePayload 0 3 255 255 0) (demo_info i u) (demo_conn []) "1.2.3.4:5" false false.

Definition demo_net : netConn := mkNet [] [] false [] [] [].

Definition demo_worker (id : string) : workerConn := mkWorkerConn demo_net (mkFifo 16 [] false) id 0 0 4.

Definition demo_env : environment := mkEnv 50 false 3 [] [] [] 0.

(** Three connections, none open. *)
Definition demo_start : world :=
  mkWorld (list_to_map [(1%nat, demo_client 1 "u1"); (2%nat, demo_client 2 "u2"); (3%nat, demo_client 3 "u3")])
          no_registries [] ∅ (list_to_map [(1, 5)]) demo_env {[9%nat := demo_net]}
          (list_to_map [(4%nat, demo_worker "w1"); (5%nat, demo_worker "w2")])
          (list_to_map [(1, mkCollect [4%nat; 5%nat] 0); (2, mkCollect [] 0); (4, mkCollect [5%nat] 7)]) [].

Definition after {A} (m : prog A) (w : world) : world :=
  match run m w with Done _ w' _ | Saved _ w' _ | Panicked w' | Blocked w' | Spent w' => w' end.

Definition demo_answer : ConnOpenResp := mkConnOpenResp true "s" "alice" ["news"] [5].

Definition demo_one : world :=
  after (open_accepted demo_config 1 (mkConnOpen "u1" "" "" "" "1.2.3.4:5") None) demo_start.
Definition demo_world : world :=
  after (open_accepted demo_config 2 (mkConnOpen "u2" "" "" "" "1.2.3.4:5") (Some demo_answer)) demo_one.

(** ** It is a good state *)

Lemma demo_start_Inv : Inv demo_start.
Proof.
  apply Inv_empty; [done|constructor| | |].
  - intros p c Hp. apply elem_of_list_to_map_2 in Hp. cbn in Hp. rewrite !elem_of_cons in Hp.
    destruct Hp as [[= -> ->]|[[= -> ->]|[[= -> ->]|[]%elem_of_nil]]]; done.
  - intros p c Hp. apply elem_of_list_to_map_2 in Hp. cbn in Hp. rewrite !elem_of_cons in Hp.
    destruct Hp as [[= -> ->]|[[= -> ->]|[[= -> ->]|[]%elem_of_nil]]]; done.
  - intros p q c d Hp Hq Hid. apply elem_of_list_to_map_2 in Hp, Hq. cbn in Hp, Hq. rewrite !elem_of_cons in Hp, Hq.
    destruct Hp as [[= -> ->]|[[= -> ->]|[[= -> ->]|[]%elem_of_nil]]], Hq as [[= -> ->]|[[= -> ->]|[[= -> ->]|[]%elem_of_nil]]]; done.
Qed.

(** Without a listen address there is nothing to ask of the lists. *)
Lemma demo_workers_ok w : workers_ok demo_config w.
Proof. intros E. done. Qed.

Lemma after_Inv {A} (m : prog A) w (Q : A -> world -> Prop) : wp m w Q -> exists a, Q a (after m w).
Proof. intros Hm. destruct (wp_run m w Q Hm) as (a & w' & E & HQ). exists a. unfold after. by rewrite E. Qed.

Lemma demo_one_Inv : Inv demo_one.
Proof.
  unfold demo_one. edestruct (after_Inv (open_accepted demo_config 1 (mkConnOpen "u1" "" "" "" "1.2.3.4:5") None)
    demo_start (fun _ w' => Inv w')) as [_ HQ]; [|exact HQ].
  eapply (open_accepted_run demo_config 1 (demo_client 1 "u1")); [apply demo_start_Inv|apply demo_workers_ok| |done].
  unfold unopened. split_and!; vm_compute; done.
Qed.

Lemma demo_world_Inv : Inv demo_world.
Proof.
  unfold demo_world. edestruct (after_Inv (open_accepted demo_config 2 (mkConnOpen "u2" "" "" "" "1.2.3.4:5") (Some demo_answer))
    demo_one (fun _ w' => Inv w')) as [_ HQ]; [|exact HQ].
  eapply (open_accepted_run demo_config 2 (demo_client 2 "u2")); [apply demo_one_Inv|apply demo_workers_ok| |done].
  unfold unopened. split_and!; vm_compute; done.
Qed.
