(* ===== verification/Views.v ===== *)
(** What the operations mean for the gateway as a whole: who is subscribed to a
    topic and bound to a customer, what each connection is sent, and what opening and
    closing leave. *)

From S2P Require Export Demo.

Section Views.
Context {MO : MapOrder} `{Deflate} `{Proto} (cf : config).

(** A connection that is online. *)
Definition live (w : world) (q : ptr) (c : Conn) : Prop := heap w !! q = Some c /\ is_online (reg w) q c.

Lemma subscribers_iff w t q :
  Inv w -> q ∈ subscribers (reg w) t <-> exists c, live w q c /\ subscribed (c_info c) t = true.
Proof. intros Hw. rewrite (proj2 (subscribers_spec w t Hw)). unfold live. naive_solver. Qed.

Lemma bound_iff w k q :
  Inv w -> q ∈ bound (reg w) k <-> exists c, live w q c /\ customerId (c_info c) = k /\ k <> EmptyString.
Proof. intros Hw. rewrite (proj2 (bound_spec w k Hw)). unfold live. naive_solver. Qed.

(** The connection a command reaches: its target, unless it is closed. *)
Definition reached (w : world) (tgt : option ptr) (q : ptr) : Prop :=
  tgt = Some q /\ exists c, heap w !! q = Some c /\ IsClosedOnSafe (c_codec c) = false.

(** What the target is told. *)
Definition told (w : world) (tgt : option ptr) (d : bytes) : list effect :=
  match tgt with Some p => data_sent cf d (heap w) p | None => [] end.

Lemma closed_not_told d h p c : h !! p = Some c -> IsClosedOnSafe (c_codec c) = true -> data_sent cf d h p = [].
Proof. intros Hp Hc. unfold data_sent, sends. rewrite Hp, Hc. by destruct (isNil d). Qed.

Lemma outcome_effects w w' tgt f d :
  outcome_of cf w w' tgt f d -> effects w' = effects w ++ told w tgt d.
Proof.
  unfold outcome_of, told. destruct tgt as [p|]; [|intros ->; by rewrite app_nil_r].
  intros (c & Hp & Ho). destruct (IsClosedOnSafe (c_codec c)) eqn:E.
  - rewrite (closed_not_told d _ p c) by done. rewrite app_nil_r. apply Ho.
  - apply Ho.
Qed.

Lemma outcome_live w w' tgt f d :
  (forall i, uniqId (f i) = uniqId i) -> outcome_of cf w w' tgt f d ->
  forall q c', live w' q c' <->
    exists c, live w q c /\ ((reached w tgt q /\ c' = upd_info f c) \/ (~ reached w tgt q /\ c' = c)).
Proof.
  intros Hf Ho q c'. unfold live.
  assert (forall c, heap w !! q = Some c -> tgt <> Some q \/ IsClosedOnSafe (c_codec c) = true -> ~ reached w tgt q) as Hnot.
  { intros c Hq Hor [Ht (d' & Hd & Hcl)]. simplify_eq. destruct Hor; congruence. }
  unfold outcome_of in Ho. destruct tgt as [p|].
  2: { subst. split; [|naive_solver]. intros [Hq Hon]. exists c'. split; [done|]. right. split; [|done]. by apply (Hnot c'); [|left]. }
  destruct Ho as (c & Hp & Ho). destruct (IsClosedOnSafe (c_codec c)) eqn:Ecl.
  - destruct Ho as (Eh & Er & _). rewrite Eh, Er. split.
    + intros [Hq Hon]. exists c'. split; [done|]. right. split; [|done]. apply (Hnot c'); [done|].
      destruct (decide (p = q)) as [->|]; [right; congruence|left; congruence].
    + intros (c1 & [Hq Hon] & [[Hr _]|[_ ->]]); [|done]. exfalso. destruct Hr as [[= ->] (d' & Hd & Hcl)]. congruence.
  - destruct Ho as (Eh & Em & _). unfold is_online, m_lookup in *. rewrite Eh, Em.
    destruct (decide (q = p)) as [->|Hne].
    + rewrite lookup_insert_eq. assert (reached w (Some p) p) as Hr by (split; [done|by exists c]). split.
      * intros [[= <-] Hon]. exists c. cbn [c_info upd_info] in Hon. rewrite Hf in Hon. auto.
      * intros (c1 & [Hq Hon] & [[_ ->]|[Hn _]]); [|done]. simplify_eq. cbn [c_info upd_info]. by rewrite Hf.
    + rewrite lookup_insert_ne by done. split.
      * intros [Hq Hon]. exists c'. split; [done|]. right. split; [|done]. apply (Hnot c'); [done|]. left. congruence.
      * intros (c1 & [Hq Hon] & [[[Hr _] _]|[_ ->]]); [congruence|done].
Qed.

(** The registries after a command that turned the info of its target into [f] of it. *)
Lemma outcome_subscribers w w' tgt f d t q :
  Inv w -> Inv w' -> (forall i, uniqId (f i) = uniqId i) -> outcome_of cf w w' tgt f d ->
  q ∈ subscribers (reg w') t <->
    (reached w tgt q /\ exists c, live w q c /\ subscribed (f (c_info c)) t = true) \/
    (~ reached w tgt q /\ q ∈ subscribers (reg w) t).
Proof.
  intros Hw Hw' Hf Ho. rewrite !subscribers_iff by done. setoid_rewrite (outcome_live w w' tgt f d Hf Ho).
  split.
  - intros (c' & (c & Hl & [[Hr ->]|[Hr ->]]) & Hs); [left|right]; eauto.
  - intros [(Hr & c & Hl & Hs)|(Hr & c & Hl & Hs)]; [exists (upd_info f c)|exists c]; naive_solver.
Qed.

Lemma outcome_bound w w' tgt f d k q :
  Inv w -> Inv w' -> (forall i, uniqId (f i) = uniqId i) -> outcome_of cf w w' tgt f d ->
  q ∈ bound (reg w') k <->
    (reached w tgt q /\ exists c, live w q c /\ customerId (f (c_info c)) = k /\ k <> EmptyString) \/
    (~ reached w tgt q /\ q ∈ bound (reg w) k).
Proof.
  intros Hw Hw' Hf Ho. rewrite !bound_iff by done. setoid_rewrite (outcome_live w w' tgt f d Hf Ho).
  split.
  - intros (c' & (c & Hl & [[Hr ->]|[Hr ->]]) & Hs); [left|right]; eauto.
  - intros [(Hr & c & Hl & Hs)|(Hr & c & Hl & Hs)]; [exists (upd_info f c)|exists c]; naive_solver.
Qed.

(** The target of a command is online. *)
Lemma target_live w u skip q :
  Inv w -> target (reg w) u skip = Some q -> exists c, live w q c /\ uniqId (c_info c) = u.
Proof.
  intros (Hc & _) Ht. unfold target in Ht. destruct (is_empty u || skip); [done|].
  destruct (cs_online _ _ Hc u q Ht) as (c & Hq & Hu). exists c. unfold live, is_online. by rewrite Hu.
Qed.

Lemma live_det w q c d : live w q c -> live w q d -> c = d.
Proof. intros [H1 _] [H2 _]. congruence. Qed.

Lemma reached_dec w tgt q : reached w tgt q \/ ~ reached w tgt q.
Proof.
  unfold reached. destruct (decide (tgt = Some q)) as [->|Hne]; [|right; by intros [? _]].
  destruct (heap w !! q) as [c|]; [|right; by intros (_ & d & ? & _)].
  destruct (IsClosedOnSafe (c_codec c)) eqn:E; [right; intros (_ & d & [= <-] & ?); congruence|left; eauto].
Qed.

End Views.

(** ** What one connection gets of the effects of a command: the commands that send to
    many are stated connection by connection. *)

(** Whom an effect concerns. *)
Definition addressee (e : effect) : option ptr :=
  match e with
  | EAsyncWrite p _ | EWrite p _ | EHttp p _ | EClose p | ECloseLater p | EHeartbeat p => Some p
  | EDelayed _ | EForward _ _ _ | ECallback _ _ => None
  end.

(** The effects that concern one connection, in order. *)
Definition sent_to (p : ptr) (es : list effect) : list effect := filter (fun e => addressee e = Some p) es.

Lemma sent_to_app p es es' : sent_to p (es ++ es') = sent_to p es ++ sent_to p es'.
Proof. apply filter_app. Qed.

Lemma sent_to_mjoin p (ess : list (list effect)) : sent_to p (mjoin ess) = mjoin (sent_to p <$> ess).
Proof. induction ess as [|es ess IH]; [done|]. by rewrite fmap_cons, !mjoin_cons, sent_to_app, IH. Qed.

Lemma sent_to_mjoin_fmap {X} p (f : X -> list effect) (l : list X) :
  sent_to p (mjoin (f <$> l)) = mjoin ((fun x => sent_to p (f x)) <$> l).
Proof. by rewrite sent_to_mjoin, <- list_fmap_compose. Qed.

(** A list of effects that all concern one connection. *)
Lemma sent_to_own p q es :
  (forall e, e ∈ es -> addressee e = Some q) -> sent_to p es = if decide (p = q) then es else [].
Proof.
  intros Hq. unfold sent_to. induction es as [|e es IH]; [by case_decide|].
  rewrite filter_cons, IH by (intros; apply Hq; by right). rewrite (Hq e) by left.
  destruct (decide (p = q)) as [->|Hne]; [by rewrite decide_True|]. by rewrite decide_False by congruence.
Qed.

(** A different list of effects for each connection of a list. *)
Lemma sent_to_each p (f : ptr -> list effect) (l : list ptr) :
  (forall q e, e ∈ f q -> addressee e = Some q) -> NoDup l ->
  sent_to p (mjoin (f <$> l)) = if decide (p ∈ l) then f p else [].
Proof.
  intros Hf Hnd. rewrite sent_to_mjoin_fmap. induction Hnd as [|q l Hq _ IH].
  { by rewrite decide_False by apply not_elem_of_nil. }
  rewrite fmap_cons, mjoin_cons, IH, (sent_to_own p q) by auto.
  destruct (decide (p = q)) as [->|Hne].
  - rewrite (decide_False (P := q ∈ l)), decide_True, app_nil_r by (done || left). done.
  - cbn [app]. apply decide_ext. rewrite elem_of_cons. naive_solver.
Qed.

Section Received.
Context {MO : MapOrder} `{Deflate} `{Proto} (cf : config).

Lemma sends_own op d h q e : e ∈ sends cf op d h q -> addressee e = Some q.
Proof.
  unfold sends. destruct (h !! q) as [c|]; [|by intros Hx%elem_of_nil].
  destruct (IsClosedOnSafe _); [by intros Hx%elem_of_nil|]. destruct (wire_for cf op d c); [|by intros Hx%elem_of_nil].
  destruct (async_fails c); [by intros Hx%elem_of_nil|]. by intros ->%list_elem_of_singleton.
Qed.

Lemma data_sent_own d h q e : e ∈ data_sent cf d h q -> addressee e = Some q.
Proof. unfold data_sent. destruct (isNil d); [by intros Hx%elem_of_nil|]. apply sends_own. Qed.

Lemma close_sent_own f h q e : e ∈ close_sent f h q -> addressee e = Some q.
Proof.
  unfold close_sent. destruct (h !! q) as [c|]; [|by intros Hx%elem_of_nil].
  destruct (closed _ =? 0); [|by intros Hx%elem_of_nil].
  destruct (async_fails c); rewrite !elem_of_cons, elem_of_nil; naive_solver.
Qed.

(** What one item of a cast brings to a connection: each datum once for each of the
    lists of the item that has the connection. *)
Definition item_received (h : gmap ptr Conn) (ds : list bytes) (conns : list (list ptr)) (p : ptr) : list effect :=
  mjoin ((fun d => mjoin ((fun l => if decide (p ∈ l) then data_sent cf d h p else []) <$> conns)) <$> ds).

Lemma mjoin_nils {X} (l : list X) (f : X -> list effect) : (forall x, f x = []) -> mjoin (f <$> l) = [].
Proof. intros E. induction l as [|x l IH]; [done|]. by rewrite fmap_cons, mjoin_cons, E, IH. Qed.

Lemma sent_to_item p h ds conns :
  Forall NoDup conns -> sent_to p (item_sent cf h ds conns) = item_received h ds conns p.
Proof.
  intros Hnd. unfold item_sent, item_received. rewrite sent_to_mjoin_fmap. f_equal. apply list_fmap_ext.
  intros _ d _. unfold data_sent. destruct (isNil d).
  { symmetry. apply mjoin_nils. intros l. by destruct (decide _). }
  rewrite sent_to_mjoin_fmap. f_equal. apply list_fmap_ext. intros i l Hl. unfold cast_to.
  apply (sent_to_each p (sends cf (cf_SendMessageType cf) d h)); [apply sends_own|].
  eapply Forall_lookup_1 in Hnd; [exact Hnd|exact Hl].
Qed.

(** What a connection gets that is forced offline. *)
Definition expelled (f d : bytes) (h : gmap ptr Conn) (p : ptr) : list effect :=
  data_sent cf d h p ++ close_sent f h p.

(** The state after a list of connections has been forced offline, connection by
    connection. *)
Definition expelled_all (reason : string) (d : bytes) (w w' : world) (targets : ptr -> Prop) : Prop :=
  reg w' = reg w /\ env w' = env w /\
  (forall p c, heap w !! p = Some c -> targets p -> heap w' !! p = Some (mark_closed c)) /\
  (forall p, ~ targets p -> heap w' !! p = heap w !! p) /\
  exists out, effects w' = effects w ++ out /\ (forall e, e ∈ out -> is_Some (addressee e)) /\
    (forall p, targets p -> sent_to p out = expelled (BuildCloseFrame StatusPolicyViolation reason) d (heap w) p) /\
    (forall p, ~ targets p -> sent_to p out = []).

Lemma sent_to_shut p f d h l :
  closed_flags h -> sent_to p (shut_sent cf f d h l) = if decide (p ∈ l) then expelled f d h p else [].
Proof.
  intros Hf. rewrite shut_sent_once by done.
  rewrite (sent_to_each p (fun p => data_sent cf d h p ++ close_sent f h p)); [|intros q e|apply NoDup_firsts].
  - apply decide_ext. rewrite elem_of_firsts. split; [by intros [? _]|]. intros Hp. split; [done|apply not_elem_of_nil].
  - intros [He|He]%elem_of_app; [by eapply data_sent_own|by eapply close_sent_own].
Qed.

End Received.

(** ** Who is online, subscribed and bound after a connection has been opened or closed. *)

Section Lookups.
Context {MO : MapOrder}.

Lemma opened_lookup p i l r u :
  wf_manager r -> m_lookup (reg_opened p i l r) u = if decide (uniqId i = u) then Some p else m_lookup r u.
Proof.
  intros (Hwf & _). unfold reg_opened. rewrite m_lookup_t_update.
  assert (forall r1 k, m_lookup (if is_empty k then r1 else b_insert k (id i) p r1) u = m_lookup r1 u) as ->
    by (intros r1 k; by destruct (is_empty k)).
  by rewrite m_insert_lookup.
Qed.

Lemma closed_lookup i l r u :
  wf_manager r -> m_lookup (reg_closed i l r) u = if decide (uniqId i = u) then None else m_lookup r u.
Proof.
  intros (Hwf & _). unfold reg_closed. rewrite m_lookup_t_update.
  assert (forall r1 k, m_lookup (if is_empty k then r1 else b_remove k (id i) r1) u = m_lookup r1 u) as ->
    by (intros r1 k; by destruct (is_empty k)).
  by rewrite m_remove_lookup.
Qed.
End Lookups.

Section Lives.
Context {MO : MapOrder} `{Deflate} `{Proto} (cf : config).

Lemma opened_live resp co p c w w' q d :
  Inv w -> unopened w p c -> opened cf resp co p c w w' ->
  live w' q d <-> (q = p /\ d = upd_info (open_change resp) c) \/ (q <> p /\ live w q d).
Proof.
  intros (Hc & _) (Hp & Hu & Hoff & _) (Eh & Er & _). unfold live, is_online.
  destruct (open_change_id resp (c_info c)) as [_ Ei].
  rewrite Eh, Er, opened_lookup, Ei by apply Hc. destruct (decide (q = p)) as [->|Hne].
  - rewrite lookup_insert_eq. split.
    + intros [[= <-] _]. by left.
    + intros [[_ ->]|[? _]]; [|done]. split; [done|]. cbn [c_info upd_info]. by rewrite Ei, decide_True.
  - rewrite lookup_insert_ne by done. case_decide as E.
    + split; [intros [_ [= ->]]; done|]. intros [[-> _]|(_ & Hq & Hon)]; [done|]. rewrite E in Hoff. congruence.
    + split; [by right|]. by intros [[-> _]|(_ & ?)].
Qed.

Lemma opened_subscribers resp co p c w w' t q :
  Inv w -> Inv w' -> unopened w p c -> opened cf resp co p c w w' ->
  q ∈ subscribers (reg w') t <->
    q ∈ subscribers (reg w) t \/ (q = p /\ t ∈ open_topics resp /\ t <> EmptyString).
Proof.
  intros Hw Hw' Hf Ho. rewrite !subscribers_iff by done. setoid_rewrite (opened_live resp co p c w w' q _ Hw Hf Ho).
  pose proof Hf as (Hp & _ & Hoff & _ & Hsub).
  assert (forall d, live w p d -> False) as Hnot.
  { intros d [Hd Hon]. unfold is_online in Hon. assert (d = c) as -> by congruence. congruence. }
  assert (subscribed (c_info (upd_info (open_change resp) c)) t = bool_decide (t ∈ open_topics resp /\ t <> EmptyString)) as Es
    by (by apply open_change_subscribed).
  split.
  - intros (d & [[-> ->]|[Hne Hl]] & Hs); [|left; eauto]. right. rewrite Es in Hs. by apply bool_decide_eq_true in Hs.
  - intros [(d & Hl & Hs)|(-> & Ht)].
    + exists d. split; [|done]. right. split; [|done]. intros ->. by eapply Hnot.
    + eexists. split; [by left|]. rewrite Es. by apply bool_decide_eq_true.
Qed.

Lemma opened_bound resp co p c w w' k q :
  Inv w -> Inv w' -> unopened w p c -> opened cf resp co p c w w' ->
  q ∈ bound (reg w') k <->
    q ∈ bound (reg w) k \/ (q = p /\ k <> EmptyString /\ exists r, resp = Some r /\ k = or_NewCustomerId r).
Proof.
  intros Hw Hw' Hf Ho. rewrite !bound_iff by done. setoid_rewrite (opened_live resp co p c w w' q _ Hw Hf Ho).
  pose proof Hf as (Hp & _ & Hoff & Hcid & _).
  assert (forall d, live w p d -> False) as Hnot.
  { intros d [Hd Hon]. unfold is_online in Hon. assert (d = c) as -> by congruence. congruence. }
  assert (customerId (c_info (upd_info (open_change resp) c)) = match resp with Some r => or_NewCustomerId r | None => EmptyString end) as Es
    by (by apply open_change_customerId).
  split.
  - intros (d & [[-> ->]|[Hne Hl]] & Hs & Hk); [|left; eauto]. right. rewrite Es in Hs. destruct resp as [r|]; [|congruence].
    split_and!; [done|done|by exists r].
  - intros [(d & Hl & Hs)|(-> & Hk & r & -> & ->)].
    + exists d. split; [|done]. right. split; [|done]. intros ->. by eapply Hnot.
    + eexists. split; [by left|]. by rewrite Es.
Qed.

Lemma closed_live p c w w' q d :
  Inv w -> heap w !! p = Some c -> (m_lookup (reg w) (uniqId (c_info c)) = None \/ is_online (reg w) p c) ->
  left_registries (c_info c) w w' -> live w' q d <-> q <> p /\ live w q d.
Proof.
  intros (Hc & _) Hp Hor (Eh & Er & _). unfold live, is_online. rewrite Eh, Er, closed_lookup by apply Hc.
  case_decide as E.
  - split; [by intros [_ ?]|]. intros (Hne & Hq & Hon). rewrite <- E in Hon.
    destruct Hor as [Hn|Hon']; [congruence|]. unfold is_online in Hon'. congruence.
  - split; [|by intros [_ ?]]. intros [Hq Hon]. split; [|done]. intros ->. congruence.
Qed.

Lemma closed_subscribers p c w w' t q :
  Inv w -> Inv w' -> heap w !! p = Some c -> (m_lookup (reg w) (uniqId (c_info c)) = None \/ is_online (reg w) p c) ->
  left_registries (c_info c) w w' -> q ∈ subscribers (reg w') t <-> q <> p /\ q ∈ subscribers (reg w) t.
Proof.
  intros Hw Hw' Hp Hor Hl. rewrite !subscribers_iff by done. setoid_rewrite (closed_live p c w w' q _ Hw Hp Hor Hl). naive_solver.
Qed.

Lemma closed_bound p c w w' k q :
  Inv w -> Inv w' -> heap w !! p = Some c -> (m_lookup (reg w) (uniqId (c_info c)) = None \/ is_online (reg w) p c) ->
  left_registries (c_info c) w w' -> q ∈ bound (reg w') k <-> q <> p /\ q ∈ bound (reg w) k.
Proof.
  intros Hw Hw' Hp Hor Hl. rewrite !bound_iff by done. setoid_rewrite (closed_live p c w w' q _ Hw Hp Hor Hl). naive_solver.
Qed.

End Lives.
