(* ===== verification/CastProps.v ===== *)
(** The properties of the commands that send to many connections and of those that
    force connections offline. *)

From S2P Require Export Views.

Section Lemmas.
Context {MO : MapOrder} `{Deflate} `{Proto} (cf : config).

Lemma item_sent_own h ds conns e : e ∈ item_sent cf h ds conns -> is_Some (addressee e).
Proof.
  unfold item_sent, cast_to. intros (es & He & (d & -> & _)%list_elem_of_fmap)%list_elem_of_join.
  destruct (isNil d); [by apply elem_of_nil in He|].
  apply list_elem_of_join in He as (es & He & (l & -> & _)%list_elem_of_fmap).
  apply list_elem_of_join in He as (es & He & (q & -> & _)%list_elem_of_fmap).
  apply sends_own in He. by exists q.
Qed.

Lemma shut_sent_own f d h l e : e ∈ shut_sent cf f d h l -> is_Some (addressee e).
Proof.
  revert h; induction l as [|q l IH]; intros h; cbn [shut_sent]; [by intros Hx%elem_of_nil|].
  intros [He|[He|He]%elem_of_app]%elem_of_app; [|  |by eapply IH].
  - apply data_sent_own in He. by exists q.
  - apply close_sent_own in He. by exists q.
Qed.

(** The connections that are online, when the counter did not wrap. *)
Lemma online_none w p c :
  Inv w -> total_len (m_shards (reg w)) < 2 ^ 32 -> m_len (reg w) = 0 -> ~ live w p c.
Proof.
  intros (Hc & _) Hb E [Hp Hon]. destruct (cs_manager _ _ Hc) as (Hwf & _ & Hl). rewrite Hl in E.
  rewrite total_len_flat in E, Hb by done. unfold u32 in E. rewrite Z.mod_small in E by lia.
  assert (size (flat (m_shards (reg w))) = 0%nat) as Es by lia. apply map_size_empty_inv in Es.
  unfold is_online, m_lookup in Hon. rewrite <- flat_lookup, Es in Hon by done. by rewrite lookup_empty in Hon.
Qed.

(** singleCastBulk stops at the first write that fails. *)
Definition single_sent (w : world) (x : bytes * string) : list effect :=
  match target (reg w) x.2 false with Some p => sends cf (cf_SendMessageType cf) x.1 (heap w) p | None => [] end.

Definition single_fails (w : world) (x : bytes * string) : Prop :=
  target (reg w) x.2 false <> None /\ single_sent w x = [].

Lemma until_failed_split w l :
  exists l1 l2, l = l1 ++ l2 /\ until_failed cf (heap w) (reg w) l = mjoin (single_sent w <$> l1) /\
    Forall (fun x => ~ single_fails w x) l1 /\ (forall x l3, l2 = x :: l3 -> single_fails w x).
Proof.
  induction l as [|[d k] l (l1 & l2 & -> & IH & Hok & Hf)]; [by exists [], []|].
  assert (single_sent w (d, k) =
    match (if is_empty k then None else m_lookup (reg w) k) with
    | Some p => sends cf (cf_SendMessageType cf) d (heap w) p | None => [] end) as Es.
  { unfold single_sent, target. cbn [fst snd]. by rewrite orb_false_r. }
  assert (target (reg w) k false = if is_empty k then None else m_lookup (reg w) k) as Et.
  { unfold target. by rewrite orb_false_r. }
  cbn [until_failed]. destruct (if is_empty k then None else m_lookup (reg w) k) as [p|] eqn:E.
  - destruct (decide (sends cf (cf_SendMessageType cf) d (heap w) p = [])) as [E0|E0].
    + exists [], ((d, k) :: l1 ++ l2). rewrite bool_decide_true by done. split_and!; try done.
      intros x l3 [= <- _]. split; [cbn [snd]; congruence|congruence].
    + exists ((d, k) :: l1), l2. rewrite bool_decide_false by done. split_and!; [done| | |done].
      * by rewrite fmap_cons, mjoin_cons, Es, IH.
      * constructor; [|done]. intros [_ Hs]. congruence.
  - exists ((d, k) :: l1), l2. split_and!; [done| | |done].
    + by rewrite fmap_cons, mjoin_cons, Es, IH.
    + constructor; [|done]. intros [Hs _]. cbn [snd] in Hs. congruence.
Qed.

Lemma elem_of_conns_of r k p : p ∈ conns_of r k <-> target r k false = Some p.
Proof.
  unfold conns_of, target. rewrite orb_false_r. destruct (is_empty k); [by rewrite elem_of_nil|].
  destruct (m_lookup r k) as [q|]; [|by rewrite elem_of_nil]. rewrite list_elem_of_singleton. naive_solver.
Qed.

Lemma forced_expelled reason d w w' l targets :
  closed_flags (heap w) -> (forall p, p ∈ l <-> targets p) ->
  forced_offline cf (BuildCloseFrame StatusPolicyViolation reason) d w w' l -> expelled_all cf reason d w w' targets.
Proof.
  intros Hf Hl (Eh & Er & Ee & Eo). split_and!; [done|done| | |].
  - intros p c Hp Ht. rewrite Eh, shut_lookup_iff, Hp. by rewrite decide_True by (by apply Hl).
  - intros p Ht. rewrite Eh, shut_lookup_iff. rewrite decide_False; [done|]. by rewrite Hl.
  - eexists. split_and!; [exact Eo|apply shut_sent_own| |]; intros p Ht; rewrite sent_to_shut by done.
    + by rewrite decide_True by (by apply Hl).
    + rewrite decide_False; [done|]. by rewrite Hl.
Qed.
End Lemmas.

Section Props.
Context {MO : MapOrder} `{Deflate} `{Proto} (cf : config).

(** C11: broadcastBulk writes every datum of the request, in order and once, to every
    connection that is online (as long as there are fewer than 2^32 of them), and
    nothing to anybody else; it changes nothing. *)
Theorem broadcastBulk_correct param u w :
  unmarshal_BroadcastBulk param = Some u -> Inv w -> total_len (m_shards (reg w)) < 2 ^ 32 ->
  wp (broadcastBulk cf param) w (fun _ w' => exists out,
    Inv w' /\ only_sent w w' out /\ (forall e, e ∈ out -> is_Some (addressee e)) /\
    (forall p c, live w p c -> sent_to p out = mjoin ((fun d => data_sent cf d (heap w) p) <$> bb_Data u)) /\
    (forall p, (forall c, ~ live w p c) -> sent_to p out = [])).
Proof.
  intros Hm Hw Hb. eapply broadcastBulk_run; [done|done|]. intros w' conns Hw' Hz Hon Ho.
  assert (online_conns w conns) as [Hnd Hin].
  { destruct (decide (m_len (reg w) = 0)) as [E|E]; [|auto]. rewrite (Hz E). split; [constructor|]. intros p.
    split; [by intros Hx%elem_of_nil|]. intros (c & Hl). by destruct (online_none w p c Hw Hb E). }
  exists (item_sent cf (heap w) (bb_Data u) [conns]). split_and!; [done|done|apply item_sent_own| |].
  - intros p c Hl. rewrite sent_to_item by (by repeat constructor). unfold item_received. f_equal.
    apply list_fmap_ext. intros _ d _. rewrite fmap_cons, mjoin_cons, decide_True by (apply Hin; by exists c).
    by rewrite app_nil_r.
  - intros p Hl. rewrite sent_to_item by (by repeat constructor). apply mjoin_nils. intros d.
    rewrite fmap_cons, mjoin_cons, decide_False; [done|]. intros [c Hc]%Hin. by eapply Hl.
Qed.

(** C10: topicPublishBulk writes the data of each item, in order, to the subscribers of
    its topics and to nobody else: a connection gets a datum once for each topic of
    the item that it has subscribed to; it changes nothing. *)
Theorem topicPublishBulk_correct param u w :
  unmarshal_TopicPublishBulk param = Some u -> Inv w ->
  wp (topicPublishBulk cf param) w (fun _ w' => exists out,
    Inv w' /\ only_sent w w' out /\ (forall e, e ∈ out -> is_Some (addressee e)) /\
    forall p, sent_to p out = mjoin ((fun item =>
      item_received cf (heap w) (tp_Data item) (subscribers (reg w) <$> tp_Topics item) p) <$> tpb_Items u)).
Proof.
  intros Hm Hw. eapply topicPublishBulk_run; [done|done|]. intros w' Hw' Ho. eexists. split_and!; [done|exact Ho| |].
  - intros e (es & He & (item & -> & _)%list_elem_of_fmap)%list_elem_of_join. by eapply item_sent_own.
  - intros p. rewrite sent_to_mjoin_fmap. f_equal. apply list_fmap_ext. intros _ item _. apply sent_to_item.
    apply Forall_fmap, Forall_forall. intros t _. apply (subscribers_spec w t Hw).
Qed.

(** SingleCastBulkByCustomerId writes the data of each item, in order, to the
    connections of its customers and to nobody else; it changes nothing. *)
Theorem singleCastBulkByCustomerId_correct param u w :
  unmarshal_SingleCastBulkByCustomerId param = Some u -> Inv w ->
  wp (singleCastBulkByCustomerId cf param) w (fun _ w' => exists out,
    Inv w' /\ only_sent w w' out /\ (forall e, e ∈ out -> is_Some (addressee e)) /\
    forall p, sent_to p out = mjoin ((fun item =>
      item_received cf (heap w) (sc_Data item) (bound (reg w) <$> sc_CustomerIds item) p) <$> sbc_Items u)).
Proof.
  intros Hm Hw. eapply singleCastBulkByCustomerId_run; [done|done|]. intros w' Hw' Ho. eexists.
  split_and!; [done|exact Ho| |].
  - intros e (es & He & (item & -> & _)%list_elem_of_fmap)%list_elem_of_join. by eapply item_sent_own.
  - intros p. rewrite sent_to_mjoin_fmap. f_equal. apply list_fmap_ext. intros _ item _. apply sent_to_item.
    apply Forall_fmap, Forall_forall. intros t _. apply (bound_spec w t Hw).
Qed.

(** singleCastBulk writes its data in the order of the request, each datum to each
    of its targets, up to the first write that fails to a target that is online;
    then it stops. It changes nothing. *)
Theorem singleCastBulk_correct param u w :
  unmarshal_SingleCastBulk param = Some u -> Inv w ->
  wp (singleCastBulk cf param) w (fun _ w' => exists done_ rest,
    Inv w' /\ single_casts u = done_ ++ rest /\ only_sent w w' (mjoin (single_sent cf w <$> done_)) /\
    Forall (fun x => ~ single_fails cf w x) done_ /\ (forall x l, rest = x :: l -> single_fails cf w x)).
Proof.
  intros Hm Hw. eapply singleCastBulk_run; [done|done|]. intros w' Hw' Ho.
  destruct (until_failed_split cf w (single_casts u)) as (l1 & l2 & E & Eu & Hok & Hf).
  rewrite Eu in Ho. by exists l1, l2.
Qed.

(** C12: forceOffline sends each of its targets the data of the request and a close
    frame with status 1008, once, marks it closed, and leaves the rest of the gateway
    alone; the registries are left to the closing of the connection. *)
Theorem forceOffline_correct param u w :
  unmarshal_ForceOffline param = Some u -> Inv w -> closed_flags (heap w) ->
  wp (forceOffline cf param) w (fun _ w' => Inv w' /\
    expelled_all cf "forceOffline" (fo_Data u) w w'
      (fun p => exists k, k ∈ fo_UniqIds u /\ target (reg w) k false = Some p)).
Proof.
  intros Hm Hw Hf. eapply forceOffline_run; [done|done|]. intros w' Hw' Ho. split; [done|].
  eapply forced_expelled; [done| |exact Ho]. intros p. rewrite list_elem_of_join. split.
  - intros (l & Hp & (k & -> & Hk)%list_elem_of_fmap). exists k. by rewrite <- elem_of_conns_of.
  - intros (k & Hk & Ht%elem_of_conns_of). eexists. split; [exact Ht|by apply list_elem_of_fmap_2].
Qed.

(** [forceOfflineByCustomerId] does so with the connections bound to the customers of
    the request; the reason in its close frame is the name "forceOffline", that of its
    sibling. *)
Theorem forceOfflineByCustomerId_correct param u w :
  unmarshal_ForceOfflineByCustomerId param = Some u -> Inv w -> closed_flags (heap w) ->
  wp (forceOfflineByCustomerId cf param) w (fun _ w' => Inv w' /\
    expelled_all cf "forceOfflineByCustomerId" (fc_Data u) w w'
      (fun p => exists k, k ∈ fc_CustomerIds u /\ p ∈ bound (reg w) k)).
Proof.
  intros Hm Hw Hf. eapply forceOfflineByCustomerId_run; [done|done|]. intros w' l Hw' _ Hl Ho. split; [done|].
  eapply forced_expelled; [done| |exact Ho]. intros p. rewrite Hl. setoid_rewrite bound_iff; [|done].
  unfold live. naive_solver.
Qed.

(** forceOfflineGuest does so with those of its targets that have neither a
    session nor a customer; with a delay it only starts a timer, and what the timer
    starts does so with those that are guests by then. *)
Theorem forceOfflineGuest_correct param u w :
  unmarshal_ForceOfflineGuest param = Some u -> Inv w -> closed_flags (heap w) ->
  let guests w := fun p => exists k, k ∈ fg_UniqIds u /\ target (reg w) k false = Some p /\ is_guest (heap w) p = true in
  wps (forceOfflineGuest cf param) w (fun _ w' spawned =>
    (fg_Delay u <= 0 -> spawned = [] /\ Inv w' /\ expelled_all cf "forceOfflineGuest" (fg_Data u) w w' (guests w)) /\
    (0 < fg_Delay u -> fg_UniqIds u <> [] ->
       w' = with_effect (EDelayed (fg_Delay u)) w /\
       exists later, spawned = [recover later] /\
         forall w1, Inv w1 -> closed_flags (heap w1) -> wp later w1 (fun _ w2 =>
           Inv w2 /\ expelled_all cf "forceOfflineGuest" (fg_Data u) w1 w2 (guests w1)))).
Proof.
  intros Hm Hw Hf guests.
  assert (forall w1 w2, Inv w1 -> closed_flags (heap w1) ->
    forced_offline cf (BuildCloseFrame StatusPolicyViolation "forceOfflineGuest") (fg_Data u) w1 w2
      (mjoin (guests_of (heap w1) (reg w1) <$> fg_UniqIds u)) ->
    expelled_all cf "forceOfflineGuest" (fg_Data u) w1 w2 (guests w1)) as Hex.
  { intros w1 w2 Hw1 Hf1 Ho. eapply forced_expelled; [done| |exact Ho]. intros p.
    rewrite list_elem_of_join. unfold guests, guests_of. split.
    - intros (l & Hp & (k & -> & Hk)%list_elem_of_fmap). apply list_elem_of_filter in Hp as [Hg Hp].
      exists k. by rewrite <- elem_of_conns_of.
    - intros (k & Hk & Ht & Hg). eexists. split; [|by apply list_elem_of_fmap_2].
      apply list_elem_of_filter. by rewrite elem_of_conns_of. }
  eapply forceOfflineGuest_run; [done|done| | |].
  - intros Hd w' Hw' Ho. split; [|lia]. intros _. by auto.
  - intros Hd Hne. split; [lia|]. intros _ _. split; [done|]. eexists. split; [done|].
    intros w1 Hw1 Hf1. apply forceOfflineGuest_body_run; [done|]. intros w2 Hw2 Ho. by auto.
  - intros Hd E. split; [lia|done].
Qed.

End Props.

(** ** The commands at work. *)

Open Scope string_scope.
Open Scope Z_scope.
Open Scope list_scope.

(** The connections of the example. *)
Lemma demo_live p c : heap demo_world !! p = Some c -> p = 1%nat \/ p = 2%nat \/ p = 3%nat.
Proof.
  intros Hp. apply elem_of_dom_2 in Hp.
  assert (dom (heap demo_world) = list_to_set [1; 2; 3]%nat) as E by (vm_compute; reflexivity).
  rewrite E in Hp. apply elem_of_list_to_set in Hp. set_solver.
Qed.

Lemma demo_closed_flags : closed_flags (heap demo_world).
Proof.
  intros p c Hp. left. destruct (demo_live p c Hp) as [->|[->| ->]]; vm_compute in Hp; by simplify_eq.
Qed.

Theorem broadcastBulk_correct_witness :
  wp (broadcastBulk demo_config []) demo_world (fun _ w' => exists out,
    effects w' = effects demo_world ++ out /\ length (sent_to 1%nat out) = 2%nat /\ sent_to 3%nat out = []).
Proof.
  eapply wp_mono; [apply (broadcastBulk_correct demo_config [] (mkBroadcastBulk [[1]; []; [2]]) demo_world);
    [vm_compute; reflexivity|exact demo_world_Inv|vm_compute; reflexivity]|].
  intros [] w' (out & _ & (_ & _ & _ & He) & _ & Hon & Hoff). exists out. split_and!; [done| |].
  - destruct (heap demo_world !! 1%nat) as [c|] eqn:E; [|vm_compute in E; done].
    rewrite (Hon 1%nat c); [vm_compute; reflexivity|]. split; [done|]. vm_compute in E. simplify_eq. by vm_compute.
  - apply Hoff. intros c [Hp Hc]. vm_compute in Hp. simplify_eq. vm_compute in Hc. done.
Defined.

Theorem topicPublishBulk_correct_witness :
  wp (topicPublishBulk demo_config []) demo_world (fun _ w' => exists out,
    effects w' = effects demo_world ++ out /\ length (sent_to 2%nat out) = 2%nat /\ sent_to 1%nat out = []).
Proof.
  eapply wp_mono; [apply (topicPublishBulk_correct demo_config []
    (mkTopicPublishBulk [mkTopicPublishBulkItem ["news"] [[1]; [2]]]) demo_world);
    [vm_compute; reflexivity|exact demo_world_Inv]|].
  intros [] w' (out & _ & (_ & _ & _ & He) & _ & Hs). exists out.
  split_and!; [done|rewrite (Hs 2%nat); vm_compute; reflexivity|rewrite (Hs 1%nat); vm_compute; reflexivity].
Defined.

Theorem singleCastBulkByCustomerId_correct_witness :
  wp (singleCastBulkByCustomerId demo_config []) demo_world (fun _ w' => exists out,
    effects w' = effects demo_world ++ out /\ length (sent_to 2%nat out) = 1%nat /\ sent_to 1%nat out = []).
Proof.
  eapply wp_mono; [apply (singleCastBulkByCustomerId_correct demo_config []
    (mkSingleCastBulkByCustomerId [mkSingleCastBulkByCustomerIdItem ["alice"] [[1]]]) demo_world);
    [vm_compute; reflexivity|exact demo_world_Inv]|].
  intros [] w' (out & _ & (_ & _ & _ & He) & _ & Hs). exists out.
  split_and!; [done|rewrite (Hs 2%nat); vm_compute; reflexivity|rewrite (Hs 1%nat); vm_compute; reflexivity].
Defined.

Theorem singleCastBulk_correct_witness :
  wp (singleCastBulk demo_config []) demo_world (fun _ w' => exists done_ rest,
    [([1], "u1"); ([1], "u2")] = done_ ++ rest /\
    effects w' = effects demo_world ++ mjoin (single_sent demo_config demo_world <$> done_)).
Proof.
  eapply wp_mono; [apply (singleCastBulk_correct demo_config []
    (mkSingleCastBulk [mkSingleCastBulkItem ["u1"; "u2"] [[1]]]) demo_world);
    [vm_compute; reflexivity|exact demo_world_Inv]|].
  intros [] w' (l1 & l2 & _ & E & (_ & _ & _ & He) & _). exists l1, l2. split; [|done].
  rewrite <- E. vm_compute. reflexivity.
Defined.

Theorem forceOffline_correct_witness :
  wp (forceOffline demo_config []) demo_world (fun _ w' => exists out,
    effects w' = effects demo_world ++ out /\ length (sent_to 1%nat out) = 3%nat).
Proof.
  eapply wp_mono; [apply (forceOffline_correct demo_config [] (mkForceOffline ["u1"; "u1"; "u2"] [5]) demo_world);
    [vm_compute; reflexivity|exact demo_world_Inv|exact demo_closed_flags]|].
  intros [] w' (_ & _ & _ & _ & _ & out & He & _ & Hs & _). exists out. split; [done|].
  rewrite (Hs 1%nat); [vm_compute; reflexivity|]. exists "u1". split; [left|vm_compute; reflexivity].
Defined.

Theorem forceOfflineByCustomerId_correct_witness :
  wp (forceOfflineByCustomerId demo_config []) demo_world (fun _ w' => exists out,
    effects w' = effects demo_world ++ out /\ length (sent_to 2%nat out) = 2%nat).
Proof.
  eapply wp_mono; [apply (forceOfflineByCustomerId_correct demo_config []
    (mkForceOfflineByCustomerId ["alice"] []) demo_world);
    [vm_compute; reflexivity|exact demo_world_Inv|exact demo_closed_flags]|].
  intros [] w' (_ & _ & _ & _ & _ & out & He & _ & Hs & _). exists out. split; [done|].
  rewrite (Hs 2%nat); [vm_compute; reflexivity|]. exists "alice". split; [left|vm_compute; left].
Defined.

Theorem forceOfflineGuest_correct_witness :
  wps (forceOfflineGuest demo_config []) demo_world (fun _ w' spawned => spawned = [] /\ exists out,
    effects w' = effects demo_world ++ out /\ length (sent_to 1%nat out) = 2%nat).
Proof.
  eapply wps_mono; [apply (forceOfflineGuest_correct demo_config [] (mkForceOfflineGuest ["u1"; "u2"] 0 []) demo_world);
    [vm_compute; reflexivity|exact demo_world_Inv|exact demo_closed_flags]|].
  cbv zeta. intros [] w' sp [Hnow _]. destruct Hnow as (-> & _ & _ & _ & _ & _ & out & He & _ & Hs & _); [done|].
  split; [done|]. exists out. split; [done|].
  rewrite (Hs 1%nat); [vm_compute; reflexivity|]. exists "u1". split; [left|split; vm_compute; reflexivity].
Defined.
