(* ===== verification/TaskProps.v ===== *)
(** The properties of the commands that change the gateway, each run to its end
    from any state between two commands. *)

From S2P Require Export Views.

Section Props.
Context {MO : MapOrder} `{Deflate} `{Proto} (cf : config).

(** C7: topicSubscribe adds its target, if it is online and open, to the subscribers of
    the topics of the request, changes no other subscription and no customer, and
    writes the data of the request to the target and nothing to anybody else. *)
Theorem topicSubscribe_correct param u w :
  unmarshal_TopicSubscribe param = Some u -> Inv w ->
  let tgt := target (reg w) (ts_UniqId u) (isNil (ts_Topics u)) in
  wp (topicSubscribe cf param) w (fun _ w' =>
    Inv w' /\
    (forall t q, q ∈ subscribers (reg w') t <->
       q ∈ subscribers (reg w) t \/ (reached w tgt q /\ t ∈ ts_Topics u /\ t <> EmptyString)) /\
    (forall k q, q ∈ bound (reg w') k <-> q ∈ bound (reg w) k) /\
    effects w' = effects w ++ told cf w tgt (ts_Data u)).
Proof.
  intros Hm Hw tgt. eapply topicSubscribe_run; [done|done|]. intros w' Hw' Ho. fold tgt in Ho.
  assert (forall i, uniqId (SubscribeTopics (ts_Topics u) i) = uniqId i) as Hf by done.
  assert (forall q, reached w tgt q -> exists c, live w q c) as Hl.
  { intros q [Ht _]. destruct (target_live w _ _ q Hw Ht) as (c & Hc & _). eauto. }
  split_and!; [done| | |by eapply outcome_effects].
  - intros t q. rewrite (outcome_subscribers cf w w' tgt _ _ t q) by done. setoid_rewrite subscribed_SubscribeTopics.
    destruct (reached_dec w tgt q) as [Hr|Hr]; [|tauto]. rewrite subscribers_iff by done.
    setoid_rewrite orb_true_iff. setoid_rewrite bool_decide_eq_true.
    destruct (Hl q Hr) as [c Hc]. split; [naive_solver|]. intros [(c' & Hc' & Hs)|(_ & Ht)]; left; eauto.
  - intros k q. rewrite (outcome_bound cf w w' tgt _ _ k q) by done. rewrite bound_iff by done.
    cbn [customerId SubscribeTopics with_topics]. pose proof (reached_dec w tgt q). naive_solver.
Qed.

(** TopicUnsubscribe removes its target, if it is online and open, from the
    subscribers of the topics of the request and changes nothing else. *)
Theorem topicUnsubscribe_correct param u w :
  unmarshal_TopicUnsubscribe param = Some u -> Inv w ->
  let tgt := target (reg w) (tu_UniqId u) (isNil (tu_Topics u)) in
  wp (topicUnsubscribe cf param) w (fun _ w' =>
    Inv w' /\
    (forall t q, q ∈ subscribers (reg w') t <->
       q ∈ subscribers (reg w) t /\ ~ (reached w tgt q /\ t ∈ tu_Topics u)) /\
    (forall k q, q ∈ bound (reg w') k <-> q ∈ bound (reg w) k) /\
    effects w' = effects w ++ told cf w tgt (tu_Data u)).
Proof.
  intros Hm Hw tgt. eapply topicUnsubscribe_run; [done|done|]. intros w' Hw' Ho. fold tgt in Ho.
  assert (forall i, uniqId (UnsubscribeTopics (tu_Topics u) i) = uniqId i /\
                    customerId (UnsubscribeTopics (tu_Topics u) i) = customerId i) as Hf
    by (intros i; unfold UnsubscribeTopics; by destruct (topics i)).
  assert (forall i, uniqId (UnsubscribeTopics (tu_Topics u) i) = uniqId i) as Hf' by apply Hf.
  split_and!; [done| | |by eapply outcome_effects].
  - intros t q. rewrite (outcome_subscribers cf w w' tgt _ _ t q) by done. setoid_rewrite subscribed_UnsubscribeTopics.
    setoid_rewrite andb_true_iff. setoid_rewrite bool_decide_eq_true. rewrite subscribers_iff by done.
    pose proof (reached_dec w tgt q). naive_solver.
  - intros k q. rewrite (outcome_bound cf w w' tgt _ _ k q) by done. rewrite bound_iff by done.
    setoid_rewrite (fun i => proj2 (Hf i)). pose proof (reached_dec w tgt q). naive_solver.
Qed.

(** C8: connInfoUpdate replaces the topics, the customer and the session of its
    target by those of the request that are not empty, in the connection and in
    the registries together, and keeps the others. *)
Theorem connInfoUpdate_correct param u w :
  unmarshal_ConnInfoUpdate param = Some u -> Inv w ->
  let tgt := target (reg w) (cu_UniqId u) false in
  wp (connInfoUpdate cf param) w (fun _ w' =>
    Inv w' /\
    (forall t q, q ∈ subscribers (reg w') t <->
       (reached w tgt q /\ cu_NewTopics u <> [] /\ t ∈ cu_NewTopics u /\ t <> EmptyString) \/
       (~ (reached w tgt q /\ cu_NewTopics u <> []) /\ q ∈ subscribers (reg w) t)) /\
    (forall k q, q ∈ bound (reg w') k <->
       (reached w tgt q /\ cu_NewCustomerId u <> EmptyString /\ k = cu_NewCustomerId u) \/
       (~ (reached w tgt q /\ cu_NewCustomerId u <> EmptyString) /\ q ∈ bound (reg w) k)) /\
    (forall q c c', reached w tgt q -> live w q c -> live w' q c' ->
       session (c_info c') = if is_empty (cu_NewSession u) then session (c_info c) else cu_NewSession u) /\
    effects w' = effects w ++ told cf w tgt (cu_Data u)).
Proof.
  intros Hm Hw tgt. eapply connInfoUpdate_run; [done|done|]. intros w' Hw' Ho. fold tgt in Ho.
  assert (forall i, uniqId (updated_info u i) = uniqId i) as Hf.
  { intros i. unfold updated_info, new_topics, new_customer, new_session. by destruct (is_empty _), (is_empty _), (isNil _). }
  assert (forall q, reached w tgt q -> exists c, live w q c) as Hl.
  { intros q [Ht _]. destruct (target_live w _ _ q Hw Ht) as (c & Hc & _). eauto. }
  split_and!; [done| | | |by eapply outcome_effects].
  - intros t q. rewrite (outcome_subscribers cf w w' tgt _ _ t q) by done.
    assert (forall i, subscribed (updated_info u i) t =
              if isNil (cu_NewTopics u) then subscribed i t else bool_decide (t ∈ cu_NewTopics u /\ t <> EmptyString)) as Hs.
    { intros i. unfold updated_info, new_topics, new_customer, new_session.
      destruct (isNil (cu_NewTopics u)); [by destruct (is_empty _), (is_empty _)|].
      rewrite subscribed_SubscribeTopics. by destruct (is_empty _), (is_empty _). }
    setoid_rewrite Hs. pose proof (reached_dec w tgt q) as Hd. rewrite subscribers_iff by done.
    destruct (cu_NewTopics u) as [|x l]; cbn [isNil].
    + naive_solver.
    + setoid_rewrite bool_decide_eq_true. assert (x :: l <> []) by done. split; [naive_solver|].
      intros [(Hr & _ & Ht)|[Hn Hq]]; [|naive_solver]. left. destruct (Hl q Hr) as [c Hc]. eauto.
  - intros k q. rewrite (outcome_bound cf w w' tgt _ _ k q) by done.
    assert (forall i, customerId (updated_info u i) =
              if is_empty (cu_NewCustomerId u) then customerId i else cu_NewCustomerId u) as Hs.
    { intros i. unfold updated_info, new_topics, new_customer, new_session.
      by destruct (is_empty (cu_NewSession u)), (is_empty (cu_NewCustomerId u)), (isNil (cu_NewTopics u)). }
    setoid_rewrite Hs. pose proof (reached_dec w tgt q) as Hd. rewrite bound_iff by done.
    destruct (is_empty (cu_NewCustomerId u)) eqn:E.
    + apply is_empty_true in E. naive_solver.
    + apply is_empty_false in E. split; [naive_solver|].
      intros [(Hr & _ & ->)|[Hn Hq]]; [|naive_solver]. left. destruct (Hl q Hr) as [c Hc]. eauto.
  - intros q c c' Hr Hc Hc'. apply (outcome_live cf w w' tgt _ _ Hf Ho) in Hc' as (d & Hd & [[_ ->]|[Hn _]]); [|done].
    rewrite (live_det w q d c Hd Hc). cbn [c_info upd_info]. unfold updated_info, new_topics, new_customer, new_session.
    by destruct (is_empty (cu_NewSession u)), (is_empty (cu_NewCustomerId u)), (isNil (cu_NewTopics u)).
Qed.

(** ConnInfoDelete removes the topics, the customer and the session of its
    target that the request names, in the connection and in the registries
    together, and keeps the others. *)
Theorem connInfoDelete_correct param u w :
  unmarshal_ConnInfoDelete param = Some u -> Inv w ->
  let tgt := target (reg w) (cd_UniqId u) false in
  wp (connInfoDelete cf param) w (fun _ w' =>
    Inv w' /\
    (forall t q, q ∈ subscribers (reg w') t <->
       q ∈ subscribers (reg w) t /\ ~ (reached w tgt q /\ cd_DelTopic u = true)) /\
    (forall k q, q ∈ bound (reg w') k <->
       q ∈ bound (reg w) k /\ ~ (reached w tgt q /\ cd_DelCustomerId u = true)) /\
    (forall q c c', reached w tgt q -> live w q c -> live w' q c' ->
       session (c_info c') = if cd_DelSession u then EmptyString else session (c_info c)) /\
    effects w' = effects w ++ told cf w tgt (cd_Data u)).
Proof.
  intros Hm Hw tgt. eapply connInfoDelete_run; [done|done|]. intros w' Hw' Ho. fold tgt in Ho.
  assert (forall i, uniqId (deleted_info u i) = uniqId i) as Hf.
  { intros i. unfold deleted_info, del_customer, del_session, del_topics. by destruct (cd_DelTopic u), (cd_DelSession u), (cd_DelCustomerId u). }
  split_and!; [done| | | |by eapply outcome_effects].
  - intros t q. rewrite (outcome_subscribers cf w w' tgt _ _ t q) by done.
    assert (forall i, subscribed (deleted_info u i) t = if cd_DelTopic u then false else subscribed i t) as Hs.
    { intros i. unfold deleted_info, del_customer, del_session, del_topics.
      by destruct (cd_DelTopic u), (cd_DelSession u), (cd_DelCustomerId u). }
    setoid_rewrite Hs. pose proof (reached_dec w tgt q) as Hd. rewrite subscribers_iff by done.
    destruct (cd_DelTopic u); naive_solver.
  - intros k q. rewrite (outcome_bound cf w w' tgt _ _ k q) by done.
    assert (forall i, customerId (deleted_info u i) = if cd_DelCustomerId u then EmptyString else customerId i) as Hs.
    { intros i. unfold deleted_info, del_customer, del_session, del_topics.
      by destruct (cd_DelTopic u), (cd_DelSession u), (cd_DelCustomerId u). }
    setoid_rewrite Hs. pose proof (reached_dec w tgt q) as Hd. rewrite bound_iff by done.
    destruct (cd_DelCustomerId u); naive_solver.
  - intros q c c' Hr Hc Hc'. apply (outcome_live cf w w' tgt _ _ Hf Ho) in Hc' as (d & Hd & [[_ ->]|[Hn _]]); [|done].
    rewrite (live_det w q d c Hd Hc). cbn [c_info upd_info]. unfold deleted_info, del_customer, del_session, del_topics.
    by destruct (cd_DelTopic u), (cd_DelSession u), (cd_DelCustomerId u).
Qed.

(** C9: topicDelete empties the topics of the request and no other, leaves the
    customers alone, and writes the data of the request once to every connection
    that was subscribed to one of them. *)
Theorem topicDelete_correct param u w :
  unmarshal_TopicDelete param = Some u -> Inv w ->
  wp (topicDelete cf param) w (fun _ w' =>
    Inv w' /\
    (forall t q, q ∈ subscribers (reg w') t <-> q ∈ subscribers (reg w) t /\ t ∉ td_Topics u) /\
    (forall k q, q ∈ bound (reg w') k <-> q ∈ bound (reg w) k) /\
    (forall t p c, heap w' !! p = Some c -> subscribed (c_info c) t = true ->
       is_online (reg w') p c -> t ∉ td_Topics u) /\
    exists l, NoDup l /\ (forall p, p ∈ l <-> exists t, t ∈ td_Topics u /\ p ∈ subscribers (reg w) t) /\
      effects w' = effects w ++
        (if isNil (td_Data u) then []
         else mjoin (sends cf (cf_SendMessageType cf) (td_Data u) (heap w) <$> l))).
Proof.
  intros Hm Hw. eapply topicDelete_run; [done|done|]. intros w' Hw' (l & Hnd & Hl & Er & Hh & He).
  assert (forall t q, q ∈ subscribers (reg w') t <-> q ∈ subscribers (reg w) t /\ t ∉ td_Topics u) as Hsub.
  { intros t q. unfold subscribers. destruct (is_empty t) eqn:Et; [split; [by intros ?%elem_of_nil|by intros [?%elem_of_nil _]]|].
    apply is_empty_false in Et. rewrite Er, t_drop_lookup by apply Hw.
    destruct (decide (t ∈ td_Topics u /\ t <> EmptyString)) as [[Hd _]|Hd].
    - split; [intros Hq; by apply elem_of_nil in Hq|by intros [_ Hn]].
    - split; [|by intros [? _]]. intros Hq. split; [done|]. intros Ht. by apply Hd. }
  split_and!; [done|done| | |].
  - intros k q. unfold bound, b_lookup. rewrite Er. done.
  - intros t p c Hp Hs Hon Ht. assert (p ∈ subscribers (reg w') t) as Hq.
    { apply (subscribers_iff w' t p Hw'). by exists c. }
    by apply Hsub in Hq as [_ Hn].
  - exists l. split_and!; [done| |done]. intros p. rewrite Hl. split.
    + intros (c & k & Hp & Hon & Hs & Hk). exists k. split; [done|]. apply subscribers_iff; [done|]. by exists c.
    + intros (t & Ht & Hp). apply subscribers_iff in Hp as (c & [Hp Hon] & Hs); [|done]. by exists c, t.
Qed.

End Props.

(** ** The commands at work. *)

Open Scope string_scope.
Open Scope Z_scope.
Open Scope list_scope.

Theorem topicSubscribe_correct_witness :
  wp (topicSubscribe demo_config []) demo_world (fun _ w' =>
    1%nat ∈ subscribers (reg w') "chat" /\ effects w' <> effects demo_world).
Proof.
  eapply wp_mono; [apply (topicSubscribe_correct demo_config [] (mkTopicSubscribe "u1" ["news"; "chat"] [5]) demo_world);
    [vm_compute; reflexivity|exact demo_world_Inv]|].
  cbv zeta. intros [] w' (_ & Hs & _ & He). split.
  - apply Hs. right. split; [|split; [by right; left|done]]. split; [vm_compute; reflexivity|].
    eexists. split; vm_compute; reflexivity.
  - rewrite He. vm_compute. discriminate.
Defined.

Theorem topicUnsubscribe_correct_witness :
  wp (topicUnsubscribe demo_config []) demo_world (fun _ w' =>
    2%nat ∈ subscribers (reg demo_world) "news" /\ 2%nat ∉ subscribers (reg w') "news").
Proof.
  eapply wp_mono; [apply (topicUnsubscribe_correct demo_config [] (mkTopicUnsubscribe "u2" ["news"] []) demo_world);
    [vm_compute; reflexivity|exact demo_world_Inv]|].
  cbv zeta. intros [] w' (_ & Hs & _). split; [vm_compute; left|].
  intros [_ Hn]%Hs. apply Hn. split; [|by left]. split; [vm_compute; reflexivity|].
  eexists. split; vm_compute; reflexivity.
Defined.

Theorem connInfoUpdate_correct_witness :
  wp (connInfoUpdate demo_config []) demo_world (fun _ w' =>
    2%nat ∈ bound (reg w') "bob" /\ 2%nat ∈ subscribers (reg w') "chat" /\ 2%nat ∉ subscribers (reg w') "news").
Proof.
  assert (reached demo_world (target (reg demo_world) "u2" false) 2%nat) as Hr.
  { split; [vm_compute; reflexivity|]. eexists. split; vm_compute; reflexivity. }
  eapply wp_mono; [apply (connInfoUpdate_correct demo_config [] (mkConnInfoUpdate "u2" "s" "bob" ["chat"] [5]) demo_world);
    [vm_compute; reflexivity|exact demo_world_Inv]|].
  cbv zeta. intros [] w' (_ & Hs & Hb & _). split_and!.
  - apply Hb. by left.
  - apply Hs. left. split_and!; [done|done|by left|done].
  - rewrite Hs. intros [(_ & _ & Hn & _)|(Hn & _)]; [|by apply Hn]. by apply list_elem_of_singleton in Hn.
Defined.

Theorem connInfoDelete_correct_witness :
  wp (connInfoDelete demo_config []) demo_world (fun _ w' =>
    2%nat ∈ bound (reg demo_world) "alice" /\ 2%nat ∉ bound (reg w') "alice" /\ 2%nat ∉ subscribers (reg w') "news").
Proof.
  assert (reached demo_world (target (reg demo_world) "u2" false) 2%nat) as Hr.
  { split; [vm_compute; reflexivity|]. eexists. split; vm_compute; reflexivity. }
  eapply wp_mono; [apply (connInfoDelete_correct demo_config [] (mkConnInfoDelete "u2" true true true []) demo_world);
    [vm_compute; reflexivity|exact demo_world_Inv]|].
  cbv zeta. intros [] w' (_ & Hs & Hb & _). split_and!; [vm_compute; left| |].
  - intros [_ Hn]%Hb. by apply Hn.
  - intros [_ Hn]%Hs. by apply Hn.
Defined.

Theorem topicDelete_correct_witness :
  wp (topicDelete demo_config []) demo_world (fun _ w' =>
    2%nat ∈ subscribers (reg demo_world) "news" /\ subscribers (reg w') "news" = []).
Proof.
  eapply wp_mono; [apply (topicDelete_correct demo_config [] (mkTopicDelete ["news"] [5]) demo_world);
    [vm_compute; reflexivity|exact demo_world_Inv]|].
  intros [] w' (_ & Hs & _). split; [vm_compute; left|].
  destruct (subscribers (reg w') "news") as [|q l] eqn:E; [done|].
  assert (q ∈ subscribers (reg w') "news") as [_ Hn]%Hs by (rewrite E; left). destruct Hn. left.
Defined.
