(* ===== verification/LifeProps.v ===== *)
(** The properties of the life of a connection: opened, heard, silent, closed. *)

From S2P Require Export Views.

Section Lemmas.
Context {MO : MapOrder} `{Deflate} `{Proto} (cf : config).

(** The answer under which a connection is opened: the one of the callback, if it
    allows the connection, or none when there is no callback. *)
Definition granted (c : Conn) (req : request) (w : world) : option (option ConnOpenResp) :=
  if is_empty (cf_OnOpenApi cf) then Some None
  else match open_answer (open_request c req) w with
       | inl r => if or_Allow r then Some (Some r) else None
       | inr _ => None
       end.

(** Everyone as before. *)
Definition same_registries (w w' : world) : Prop :=
  (forall u, m_lookup (reg w') u = m_lookup (reg w) u) /\
  (forall t q, q ∈ subscribers (reg w') t <-> q ∈ subscribers (reg w) t) /\
  (forall k q, q ∈ bound (reg w') k <-> q ∈ bound (reg w) k).

Lemma same_registries_eq w w' : reg w' = reg w -> same_registries w w'.
Proof. intros E. unfold same_registries. by rewrite E. Qed.

(** The state after a connection has been opened under an answer. *)
Definition joined (resp : option ConnOpenResp) (p : ptr) (c : Conn) (w w' : world) : Prop :=
  live w' p (upd_info (open_change resp) c) /\
  (forall q d, q <> p -> live w' q d <-> live w q d) /\
  (forall t q, q ∈ subscribers (reg w') t <->
     q ∈ subscribers (reg w) t \/ (q = p /\ t ∈ open_topics resp /\ t <> EmptyString)) /\
  (forall k q, q ∈ bound (reg w') k <->
     q ∈ bound (reg w) k \/ (q = p /\ k <> EmptyString /\ exists r, resp = Some r /\ k = or_NewCustomerId r)).

Lemma opened_joined resp co p c w w' :
  Inv w -> Inv w' -> unopened w p c -> opened cf resp co p c w w' -> joined resp p c w w'.
Proof.
  intros Hw Hw' Hf Ho. split_and!.
  - apply (opened_live cf resp co p c w w' p _ Hw Hf Ho). by left.
  - intros q d Hne. rewrite (opened_live cf resp co p c w w' q d Hw Hf Ho). naive_solver.
  - intros t q. by eapply opened_subscribers.
  - intros k q. by eapply opened_bound.
Qed.

Lemma joined_core resp p c w w1 w' :
  heap w1 = heap w -> reg w1 = reg w -> joined resp p c w1 w' -> joined resp p c w w'.
Proof. intros Eh Er (H1 & H2 & H3 & H4). unfold joined, live in *. rewrite Eh, Er in *. done. Qed.

Lemma unopened_core w w1 p c : heap w1 = heap w -> reg w1 = reg w -> unopened w p c -> unopened w1 p c.
Proof. intros Eh Er Hf. unfold unopened in *. by rewrite Eh, Er. Qed.

Lemma data_sent_nil h p : data_sent cf [] h p = [].
Proof. done. Qed.

Lemma lastActive_touched (b : bool) t c :
  lastActiveTime (c_info (if b then touched t c else limited_conn cf t c)) = u32 t.
Proof.
  destruct b; [done|]. unfold limited_conn. cbn [c_info upd_info]. unfold Allow. by repeat case_match.
Qed.

End Lemmas.

Section Props.
Context {MO : MapOrder} `{Deflate} `{Proto} (cf : config).

(** C5: the task that opens a connection registers it if and only if it is not closed
    and the business allows it, or nobody asks; it is then online, bound to the
    customer and subscribed to the topics of the answer, together in the connection
    and in the registries, and nobody else is touched. A refused connection is
    marked closed and leaves the registries as they were. *)
Theorem open_task_correct req p c w :
  Inv w -> workers_ok cf w -> unopened w p c ->
  wp (open_task cf p req) w (fun _ w' => Inv w' /\ workers_ok cf w' /\
    if IsClosedOnSafe (c_codec c) then w' = w
    else match granted cf c req w with
         | Some resp => joined resp p c w w'
         | None => same_registries w w' /\ heap w' = <[p := mark_closed c]> (heap w)
         end).
Proof.
  intros Hw Hok Hf. eapply open_task_run; [done..|]. intros w' Ho Hw' Hok'. split_and!; [done|done|].
  unfold open_outcome in Ho. destruct (IsClosedOnSafe (c_codec c)) eqn:Ecl; [done|].
  unfold granted. destruct (is_empty (cf_OnOpenApi cf)); [by eapply opened_joined|].
  destruct Ho as (w1 & ((Eh & Er & Ep) & _) & Hd). unfold decided in Hd. rewrite Ecl in Hd.
  assert (Inv w1) as Hw1 by (by apply (Inv_ext w)).
  destruct (open_answer _ w) as [r|err].
  - destruct (or_Allow r).
    + eapply joined_core; [done|done|]. eapply opened_joined; [done|done|by eapply unopened_core|done].
    + destruct Hd as (F1 & F2 & _). rewrite F1, Eh. split; [|done]. apply same_registries_eq. congruence.
  - destruct Hd as (F1 & F2 & _). rewrite F1, Eh. split; [|done]. apply same_registries_eq. congruence.
Qed.

(** C6: when a connection is closed it is in no registry any more, nobody else is
    touched, and one task is started, which reports the connection as it was. *)
Theorem OnWebsocketClose_correct p c w :
  Inv w -> heap w !! p = Some c -> uniqId (c_info c) <> EmptyString ->
  (m_lookup (reg w) (uniqId (c_info c)) = None \/ is_online (reg w) p c) ->
  wps (OnWebsocketClose cf p) w (fun _ w' tasks =>
    Inv w' /\ unregistered (reg w') p /\ effects w' = effects w /\
    (forall q d, live w' q d <-> q <> p /\ live w q d) /\
    (forall t q, q ∈ subscribers (reg w') t <-> q <> p /\ q ∈ subscribers (reg w) t) /\
    (forall k q, q ∈ bound (reg w') k <-> q <> p /\ q ∈ bound (reg w) k) /\
    tasks = [recover (close_task cf (mkConnClose (uniqId (c_info c)) (customerId (c_info c)) (session (c_info c))
                                                 (getTopics (c_info c))))]).
Proof.
  intros Hw Hp Hu Hor. eapply OnWebsocketClose_run; [done..|]. intros w' Hl Hw' Hun. split_and!; [done|done|apply Hl| | | |done].
  - intros q d. by eapply closed_live.
  - intros t q. by eapply closed_subscribers.
  - intros k q. by eapply closed_bound.
Qed.

(** A connection that is opened and then closed leaves everybody else as they
    were before it came. *)
Theorem open_close_roundtrip resp co p c w :
  Inv w -> workers_ok cf w -> unopened w p c ->
  wps (open_accepted cf p co resp ;; OnWebsocketClose cf p) w (fun _ w' _ => Inv w' /\ same_registries w w').
Proof.
  intros Hw Hok Hf. apply wps_bind_wp. eapply open_accepted_run; [done..|]. intros w1 Ho Hw1 Hok1.
  set (c1 := upd_info (open_change resp) c).
  assert (uniqId (c_info c1) = uniqId (c_info c)) as Eu by apply open_change_id.
  assert (live w1 p c1) as [Hp1 Hon1] by (apply (opened_live cf resp co p c w w1 p _ Hw Hf Ho); by left).
  pose proof Hf as (Hp & Hne & Hoff & _).
  assert (forall d, ~ live w p d) as Hnot.
  { intros d [Hd Hon]. unfold is_online in Hon. assert (d = c) as -> by congruence. congruence. }
  eapply OnWebsocketClose_run; [done|exact Hp1|by rewrite Eu|by right|]. intros w2 Hl Hw2 _. split; [done|]. split_and!.
  - intros u. destruct Hl as (_ & -> & _). rewrite closed_lookup by apply Hw1. destruct Ho as (_ & -> & _).
    rewrite opened_lookup by apply Hw. rewrite Eu. destruct (open_change_id resp (c_info c)) as [_ ->].
    case_decide as E; [by rewrite <- E, Hoff|done].
  - intros t q. rewrite (closed_subscribers p c1 w1 w2) by (done || by right).
    rewrite (opened_subscribers cf resp co p c w w1 t q) by done. split; [naive_solver|]. intros Hq. split; [|by left].
    intros ->. apply subscribers_iff in Hq as (d & Hd & _); [|done]. by apply (Hnot d).
  - intros k q. rewrite (closed_bound p c1 w1 w2) by (done || by right).
    rewrite (opened_bound cf resp co p c w w1 k q) by done. split; [naive_solver|]. intros Hq. split; [|by left].
    intros ->. apply bound_iff in Hq as (d & Hd & _); [|done]. by apply (Hnot d).
Qed.

(** the event loop answers the heartbeat message of the customer with nothing but
    the time of the last activity, and for any other message starts one task, which
    gets the message and the verdict of the connection's own limiter. *)
Theorem OnWebsocketMessage_correct p c op d w :
  Inv w -> heap w !! p = Some c ->
  let t := now (env w) in
  wps (OnWebsocketMessage cf p op d) w (fun _ w' tasks =>
    Inv w' /\ reg w' = reg w /\ effects w' = effects w /\ collects w' = collects w /\ workers w' = workers w /\
    (d = cf_CustomerHeartbeatMessage cf -> tasks = [] /\ heap w' = <[p := touched t c]> (heap w)) /\
    (d <> cf_CustomerHeartbeatMessage cf ->
       tasks = [recover (message_task cf p (Allow cf t (c_info (touched t c))).1 d)] /\
       heap w' = <[p := limited_conn cf t c]> (heap w)) /\
    forall c', heap w' !! p = Some c' -> lastActiveTime (c_info c') = u32 t).
Proof.
  intros Hw Hp t. eapply OnWebsocketMessage_run; [done..|]. intros w' (E1 & E2 & _ & E4 & E5 & E6 & E7 & _) Hw'.
  unfold received_task, is_heartbeat in *. split_and!; try done.
  - intros ->. rewrite bool_decide_true in E1 |- * by done. done.
  - intros Hne. rewrite bool_decide_false in E1 |- * by done. done.
  - intros c' Hc'. rewrite E1, lookup_insert_eq in Hc'. simplify_eq. rewrite lastActive_touched. by destruct (bool_decide _).
Qed.

(** C38: the task of a message closes the connection with status 1009 when the message
    is longer than the limit, drops it when one of the two limiters says so, and
    passes it on otherwise: to the callback if there is one, then once to the
    process whose turn it is and to the queues that want such events. *)
Theorem message_task_correct p c allow d w :
  Inv w -> workers_ok cf w -> heap w !! p = Some c ->
  let m := MTransfer (transfer_of (c_info c) d) in
  let global := if bool_decide (is_Some (limiters w !! Event_OnMessage)) then (next_rate (env w)).1 else true in
  wp (message_task cf p allow d) w (fun _ w' => Inv w' /\ workers_ok cf w' /\
    if cf_CustomerReceivePackLimit cf <? len d then
      heap w' = <[p := mark_closed c]> (heap w) /\ workers w' = workers w /\
      effects w' = effects w ++ close_sent (BuildCloseFrame StatusMessageTooBig "message too big") (heap w) p
    else if allow && global then
      workers w' = delivered cf Event_OnMessage m Cmd_Transfer w /\ collects w' = next_turn cf Event_OnMessage w /\
      effects w' = effects w ++ (if is_empty (cf_OnMessageApi cf) then [] else called (cf_OnMessageApi cf) m) ++
                   queued cf Event_OnMessage m
    else heap w' = heap w /\ workers w' = workers w /\ effects w' = effects w).
Proof.
  intros Hw Hok Hp m global. eapply message_task_run; [done..|]. intros w' Hh Hw' Hok'. split_and!; [done|done|].
  unfold handled in Hh. destruct (_ <? _).
  { destruct Hh as (F1 & _ & F3 & _ & _ & F6 & _). rewrite F3. split_and!; [done|done|]. by rewrite data_sent_nil. }
  fold global in Hh. destruct (allow && global); cbn [negb] in Hh.
  - destruct Hh as (w0 & w1 & ((A1 & A2 & A3) & A4 & A5 & A6 & A7) & Hpost & Hfw).
    assert (workers w1 = workers w /\ collects w1 = collects w /\
            effects w1 = effects w ++ if is_empty (cf_OnMessageApi cf) then [] else called (cf_OnMessageApi cf) m) as (B1 & B2 & B3).
    { destruct (is_empty _); [subst w1; rewrite app_nil_r; split_and!; congruence|].
      destruct Hpost as (_ & _ & _ & P4 & P5 & P6). rewrite P6, A7. split_and!; [congruence|congruence|done]. }
    destruct Hfw as (_ & _ & _ & _ & G5 & G6 & G7). split_and!.
    + rewrite G6. unfold delivered, next_worker. by rewrite B1, B2.
    + rewrite G5. unfold next_turn. by rewrite B2.
    + by rewrite G7, B3, <- app_assoc.
  - destruct Hh as ((A1 & _) & _ & A5 & _ & A7). done.
Qed.

(** The periodic check closes an open connection with status 1001 if and only if
    it has been silent for longer than the heartbeat interval, and goes on as long
    as it does not. (The times are unsigned: the clock must not be behind the last
    activity.) *)
Theorem heartbeat_check_correct p c w :
  Inv w -> heap w !! p = Some c ->
  0 <= lastActiveTime (c_info c) <= now (env w) -> now (env w) < 2 ^ 32 ->
  let late := cf_HeartbeatIntervalSecond cf < now (env w) - lastActiveTime (c_info c) in
  wp (heartbeat_check cf p) w (fun again w' => Inv w' /\
    (again = true <-> IsClosedOnSafe (c_codec c) = false /\ ~ late) /\
    (IsClosedOnSafe (c_codec c) = false /\ late ->
       heap w' = <[p := mark_closed c]> (heap w) /\ reg w' = reg w /\
       effects w' = effects w ++ close_sent (BuildCloseFrame StatusGoingAway "heartbeat timeout") (heap w) p) /\
    (IsClosedOnSafe (c_codec c) = true \/ ~ late -> w' = w)).
Proof.
  intros Hw Hp Hlast Hnow late. eapply heartbeat_check_run; [done..|]. intros w' Hw' Ho.
  assert (silent cf w c = true <-> late) as Hs.
  { unfold silent, late. rewrite (u32_small (now (env w))), u32_small, Z.ltb_lt by lia. done. }
  destruct (IsClosedOnSafe (c_codec c)); cbn [negb andb orb] in *; [split_and!; naive_solver|].
  destruct (silent cf w c); cbn [negb].
  - destruct Ho as (F1 & F2 & F3 & _). rewrite F3, data_sent_nil. split_and!; naive_solver.
  - split_and!; naive_solver.
Qed.

(** If the clock was set back since the last activity, the difference wraps, and
    an open connection that has just been active is closed as silent. *)
Theorem heartbeat_check_wraps p c w :
  Inv w -> heap w !! p = Some c -> IsClosedOnSafe (c_codec c) = false ->
  0 <= now (env w) < lastActiveTime (c_info c) -> lastActiveTime (c_info c) < 2 ^ 32 ->
  cf_HeartbeatIntervalSecond cf < now (env w) - lastActiveTime (c_info c) + 2 ^ 32 ->
  wp (heartbeat_check cf p) w (fun again w' =>
    again = false /\ heap w' = <[p := mark_closed c]> (heap w)).
Proof.
  intros Hw Hp Hcl Hlast Hnow Hl. eapply heartbeat_check_run; [done..|]. intros w' Hw' Ho.
  assert (silent cf w c = true) as Hs.
  { unfold silent. rewrite (u32_small (now (env w))) by lia. apply Z.ltb_lt. unfold u32.
    rewrite <- (Z.mod_unique_pos (now (env w) - lastActiveTime (c_info c)) (2 ^ 32) (-1)
                  (now (env w) - lastActiveTime (c_info c) + 2 ^ 32)); lia. }
  rewrite Hcl, Hs in *. split; [done|]. by destruct Ho as (F1 & _).
Qed.

End Props.

(** ** The life of a connection of the example. *)

Open Scope string_scope.
Open Scope Z_scope.
Open Scope list_scope.

Lemma demo_unopened : unopened demo_world 3%nat (demo_client 3 "u3").
Proof. unfold unopened. split_and!; vm_compute; done. Qed.

(** The open connection "u2". *)
Definition demo_open : Conn := default (demo_client 2 "u2") (heap demo_world !! 2%nat).

Lemma demo_open_lookup : heap demo_world !! 2%nat = Some demo_open.
Proof. vm_compute. reflexivity. Qed.

Theorem open_task_correct_witness :
  wp (open_task demo_config 3 (mkRequest "GET" "/netsvr" "" ∅)) demo_world (fun _ w' =>
    exists d, live w' 3%nat d /\ forall q, q ∈ subscribers (reg w') "news" <-> q ∈ subscribers (reg demo_world) "news").
Proof.
  eapply wp_mono; [apply (open_task_correct demo_config (mkRequest "GET" "/netsvr" "" ∅) 3%nat (demo_client 3 "u3") demo_world
    demo_world_Inv (demo_workers_ok _) demo_unopened)|].
  intros [] w' (_ & _ & Hj). 
  assert (IsClosedOnSafe (c_codec (demo_client 3 "u3")) = false) as E1 by reflexivity.
  rewrite E1 in Hj.
  assert (forall req w, granted demo_config (demo_client 3 "u3") req w = Some None) as E2 by reflexivity.
  rewrite E2 in Hj. destruct Hj as (Hl & _ & Hs & _). eexists. split; [exact Hl|].
  intros q. rewrite Hs. split; [|intros Hq; left; exact Hq].
  intros [Hq|(_ & Hq & _)]; [exact Hq|]. apply elem_of_nil in Hq. destruct Hq.
Defined.

Theorem OnWebsocketClose_correct_witness :
  wps (OnWebsocketClose demo_config 2) demo_world (fun _ w' _ =>
    2%nat ∈ subscribers (reg demo_world) "news" /\ 2%nat ∉ subscribers (reg w') "news" /\ 2%nat ∉ bound (reg w') "alice").
Proof.
  eapply wps_mono; [apply (OnWebsocketClose_correct demo_config 2%nat demo_open demo_world demo_world_Inv demo_open_lookup);
    [vm_compute; discriminate|right; vm_compute; reflexivity]|].
  intros [] w' ts (_ & _ & _ & _ & Hs & Hb & _). split_and!; [vm_compute; left|rewrite Hs; tauto|rewrite Hb; tauto].
Defined.

Theorem open_close_roundtrip_witness :
  wps (open_accepted demo_config 3 (mkConnOpen "u3" "" "" "" "") (Some demo_answer) ;; OnWebsocketClose demo_config 3) demo_world
      (fun _ w' _ => m_lookup (reg w') "u3" = None /\ forall q, q ∈ subscribers (reg w') "news" <-> q ∈ subscribers (reg demo_world) "news").
Proof.
  eapply wps_mono; [apply (open_close_roundtrip demo_config (Some demo_answer) (mkConnOpen "u3" "" "" "" "") 3%nat
    (demo_client 3 "u3") demo_world demo_world_Inv (demo_workers_ok _) demo_unopened)|].
  intros [] w' ts (_ & Hm & Hs & _). split; [rewrite Hm; vm_compute; reflexivity|]. intros q. apply Hs.
Defined.

Theorem OnWebsocketMessage_correct_witness :
  wps (OnWebsocketMessage demo_config 2 OpText [104; 105]) demo_world (fun _ w' ts =>
    ts = [recover (message_task demo_config 2 true [104; 105])] /\ reg w' = reg demo_world).
Proof.
  eapply wps_mono; [apply (OnWebsocketMessage_correct demo_config 2%nat demo_open OpText [104; 105] demo_world
    demo_world_Inv demo_open_lookup)|].
  cbv zeta. intros [] w' ts (_ & Er & _ & _ & _ & _ & Hm & _). split; [|done].
  destruct Hm as [-> _]; [vm_compute; discriminate|]. do 3 f_equal.
Defined.

Theorem message_task_correct_witness :
  wp (message_task demo_config 2 false [104; 105]) demo_world (fun _ w' =>
    Inv w' /\ effects w' = effects demo_world).
Proof.
  eapply wp_mono; [apply (message_task_correct demo_config 2%nat demo_open false [104; 105] demo_world
    demo_world_Inv (demo_workers_ok _) demo_open_lookup)|].
  cbv zeta. intros [] w' (Hw & _ & Hm). split; [done|].
  assert (cf_CustomerReceivePackLimit demo_config <? len [104; 105] = false) as E by (vm_compute; reflexivity).
  rewrite E in Hm. apply Hm.
Defined.

(** The example, a while later. *)
Definition demo_later (t : Z) : world := with_env (mkEnv t false 3 [] [] [] 0) demo_world.

Lemma with_env_Inv e w : Inv w -> Inv (with_env e w).
Proof. by destruct w. Qed.

Lemma demo_later_Inv t : Inv (demo_later t).
Proof. apply with_env_Inv, demo_world_Inv. Qed.

Lemma demo_later_lookup t : heap (demo_later t) !! 2%nat = Some demo_open.
Proof. vm_compute. reflexivity. Qed.

Theorem heartbeat_check_correct_witness :
  wp (heartbeat_check demo_config 2) (demo_later 500) (fun again w' =>
    again = false /\ heap w' = <[2%nat := mark_closed demo_open]> (heap demo_world)).
Proof.
  eapply wp_mono; [apply (heartbeat_check_correct demo_config 2%nat demo_open (demo_later 500)
    (demo_later_Inv _) (demo_later_lookup _)); [vm_compute; split; discriminate|vm_compute; reflexivity]|].
  cbv zeta. intros again w' (_ & Ha & Hl & _).
  assert (cf_HeartbeatIntervalSecond demo_config < now (env (demo_later 500)) - lastActiveTime (c_info demo_open)) as Hlate
    by (vm_compute; reflexivity).
  split; [destruct again; [|done]; exfalso; by destruct (proj1 Ha eq_refl)|].
  apply Hl. split; [vm_compute; reflexivity|exact Hlate].
Defined.

Theorem heartbeat_check_wraps_witness :
  wp (heartbeat_check demo_config 2) (demo_later 5) (fun again w' =>
    lastActiveTime (c_info demo_open) = 10 /\ again = false /\ heap w' = <[2%nat := mark_closed demo_open]> (heap demo_world)).
Proof.
  eapply wp_mono; [apply (heartbeat_check_wraps demo_config 2%nat demo_open (demo_later 5)
    (demo_later_Inv _) (demo_later_lookup _)); [vm_compute; reflexivity|vm_compute; split; [discriminate|reflexivity]
    |vm_compute; reflexivity|vm_compute; reflexivity]|].
  intros again w' Hw'. split; [vm_compute; reflexivity|exact Hw'].
Defined.
