(* ===== verification/ServerProps.v ===== *)
(** The properties of the event loop of the customers' server. *)

From S2P Require Export Views.

Section Lemmas.
Context {MO : MapOrder} `{Deflate} `{Proto} `{Http} (cf : config).

Lemma messages_fit c ms :
  Forall (wf_message c) ms -> (length ms <= length (mjoin (cm_wire <$> ms)))%nat.
Proof.
  induction 1 as [|m ms Hm _ IH]; [done|]. rewrite fmap_cons.
  change (mjoin (?x :: ?k)) with (x ++ mjoin k). rewrite length_app. pose proof (wire_nonempty c m Hm). cbn. lia.
Qed.

(** A request whose target carries a query. *)
Definition with_query (req : request) : Prop :=
  exists q, RequestURI req = String.append (cf_HandlePattern cf) (String (Ascii.ascii_of_nat 63) q).

Lemma append_longer (s t : string) : t <> EmptyString -> String.append s t <> s.
Proof.
  intros Ht. induction s as [|a s IH]; cbn; [done|]. intros [= E]. by apply IH.
Qed.

Lemma query_not_acceptable req : with_query req -> acceptable cf req = false.
Proof.
  intros [q E]. apply not_true_is_false. intros (_ & _ & Hu & _)%acceptable_spec. rewrite E in Hu. by apply append_longer in Hu.
Qed.

Lemma isUpgraded_mark_closed c : isUpgraded (c_codec (mark_closed c)) = isUpgraded (c_codec c).
Proof. unfold mark_closed, SetClosedFlagOnSafe. cbn [c_codec upd_codec]. by destruct (closed (c_codec c) =? 0). Qed.
End Lemmas.

Section Props.
Context {MO : MapOrder} `{Deflate} `{Proto} `{Http} (cf : config).

(** C3: when the buffer of an upgraded connection holds whole text and binary messages,
    fragmented and compressed as the client likes, one call of OnTraffic decodes all
    of them and starts the task of each, in order, with the verdict of the window
    limiter as it stands after those before; the buffer is empty afterwards and the
    codec ready for the next message. *)
Theorem OnTraffic_delivers p c ms w :
  Inv w -> heap w !! p = Some c -> isUpgraded (c_codec c) = true -> ready c ->
  Forall (wf_message (c_codec c)) ms -> ms <> [] -> inbound (c_gnet c) = mjoin (cm_wire <$> ms) ->
  wps (OnTraffic cf p) w (fun r w' tasks =>
    r = ActNone /\ Inv w' /\ reg w' = reg w /\ effects w' = effects w /\
    tasks = (hand_all cf p (now (env w)) c (cm_data <$> ms)).1 /\
    heap w' = <[p := with_buffer [] (hand_all cf p (now (env w)) c (cm_data <$> ms)).2]> (heap w)).
Proof.
  intros Hw Hp Hup Hr Hms Hne Hin. unfold OnTraffic.
  apply wps_bind_wp. eapply wp_conn_get; [done|]. rewrite Hup. cbn [negb].
  apply wps_bind_wp. eapply wp_conn_get; [done|].
  eapply wps_mono; [apply (traffic_loop_messages cf _ p c ms w); try done|].
  - rewrite Hin. pose proof (messages_fit _ _ Hms). lia.
  - intros r w' ts (-> & Hw' & (E1 & _ & E3 & _) & -> & Eh). done.
Qed.

(** C31: whatever an upgraded connection sends, OnTraffic ends, the gateway is in a good
    state again, and all it starts are tasks of messages of this connection; only a
    frame that declares a length within four of 2^63 makes it panic. *)
Theorem OnTraffic_total p c w :
  Inv w -> heap w !! p = Some c -> wf_inbound (c_gnet c) -> isUpgraded (c_codec c) = true ->
  wpp (OnTraffic cf p) w (fun _ w' tasks =>
    Inv w' /\ (exists c', heap w' !! p = Some c' /\ inbound (c_gnet c') `suffix_of` inbound (c_gnet c)) /\
    Forall (fun t => exists allow d, t = recover (message_task cf p allow d)) tasks)
    (holds_overflow (inbound (c_gnet c))).
Proof.
  intros Hw Hp Hg Hup. eapply wpp_mono; [by apply OnTraffic_safe| |done].
  intros r w' ts (Hw' & Hts & Hx). split_and!; [done|exact Hx|exact Hts].
Qed.

(** C37: the first event with a complete request head switches protocols if and only if
    the request is one that the gateway upgrades and gnet does its part. Then a task
    opens the connection, or the client is told why not by a close frame; otherwise
    the client is refused with another status, or nothing, and the connection is
    closed. *)
Theorem OnTraffic_handshake p c req w :
  heap w !! p = Some c -> isUpgraded (c_codec c) = false -> peek_err (c_gnet c) = None ->
  (4 <= length (inbound (c_gnet c)))%nat ->
  drop (length (inbound (c_gnet c)) - 4) (inbound (c_gnet c)) = head_end ->
  ReadRequest (inbound (c_gnet c)) = Some req ->
  wps (OnTraffic cf p) w (fun a w' tasks => reg w' = reg w /\ exists c' sent,
    heap w' = <[p := c']> (heap w) /\ effects w' = effects w ++ sent /\
    if acceptable cf req && negb (discard_err (c_gnet c)) && negb (write_fails c)
    then isUpgraded (c_codec c') = true /\ inbound (c_gnet c') = [] /\
         exists more, sent = EHttp p (switching req (negotiated req (c_codec c))) :: more /\
         match open_verdict cf w with
         | None => a = ActNone /\ more = [] /\ tasks = [recover (open_task cf p req)]
         | Some v => a = ActClose /\ tasks = [] /\ more = if isNil (close_message_of v) then [] else [EWrite p (close_message_of v)]
         end
    else a = ActClose /\ tasks = [] /\ isUpgraded (c_codec c') = false /\
         (sent = [] \/ exists resp, StatusCode resp <> 101 /\ sent = [EHttp p resp])).
Proof.
  intros Hp Hup Hpe Hlen Hend Hreq. eapply OnTraffic_first_run; [done..|].
  intros a w' ts (Er & _ & Hf). split; [done|].
  destruct (acceptable cf req && negb (discard_err (c_gnet c)) && negb (write_fails c)).
  - unfold arrived in Hf. destruct (open_verdict cf w) as [v|].
    + destruct Hf as (-> & -> & Eh & Ee). do 2 eexists.
      split_and!; [exact Eh|rewrite Ee, <- app_assoc; done| | |].
      * rewrite isUpgraded_mark_closed. apply isUpgraded_setUpgraded.
      * done.
      * by eexists.
    + destruct Hf as (-> & -> & Eh & Ee). do 2 eexists. split_and!; [exact Eh|exact Ee|apply isUpgraded_setUpgraded|done|].
      by exists [].
  - destruct Hf as (-> & -> & (c' & Eh & (Eu & _)) & [Ee|(resp & Hs & Ee)]).
    + exists c', []. rewrite app_nil_r. split_and!; [done|done|done|done|congruence|by left].
    + exists c', [EHttp p resp]. split_and!; [done|done|done|done|congruence|]. right. by exists resp.
Qed.

(** a request whose target carries a query is never upgraded, because the whole
    target is compared with the pattern; so the query that the task of an opening
    reports is that of a request without one. *)
Theorem OnTraffic_query_refused p c req w :
  with_query cf req ->
  heap w !! p = Some c -> isUpgraded (c_codec c) = false -> peek_err (c_gnet c) = None ->
  (4 <= length (inbound (c_gnet c)))%nat ->
  drop (length (inbound (c_gnet c)) - 4) (inbound (c_gnet c)) = head_end ->
  ReadRequest (inbound (c_gnet c)) = Some req ->
  wps (OnTraffic cf p) w (fun a w' tasks => a = ActClose /\ tasks = [] /\
    exists c', heap w' = <[p := c']> (heap w) /\ isUpgraded (c_codec c') = false).
Proof.
  intros Hq Hp Hup Hpe Hlen Hend Hreq. eapply OnTraffic_first_run; [done..|].
  intros a w' ts (_ & _ & Hf). rewrite query_not_acceptable in Hf by done.
  destruct Hf as (-> & -> & (c' & Eh & (Eu & _)) & _). split_and!; [done|done|]. exists c'. split; [done|congruence].
Qed.
End Props.

(** ** The event loop on the example. *)

Open Scope string_scope.
Open Scope Z_scope.
Open Scope list_scope.

Definition demo_request (uri : string) : request :=
  mkRequest "GET" uri "" (list_to_map [("Upgrade", ["websocket"]); ("Connection", ["Upgrade"]);
    ("Sec-Websocket-Version", ["13"]); ("Sec-Websocket-Key", ["dGhlIHNhbXBsZQ=="])]).

(** A request is told by its first byte. *)
#[export] Instance demo_http : Http := {|
  ReadRequest := fun b => Some (demo_request (if byte_at b 0 =? 71 then "/" else "/?a=1"));
  base64_sha1 := fun s => s;
  ParseOptions := fun s => Some [s];
  net_error := "timeout";
|}.

(** A state in which the connection at [p] is another. *)
Definition with_client (p : ptr) (c : Conn) (w : world) : world := with_heap (insert p c) w.

Lemma with_client_lookup p c w : heap (with_client p c w) !! p = Some c.
Proof. destruct w. apply lookup_insert_eq. Qed.

Lemma with_client_Inv p c c' w : Inv w -> heap w !! p = Some c -> c_info c' = c_info c -> Inv (with_client p c' w).
Proof. intros Hw Hp Hi. apply (codec_change_Inv p c c' w); by destruct w. Qed.

(** "u2" has sent something. *)
Definition demo_open : Conn := default (demo_client 2 "u2") (heap demo_world !! 2%nat).
Definition heard (b : bytes) : Conn := upd_gnet (fun _ => demo_conn b) demo_open.
Definition demo_heard (b : bytes) : world := with_client 2 (heard b) demo_world.

Lemma demo_heard_Inv b : Inv (demo_heard b).
Proof. apply (with_client_Inv 2%nat demo_open); [apply demo_world_Inv|vm_compute; reflexivity|reflexivity]. Qed.

(** Two messages: one in two fragments, compressed, and one in one. *)
Definition demo_messages : list client_message :=
  [mkClientMessage OpText true [104; 105] (demo_mask, [1; 104]) [(demo_mask, [105])];
   mkClientMessage OpBinary false [7] (demo_mask, [7]) []].

Theorem OnTraffic_delivers_witness :
  wps (OnTraffic demo_config 2) (demo_heard (mjoin (cm_wire <$> demo_messages))) (fun _ w' tasks =>
    tasks = [recover (message_task demo_config 2 true [104; 105]); recover (message_task demo_config 2 true [7])]).
Proof.
  eapply wps_mono; [apply (OnTraffic_delivers demo_config 2%nat (heard (mjoin (cm_wire <$> demo_messages))) demo_messages _
    (demo_heard_Inv _) (with_client_lookup _ _ _)); [vm_compute; reflexivity| | |discriminate|reflexivity]|].
  - unfold ready, idle. split_and!; try (vm_compute; reflexivity). split; [vm_compute; by repeat constructor|vm_compute; reflexivity].
  - apply Forall_cons; split; [|apply Forall_singleton]; unfold wf_message; split_and!; concrete.
  - intros r w' ts (_ & _ & _ & _ & -> & _). vm_compute hand_all. reflexivity.
Defined.

Theorem OnTraffic_total_witness :
  wpp (OnTraffic demo_config 2) (demo_heard [129; 133; 1; 2]) (fun _ w' _ => Inv w') (holds_overflow [129; 133; 1; 2]).
Proof.
  eapply wpp_mono; [apply (OnTraffic_total demo_config 2%nat (heard [129; 133; 1; 2]) _
    (demo_heard_Inv _) (with_client_lookup _ _ _)); [apply check_wf_inbound; vm_compute; reflexivity|vm_compute; reflexivity]|
    |intros Ho; exact Ho].
  intros r w' ts (Hw' & _). exact Hw'.
Defined.

(** "u3" has just connected and sent a request. *)
Definition demo_new (b : bytes) : Conn :=
  mkConn newCodec (demo_info 3 "u3") (demo_conn b) "1.2.3.4:5" false false.
Definition demo_asked (b : bytes) : world := with_client 3 (demo_new b) demo_world.

Theorem OnTraffic_handshake_witness :
  wps (OnTraffic demo_config 3) (demo_asked [71; 13; 10; 13; 10]) (fun a w' tasks =>
    a = ActNone /\ tasks = [recover (open_task demo_config 3 (demo_request "/"))]).
Proof.
  eapply wps_mono; [apply (OnTraffic_handshake demo_config 3%nat (demo_new [71; 13; 10; 13; 10]) (demo_request "/") (demo_asked [71; 13; 10; 13; 10])
    (with_client_lookup _ _ _)); vm_compute; try reflexivity; by repeat constructor|].
  intros a w' ts (_ & c' & sent & _ & _ & Hif).
  assert (acceptable demo_config (demo_request "/") = true) as E1 by (vm_compute; reflexivity).
  assert (open_verdict demo_config (demo_asked [71; 13; 10; 13; 10]) = None) as E2 by (vm_compute; reflexivity).
  rewrite E1, E2 in Hif. destruct Hif as (_ & _ & more & _ & -> & _ & ->). split; reflexivity.
Defined.

Theorem OnTraffic_query_refused_witness :
  wps (OnTraffic demo_config 3) (demo_asked [88; 13; 10; 13; 10]) (fun a w' tasks => a = ActClose /\ tasks = []).
Proof.
  eapply wps_mono; [apply (OnTraffic_query_refused demo_config 3%nat (demo_new [88; 13; 10; 13; 10]) (demo_request "/?a=1"));
    [exists "a=1"; reflexivity|apply with_client_lookup|vm_compute; try reflexivity; by repeat constructor..]|].
  intros a w' ts (-> & -> & _). split; reflexivity.
Defined.
