(* ===== verification/WorkerProps.v ===== *)
(** The properties of the business processes' server: who gets the events, whose turn
    it is, and what goes over the wire. *)

From S2P Require Export Views Workers.

Section Lemmas.
Context {MO : MapOrder} `{Proto} (cf : config).

(** The lists of connections: each without duplicates, over connections with
    different identifiers. *)
Definition lists_wf (w : world) : Prop :=
  (forall v, is_event v -> exists k, collects w !! v = Some k /\ NoDup (k_conn k)) /\
  (forall p q x y, workers w !! p = Some x -> workers w !! q = Some y -> connId x = connId y -> p = q).

Lemma lists_wf_ok w : lists_wf w -> lists_ok w.
Proof. intros [Hl _] v Hv. destruct (Hl v Hv) as (k & -> & _). eauto. Qed.

(** Who is listed for an event. *)
Definition listed (w : world) (v : Z) : list ptr := from_option k_conn [] (collects w !! v).

Lemma listed_del w c v k q :
  lists_wf w -> is_event v -> collects w !! v = Some k ->
  q ∈ k_conn (del_conn (workers w) c k) <-> q ∈ k_conn k /\ connId <$> workers w !! q <> Some c.
Proof.
  intros [Hl Hids] Hv Hk. destruct (Hl v Hv) as (k' & Hk' & Hnd). simplify_eq.
  rewrite <- (elem_of_remove_conn (workers w) c (k_conn k)) by done.
  unfold del_conn. cbn [k_conn k_index]. by destruct (remove_conn _ c (k_conn k)).
Qed.

Lemma remove_conn_sublist ws c l l' : remove_conn ws c l = Some l' -> l' `sublist_of` l.
Proof.
  revert l'; induction l as [|v l IH]; intros l'; cbn [remove_conn]; [done|]. case_bool_decide.
  - intros [= <-]. by apply sublist_cons.
  - destruct (remove_conn ws c l) as [l1|]; [|done]. intros [= <-]. by apply sublist_skip, IH.
Qed.

Lemma NoDup_del_conn ws c k : NoDup (k_conn k) -> NoDup (k_conn (del_conn ws c k)).
Proof.
  intros Hnd. unfold del_conn. destruct (remove_conn ws c (k_conn k)) as [l|] eqn:E; [|done]. cbn.
  eapply sublist_NoDup; [exact Hnd|by eapply remove_conn_sublist].
Qed.

(** The calls of [Get] in a row, and what they return. *)
Definition get_times (v : Z) (n : nat) : prog (list (option ptr)) :=
  for_fold (seq 0 n) [] (fun acc _ => x <- WManager_Get cf v ;; Ret (acc ++ [x])).

Lemma get_times_run v n w k (Q : list (option ptr) -> world -> Prop) :
  is_empty (cf_WorkerListenAddress cf) = false -> workers_ok cf w -> is_event v -> collects w !! v = Some k ->
  (forall w', workers w' = workers w -> Q (picks n k) w') -> wp (get_times v n) w Q.
Proof.
  intros Ha Hok Hv Hk HQ. unfold get_times.
  assert (forall m s acc w1 k1, workers_ok cf w1 -> collects w1 !! v = Some k1 -> workers w1 = workers w ->
            (forall w', workers w' = workers w -> Q (acc ++ picks m k1) w') ->
            wp (for_fold (seq s m) acc (fun acc _ => x <- WManager_Get cf v ;; Ret (acc ++ [x]))) w1 Q) as Hgo.
  { induction m as [|m IH]; intros s acc w1 k1 Hok1 Hk1 Ew1 HQ1; cbn [seq for_fold].
    - apply wp_ret. specialize (HQ1 w1 Ew1). cbn [picks] in HQ1. by rewrite app_nil_r in HQ1.
    - apply wp_bind, wp_bind, wp_WManager_Get; [done|done|]. apply wp_ret.
      assert (next_worker cf v w1 = pick k1) as E1 by (unfold next_worker, pick; by rewrite Ha, Hk1).
      apply (IH (S s) _ _ (turn k1)).
      + intros E u Hu. cbn [collects workers with_collects]. unfold next_turn. rewrite Ha.
        destruct (Hok1 E u Hu) as (ku & Hku & Hall). destruct (decide (u = v)) as [->|].
        * rewrite lookup_alter_eq, Hku. by exists (turn ku).
        * rewrite lookup_alter_ne by done. by exists ku.
      + cbn [collects with_collects]. unfold next_turn. by rewrite Ha, lookup_alter_eq, Hk1.
      + done.
      + intros w' Ew'. rewrite E1, <- app_assoc. apply (HQ1 w' Ew'). }
  by apply (Hgo n 0%nat [] w k).
Qed.
Lemma healthy_dec n : healthy n \/ ~ healthy n.
Proof.
  unfold healthy. destruct (n_closed n), (write_deadline_fails n), (write_fails_at n); (by left) || (right; naive_solver).
Qed.

Lemma wpe_mono' {A} (m : prog A) w (Q Q' : A -> world -> Prop) (R R' : world -> Prop) :
  wpe m w Q R -> (forall a w', Q a w' -> Q' a w') -> (forall w', R w' -> R' w') -> wpe m w Q' R'.
Proof. unfold wpe. destruct (run m w); auto. Qed.

#[export] Instance RegisterRespCode_eq_dec : EqDecision RegisterRespCode.
Proof. solve_decision. Defined.
End Lemmas.

Section Props.
Context {MO : MapOrder} `{Proto} (cf : config).

(** C36: a registration is accepted if the request can be read, names an event and the
    connection has not registered for any yet; it then adds the connection to the
    lists of exactly the events it names, once. Otherwise the lists stay as they
    are. In every case one answer with the result is queued. *)
Theorem register_correct param p c w :
  workers w !! p = Some c -> lists_wf w ->
  let code := register_answer param c in
  wp (register param p) w (fun _ w' => lists_wf w' /\ effects w' = effects w /\ heap w' = heap w /\
    (forall v q, is_event v -> q ∈ listed w' v <-> q ∈ listed w v \/
       (q = p /\ code = RegisterSuccess /\ exists u, unmarshal_RegisterReq param = Some u /\ has_event (rq_Events u) v = true)) /\
    exists c', workers w' = <[p := c']> (workers w) /\ connId c' = connId c /\
      sendCh c' = sendCh (messaged (MRegisterResp code (code_string code)
        (if bool_decide (code = RegisterSuccess) then connId c else EmptyString)) Cmd_Register c)).
Proof.
  intros Hp Hl code. pose proof (lists_wf_ok w Hl) as Hok. eapply register_run; [done|done|].
  intros w' ((Es & _ & _ & _ & Ee) & Hr). fold code in Hr. destruct Hl as [Hl Hids].
  assert (forall x, connId x = connId c -> forall p1 q x1 y, <[p := x]> (workers w) !! p1 = Some x1 ->
            <[p := x]> (workers w) !! q = Some y -> connId x1 = connId y -> p1 = q) as Hids'.
  { intros x Hx p1 q x1 y H1 H2 E. apply lookup_insert_Some in H1, H2.
    destruct H1 as [[<- <-]|[? H1]], H2 as [[<- <-]|[? H2]]; [done|..].
    - apply (Hids p q c y); congruence.
    - apply (Hids p1 p x1 c); congruence.
    - by apply (Hids p1 q x1 y). }
  assert (forall m cmd c0, connId (messaged m cmd c0) = connId c0) as Hcid by (intros m cmd c0; unfold messaged; by destruct (packet_set m cmd)).
  assert (code <> RegisterSuccess ->
            workers w' = <[p := messaged (MRegisterResp code (code_string code) EmptyString) Cmd_Register c]> (workers w) /\
            collects w' = collects w) as Hno.
  { intros Hne. destruct (unmarshal_RegisterReq param), code; done. }
  destruct (decide (code = RegisterSuccess)) as [Ec|Ec].
  - destruct (unmarshal_RegisterReq param) as [u|] eqn:Em; [|unfold code, register_answer in Ec; by rewrite Em in Ec].
    rewrite Ec in Hr |- *. destruct Hr as [Ew Ek]. split_and!.
    + split; [|rewrite Ew; apply Hids'; by rewrite Hcid].
      intros v Hv. destruct (Hl v Hv) as (k & Hk & Hnd). rewrite Ek, registered_lookup, Hk by done.
      destruct (has_event _ v); [|by exists k]. exists (add_conn p k). split; [done|by apply NoDup_add_conn].
    + done.
    + apply Es.
    + intros v q Hv. destruct (Hl v Hv) as (k & Hk & Hnd). unfold listed. rewrite Ek, registered_lookup, Hk by done.
      destruct (has_event _ v) eqn:Eh; cbn [from_option fmap option_fmap option_map].
      * rewrite elem_of_add_conn. split.
        -- intros [->|Hq]; [right|by left]. split_and!; [done|done|by exists u].
        -- intros [Hq|(-> & _)]; [by right|by left].
      * split; [by left|]. intros [Hq|(_ & _ & u' & [= <-] & Hev)]; [done|congruence].
    + eexists. split_and!; [exact Ew|by rewrite Hcid|]. rewrite bool_decide_true by done.
      unfold messaged. by destruct (packet_set _ _).
  - destruct (Hno Ec) as [Ew Ek]. split_and!.
    + split; [intros v Hv; rewrite Ek; by apply Hl|rewrite Ew; apply Hids'; by rewrite Hcid].
    + done.
    + apply Es.
    + intros v q Hv. unfold listed. rewrite Ek. naive_solver.
    + eexists. split_and!; [exact Ew|by rewrite Hcid|]. by rewrite bool_decide_false.
Qed.

(** unregistering takes the named connection off the lists of all events and
    nobody else off any, and queues one answer. *)
Theorem unregister_correct param u p c w :
  unmarshal_UnRegisterReq param = Some u -> uq_ConnId u <> EmptyString -> workers w !! p = Some c -> lists_wf w ->
  wp (unregister param p) w (fun _ w' => effects w' = effects w /\ heap w' = heap w /\
    (forall v q, is_event v -> q ∈ listed w' v <-> q ∈ listed w v /\ connId <$> workers w !! q <> Some (uq_ConnId u)) /\
    (forall v, is_event v -> NoDup (listed w' v)) /\
    workers w' = <[p := messaged MUnRegisterResp Cmd_Unregister c]> (workers w)).
Proof.
  intros Hm Hne Hp Hl. pose proof (lists_wf_ok w Hl) as Hok. eapply unregister_run; [done..|].
  intros w' (((Eh & _) & _ & _ & _ & Ee) & Ew & Ek). pose proof Hl as [Hl' _]. split_and!; [done|done| | |done].
  - intros v q Hv. destruct (Hl' v Hv) as (k & Hk & Hnd). unfold listed. rewrite Ek, removed_lookup, Hk by done.
    cbn [from_option fmap option_fmap option_map]. by eapply listed_del.
  - intros v Hv. destruct (Hl' v Hv) as (k & Hk & Hnd). unfold listed. rewrite Ek, removed_lookup, Hk by done.
    by apply NoDup_del_conn.
Qed.

(** the events of one kind go round: as many calls of Get in a row as there are
    connections on the list return each of them once, while the counter does not
    wrap. *)
Theorem WManager_Get_round_robin v k w :
  is_empty (cf_WorkerListenAddress cf) = false -> workers_ok cf w -> is_event v -> collects w !! v = Some k ->
  0 <= k_index k -> k_index k + len (k_conn k) < 2 ^ 32 ->
  wp (get_times cf v (length (k_conn k))) w (fun l _ => l ≡ₚ Some <$> k_conn k).
Proof.
  intros Ha Hok Hv Hk Hi Hb. eapply get_times_run; [done..|]. intros w' _. apply picks_round; lia.
Qed.

(** ** The life of a connection and of its sending goroutine *)

(** The packets that were accepted, with the messages they were made from; whether somebody
    has called [Close]; and whether the sending goroutine is in its loop. *)
Record served := mkServed {
  sv_world : world;
  sv_accepted : list (packet * (message * Z));
  sv_closing : bool;
  sv_running : bool;
}.

(** What a call of [Send] adds to the queue. *)
Definition sent_now (p : ptr) (m : message) (cmd : Z) (w : world) : list (packet * (message * Z)) :=
  match packet_set m cmd, workers w !! p with
  | Some pkg, Some c => if (fifo_enqueue pkg (sendCh c)).1 then [(pkg, (m, cmd))] else []
  | _, _ => []
  end.

(** Calls of [Send] and of [Close] by others, the timer of [Close], turns of the sending
    goroutine (one may panic, which ends the goroutine), and what happens elsewhere. *)
Inductive serve_step (p : ptr) : served -> served -> Prop :=
  | sv_send m cmd w w' acc cl on :
      run (Worker_Send p m cmd) w = Done tt w' [] ->
      serve_step p (mkServed w acc cl on) (mkServed w' (acc ++ sent_now p m cmd w) cl on)
  | sv_close w w' ts acc cl on :
      run (Worker_Close p) w = Done tt w' ts -> serve_step p (mkServed w acc cl on) (mkServed w' acc true on)
  | sv_timer w c acc cl on :
      workers w !! p = Some c -> closeLock c <> 0 ->
      serve_step p (mkServed w acc cl on)
        (mkServed (with_workers (insert p (set_sendCh (fifo_close (sendCh c)) c)) w) acc cl on)
  | sv_turn w go w' ts acc cl :
      run (loopSend_turn cf p) w = Done go w' ts -> serve_step p (mkServed w acc cl true) (mkServed w' acc cl go)
  | sv_panic w w' acc cl :
      run (loopSend_turn cf p) w = Panicked w' -> serve_step p (mkServed w acc cl true) (mkServed w' acc cl false)
  | sv_other w w' acc cl on :
      workers w' !! p = workers w !! p -> lists_ok w' -> serve_step p (mkServed w acc cl on) (mkServed w' acc cl on).

(** [taken] is off the queue and dealt with; [h] is lost only with a failure or a close. *)
Definition serving (p : ptr) (n0 : netConn) (size : nat) (s : served) : Prop :=
  exists h taken waiting q, sending h p (n_out n0) taken.*1 q size (sv_world s) /\
    sv_accepted s = taken ++ waiting /\ q_items q = waiting.*1 /\
    (h = false -> ~ healthy n0 \/ sv_closing s = true) /\
    (h = true -> q_closed q = false /\ sv_running s = true).

Lemma sending_other h p base items q size w w' :
  sending h p base items q size w -> workers w' !! p = workers w !! p -> lists_ok w' -> sending h p base items q size w'.
Proof. intros [(c & Hp & Hc) _] E Hl. split; [|done]. exists c. by rewrite E. Qed.

Lemma sending_open h p base items q size w c :
  sending h p base items q size w -> h = true -> workers w !! p = Some c -> closeLock c = 0.
Proof.
  intros [(c' & Hp & _ & [E|E] & _ & _ & _ & Hh) _] Ht Hc; [by simplify_eq|].
  destruct (Hh Ht) as [[F _] _]. congruence.
Qed.

Lemma serving_send p n0 size w m cmd w' acc cl on :
  run (Worker_Send p m cmd) w = Done tt w' [] -> serving p n0 size (mkServed w acc cl on) ->
  serving p n0 size (mkServed w' (acc ++ sent_now p m cmd w) cl on).
Proof.
  intros Hrun (h & taken & waiting & q & Hs & Ea & Eq & Hf & Ht). cbn [sv_world sv_accepted sv_closing sv_running] in *.
  destruct Hs as [(c & Hp & S1 & S2 & S3 & S4 & S5 & S6) Hl].
  assert (wp (Worker_Send p m cmd) w (fun _ w1 => collects w1 = collects w /\
            workers w1 = match packet_set m cmd with Some pkg => alter (enqueued pkg) p (workers w) | None => workers w end)) as Hw
    by (eapply wp_Worker_Send; [exact Hp|]; intros w1 _ _ _ _ Ec _ Ew; by split).
  apply wp_run in Hw as ([] & w1 & E1 & Ec & Ew). rewrite Hrun in E1. injection E1 as <-.
  assert (lists_ok w') as Hl' by (intros v Hv; rewrite Ec; by apply Hl).
  unfold sent_now. rewrite Hp. destruct (packet_set m cmd) as [pkg|].
  2: { exists h, taken, waiting, q. rewrite app_nil_r. split_and!; [|done..]. split; [|done]. exists c. cbn [sv_world]. by rewrite Ew. }
  assert (workers w' !! p = Some (enqueued pkg c)) as Hp' by (rewrite Ew; by rewrite lookup_alter_eq, Hp).
  set (q' := (fifo_enqueue pkg q).2).
  assert (sending h p (n_out n0) taken.*1 q' size w') as Hs'.
  { split; [|done]. exists (enqueued pkg c). split_and!; try done. unfold enqueued. cbn [sendCh set_sendCh]. by rewrite S3. }
  rewrite S3. unfold q' in *. clear q'. unfold fifo_enqueue in *.
  destruct (q_closed q) eqn:Ecl; [|destruct (q_cap q <=? length (q_items q))%nat]; cbn [fst snd] in *.
  - exists h, taken, waiting, q. rewrite app_nil_r. split_and!; try done. intros E. by destruct (Ht E).
  - exists h, taken, waiting, q. rewrite app_nil_r. split_and!; try done. intros E. by destruct (Ht E).
  - eexists h, taken, (waiting ++ [(pkg, (m, cmd))]), _. split_and!; [exact Hs'|by rewrite Ea, app_assoc| |done|].
    + cbn [q_items]. by rewrite fmap_app, Eq.
    + intros E. by destruct (Ht E).
Qed.

(** What a turn takes off the queue. *)
Lemma serving_turn p n0 size w acc cl h taken waiting q :
  (0 < size)%nat -> sending h p (n_out n0) taken.*1 q size w -> acc = taken ++ waiting -> q_items q = waiting.*1 ->
  (h = false -> ~ healthy n0 \/ cl = true) -> (h = true -> q_closed q = false) ->
  match run (loopSend_turn cf p) w with
  | Done go w' _ => serving p n0 size (mkServed w' acc cl go)
  | Panicked w' => serving p n0 size (mkServed w' acc cl false)
  | Blocked _ => waiting = [] /\ q_closed q = false
  | _ => False
  end.
Proof.
  intros Hsize Hs Ea Eq Hf Ht. destruct (fifo_dequeue size q) as [[l q']|] eqn:Ed.
  - pose proof (loopSend_turn_run cf h p _ _ q size w l q' Hs Ed) as Hw. unfold wpe in Hw.
    assert (l = (take size waiting).*1 /\ q_items q' = (drop size waiting).*1 /\ q_closed q' = q_closed q /\
            (isNil l = true -> q_closed q = true)) as (El & Eq' & Ec & Hnil).
    { unfold fifo_dequeue in Ed. rewrite fmap_take, fmap_drop, <- Eq.
      destruct (q_items q) as [|x its] eqn:Ei; [destruct (q_closed q) eqn:Ecl; [|done]|]; simplify_eq; cbn [q_items q_closed].
      - rewrite Ei, take_nil, drop_nil. by split_and!.
      - split_and!; [done..|]. by destruct size; [lia|]. }
    rewrite El, <- fmap_app in Hw.
    assert (acc = (taken ++ take size waiting) ++ drop size waiting) as Ea' by (by rewrite <- app_assoc, take_drop).
    destruct (run _ w) as [go w' ts|go w' ts|w'|w'|w']; try done.
    + destruct Hw as [-> Hw]. exists h, (taken ++ take size waiting), (drop size waiting), q'. rewrite <- El.
      split_and!; [done..|]. intros E. rewrite Ec. split; [by apply Ht|]. cbn [sv_running].
      destruct (isNil l); [|done]. rewrite Ht in Hnil by done. by discriminate Hnil.
    + destruct Hw as [-> Hw]. by exists false, (taken ++ take size waiting), (drop size waiting), q'.
  - destruct Hs as [(c & Hp & S1 & S2 & S3 & S4 & S5 & S6) Hl]. unfold loopSend_turn. rewrite run_bind.
    unfold worker_act at 1. cbn [run]. rewrite Hp. cbn [run fst snd started app].
    unfold Worker_Dequeue. cbn [bind run workers with_workers]. rewrite lookup_insert_eq, S4, S3, Ed. cbn [started].
    unfold fifo_dequeue in Ed. rewrite Eq in Ed. destruct waiting; [|done]. by destruct (q_closed q).
Qed.

Lemma serving_step p n0 size s s' : (0 < size)%nat -> serve_step p s s' -> serving p n0 size s -> serving p n0 size s'.
Proof.
  intros Hsize Hst. destruct Hst as [m cmd w w' acc cl on Hr|w w' ts acc cl on Hr|w c acc cl on Hc Hlk|w go w' ts acc cl Hr|
    w w' acc cl Hr|w w' acc cl on Ew Hl]; [by apply serving_send|..]; intros (h & taken & waiting & q & Hs & Ea & Eq & Hf & Ht);
    cbn [sv_world sv_accepted sv_closing sv_running] in *.
  - pose proof (Worker_Close_sending h p _ _ q size w (fun _ => False) Hs) as Hw. unfold wpe in Hw. rewrite Hr in Hw.
    exists false, taken, waiting, q. split_and!; [done..|by right|done].
  - assert (h = false) as -> by (destruct h; [by destruct Hlk; eapply sending_open|done]).
    exists false, taken, waiting, (fifo_close q). split_and!; [|done..].
    destruct Hs as [(c' & Hp & S1 & S2 & S3 & S4 & S5 & S6) Hl]. simplify_eq.
    eapply (sending_worker _ _ _ _ _ _ w); try done.
  - pose proof (serving_turn p n0 size w acc cl h taken waiting q Hsize Hs Ea Eq Hf (fun E => proj1 (Ht E))) as Hw.
    by rewrite Hr in Hw.
  - pose proof (serving_turn p n0 size w acc cl h taken waiting q Hsize Hs Ea Eq Hf (fun E => proj1 (Ht E))) as Hw.
    by rewrite Hr in Hw.
  - exists h, taken, waiting, q. split_and!; [by eapply sending_other|done..].
Qed.

Lemma hex_encode_nonempty b l : hex_encode (b :: l) <> EmptyString.
Proof. done. Qed.

Lemma newConnId_nonempty template ip port now : newConnId template ip port now <> EmptyString.
Proof.
  unfold newConnId. destruct (take 6 template ++ ip ++ put_be 2 (u16 port) ++ put_be 4 (u32 now)) as [|b l] eqn:E.
  - apply (f_equal length) in E. rewrite !length_app, !length_put_be in E. cbn in E. lia.
  - apply hex_encode_nonempty.
Qed.

Lemma serving_start p template ip port now n0 size w :
  workers w !! p = Some (newConn cf template ip port now n0 size) -> lists_ok w ->
  serving p n0 size (mkServed w [] false true).
Proof.
  intros Hp Hl. exists (bool_decide (healthy n0)), [], [], (sendCh (newConn cf template ip port now n0 size)).
  split_and!; [|done..|by intros E%bool_decide_eq_false_1; left|done].
  split; [|done]. eexists. split_and!; [exact Hp|apply sent_ok_start|by left|done..|apply newConnId_nonempty|].
  intros E%bool_decide_eq_true_1. split; [done|]. change (wires [].*1) with (@nil Z). by rewrite app_nil_r.
Qed.

Lemma serving_reachable p template ip port now n0 size w s :
  workers w !! p = Some (newConn cf template ip port now n0 size) -> lists_ok w -> (0 < size)%nat ->
  star (serve_step p) (mkServed w [] false true) s -> serving p n0 size s.
Proof.
  intros Hp Hl Hsize Hs. remember (mkServed w [] false true) as s0 eqn:E0.
  assert (serving p n0 size s0) as H0 by (rewrite E0; by eapply serving_start).
  clear E0. induction Hs as [|s0 s1 s2 H1 _ IH]; [done|]. by apply IH, (serving_step p n0 size s0 s1).
Qed.

(** C35: a business connection from its start, whoever sends to it and closes it
    meanwhile: what was accepted is what the sending goroutine has taken, in order,
    followed by what waits; of what it has taken only whole packets in order are on the
    wire, except for a part of one after which the connection is closed; as long as
    nothing fails and nobody closes, all that was taken is on the wire, who reads the
    stream by the lengths gets back the commands and the messages, and the goroutine is in
    its loop, where it waits only when nothing is queued; and once the queue is closed the
    goroutine comes to its end, with all that was accepted dealt with. *)
Theorem loopSend_serves p template ip port now n0 size w s :
  workers w !! p = Some (newConn cf template ip port now n0 size) -> lists_ok w -> (0 < size)%nat ->
  star (serve_step p) (mkServed w [] false true) s ->
  exists c taken waiting, workers (sv_world s) !! p = Some c /\
    sv_accepted s = taken ++ waiting /\ q_items (sendCh c) = waiting.*1 /\
    sent_ok (n_out n0) taken.*1 (w_net c) /\
    (healthy n0 -> sv_closing s = false -> sv_running s = true /\ n_out (w_net c) = n_out n0 ++ wires taken.*1 /\
       (Forall (fun x => packet_set x.2.1 x.2.2 = Some x.1 /\ len (body x.1) + 4 < 2 ^ 32) taken ->
        Forall2 (fun r x => r.1 = u32 x.2.2 /\ marshal x.2.1 = Some r.2)
          (read_packets (S (length taken)) (drop (length (n_out n0)) (n_out (w_net c)))) taken)) /\
    (forall w', run (loopSend_turn cf p) (sv_world s) = Blocked w' -> waiting = [] /\ q_closed (sendCh c) = false) /\
    (q_closed (sendCh c) = true -> forall fuel, (length waiting < fuel)%nat ->
       ends (loopSend cf fuel p) (sv_world s) (fun w' => exists c', workers w' !! p = Some c' /\
         sent_ok (n_out n0) (sv_accepted s).*1 (w_net c'))).
Proof.
  intros Hp0 Hl0 Hsize Hs. destruct (serving_reachable _ _ _ _ _ _ _ _ _ Hp0 Hl0 Hsize Hs) as (h & taken & waiting & q & Hg & Ea & Eq & Hf & Ht).
  pose proof Hg as [(c & Hp & S1 & S2 & S3 & S4 & S5 & S6) Hl]. exists c, taken, waiting. rewrite S3.
  split_and!; [done..| | |].
  - intros Hn Hc. destruct h; [|destruct (Hf eq_refl) as [F|F]; [done|congruence]].
    destruct (S6 eq_refl) as [_ Eo]. split_and!; [by apply Ht|done|]. intros Hall. rewrite Eo, drop_app_length.
    apply read_wires; [done|lia].
  - intros w' Hb. pose proof (serving_turn p n0 size (sv_world s) (sv_accepted s) (sv_closing s) h taken waiting q
      Hsize Hg Ea Eq Hf (fun E => proj1 (Ht E))) as Hw. by rewrite Hb in Hw.
  - intros Hcl fuel Hfuel. apply wpe_recover.
    assert (forall h' q' w', sending h' p (n_out n0) (taken.*1 ++ q_items q) q' size w' ->
              exists c', workers w' !! p = Some c' /\ sent_ok (n_out n0) (sv_accepted s).*1 (w_net c')) as Hend.
    { intros h' q' w' [(c' & Hc' & Hs' & _) _]. exists c'. by rewrite Ea, fmap_app, <- Eq. }
    eapply wpe_mono'; [apply (loopSend_loop_run cf h fuel p _ _ q size (sv_world s) Hg Hcl Hsize)| |].
    + rewrite Eq, length_fmap. exact Hfuel.
    + intros [] w' Hw'. by eapply Hend.
    + intros w' (q' & _ & Hw'). by eapply Hend.
Qed.

End Props.

(** ** The business processes of the example. *)

Open Scope string_scope.
Open Scope Z_scope.
Open Scope list_scope.

Lemma event_collect v : is_event v -> v = 1 \/ v = 2 \/ v = 4.
Proof. done. Qed.

Lemma demo_lists_wf : lists_wf demo_start.
Proof.
  split.
  - intros v [->|[->| ->]]; (eexists; split; [vm_compute; reflexivity|]); cbn [k_conn]; by repeat (constructor; [set_solver|]); constructor.
  - intros p q x y Hp Hq E. apply elem_of_list_to_map_2 in Hp, Hq. cbn in Hp, Hq. rewrite !elem_of_cons in Hp, Hq.
    destruct Hp as [[= -> ->]|[[= -> ->]|[]%elem_of_nil]], Hq as [[= -> ->]|[[= -> ->]|[]%elem_of_nil]]; done.
Qed.

Theorem register_correct_witness :
  wp (register [] 4) demo_start (fun _ w' => listed demo_start 4 = [5%nat] /\ 4%nat ∈ listed w' 4 /\ 5%nat ∈ listed w' 4).
Proof.
  eapply wp_mono; [apply (register_correct [] 4%nat (demo_worker "w1") demo_start); [reflexivity|exact demo_lists_wf]|].
  cbv zeta. intros [] w' (_ & _ & _ & Hl & _). split_and!; [reflexivity|..].
  - apply Hl; [by right; right|]. right. split_and!; [done|reflexivity|]. eexists. split; reflexivity.
  - apply Hl; [by right; right|]. left. vm_compute. left.
Defined.

Theorem unregister_correct_witness :
  wp (unregister [] 5) demo_start (fun _ w' => 4%nat ∈ listed demo_start 1 /\ 4%nat ∉ listed w' 1 /\ 5%nat ∈ listed w' 1).
Proof.
  eapply wp_mono; [apply (unregister_correct [] (mkUnRegisterReq "w1") 5%nat (demo_worker "w2") demo_start);
    [reflexivity|discriminate|reflexivity|exact demo_lists_wf]|].
  intros [] w' (_ & _ & Hl & _). split_and!; [vm_compute; left|..].
  - rewrite Hl by (by left). intros [_ Hn]. by apply Hn.
  - apply Hl; [by left|]. split; [vm_compute; right; left|vm_compute; discriminate].
Defined.

(** A connection that is accepted, two messages for it, a turn, and the close. *)
Definition demo_accepted : workerConn := newConn demo_config [1; 2; 3; 4; 5; 6] [127; 0; 0; 1] 6061 1700000000 demo_net 256.
Definition demo_serve : world := with_workers (insert 4%nat demo_accepted) demo_start.
Definition demo_sent : world := after (Worker_Send 4 MUnRegisterResp Cmd_Unregister) demo_serve.
Definition demo_turned : world := after (loopSend_turn demo_config 4) demo_sent.

Theorem loopSend_serves_witness :
  exists c, workers demo_turned !! 4%nat = Some c /\ q_items (sendCh c) = [] /\
    n_out (w_net c) = [0; 0; 0; 5; 53; 164; 244; 186; 7].
Proof.
  assert (star (serve_step demo_config 4) (mkServed demo_serve [] false true)
    (mkServed demo_turned (sent_now 4 MUnRegisterResp Cmd_Unregister demo_serve) false true)) as Hs.
  { eapply star_cons; [apply (sv_send demo_config 4 MUnRegisterResp Cmd_Unregister demo_serve demo_sent []); vm_compute; reflexivity|].
    eapply star_cons; [|constructor]. eapply (sv_turn demo_config 4 demo_sent true demo_turned). vm_compute. reflexivity. }
  destruct (loopSend_serves demo_config 4%nat [1; 2; 3; 4; 5; 6] [127; 0; 0; 1] 6061 1700000000 demo_net 256 demo_serve _
    (lookup_insert_eq _ _ _) (lists_wf_ok demo_start demo_lists_wf) ltac:(lia) Hs) as (c & taken & waiting & Hc & Ea & Eq & _ & Hh & _).
  destruct (Hh ltac:(by repeat split) eq_refl) as (_ & Eo & _). exists c. split; [exact Hc|].
  assert (q_items (sendCh c) = []) as En by (vm_compute in Hc; injection Hc as <-; reflexivity).
  split; [exact En|]. rewrite Eq in En. destruct waiting; [|discriminate En]. rewrite app_nil_r in Ea.
  rewrite Eo. change taken with (sv_accepted (mkServed demo_turned taken false true)). cbn [sv_accepted] in *. rewrite <- Ea.
  vm_compute. reflexivity.
Defined.

(** A gateway that listens for business processes. *)
Definition demo_listening : config :=
  mkConfig false "/" [] 100 60 64 OpText [104] 1 3 2
           EmptyString EmptyString EmptyString "127.0.0.1:6061" 1024 16 [112] 1024 [113] [] [].

Theorem WManager_Get_round_robin_witness :
  wp (get_times demo_listening 1 2) demo_start (fun l _ => l ≡ₚ [Some 4%nat; Some 5%nat]).
Proof.
  eapply wp_mono; [apply (WManager_Get_round_robin demo_listening 1 (mkCollect [4%nat; 5%nat] 0) demo_start);
    [reflexivity| |by left|reflexivity|vm_compute; discriminate|vm_compute; reflexivity]|].
  - intros _ v [->|[->| ->]]; (eexists; split; [vm_compute; reflexivity|]); cbn [k_conn]; repeat constructor; eexists; vm_compute; reflexivity.
  - intros l w' Hl. exact Hl.
Defined.
