(* ===== verification/ProcessProps.v ===== *)
(** The properties of the loop that serves a task connection and of its queries. *)

From S2P Require Export Views Loop Queries.

Lemma online_info_live {MO : MapOrder} (w : world) u i :
  Inv w -> online_info w u = Some i <-> exists p c, live w p c /\ uniqId (c_info c) = u /\ c_info c = i.
Proof. intros Hw. rewrite online_info_spec by done. unfold live. naive_solver. Qed.

Section Props.
Context {MO : MapOrder} `{Deflate} `{Proto} (cf : config).

(** C30: whatever arrives on a task connection, the loop that serves it returns: it does
    not panic, no command that it runs panics either (none of the deferred recovers has
    anything to do), it does not wait for ever, and one turn more than there are bytes is
    enough. [Process] then ends with the gateway in a good state and the connection closed;
    all it leaves behind are commands to run, each of which keeps the state good and does
    not panic. *)
Theorem Process_total conn n w :
  Inv w -> tasks w !! conn = Some n ->
  exists w1 w' spawned,
    run (process_loop cf (S (length (n_in n))) conn) w = Done tt w1 spawned /\
    run (Process cf conn) w = Done tt w' spawned /\ Inv w' /\
    Forall (fun t => forall w2, Inv w2 -> wp t w2 (fun _ w3 => Inv w3)) spawned /\
    exists n', tasks w' !! conn = Some n' /\ n_closed n' = true.
Proof.
  intros Hw Hn. pose proof (process_loop_run cf (S (length (n_in n))) conn n w Hw Hn ltac:(lia)) as Hl.
  unfold wps in Hl. destruct (run (process_loop _ _ _) w) as [[] w1 ts| | | |] eqn:El; [|done..].
  destruct Hl as ((Hw1 & n1 & Hn1 & _) & Hts).
  exists w1, (with_task conn (net_close n1) w1), ts. split; [done|]. split; [|split_and!; [by eapply Inv_ext|done|]].
  - unfold Process. rewrite (run_net_act conn _ _ n w Hn). cbn [fst snd]. rewrite with_task_id by done.
    rewrite run_bind, (run_recover _ _ _ _ _ El). unfold net_act. cbn [run]. rewrite Hn1. cbn [run started fst snd].
    by rewrite app_nil_r.
  - exists (net_close n1). split; [apply lookup_insert_eq|done].
Qed.

(** A packet as the clients write it (a length, a command, a body), within the
    limit and not the heartbeat, is taken off the stream whole, and the command of its
    number is executed on its body, nothing else. *)
Theorem process_turn_dispatches conn n w cmd param rest :
  tasks w !! conn = Some n -> n_in n = packet_of cmd param ++ rest ->
  n_closed n = false -> head (read_deadline_fails n) <> Some true ->
  - 2 ^ 31 <= cmd < 2 ^ 31 -> len param + 4 < 2 ^ 32 -> len param + 4 <= cf_TaskReceivePackLimit cf ->
  cf_TaskHeartbeatMessage cf <> put_be 4 (u32 cmd) ++ param ->
  run (process_turn cf conn) w = run (exec cf conn cmd param) (with_task conn (read_on n rest) w).
Proof. apply process_turn_run. Qed.

(** C40: a connInfo packet is answered on the connection that asks, with the info of
    exactly those connections of the request that are online, and nothing else
    changes. *)
Theorem connInfo_answered conn n w param rest u :
  Inv w -> tasks w !! conn = Some n -> n_in n = packet_of Cmd_ConnInfo param ++ rest ->
  n_closed n = false -> head (read_deadline_fails n) <> Some true ->
  len param + 4 < 2 ^ 32 -> len param + 4 <= cf_TaskReceivePackLimit cf ->
  cf_TaskHeartbeatMessage cf <> put_be 4 (u32 Cmd_ConnInfo) ++ param ->
  unmarshal_ConnInfoReq param = Some u ->
  wp (process_turn cf conn) w (fun go w' => go = true /\ exists items,
    (forall k x, items !! k = Some x <-> k ∈ ci_UniqIds u /\ exists p c, live w p c /\ uniqId (c_info c) = k /\
                                         x = GetConnInfoOnSafe u (c_info c)) /\
    w' = with_task conn (net_send (MConnInfoResp items) Cmd_ConnInfo (read_on n rest)) w).
Proof.
  intros Hw Hn Hin Hcl Hdl Hlen Hlim Hhb Hm. set (w1 := with_task conn (read_on n rest) w).
  assert (tasks w1 !! conn = Some (read_on n rest)) as Hn1 by apply lookup_insert_eq.
  unfold wp, wps. rewrite (process_turn_run cf conn n w Cmd_ConnInfo param rest) by (done || (vm_compute; split; congruence)).
  change (wp (exec cf conn Cmd_ConnInfo param) w1 (fun go w' => go = true /\ exists items,
    (forall k x, items !! k = Some x <-> k ∈ ci_UniqIds u /\ exists p c, live w p c /\ uniqId (c_info c) = k /\
                                         x = GetConnInfoOnSafe u (c_info c)) /\
    w' = with_task conn (net_send (MConnInfoResp items) Cmd_ConnInfo (read_on n rest)) w)).
  change (exec cf conn Cmd_ConnInfo param) with (recover (connInfo param conn) ;; Ret true).
  apply wp_bind, wp_recover, (connInfo_run w1 conn (read_on n rest) Hw Hn1 param u _ Hm). intros items Hi.
  apply wp_ret. split; [done|]. exists items. split; [|apply with_task_twice].
  intros k x. rewrite Hi. case_decide as Hk; [|split; [done|tauto]]. rewrite fmap_Some. split.
  - intros (i & Ho & ->). split; [done|]. apply online_info_live in Ho as (p & c & Hl & Hu & <-); [|done].
    by exists p, c.
  - intros (_ & p & c & Hl & Hu & ->). exists (c_info c). split; [|done]. apply online_info_live; [done|].
    by exists p, c.
Qed.

(** TopicUniqIdList answers with the subscribers of each topic it is asked for
    that has some, by their uniqIds, and changes nothing else. *)
Theorem topicUniqIdList_correct conn n w param u :
  Inv w -> tasks w !! conn = Some n -> unmarshal_TopicsReq Cmd_TopicUniqIdList param = Some u ->
  wp (topicUniqIdList param conn) w (fun _ w' => exists items,
    (forall t, items !! t = if bool_decide (t ∈ tq_Topics u) && negb (isNil (subscribers (reg w) t))
                            then Some (uniq_of (heap w) <$> subscribers (reg w) t) else None) /\
    w' = with_task conn (net_send (MTopicUniqIdListResp items) Cmd_TopicUniqIdList n) w).
Proof.
  intros Hw Hn Hm. eapply topicUniqIdList_run; [done..|]. intros items Hi. exists items. split; [|done].
  intros t. specialize (Hi t). destruct (items !! t) as [x|].
  - destruct Hi as (Hq & Hs & ->). rewrite bool_decide_true by done. by destruct (subscribers (reg w) t).
  - case_bool_decide as Hq; [|done]. destruct (subscribers (reg w) t); [done|]. destruct Hi. done.
Qed.

End Props.

(** ** A task connection of the example. *)

Open Scope string_scope.
Open Scope Z_scope.
Open Scope list_scope.

Definition asking (b : bytes) : netConn := mkNet b [] false [] [] [].
Definition demo_asking (b : bytes) : world := with_task 9 (asking b) demo_world.

Lemma with_task_Inv conn n w : Inv w -> Inv (with_task conn n w).
Proof. by destruct w. Qed.

Lemma with_task_lookup conn n w : tasks (with_task conn n w) !! conn = Some n.
Proof. destruct w. apply lookup_insert_eq. Qed.

Lemma demo_asking_Inv b : Inv (demo_asking b).
Proof. apply with_task_Inv, demo_world_Inv. Qed.

Lemma demo_asking_lookup b : tasks (demo_asking b) !! 9%nat = Some (asking b).
Proof. apply with_task_lookup. Qed.

Theorem Process_total_witness :
  exists w1 w' spawned,
    run (process_loop demo_config 6 9) (demo_asking [0; 0; 0; 9; 1]) = Done tt w1 spawned /\
    run (Process demo_config 9) (demo_asking [0; 0; 0; 9; 1]) = Done tt w' spawned /\ Inv w'.
Proof.
  destruct (Process_total demo_config 9%nat (asking [0; 0; 0; 9; 1]) _ (demo_asking_Inv _) (demo_asking_lookup _))
    as (w1 & w' & ts & H1 & H2 & H3 & _). exists w1, w', ts. split_and!; [exact H1|exact H2|exact H3].
Defined.

Theorem process_turn_dispatches_witness :
  run (process_turn demo_config 9) (demo_asking (packet_of Cmd_BroadcastBulk [1] ++ [7])) =
  run (exec demo_config 9 Cmd_BroadcastBulk [1]) (with_task 9 (asking [7]) (demo_asking (packet_of Cmd_BroadcastBulk [1] ++ [7]))).
Proof.
  apply (process_turn_dispatches demo_config 9%nat (asking (packet_of Cmd_BroadcastBulk [1] ++ [7]))
    (demo_asking (packet_of Cmd_BroadcastBulk [1] ++ [7])) Cmd_BroadcastBulk [1] [7] (demo_asking_lookup _));
    try reflexivity; vm_compute; try discriminate; split; congruence.
Defined.

Theorem connInfo_answered_witness :
  wp (process_turn demo_config 9) (demo_asking (packet_of Cmd_ConnInfo [])) (fun go w' => go = true /\ exists items,
    items !! "u3" = None /\ is_Some (items !! "u2") /\
    w' = with_task 9 (net_send (MConnInfoResp items) Cmd_ConnInfo (asking [])) (demo_asking (packet_of Cmd_ConnInfo []))).
Proof.
  eapply wp_mono; [apply (connInfo_answered demo_config 9%nat (asking (packet_of Cmd_ConnInfo []))
    (demo_asking (packet_of Cmd_ConnInfo [])) [] [] (mkConnInfoReq ["u1"; "u2"] true true true)
    (demo_asking_Inv _) (demo_asking_lookup _)); try reflexivity; vm_compute; discriminate|].
  intros go w' (-> & items & Hi & ->). split; [reflexivity|]. exists items. split_and!.
  - destruct (items !! "u3") as [x|] eqn:E; [|reflexivity]. apply Hi in E as [E _].
    apply elem_of_cons in E as [E|E]; [discriminate|]. apply list_elem_of_singleton in E. discriminate.
  - destruct (heap demo_world !! 2%nat) as [c|] eqn:E; [|vm_compute in E; discriminate].
    exists (GetConnInfoOnSafe (mkConnInfoReq ["u1"; "u2"] true true true) (c_info c)). apply Hi.
    split; [right; left|]. exists 2%nat, c. vm_compute in E. injection E as <-. repeat split; vm_compute; reflexivity.
  - reflexivity.
Defined.

Theorem topicUniqIdList_correct_witness :
  wp (topicUniqIdList [] 9) (demo_asking []) (fun _ w' =>
    w' = with_task 9 (net_send (MTopicUniqIdListResp {["news" := ["u2"]]}) Cmd_TopicUniqIdList (asking [])) (demo_asking [])).
Proof.
  eapply wp_mono; [apply (topicUniqIdList_correct 9%nat (asking []) (demo_asking []) [] (mkTopicsReq ["news"])
    (demo_asking_Inv _) (demo_asking_lookup _)); reflexivity|].
  intros [] w' (items & Hi & ->). assert (items = {["news" := ["u2"]]}) as ->; [|reflexivity].
  apply map_eq. intros t. rewrite Hi. destruct (decide (t = "news")) as [->|Hne].
  - rewrite lookup_singleton_eq. vm_compute. reflexivity.
  - rewrite lookup_singleton_ne by congruence. rewrite bool_decide_false; [reflexivity|].
    cbn [tq_Topics]. intros Ht. apply list_elem_of_singleton in Ht. congruence.
Defined.
