(* ===== verification/QueueInv.v ===== *)
(** The invariant of the ring: what head, tail, the sequence numbers and the data say
    about the history, whatever step each goroutine is at. *)

From S2P Require Export Queue.

Module QueueInv.
Import Queue.

Section Inv.
Context {A : Type} (zero : A).

Abbreviation pc := (Queue.pc (A := A)).
Abbreviation cpc := (Queue.cpc (A := A)).
Abbreviation ring := (Queue.ring (A := A)).
Abbreviation sequenceAt := (Queue.sequenceAt (A := A)).
Abbreviation dataAt := (Queue.dataAt zero).

(** ** Positions and slots *)

(** The mask is a power of two less one, and there are as many slots. *)
Definition shape (r : ring) : Prop :=
  exists j, 1 <= j <= 16 /\ r_mask r = 2 ^ j - 1 /\
    length (r_seqs r) = Z.to_nat (Cap r) /\ length (r_cells r) = Z.to_nat (Cap r).

Lemma shape_cap r : shape r -> 2 <= Cap r <= 65536.
Proof.
  intros (j & Hj & E & _). unfold Cap. rewrite E. replace (2 ^ j - 1 + 1) with (2 ^ j) by lia. split.
  - change 2 with (2 ^ 1) at 1. apply Z.pow_le_mono_r; lia.
  - change 65536 with (2 ^ 16). apply Z.pow_le_mono_r; lia.
Qed.

Lemma index_mod r p : shape r -> index r p = Z.to_nat (p mod Cap r).
Proof.
  intros (j & Hj & E & _). unfold index, Cap. rewrite E. replace (2 ^ j - 1 + 1) with (2 ^ j) by lia.
  f_equal. rewrite <- Z.land_ones by lia. f_equal. rewrite Z.ones_equiv. lia.
Qed.

Lemma index_lt r p : shape r -> (index r p < Z.to_nat (Cap r))%nat.
Proof. intros Hs. rewrite index_mod by done. pose proof (shape_cap r Hs). pose proof (Z.mod_pos_bound p (Cap r) ltac:(lia)). lia. Qed.

Lemma index_inj r p q : shape r -> index r p = index r q -> Z.abs (p - q) < Cap r -> p = q.
Proof.
  intros Hs E Hd. rewrite !index_mod in E by done. pose proof (shape_cap r Hs) as Hc.
  pose proof (Z.mod_pos_bound p (Cap r) ltac:(lia)). pose proof (Z.mod_pos_bound q (Cap r) ltac:(lia)).
  assert (p mod Cap r = q mod Cap r) as Em by lia.
  pose proof (Z.div_mod p (Cap r) ltac:(lia)) as Dp. pose proof (Z.div_mod q (Cap r) ltac:(lia)) as Dq.
  assert (p - q = Cap r * (p / Cap r - q / Cap r)) as D by lia.
  assert (p / Cap r - q / Cap r = 0) as K by (clear -Hd D Hc; nia). rewrite K in D. lia.
Qed.

Lemma index_cap r p : shape r -> index r (p + Cap r) = index r p.
Proof.
  intros Hs. rewrite !index_mod by done. pose proof (shape_cap r Hs). f_equal.
  replace (p + Cap r) with (p + 1 * Cap r) by lia. apply Z.mod_add. lia.
Qed.

Lemma sequenceAt_set r p v q :
  shape r -> Z.abs (p - q) < Cap r ->
  sequenceAt (set_sequence p v r) q = if decide (p = q) then v else sequenceAt r q.
Proof.
  intros Hs Hd. unfold Queue.sequenceAt. change (index (set_sequence p v r) q) with (index r q). cbn [r_seqs set_sequence].
  pose proof Hs as (_ & _ & _ & Hl & _). case_decide as E.
  - subst q. rewrite list_lookup_insert_eq; [done|]. rewrite Hl. by apply index_lt.
  - rewrite list_lookup_insert_ne; [done|]. intros Ei. apply E. by apply (index_inj r).
Qed.

Lemma dataAt_set r p x q :
  shape r -> Z.abs (p - q) < Cap r ->
  dataAt (set_data p x r) q = if decide (p = q) then x else dataAt r q.
Proof.
  intros Hs Hd. unfold Queue.dataAt. change (index (set_data p x r) q) with (index r q). cbn [r_cells set_data].
  pose proof Hs as (_ & _ & _ & _ & Hl). case_decide as E.
  - subst q. rewrite list_lookup_insert_eq; [done|]. rewrite Hl. by apply index_lt.
  - rewrite list_lookup_insert_ne; [done|]. intros Ei. apply E. by apply (index_inj r).
Qed.

(** ** The invariant *)

(** Positions below [taken] have been read, those below [freed] can be written again,
    those below [given] have been returned. *)
Definition taken (r : ring) (c : cpc) : Z :=
  match c with CRead _ _ t _ | CTake _ _ t _ | CCommit t _ => t | _ => r_tail r end.
Definition freed (r : ring) (c : cpc) : Z :=
  match c with CRelease base i _ => base + Z.of_nat i | _ => r_tail r end.
Definition given (r : ring) (c : cpc) : Z :=
  match c with CRelease base _ _ => base | _ => r_tail r end.

(** The position and the datum of a goroutine whose compare-and-swap succeeded. *)
Definition claim_of (p : pc) : option (Z * A) :=
  match p with EWrite x h | EStore x h => Some (h, x) | _ => None end.

Definition at_pos (hs : list A) (p : Z) : option A := hs !! Z.to_nat p.

Definition slots (r : ring) (ths : gmap nat pc) (hs : list A) (R U : Z) : Prop :=
  forall p, R <= p < R + Cap r ->
    (p < U -> sequenceAt r p = p + 1) /\
    (U <= p < r_head r ->
       (sequenceAt r p = p /\ exists tid pc x, ths !! tid = Some pc /\ claim_of pc = Some (p, x)) \/
       (sequenceAt r p = p + 1 /\ at_pos hs p = Some (dataAt r p))) /\
    (r_head r <= p -> sequenceAt r p = p).

Definition thread_ok (r : ring) (hs : list A) (R U : Z) (p : pc) : Prop :=
  match p with
  | ESeq _ _ h | EFull _ h => 0 <= h <= r_head r
  | ECas _ _ h => 0 <= h <= r_head r /\ h < R + Cap r
  | EWrite x h => U <= h < r_head r /\ sequenceAt r h = h /\ at_pos hs h = Some x
  | EStore x h => U <= h < r_head r /\ sequenceAt r h = h /\ at_pos hs h = Some x /\ dataAt r h = x
  | _ => True
  end.

Definition unique (ths : gmap nat pc) : Prop :=
  forall t1 t2 p1 p2 pos x1 x2, ths !! t1 = Some p1 -> ths !! t2 = Some p2 ->
    claim_of p1 = Some (pos, x1) -> claim_of p2 = Some (pos, x2) -> t1 = t2.

(** The consumer holds [res]: what is between two positions of the history. *)
Definition holds (hs : list A) (a b : Z) (res : list A) : Prop :=
  b = a + len res /\ take (Z.to_nat b) hs = take (Z.to_nat a) hs ++ res.

Definition consumer_ok (r : ring) (hs : list A) (c : cpc) : Prop :=
  match c with
  | CRead _ _ t res => holds hs (r_tail r) t res
  | CTake _ _ t res => holds hs (r_tail r) t res /\ t < r_head r /\ sequenceAt r t = t + 1
  | CCommit t res => holds hs (r_tail r) t res /\ res <> []
  | CRelease base i res => holds hs base (r_tail r) res /\ (i <= length res)%nat
  | _ => True
  end.

Record inv (r : ring) (ths : gmap nat pc) (c : cpc) (hs gt : list A) : Prop := {
  i_shape : shape r;
  i_order : 0 <= given r c <= freed r c /\ freed r c <= r_tail r <= taken r c /\
            taken r c <= r_head r <= freed r c + Cap r;
  i_head : r_head r = len hs;
  i_slots : slots r ths hs (freed r c) (taken r c);
  i_threads : forall tid p, ths !! tid = Some p -> thread_ok r hs (freed r c) (taken r c) p;
  i_unique : unique ths;
  i_consumer : consumer_ok r hs c;
  i_got : gt = take (Z.to_nat (given r c)) hs;
}.

(** The counters are far from wrapping. *)
Definition bounded (r : ring) (hs : list A) : Prop := len hs + Cap r < 2 ^ 64.

(** ** Goroutines *)

Lemma claims_insert (ths : gmap nat pc) tid p p' pos :
  ths !! tid = Some p -> claim_of p = None ->
  (exists t q x, ths !! t = Some q /\ claim_of q = Some (pos, x)) ->
  exists t q x, <[tid := p']> ths !! t = Some q /\ claim_of q = Some (pos, x).
Proof.
  intros Hp Hn (t & q & x & Hq & Hc). exists t, q, x. split; [|done]. rewrite lookup_insert_ne; [done|].
  intros ->. congruence.
Qed.

Lemma threads_insert (P Q : pc -> Prop) (ths : gmap nat pc) tid p' :
  (forall t p, ths !! t = Some p -> P p) -> (forall t p, t <> tid -> ths !! t = Some p -> P p -> Q p) -> Q p' ->
  forall t p, <[tid := p']> ths !! t = Some p -> Q p.
Proof.
  intros Hold Hpq Hnew t p Ht. apply lookup_insert_Some in Ht as [[-> ->]|[Hne Ht]]; [done|]. eauto.
Qed.

Lemma unique_insert (ths : gmap nat pc) tid p' :
  unique ths ->
  (forall pos x, claim_of p' = Some (pos, x) -> forall t q y, t <> tid -> ths !! t = Some q -> claim_of q <> Some (pos, y)) ->
  unique (<[tid := p']> ths).
Proof.
  intros Hu Hnew t1 t2 p1 p2 pos x1 x2 H1 H2 C1 C2. apply lookup_insert_Some in H1, H2.
  destruct H1 as [[<- <-]|[N1 H1]], H2 as [[<- <-]|[N2 H2]]; [done|..].
  - exfalso. by eapply (Hnew pos x1 C1 t2 p2 x2).
  - exfalso. by eapply (Hnew pos x2 C2 t1 p1 x1).
  - by eapply (Hu t1 t2 p1 p2).
Qed.

(** A step that only moves the goroutine on. *)
Lemma inv_thread r ths c hs gt tid p p' :
  inv r ths c hs gt -> ths !! tid = Some p -> claim_of p = None -> claim_of p' = None ->
  thread_ok r hs (freed r c) (taken r c) p' -> inv r (<[tid := p']> ths) c hs gt.
Proof.
  intros [Hs Ho Hh Hsl Ht Hu Hc Hg] Hp Hn Hn' Hok. split; try done.
  - intros q Hq. destruct (Hsl q Hq) as (S1 & S2 & S3). split_and!; [done| |done].
    intros Hq'. destruct (S2 Hq') as [[E Hcl]|Hr]; [left|by right]. split; [done|]. by eapply claims_insert.
  - by eapply threads_insert.
  - apply unique_insert; [done|]. intros pos x. by rewrite Hn'.
Qed.

(** A step of the consumer that changes no counter. *)
Lemma inv_consumer r ths c c' hs gt :
  inv r ths c hs gt -> taken r c' = taken r c -> freed r c' = freed r c -> given r c' = given r c ->
  consumer_ok r hs c' -> inv r ths c' hs gt.
Proof. intros [Hs Ho Hh Hsl Ht Hu Hc Hg] E1 E2 E3 Hok. split; rewrite ?E1, ?E2, ?E3; done. Qed.

(** The flag and the token are not looked at. *)
Lemma inv_flags r ths c hs gt (b1 b2 : bool) :
  inv r ths c hs gt -> inv (set_closed b1 r) ths c hs gt /\ inv (set_noticer b2 r) ths c hs gt.
Proof. intros [Hs Ho Hh Hsl Ht Hu Hc Hg]. split; destruct r; split; done. Qed.

(** ** The steps of a producer *)

Lemma at_pos_app (hs : list A) x p : 0 <= p -> p < len hs -> at_pos (hs ++ [x]) p = at_pos hs p.
Proof. intros Hp Hl. unfold at_pos, len in *. apply lookup_app_l. lia. Qed.

Lemma at_pos_last (hs : list A) x : at_pos (hs ++ [x]) (len hs) = Some x.
Proof. unfold at_pos, len. rewrite Nat2Z.id. by apply list_lookup_middle. Qed.

Lemma take_app_le_Z (hs k : list A) p : p <= len hs -> take (Z.to_nat p) (hs ++ k) = take (Z.to_nat p) hs.
Proof. intros Hp. unfold len in Hp. apply take_app_le. lia. Qed.

Lemma holds_app (hs k : list A) a b res : a <= b -> b <= len hs -> holds hs a b res -> holds (hs ++ k) a b res.
Proof. intros Ha Hb [E Et]. split; [done|]. rewrite !take_app_le_Z by lia. exact Et. Qed.

(** The sequence number of a slot that is outside the window by one round. *)
Lemma outside_window r ths c hs gt :
  inv r ths c hs gt -> let R := freed r c in
  sequenceAt r (R + Cap r) = R + 1 \/ sequenceAt r (R + Cap r) = R.
Proof.
  intros [Hs Ho Hh Hsl _ _ _ _] R. pose proof (shape_cap r Hs) as Hc.
  unfold Queue.sequenceAt. rewrite index_cap by done. fold (sequenceAt r R).
  destruct (Hsl R) as (S1 & S2 & S3); [unfold R; lia|].
  destruct (decide (R < taken r c)); [left; auto|]. destruct (decide (R < r_head r)).
  - destruct S2 as [[? _]|[? _]]; [lia|by right|by left].
  - right. apply S3. lia.
Qed.

(** A slot whose sequence number is its position is inside the window. *)
Lemma seen_free r ths c hs gt h :
  inv r ths c hs gt -> h <= r_head r -> sequenceAt r h = h -> h < freed r c + Cap r.
Proof.
  intros Hi Hh Es. pose proof (i_order _ _ _ _ _ Hi) as Ho. pose proof (shape_cap r (i_shape _ _ _ _ _ Hi)) as Hc.
  destruct (decide (h = freed r c + Cap r)) as [->|]; [|lia].
  destruct (outside_window r ths c hs gt Hi) as [E|E]; lia.
Qed.

(** ... and one whose sequence number is the next has been written. *)
Lemma seen_ready r ths c hs gt t :
  inv r ths c hs gt -> taken r c = t -> sequenceAt r t = t + 1 -> t < r_head r.
Proof.
  intros Hi Ht Es. pose proof (i_order _ _ _ _ _ Hi) as Ho. pose proof (shape_cap r (i_shape _ _ _ _ _ Hi)) as Hc.
  destruct (decide (t < r_head r)); [done|]. exfalso. destruct (decide (t = freed r c + Cap r)) as [E|].
  - rewrite E in Es. destruct (outside_window r ths c hs gt Hi) as [E'|E']; lia.
  - destruct (i_slots _ _ _ _ _ Hi t) as (_ & _ & S3); [lia|]. lia.
Qed.

Lemma thread_ok_cas r hs R U x p :
  r_head r = len hs -> 0 <= U -> thread_ok r hs R U p -> thread_ok (set_head (r_head r + 1) r) (hs ++ [x]) R U p.
Proof.
  intros Hh HU. destruct p; cbn; try done.
  - lia.
  - intros. split; [lia|]. change (Cap (set_head _ r)) with (Cap r). lia.
  - intros (H1 & H2 & H3). split_and!; [lia|lia|exact H2|]. rewrite at_pos_app by lia. done.
  - intros (H1 & H2 & H3 & H4). split_and!; [lia|lia|exact H2| |exact H4]. rewrite at_pos_app by lia. done.
  - lia.
Qed.

Lemma inv_cas r ths c hs gt tid k x h :
  inv r ths c hs gt -> ths !! tid = Some (ECas k x h) -> r_head r = h -> bounded r (hs ++ [x]) ->
  inv (set_head (u64 (h + 1)) r) (<[tid := EWrite x h]> ths) c (hs ++ [x]) gt.
Proof.
  intros [Hs Ho Hh Hsl Ht Hu Hc Hg] Hp <- Hb. unfold bounded in Hb. rewrite len_app in Hb. change (len [x]) with 1 in Hb.
  pose proof (shape_cap r Hs) as Hcap. rewrite u64_small by lia.
  destruct (Ht tid _ Hp) as [_ Hwin]. set (h := r_head r) in *.
  assert (taken (set_head (h + 1) r) c = taken r c) as E1 by (by destruct c).
  assert (freed (set_head (h + 1) r) c = freed r c) as E2 by (by destruct c).
  assert (given (set_head (h + 1) r) c = given r c) as E3 by (by destruct c).
  change (Cap (set_head (h + 1) r)) with (Cap r).
  split; rewrite ?E1, ?E2, ?E3; cbn [r_head r_tail set_head]; change (Cap (set_head (h + 1) r)) with (Cap r).
  - exact Hs.
  - lia.
  - rewrite len_app, Hh. done.
  - intros p Hpw. change (Cap (set_head (h + 1) r)) with (Cap r) in Hpw.
    destruct (Hsl p Hpw) as (S1 & S2 & S3). split_and!; cbn [r_head set_head]; [exact S1| |intros; apply S3; lia].
    intros [Hp1 Hp2]. destruct (decide (p = h)) as [->|Hne].
    + left. split; [apply S3; lia|]. exists tid, (EWrite x h), x. rewrite lookup_insert_eq. done.
    + destruct S2 as [[E Hcl]|[E Ep]]; [lia| |].
      * left. split; [exact E|]. by eapply claims_insert.
      * right. split; [exact E|]. rewrite at_pos_app by lia. exact Ep.
  - apply (threads_insert _ _ ths tid (EWrite x h) Ht).
    + intros t p _ _ Hok. apply thread_ok_cas; [done|lia|done].
    + cbn. split_and!; [lia|lia| |].
      * destruct (Hsl h) as (_ & _ & S3); [lia|]. apply S3. lia.
      * rewrite Hh. apply at_pos_last.
  - apply unique_insert; [done|]. intros pos y [= <- <-] t q z Hne Hq Hcl.
    specialize (Ht t q Hq). destruct q; cbn in Hcl, Ht; simplify_eq; lia.
  - destruct c; cbn in *; try done.
    + apply holds_app; [lia|lia|done].
    + destruct Hc as (Hc1 & Hc2 & Hc3). split_and!; [apply holds_app; [lia|lia|done]|lia|exact Hc3].
    + destruct Hc as (Hc1 & Hc2). split; [apply holds_app; [lia|lia|done]|done].
    + destruct Hc as (Hc1 & Hc2). split; [apply holds_app; [lia|lia|done]|done].
  - rewrite take_app_le_Z by lia. exact Hg.
Qed.

(** Two positions of the window are less than a round apart. *)
Lemma window_near r ths c hs gt p q :
  inv r ths c hs gt -> freed r c <= p < freed r c + Cap r -> freed r c <= q < freed r c + Cap r -> Z.abs (p - q) < Cap r.
Proof. intros [Hs _ _ _ _ _ _ _] Hp Hq. lia. Qed.

(** The goroutine that has position [h] is the only one. *)
Lemma sole_claim ths tid p h x t q y :
  unique ths -> ths !! tid = Some p -> claim_of p = Some (h, x) -> t <> tid -> ths !! t = Some q -> claim_of q <> Some (h, y).
Proof. intros Hu Hp Hc Hne Hq Hcq. apply Hne. by eapply (Hu t tid q p). Qed.

Lemma thread_ok_frame r r' hs R U p :
  r_head r' = r_head r -> Cap r' = Cap r ->
  (forall h x, claim_of p = Some (h, x) -> U <= h < r_head r -> sequenceAt r' h = sequenceAt r h /\ dataAt r' h = dataAt r h) ->
  thread_ok r hs R U p -> thread_ok r' hs R U p.
Proof.
  intros Eh Ec Hf. destruct p; cbn in *; rewrite ?Eh, ?Ec; try done.
  - intros (H1 & H2 & H3). destruct (Hf h x eq_refl H1) as [-> _]. done.
  - intros (H1 & H2 & H3 & H4). destruct (Hf h x eq_refl H1) as [-> ->]. done.
Qed.

Lemma inv_write r ths c hs gt tid x h :
  inv r ths c hs gt -> ths !! tid = Some (EWrite x h) ->
  inv (set_data h x r) (<[tid := EStore x h]> ths) c hs gt.
Proof.
  intros Hi Hp. pose proof Hi as [Hs Ho Hh Hsl Ht Hu Hc Hg].
  destruct (Ht tid _ Hp) as (H1 & H2 & H3). set (r' := set_data h x r).
  assert (forall q, freed r c <= q < freed r c + Cap r -> q <> h -> dataAt r' q = dataAt r q) as Hd.
  { intros q Hq Hne. unfold r'. rewrite dataAt_set; [|done|eapply window_near; [exact Hi|lia|lia]]. by rewrite decide_False. }
  assert (taken r' c = taken r c) as E1 by (by destruct c).
  assert (freed r' c = freed r c) as E2 by (by destruct c).
  assert (given r' c = given r c) as E3 by (by destruct c).
  split; rewrite ?E1, ?E2, ?E3; try done.
  - destruct Hs as (j & Hj & Em & L1 & L2). exists j. unfold r'. cbn [r_mask r_seqs r_cells set_data]. rewrite length_insert. done.
  - intros p Hpw. destruct (Hsl p Hpw) as (S1 & S2 & S3). split_and!; [done| |done].
    intros Hpr. destruct (S2 Hpr) as [[E (t & q & y & Hq & Hcl)]|[E Ep]].
    + left. split; [done|]. destruct (decide (t = tid)) as [->|Hne].
      * exists tid, (EStore x h), x. rewrite lookup_insert_eq. split; [done|]. assert (q = EWrite x h) as -> by congruence. cbn in Hcl |- *. congruence.
      * exists t, q, y. by rewrite lookup_insert_ne.
    + right. split; [done|]. rewrite Hd; [done|done|]. intros ->. lia.
  - apply (threads_insert _ _ ths tid (EStore x h) Ht).
    + intros t p Hne Hq. apply thread_ok_frame; [done|done|]. intros h' y Hcl Hh'. split; [done|]. apply Hd; [lia|].
      intros ->. by eapply (sole_claim ths tid (EWrite x h) h x t p y).
    + cbn. split_and!; [lia|lia|done|done|]. unfold r'. rewrite dataAt_set by (done || lia). by rewrite decide_True.
  - apply unique_insert; [done|]. intros pos y [= <- <-] t q z Hne Hq. by eapply (sole_claim ths tid (EWrite x h) h x t q z).
Qed.

Lemma inv_store r ths c hs gt tid x h :
  inv r ths c hs gt -> ths !! tid = Some (EStore x h) -> bounded r hs ->
  inv (set_sequence h (u64 (h + 1)) r) (<[tid := ENotify]> ths) c hs gt.
Proof.
  intros Hi Hp Hb. pose proof Hi as [Hs Ho Hh Hsl Ht Hu Hc Hg]. unfold bounded in Hb.
  destruct (Ht tid _ Hp) as (H1 & H2 & H3 & H4). rewrite u64_small by lia. set (r' := set_sequence h (h + 1) r).
  assert (forall q, freed r c <= q < freed r c + Cap r ->
            sequenceAt r' q = if decide (h = q) then h + 1 else sequenceAt r q) as Hq.
  { intros q Hq. unfold r'. rewrite sequenceAt_set; [done|done|eapply window_near; [exact Hi|lia|lia]]. }
  assert (taken r' c = taken r c) as E1 by (by destruct c).
  assert (freed r' c = freed r c) as E2 by (by destruct c).
  assert (given r' c = given r c) as E3 by (by destruct c).
  split; rewrite ?E1, ?E2, ?E3; try done.
  - destruct Hs as (j & Hj & Em & L1 & L2). exists j. unfold r'. cbn [r_mask r_seqs r_cells set_sequence]. rewrite length_insert. done.
  - intros p Hpw. destruct (Hsl p Hpw) as (S1 & S2 & S3). rewrite Hq by done. case_decide as E.
    + subst p. split_and!; [lia| |change (r_head r') with (r_head r); lia]. intros _. right. split; [done|].
      change (dataAt r' h) with (dataAt r h). by rewrite H4.
    + split_and!; [done| |done]. intros Hpr. destruct (S2 Hpr) as [[Es (t & q & y & Ht' & Hcl)]|Hr]; [left|by right].
      split; [done|]. exists t, q, y. rewrite lookup_insert_ne; [done|]. intros <-. assert (q = EStore x h) as -> by congruence. cbn in Hcl. congruence.
  - apply (threads_insert _ _ ths tid ENotify Ht); [|done].
    intros t p Hne Ht'. apply thread_ok_frame; [done|done|]. intros h' y Hcl Hh'. split; [|done]. rewrite Hq by lia.
    rewrite decide_False; [done|]. intros <-. by eapply (sole_claim ths tid (EStore x h) h x t p y).
  - apply unique_insert; [done|]. by intros pos y.
  - destruct c; try done. destruct Hc as (Hc1 & Hc2 & Hc3). split_and!; [done|done|]. cbn in *. rewrite Hq by lia.
    rewrite decide_False; [done|]. intros <-. lia.
Qed.

(** ** The steps of the consumer *)

Lemma inv_take r ths hs gt limit sched t res :
  inv r ths (CTake limit sched t res) hs gt -> bounded r hs ->
  inv (set_data t zero r) ths (CRead limit sched (u64 (t + 1)) (res ++ [dataAt r t])) hs gt.
Proof.
  intros Hi Hb. pose proof Hi as [Hs Ho Hh Hsl Ht Hu Hc Hg]. unfold bounded in Hb. cbn in Ho, Hsl, Ht, Hc, Hg.
  destruct Hc as ([Er Etk] & Hlt & Es). rewrite u64_small by lia. set (r' := set_data t zero r).
  assert (forall q, r_tail r <= q < r_tail r + Cap r -> q <> t -> dataAt r' q = dataAt r q) as Hd.
  { intros q Hq Hne. unfold r'. rewrite dataAt_set; [|done|lia]. by rewrite decide_False. }
  assert (at_pos hs t = Some (dataAt r t)) as Hat.
  { destruct (Hsl t) as (_ & S2 & _); [lia|]. destruct S2 as [[E _]|[_ E]]; [lia|lia|done]. }
  split; cbn [taken freed given]; try done.
  - destruct Hs as (j & Hj & Em & L1 & L2). exists j. unfold r'. cbn [r_mask r_seqs r_cells set_data]. rewrite length_insert. done.
  - change (Cap r') with (Cap r). change (r_head r') with (r_head r). change (r_tail r') with (r_tail r). lia.
  - intros p Hpw. change (r_tail r') with (r_tail r) in Hpw. change (Cap r') with (Cap r) in Hpw.
    destruct (Hsl p Hpw) as (S1 & S2 & S3). split_and!; [| |done].
    + intros Hpt. destruct (decide (p = t)) as [->|]; [exact Es|]. apply S1. lia.
    + intros Hpr. destruct S2 as [Hcl|[E Ep]]; [change (r_head r') with (r_head r) in Hpr; lia|by left|].
      right. split; [exact E|]. rewrite Hd; [done|done|lia].
  - intros tid p Hp. specialize (Ht tid p Hp).
    assert (forall h x, claim_of p = Some (h, x) -> t < h < r_head r) as Hcl.
    { intros h x Hcl. destruct p; try discriminate Hcl; injection Hcl as <- <-; destruct Ht as (B1 & B2 & _);
        match type of B2 with sequenceAt r ?h = _ => destruct (decide (h = t)) as [Eh|] end; try rewrite Eh in B2; lia. }
    destruct p; cbn in *; try done.
    + destruct (Hcl h x eq_refl). destruct Ht as (? & ? & ?). split_and!; [lia|lia|done|done].
    + destruct (Hcl h x eq_refl). destruct Ht as (? & ? & ? & Ex). split_and!; [lia|lia|done|done|].
      rewrite Hd; [done|lia|lia].
  - cbn. split; [rewrite len_app; change (len [_]) with 1; change (r_tail r') with (r_tail r); lia|].
    change (r_tail r') with (r_tail r). replace (Z.to_nat (t + 1)) with (S (Z.to_nat t)) by lia.
    rewrite (take_S_r _ _ (dataAt r t)) by exact Hat. rewrite Etk. by rewrite app_assoc.
Qed.

Lemma inv_commit r ths hs gt t res :
  inv r ths (CCommit t res) hs gt -> bounded r hs ->
  inv (set_tail t r) ths (CRelease (u64 (t - len res)) 0 res) hs gt.
Proof.
  intros Hi Hb. pose proof Hi as [Hs Ho Hh Hsl Ht Hu Hc Hg]. unfold bounded in Hb. cbn in Ho, Hsl, Ht, Hc, Hg.
  destruct Hc as ([Er Etk] & Hne). pose proof (len_nonneg res). pose proof (shape_cap r Hs).
  rewrite u64_small by lia. replace (t - len res) with (r_tail r) by lia.
  split; cbn [taken freed given r_head r_tail set_tail Z.of_nat]; rewrite ?Z.add_0_r; try done.
  - change (Cap (set_tail t r)) with (Cap r). lia.
  - cbn. split; [|lia]. split; [lia|exact Etk].
Qed.

Lemma inv_release r ths hs gt base i res :
  inv r ths (CRelease base i res) hs gt -> bounded r hs -> (i < length res)%nat ->
  inv (set_sequence (u64 (base + Z.of_nat i)) (u64 (u64 (base + Z.of_nat i) + r_mask r + 1)) r) ths
      (CRelease base (S i) res) hs gt.
Proof.
  intros Hi Hb Hlt. pose proof Hi as [Hs Ho Hh Hsl Ht Hu Hc Hg]. unfold bounded in Hb. cbn in Ho, Hsl, Ht, Hc, Hg.
  destruct Hc as ([Er Etk] & Hle). pose proof (shape_cap r Hs) as Hcap.
  assert (r_mask r + 1 = Cap r) as Em by done. unfold len in Er.
  rewrite (u64_small (base + Z.of_nat i)) by lia. set (R := base + Z.of_nat i) in *.
  rewrite (u64_small (R + r_mask r + 1)) by lia. replace (R + r_mask r + 1) with (R + Cap r) by lia.
  set (r' := set_sequence R (R + Cap r) r).
  assert (forall q, R < q < R + Cap r -> sequenceAt r' q = sequenceAt r q) as Hq.
  { intros q Hq. unfold r'. rewrite sequenceAt_set; [|done|lia]. by rewrite decide_False by lia. }
  assert (sequenceAt r' (R + Cap r) = R + Cap r) as Hlast.
  { unfold Queue.sequenceAt. change (index r' (R + Cap r)) with (index r (R + Cap r)). rewrite index_cap by done.
    fold (sequenceAt r' R). unfold r'. change (default 0 _) with (sequenceAt (set_sequence R (R + Cap r) r) R).
    rewrite sequenceAt_set; [|done|lia]. by rewrite decide_True. }
  replace (base + Z.of_nat (S i)) with (R + 1) by lia.
  split; cbn [taken freed given]; replace (base + Z.of_nat (S i)) with (R + 1) by lia;
    change (r_head r') with (r_head r); change (r_tail r') with (r_tail r); change (Cap r') with (Cap r); try done.
  - destruct Hs as (j & Hj & Emm & L1 & L2). exists j. unfold r'. cbn [r_mask r_seqs r_cells set_sequence]. rewrite length_insert. done.
  - lia.
  - intros p Hpw. change (r_head r') with (r_head r). change (Cap r') with (Cap r) in Hpw.
    destruct (decide (p = R + Cap r)) as [->|Hne].
    + rewrite Hlast. split_and!; lia.
    + rewrite Hq by lia. destruct (Hsl p) as (S1 & S2 & S3); [lia|]. done.
  - intros tid p Hp. specialize (Ht tid p Hp).
    apply (thread_ok_frame r); [done|done|intros h x _ Hh'; split; [apply Hq; lia|done]|].
    destruct p; cbn in *; try done; lia.
Qed.

Lemma inv_return r ths hs gt base i res :
  inv r ths (CRelease base i res) hs gt -> ~ (i < length res)%nat -> inv r ths CIdle hs (gt ++ res).
Proof.
  intros Hi Hlt. pose proof Hi as [Hs Ho Hh Hsl Ht Hu Hc Hg]. cbn in Ho, Hsl, Ht, Hc, Hg.
  destruct Hc as ([Er Etk] & Hle). unfold len in Er. assert (base + Z.of_nat i = r_tail r) as E by lia.
  rewrite E in *. split; cbn [taken freed given]; try done; [lia|]. by rewrite Etk, Hg.
Qed.

(** ** Every step *)

Lemma enq_step_Cap (r : ring) (p : pc) r' p' o : enq_step r p = Some (r', p', o) -> Cap r' = Cap r.
Proof. destruct p; cbn; try done; repeat case_match; intros; by simplify_eq. Qed.

Lemma deq_step_Cap (r : ring) (c : cpc) r' c' o : deq_step zero r c = Some (r', c', o) -> Cap r' = Cap r.
Proof. destruct c; cbn [deq_step]; try done; repeat case_match; intros; by simplify_eq. Qed.

Lemma inv_enq_step r ths c hs gt tid p r' p' o :
  inv r ths c hs gt -> ths !! tid = Some p -> enq_step r p = Some (r', p', o) -> bounded r (hs ++ accepted p p') ->
  inv r' (<[tid := p']> ths) c (hs ++ accepted p p') gt.
Proof.
  intros Hi Hp He Hb. pose proof (i_threads _ _ _ _ _ Hi tid p Hp) as Hok.
  pose proof (i_head _ _ _ _ _ Hi) as Hh. pose proof (len_nonneg hs).
  assert (forall q, claim_of q = None -> claim_of p = None -> thread_ok r hs (freed r c) (taken r c) q ->
            inv r (<[tid := q]> ths) c hs gt) as Hmove by (intros; by eapply inv_thread).
  destruct p as [|k x|k x|k x h|k x h|x h|x h| |x h| |]; cbn in He; try done; simplify_eq.
  - destruct (r_closed r); simplify_eq; cbn [accepted]; rewrite ?app_nil_r; by apply Hmove.
  - rewrite app_nil_r. apply Hmove; [done|done|]. cbn. lia.
  - destruct (Z.eqb_spec (sequenceAt r h) h) as [E|E]; simplify_eq; cbn [accepted]; rewrite ?app_nil_r in *.
    + apply Hmove; [done|done|]. split; [exact Hok|]. eapply seen_free; [done| |done]. apply Hok.
    + destruct k; [destruct (sequenceAt r h <? h)|]; simplify_eq; cbn [accepted]; rewrite ?app_nil_r; by apply Hmove.
  - destruct (Z.eqb_spec (r_head r) h) as [E|E].
    + simplify_eq. by eapply inv_cas.
    + destruct k; simplify_eq; cbn [accepted]; rewrite ?app_nil_r; by apply Hmove.
  - rewrite app_nil_r. by apply inv_write.
  - rewrite app_nil_r in *. by eapply inv_store.
  - rewrite app_nil_r. apply (inv_flags r _ c hs gt true true). by apply Hmove.
  - destruct (r_head r =? h); simplify_eq; cbn [accepted]; rewrite ?app_nil_r; by apply Hmove.
  - destruct (r_closed r); simplify_eq; cbn [accepted]; rewrite ?app_nil_r; [by apply Hmove|].
    apply (inv_flags r _ c hs gt true true). by apply Hmove.
  - rewrite app_nil_r. apply (inv_flags r _ c hs gt true true). by apply Hmove.
Qed.

Lemma inv_deq_step r ths c hs gt r' c' o :
  inv r ths c hs gt -> deq_step zero r c = Some (r', c', o) -> bounded r hs -> inv r' ths c' hs (gt ++ default [] o).
Proof.
  intros Hi Hd Hb. pose proof (i_consumer _ _ _ _ _ Hi) as Hok.
  pose proof (i_order _ _ _ _ _ Hi) as Ho. pose proof (i_head _ _ _ _ _ Hi) as Hh.
  assert (forall q, taken r q = taken r c -> freed r q = freed r c -> given r q = given r c -> consumer_ok r hs q ->
            inv r ths q hs (gt ++ default [] (None : option (list A)))) as Hmove.
  { intros q E1 E2 E3 Hq. cbn. rewrite app_nil_r. by eapply inv_consumer. }
  unfold bounded in Hb. pose proof (shape_cap r (i_shape _ _ _ _ _ Hi)) as Hcap.
  destruct c as [|limit sched|limit sched t res|limit sched t res|limit sched|limit sched|limit sched|limit sched
                |limit sched t|t res|base i res|]; cbn [deq_step] in Hd; try discriminate.
  - simplify_eq. apply Hmove; try done. cbn. split; [change (len []) with 0; lia|by rewrite app_nil_r].
  - cbn in Ho, Hok. destruct (_ && _) eqn:E; simplify_eq.
    + apply andb_true_iff in E as [_ E%Z.eqb_eq]. rewrite u64_small in E by lia. apply Hmove; try done.
      split_and!; [done| |done]. by eapply seen_ready.
    + destruct res as [|y res]; simplify_eq; apply Hmove; try done.
      cbn. destruct Hok as [Hok _]. unfold len in Hok. cbn in Hok. lia.
  - simplify_eq. cbn [default]. rewrite app_nil_r. by apply inv_take.
  - destruct (r_closed r); [|destruct (sched <? 3)%nat]; simplify_eq; by apply Hmove.
  - destruct (r_noticer r); [|done]. simplify_eq. apply (inv_flags r _ _ hs _ true false). by apply Hmove.
  - destruct (r_closed r); simplify_eq; by apply Hmove.
  - simplify_eq. by apply Hmove.
  - destruct (0 <? Len t (r_head r)); simplify_eq; by apply Hmove.
  - simplify_eq. cbn [default]. rewrite app_nil_r. by apply inv_commit.
  - destruct (Nat.ltb_spec i (length res)) as [Hi'|Hi']; simplify_eq; cbn [default].
    + rewrite app_nil_r. by apply inv_release.
    + eapply inv_return; [done|unfold id; lia].
Qed.

Definition sinv (s : state (A := A)) : Prop := inv (mem s) (threads s) (consumer s) (hist s) (got s).

Lemma sinv_step s s' : sinv s -> step zero s s' -> bounded (mem s') (hist s') -> sinv s'.
Proof.
  intros Hi Hst Hb. destruct Hst as [s tid p Hp Hq|s limit Hc|s tid p r' p' o Hp He|s r' c' o Hd]; unfold sinv in *; cbn in *.
  - eapply inv_thread; [done|done|done| |]; by destruct Hq as [->|(k & x & ->)].
  - rewrite Hc in Hi. eapply inv_consumer; [exact Hi|by destruct limit..].
  - eapply inv_enq_step; [done..|]. unfold bounded in *. by rewrite <- (enq_step_Cap (mem s) p r' p' o).
  - eapply inv_deq_step; [done..|]. unfold bounded in *. by rewrite <- (deq_step_Cap (mem s) (consumer s) r' c' o).
Qed.

End Inv.
End QueueInv.
