(* ===== verification/QueueRun.v ===== *)
(** What the invariant of the ring gives: of every state that is reached, and of a
    call that runs alone. *)

From S2P Require Export QueueInv.

Module QueueRun.
Import Queue QueueInv.

(** ** New *)

Definition rounds_well (c : Z) : bool :=
  let n := round_capacity c in
  (n =? 2 ^ Z.log2 n) && (2 <=? n) && (n <=? 65536) && (c <=? n) && (n <? 2 * c).

Fixpoint all_from (P : Z -> bool) (n : nat) (c : Z) : bool :=
  match n with O => true | S n => P c && all_from P n (c + 1) end.

Lemma all_from_spec P n c k : all_from P n c = true -> c <= k < c + Z.of_nat n -> P k = true.
Proof.
  revert c; induction n as [|n IH]; intros c; cbn [all_from]; [lia|].
  intros [H1 H2]%andb_true_iff Hk. destruct (decide (k = c)) as [->|]; [done|]. apply (IH (c + 1)); [done|lia].
Qed.

Lemma round_capacity_all : all_from rounds_well (Z.to_nat 65535) 2 = true.
Proof. vm_compute. reflexivity. Qed.

(** The capacity is the least power of two that is enough, within 2 and 65536. *)
Lemma round_capacity_spec c :
  exists j, 1 <= j <= 16 /\ round_capacity c = 2 ^ j /\
    (2 <= c <= 65536 -> c <= 2 ^ j < 2 * c) /\ (c <= 1 -> 2 ^ j = 2) /\ (65536 < c -> 2 ^ j = 65536).
Proof.
  assert (forall k, 2 <= k <= 65536 -> exists j, 1 <= j <= 16 /\ round_capacity k = 2 ^ j /\ k <= 2 ^ j < 2 * k) as Hin.
  { intros k Hk. pose proof (all_from_spec _ _ _ k round_capacity_all ltac:(lia)) as Ha. unfold rounds_well in Ha.
    rewrite !andb_true_iff, Z.eqb_eq, !Z.leb_le, Z.ltb_lt in Ha.
    destruct Ha as ((((E & H1) & H2) & H3) & H4).
    exists (Z.log2 (round_capacity k)). split; [|rewrite <- E; split; [done|lia]].
    split; [apply (Z.log2_le_mono 2); lia|apply (Z.log2_le_mono _ 65536); lia]. }
  destruct (decide (c <= 1)) as [H1|H1]; [|destruct (decide (65536 < c)) as [H2|H2]].
  - exists 1. assert (round_capacity c = round_capacity 2) as ->.
    { unfold round_capacity. by rewrite (proj2 (Z.leb_le c 1) H1). }
    split_and!; [lia|lia|reflexivity|lia|reflexivity|lia].
  - exists 16. assert (round_capacity c = round_capacity 65536) as ->.
    { unfold round_capacity. rewrite (proj2 (Z.leb_gt c 1)), (proj2 (Z.ltb_lt 65536 c)) by lia. reflexivity. }
    split_and!; [lia|lia|reflexivity|lia|lia|reflexivity].
  - destruct (Hin c) as (j & Hj & E & Hb); [lia|]. exists j. split_and!; try done; lia.
Qed.

Section Run.
Context {A : Type} (zero : A).

Abbreviation sinv := (QueueInv.sinv zero).
Abbreviation inv := (QueueInv.inv zero).
Abbreviation step := (Queue.step zero).

Lemma New_shape capacity : shape (New zero capacity) /\ Cap (New zero capacity) = round_capacity capacity.
Proof.
  destruct (round_capacity_spec capacity) as (j & Hj & E & _). unfold New, Cap. cbn [r_mask].
  assert (round_capacity capacity - 1 + 1 = round_capacity capacity) as Ec by lia. split; [|exact Ec].
  exists j. cbn [r_mask r_seqs r_cells]. unfold Cap. cbn [r_mask]. rewrite Ec, E. split_and!; [lia|lia|lia|..].
  - by rewrite length_fmap, length_seq.
  - by rewrite length_replicate.
Qed.

Lemma start_inv capacity tids : sinv (start zero capacity tids).
Proof.
  destruct (New_shape capacity) as [Hs Ec]. pose proof (shape_cap _ Hs) as Hc.
  assert (forall t p, threads (start zero capacity tids) !! t = Some p -> p = Idle) as Hidle.
  { intros t p Ht. cbn in Ht. apply elem_of_list_to_map_2, list_elem_of_fmap in Ht as (? & [= _ ->] & _). done. }
  split; cbn [mem consumer hist got start taken freed given]; try done.
  - cbn [r_tail r_head New]. fold (New zero capacity). lia.
  - intros p Hp. cbn [r_tail r_head New] in *. fold (New zero capacity) in *.
    assert (Queue.sequenceAt (New zero capacity) p = p) as Es.
    { unfold sequenceAt. rewrite index_mod by done. cbn [r_seqs New]. rewrite Ec. rewrite Z.mod_small by lia.
      rewrite list_lookup_fmap, lookup_seq_lt by lia. cbn. lia. }
    rewrite Es. split_and!; lia.
  - intros t p Ht. by rewrite (Hidle t p Ht).
  - intros t1 t2 p1 p2 pos x1 x2 H1 _ C1. by rewrite (Hidle t1 p1 H1) in C1.
Qed.

(** ** Every state that is reached *)

Lemma step_grows s s' : step s s' -> hist s `prefix_of` hist s' /\ Cap (mem s') = Cap (mem s).
Proof.
  destruct 1; cbn; try done.
  - split; [by eexists|by eapply enq_step_Cap].
  - split; [done|by eapply (deq_step_Cap zero)].
Qed.

Lemma steps_grow s s' : star step s s' -> hist s `prefix_of` hist s' /\ Cap (mem s') = Cap (mem s).
Proof.
  induction 1 as [|a b c Hab _ [IH1 IH2]]; [done|]. apply step_grows in Hab as [H1 H2]. split; [by etrans|congruence].
Qed.

Lemma bounded_before s s' : star step s s' -> bounded (mem s') (hist s') -> bounded (mem s) (hist s).
Proof.
  intros [Hp Ec]%steps_grow. unfold bounded, len. rewrite Ec. apply prefix_length in Hp. lia.
Qed.

Lemma sinv_steps s s' : star step s s' -> sinv s -> bounded (mem s') (hist s') -> sinv s'.
Proof.
  induction 1 as [|a b c Hab Hbc IH]; [done|]. intros Ha Hb. apply IH; [|done].
  eapply sinv_step; [done..|]. by eapply bounded_before.
Qed.

Lemma reachable_inv capacity s : reachable zero capacity s -> bounded (mem s) (hist s) -> sinv s.
Proof. intros (tids & Hst) Hb. eapply sinv_steps; [exact Hst|apply start_inv|done]. Qed.

(** What the consumer has in hand. *)
Definition held (c : cpc (A := A)) : list A :=
  match c with CRead _ _ _ res | CTake _ _ _ res | CCommit _ res | CRelease _ _ res => res | _ => [] end.

Lemma got_held s : sinv s -> hist s = got s ++ held (consumer s) ++ drop (Z.to_nat (taken (mem s) (consumer s))) (hist s).
Proof.
  intros [Hs Ho Hh Hsl Ht Hu Hc Hg]. rewrite Hg, app_assoc.
  assert (take (Z.to_nat (given (mem s) (consumer s))) (hist s) ++ held (consumer s) =
          take (Z.to_nat (taken (mem s) (consumer s))) (hist s)) as ->; [|by rewrite take_drop].
  destruct (consumer s); cbn [given taken held consumer_ok] in *; rewrite ?app_nil_r; try done;
    destruct Hc as [[_ E] _] || destruct Hc as [_ E]; by rewrite E.
Qed.

(** ** Nobody sleeps through a notice *)

Definition noticed (s : state (A := A)) (p : pc) : Prop :=
  r_noticer (mem s) = true \/ exists tid, threads s !! tid = Some p.

(** The next slot has been written. *)
Definition ready (r : ring (A := A)) : Prop := sequenceAt r (r_tail r) = r_tail r + 1.

Definition awake (s : state (A := A)) : Prop :=
  match consumer s with
  | CTail limit _ | CRead limit _ _ _ | CTake limit _ _ _ | CCheck limit _ | CLenTail limit _ | CLenHead limit _ _ =>
      limit <> 0%nat
  | CEmpty limit _ => limit <> 0%nat /\ (ready (mem s) -> noticed s ENotify)
  | CWait limit _ => limit <> 0%nat /\ (ready (mem s) -> noticed s ENotify) /\
                     (r_closed (mem s) = true -> noticed s KNotify)
  | _ => True
  end.

Lemma token_step (r : ring (A := A)) p r' p' o :
  enq_step r p = Some (r', p', o) -> r_noticer r = true -> r_noticer r' = true.
Proof. destruct p; cbn; try done; repeat case_match; intros; by simplify_eq. Qed.

(** A step of a producer keeps a notice under way, and gives one if it makes the
    next slot ready or closes the queue. *)
Lemma noticed_step (s : state (A := A)) tid p r' p' o q s' :
  threads s !! tid = Some p -> enq_step (mem s) p = Some (r', p', o) -> q = ENotify \/ q = KNotify ->
  mem s' = r' -> threads s' = <[tid := p']> (threads s) -> noticed s q -> noticed s' q.
Proof.
  intros Hp He Hq Em Et [Hn|(t & Ht)]; unfold noticed; rewrite Em, Et.
  - left. by apply (token_step (mem s) p r' p' o).
  - destruct (decide (t = tid)) as [->|Hne]; [left|right; exists t; by rewrite lookup_insert_ne].
    assert (p = q) as -> by congruence. destruct Hq as [-> | ->]; cbn in He; injection He as <- _ _; done.
Qed.

Lemma ready_step r p r' p' o :
  enq_step r p = Some (r', p', o) -> ready r' -> ready r \/ p' = ENotify.
Proof.
  destruct p; cbn; intros He; try discriminate; repeat case_match; injection He as <- <- _; intros Hr;
    first [left; exact Hr|right; reflexivity].
Qed.

Lemma closed_step (r : ring (A := A)) p r' p' o :
  enq_step r p = Some (r', p', o) -> r_closed r' = true -> r_closed r = true \/ p' = KNotify.
Proof.
  destruct p; cbn; intros He; try discriminate; repeat case_match; injection He as <- <- _; intros Hr;
    first [left; exact Hr|left; reflexivity|right; reflexivity|congruence].
Qed.

Lemma awake_step s s' : sinv s -> bounded (mem s) (hist s) -> awake s -> step s s' -> awake s'.
Proof.
  intros Hi Hb Ha Hst. destruct Hst as [s tid p Hp Hq|s limit Hc|s tid p r' p' o Hp He|s r' c' o Hd].
  - assert (forall q, q = ENotify \/ q = KNotify -> noticed s q ->
              noticed (mkState (mem s) (<[tid := p]> (threads s)) (consumer s) (hist s) (got s)) q) as Hn.
    { intros q Hqq [?|(t & Ht)]; [by left|right]. exists t. cbn. rewrite lookup_insert_ne; [done|].
      intros <-. rewrite Hp in Ht. by destruct Hqq as [-> | ->]. }
    unfold awake in *. cbn [consumer mem]. destruct (consumer s); naive_solver.
  - by destruct limit.
  - set (s' := mkState r' _ _ _ _).
    assert (forall q, q = ENotify \/ q = KNotify -> noticed s q -> noticed s' q) as Hn
      by (intros q Hqq; by eapply noticed_step).
    assert (forall q, p' = q -> noticed s' q) as Hnew.
    { intros q <-. right. exists tid. apply lookup_insert_eq. }
    assert ((ready (mem s) -> noticed s ENotify) -> ready (mem s') -> noticed s' ENotify) as Hr.
    { intros H1 H2. destruct (ready_step _ _ _ _ _ He H2) as [H3|H3]; [apply Hn; auto|by apply Hnew]. }
    assert ((r_closed (mem s) = true -> noticed s KNotify) -> r_closed (mem s') = true -> noticed s' KNotify) as Hcl.
    { intros H1 H2. destruct (closed_step _ _ _ _ _ He H2) as [H3|H3]; [apply Hn; auto|by apply Hnew]. }
    unfold awake in *. change (consumer s') with (consumer s). destruct (consumer s); naive_solver.
  - pose proof (i_consumer _ _ _ _ _ _ Hi) as Hok. pose proof (i_order _ _ _ _ _ _ Hi) as Ho.
    pose proof (i_head _ _ _ _ _ _ Hi) as Hh. pose proof (shape_cap _ (i_shape _ _ _ _ _ _ Hi)) as Hcap.
    unfold bounded in Hb. unfold awake in *. cbn [consumer mem]. destruct (consumer s) as [|limit sched|limit sched t res|limit sched t res|limit sched|limit sched|limit sched|limit sched
                |limit sched t|t res|base i res|] eqn:Ec; cbn [deq_step] in Hd; try discriminate.
    + by simplify_eq.
    + cbn in Ho, Hok. destruct (_ && _) eqn:E; [by simplify_eq|]. destruct res as [|y res]; simplify_eq; [|done].
      split; [done|]. intros Hr. exfalso. destruct Hok as [Et _]. change (len []) with 0 in Et. rewrite Z.add_0_r in Et. subst t.
      apply andb_false_iff in E as [E|E]; [apply Nat.ltb_ge in E; cbn in E; lia|].
      apply Z.eqb_neq in E. apply E. rewrite u64_small by lia. exact Hr.
    + by simplify_eq.
    + destruct Ha as [Hl Hr]. destruct (r_closed (mem s)) eqn:Ecl; [by simplify_eq|].
      destruct (sched <? 3)%nat; simplify_eq; [done|]. split_and!; [done|exact Hr|]. cbn. congruence.
    + destruct (r_noticer (mem s)); [|done]. simplify_eq. apply Ha.
    + destruct (r_closed (mem s)); by simplify_eq.
    + by simplify_eq.
    + destruct (0 <? Len t (r_head (mem s))); by simplify_eq.
    + by simplify_eq.
    + destruct (i <? length res)%nat; by simplify_eq.
Qed.

Lemma awake_steps s s' : star step s s' -> sinv s -> awake s -> bounded (mem s') (hist s') -> awake s'.
Proof.
  induction 1 as [|a b c Hab Hbc IH]; [done|]. intros Ha Hw Hb.
  pose proof (bounded_before _ _ Hbc Hb) as Hbb. assert (bounded (mem a) (hist a)) as Hba.
  { eapply bounded_before; [by apply star_one|done]. }
  apply IH; [by eapply sinv_step|by eapply awake_step|done].
Qed.

Lemma reachable_awake capacity s : reachable zero capacity s -> bounded (mem s) (hist s) -> awake s.
Proof. intros (tids & Hst) Hb. eapply awake_steps; [exact Hst|apply start_inv|done|done]. Qed.

(** A slot that nobody is writing and that has been claimed is ready. *)
Lemma idle_ready s :
  sinv s -> (forall tid p, threads s !! tid = Some p -> claim_of p = None) ->
  forall q, taken (mem s) (consumer s) <= q < r_head (mem s) -> sequenceAt (mem s) q = q + 1 /\
    at_pos (hist s) q = Some (dataAt zero (mem s) q).
Proof.
  intros Hi Hidle q Hq. pose proof (i_order _ _ _ _ _ _ Hi) as Ho.
  destruct (i_slots _ _ _ _ _ _ Hi q) as (_ & S2 & _); [lia|].
  destruct (S2 Hq) as [[_ (t & p & x & Ht & Hc)]|Hr]; [|done]. by rewrite (Hidle t p Ht) in Hc.
Qed.

(** ** Schedules, to run examples *)

Inductive act :=
  | AEnqueue (tid : nat) (k : kind) (x : A)
  | AClose (tid : nat)
  | ADequeue (limit : nat)
  | AThread (tid : nat)
  | AConsumer.

Definition run_act (a : act) (s : state (A := A)) : option state :=
  let call tid p := match threads s !! tid with
                    | Some Idle => Some (mkState (mem s) (<[tid := p]> (threads s)) (consumer s) (hist s) (got s))
                    | _ => None
                    end in
  match a with
  | AEnqueue tid k x => call tid (EClosed k x)
  | AClose tid => call tid KCas
  | ADequeue limit => match consumer s with
                      | CIdle => Some (mkState (mem s) (threads s) (deq_call limit) (hist s) (got s))
                      | _ => None
                      end
  | AThread tid =>
      match threads s !! tid with
      | Some p => match enq_step (mem s) p with
                  | Some (r', p', _) =>
                      Some (mkState r' (<[tid := p']> (threads s)) (consumer s) (hist s ++ accepted p p') (got s))
                  | None => None
                  end
      | None => None
      end
  | AConsumer =>
      match deq_step zero (mem s) (consumer s) with
      | Some (r', c', o) => Some (mkState r' (threads s) c' (hist s) (got s ++ default [] o))
      | None => None
      end
  end.

Fixpoint run_acts (l : list act) (s : state) : option state :=
  match l with [] => Some s | a :: l => match run_act a s with Some s' => run_acts l s' | None => None end end.

Lemma run_act_step a s s' : run_act a s = Some s' -> step s s'.
Proof.
  destruct a as [tid k x|tid|limit|tid|]; cbn.
  - destruct (threads s !! tid) as [[]|] eqn:E; try done. intros [= <-]. apply s_call; eauto.
  - destruct (threads s !! tid) as [[]|] eqn:E; try done. intros [= <-]. apply s_call; eauto.
  - destruct (consumer s) eqn:E; try done. intros [= <-]. by apply s_dequeue.
  - destruct (threads s !! tid) as [p|] eqn:E; [|done]. cbn. destruct (enq_step (mem s) p) as [[[r' p'] o]|] eqn:Ee; [|done].
    intros [= <-]. by eapply s_thread.
  - destruct (deq_step zero (mem s) (consumer s)) as [[[r' c'] o]|] eqn:E; [|done]. intros [= <-]. by eapply s_consumer.
Qed.

Lemma run_acts_steps l s s' : run_acts l s = Some s' -> star step s s'.
Proof.
  revert s; induction l as [|a l IH]; intros s; cbn; [intros [= <-]; apply star_nil|].
  destruct (run_act a s) as [s1|] eqn:E; [|done]. intros Hl. eapply star_cons; [by eapply run_act_step|by apply IH].
Qed.

End Run.
End QueueRun.
