(* ===== verification/QueueProps.v ===== *)
(** A call on the ring that runs alone does what the bounded queue of the
    specification does: the worker connections use the queue by it. Then what the ring promises when many
    goroutines call it. *)

From S2P Require Export State QueueRun.

Module QueueSpec.
Import Queue QueueInv QueueRun.

Section Spec.
Context {A : Type} (zero : A).

Abbreviation inv := (QueueInv.inv zero).
Abbreviation ring := (Queue.ring (A := A)).
Abbreviation pc := (Queue.pc (A := A)).
Abbreviation cpc := (Queue.cpc (A := A)).

(** ** Calls that run alone, to the end *)

Inductive prod_runs : ring -> pc -> ring -> option bool -> Prop :=
  | pr_end r p r' o : enq_step r p = Some (r', Idle, o) -> prod_runs r p r' o
  | pr_more r p r1 p1 r' o : enq_step r p = Some (r1, p1, None) -> prod_runs r1 p1 r' o -> prod_runs r p r' o.

(** [None] is a consumer that waits for a token. *)
Inductive cons_runs : ring -> cpc -> ring -> option (list A) -> Prop :=
  | cr_end r c r' l : deq_step zero r c = Some (r', CIdle, Some l) -> cons_runs r c r' (Some l)
  | cr_wait r limit sched : r_noticer r = false -> cons_runs r (CWait limit sched) r None
  | cr_more r c r1 c1 r' o : deq_step zero r c = Some (r1, c1, None) -> cons_runs r1 c1 r' o -> cons_runs r c r' o.

(** A ring that nobody is using, and the queue it stands for. *)
Definition idle (ths : gmap nat pc) : Prop := forall tid p, ths !! tid = Some p -> p = Idle.

Definition contents (r : ring) (hs : list A) : list A := drop (Z.to_nat (r_tail r)) hs.

Definition stands_for (r : ring) (hs : list A) (q : fifo A) : Prop :=
  inv r ∅ CIdle hs (take (Z.to_nat (r_tail r)) hs) /\
  q = mkFifo (Z.to_nat (Cap r)) (contents r hs) (r_closed r).

(** One goroutine more, or one less, that is idle. *)
Lemma inv_threads r ths c hs gt :
  idle ths -> inv r ths c hs gt -> inv r ∅ c hs gt.
Proof.
  intros Hid [Hs Ho Hh Hsl Ht Hu Hc Hg]. split; try done.
  intros p Hp. destruct (Hsl p Hp) as (S1 & S2 & S3). split_and!; [done| |done].
  intros Hpr. destruct (S2 Hpr) as [[_ (t & q & x & Hq & Hcl)]|Hr]; [|by right]. by rewrite (Hid t q Hq) in Hcl.
Qed.

Lemma inv_one r c hs gt p : inv r ∅ c hs gt -> claim_of p = None -> thread_ok zero r hs (freed r c) (taken r c) p ->
  inv r {[0%nat := p]} c hs gt.
Proof.
  intros [Hs Ho Hh Hsl Ht Hu Hc Hg] Hcl Hok. split; try done.
  - intros q Hq. destruct (Hsl q Hq) as (S1 & S2 & S3). split_and!; [done| |done].
    intros Hqr. destruct (S2 Hqr) as [[_ (t & x & y & Hx & _)]|Hr]; [done|by right].
  - intros t q [<- <-]%lookup_singleton_Some. done.
  - intros t1 t2 p1 p2 pos x1 x2 [<- <-]%lookup_singleton_Some _ C1. congruence.
Qed.

(** What the slots say in a quiet ring. *)
Lemma quiet_slot r hs gt p :
  inv r ∅ CIdle hs gt -> r_tail r <= p < r_tail r + Cap r ->
  (p < r_head r -> sequenceAt r p = p + 1) /\ (r_head r <= p -> sequenceAt r p = p).
Proof.
  intros Hi Hp. destruct (i_slots _ _ _ _ _ _ Hi p Hp) as (_ & S2 & S3). split; [|exact S3].
  intros Hh. destruct S2 as [[_ (t & q & x & Hq & _)]|[E _]]; [cbn; lia|by rewrite lookup_empty in Hq|done].
Qed.

Lemma len_contents r hs gt : inv r ∅ CIdle hs gt -> len (contents r hs) = r_head r - r_tail r.
Proof.
  intros Hi. pose proof (i_order _ _ _ _ _ _ Hi) as Ho. cbn in Ho. rewrite (i_head _ _ _ _ _ _ Hi) in *.
  unfold contents, len in *. rewrite length_drop. lia.
Qed.

(** ** A producer *)

Lemma enqueue_runs k x r hs q :
  stands_for r hs q -> len hs + 1 + Cap r < 2 ^ 64 ->
  exists r' hs', prod_runs r (EClosed k x) r' (Some (fifo_enqueue x q).1) /\ stands_for r' hs' (fifo_enqueue x q).2 /\
    (hs' = hs \/ hs' = hs ++ [x]) /\ r_tail r' = r_tail r.
Proof.
  intros [Hi ->] Hb. pose proof (i_order _ _ _ _ _ _ Hi) as Ho. cbn in Ho. pose proof (len_contents _ _ _ Hi) as Hlen.
  pose proof (shape_cap _ (i_shape _ _ _ _ _ _ Hi)) as Hcap. pose proof (i_head _ _ _ _ _ _ Hi) as Hh.
  unfold fifo_enqueue. cbn [q_closed q_cap q_items]. destruct (r_closed r) eqn:Ecl.
  { exists r, hs. split_and!; [|split; [done|by rewrite Ecl]|by left|done]. apply pr_end. cbn. by rewrite Ecl. }
  set (h := r_head r). unfold len in Hlen.
  destruct (Nat.leb_spec (Z.to_nat (Cap r)) (length (contents r hs))) as [Hfull|Hfree].
  - (* the slot is still a round behind *)
    exists r, hs. split_and!; [|split; [done|by rewrite Ecl]|by left|done].
    assert (sequenceAt r h = r_tail r + 1) as Es.
    { replace h with (r_tail r + Cap r) by (unfold h; lia). unfold sequenceAt. rewrite index_cap by apply Hi.
      apply (quiet_slot _ _ _ (r_tail r) Hi); lia. }
    eapply pr_more; [cbn; by rewrite Ecl|]. eapply pr_more; [reflexivity|]. fold h. destruct k.
    + eapply pr_more; [cbn; rewrite Es, (proj2 (Z.eqb_neq _ _)), (proj2 (Z.ltb_lt _ _)) by (unfold h; lia); reflexivity|].
      apply pr_end. cbn. fold h. by rewrite Z.eqb_refl.
    + apply pr_end. cbn. by rewrite Es, (proj2 (Z.eqb_neq _ _)) by (unfold h; lia).
  - assert (sequenceAt r h = h) as Es by (apply (quiet_slot _ _ _ h Hi); unfold h; lia).
    set (r1 := set_head (u64 (h + 1)) r). set (r2 := set_data h x r1). set (r3 := set_sequence h (u64 (h + 1)) r2).
    assert (inv r {[0%nat := ECas k x h]} CIdle hs (take (Z.to_nat (r_tail r)) hs)) as H0.
    { apply inv_one; [exact Hi|done|]. cbn [thread_ok freed taken]. unfold h. lia. }
    assert (bounded r (hs ++ [x])) as Hb1 by (unfold bounded; rewrite len_app; change (len [x]) with 1; lia).
    pose proof (inv_cas _ _ _ _ _ _ _ _ _ _ H0 (lookup_singleton_eq _ _) eq_refl Hb1) as H1. fold r1 in H1.
    pose proof (inv_write _ _ _ _ _ _ _ _ _ H1 (lookup_insert_eq _ _ _)) as H2. fold r2 in H2.
    pose proof (inv_store _ _ _ _ _ _ _ _ _ H2 (lookup_insert_eq _ _ _) Hb1) as H3. fold r3 in H3.
    exists (set_noticer true r3), (hs ++ [x]). split_and!; [| |by right|done].
    + eapply pr_more; [cbn; by rewrite Ecl|]. eapply pr_more; [reflexivity|]. fold h.
      eapply pr_more; [cbn; by rewrite Es, Z.eqb_refl|]. eapply pr_more; [cbn; fold h; by rewrite Z.eqb_refl|].
      eapply pr_more; [reflexivity|]. eapply pr_more; [reflexivity|]. by apply pr_end.
    + split.
      * change (r_tail (set_noticer true r3)) with (r_tail r). rewrite take_app_le by (unfold len in *; lia).
        apply (inv_flags zero r3 _ _ _ _ true true).
        eapply (inv_threads _ (<[0%nat := Idle]> _)); [|eapply inv_thread; [exact H3|apply lookup_insert_eq|done..]].
        intros t p. rewrite !insert_insert_eq. intros [[_ <-]|[Hne [<- _]%lookup_singleton_Some]]%lookup_insert_Some; done.
      * unfold contents. change (r_tail (set_noticer true r3)) with (r_tail r). change (r_closed (set_noticer true r3)) with (r_closed r).
        change (Cap (set_noticer true r3)) with (Cap r). cbn [snd]. rewrite Ecl. f_equal. rewrite skipn_app.
        replace (Z.to_nat (r_tail r) - length hs)%nat with 0%nat by (unfold len in *; lia). done.
Qed.

Lemma close_runs r hs q :
  stands_for r hs q -> exists r', prod_runs r KCas r' None /\ stands_for r' hs (fifo_close q).
Proof.
  intros [Hi ->]. unfold fifo_close. cbn [q_cap q_items]. destruct (r_closed r) eqn:Ecl.
  - exists r. split; [apply pr_end; cbn; by rewrite Ecl|]. split; [done|by rewrite Ecl].
  - exists (set_noticer true (set_closed true r)). split.
    + eapply pr_more; [cbn; by rewrite Ecl|]. by apply pr_end.
    + split; [|done]. apply (inv_flags zero _ _ _ _ _ true true), (inv_flags zero _ _ _ _ _ true true). exact Hi.
Qed.

(** ** The consumer *)

(** The fields that reading leaves alone. *)
Definition same_marks (r r' : ring) : Prop :=
  r_head r' = r_head r /\ r_tail r' = r_tail r /\ Cap r' = Cap r /\ r_closed r' = r_closed r /\ r_noticer r' = r_noticer r.

Lemma read_runs m n sched t res r hs gt :
  inv r ∅ (CRead n sched t res) hs gt -> bounded r hs -> (Z.to_nat (r_head r - t) <= m)%nat -> (length res <= n)%nat ->
  exists r1 t1 res1,
    (forall r' o, cons_runs r1 (CRead n sched t1 res1) r' o -> cons_runs r (CRead n sched t res) r' o) /\
    inv r1 ∅ (CRead n sched t1 res1) hs gt /\ same_marks r r1 /\ (length res1 <= n)%nat /\
    (length res1 = n \/ t1 = r_head r).
Proof.
  revert t res r; induction m as [|m IH]; intros t res r Hi Hb Hm Hl;
    pose proof (i_order _ _ _ _ _ _ Hi) as Ho; cbn in Ho.
  { exists r, t, res. split_and!; try done. right. lia. }
  destruct (decide (length res = n \/ t = r_head r)) as [Hend|Hend]; [by exists r, t, res|].
  assert (t < r_head r /\ (length res < n)%nat) as [Ht Hn] by lia.
  pose proof (shape_cap _ (i_shape _ _ _ _ _ _ Hi)) as Hcap. pose proof (i_head _ _ _ _ _ _ Hi) as Hh. pose proof Hb as Hb'.
  unfold bounded in Hb'.
  assert (sequenceAt r t = t + 1) as Es.
  { destruct (i_slots _ _ _ _ _ _ Hi t) as (_ & S2 & _); [cbn [freed]; lia|].
    destruct S2 as [[_ (tid & p & x & Hp & _)]|[E _]]; [cbn; lia|by rewrite lookup_empty in Hp|done]. }
  assert (deq_step zero r (CRead n sched t res) = Some (r, CTake n sched t res, None)) as D1.
  { cbn [deq_step]. rewrite (proj2 (Nat.ltb_lt _ _) Hn), Es, u64_small, Z.eqb_refl by lia. done. }
  pose proof (inv_deq_step zero _ _ _ _ _ _ _ _ Hi D1 Hb) as H1. cbn [default] in H1. rewrite app_nil_r in H1.
  pose proof (inv_deq_step zero _ _ _ _ _ _ _ _ H1 eq_refl Hb) as H2. cbn [default] in H2. rewrite app_nil_r in H2.
  destruct (IH _ _ _ H2) as (r1 & t1 & res1 & Hrun & Hi1 & Hs & Hl1 & Hend1); [done| | |].
  - rewrite u64_small by lia. cbn [r_head set_data]. lia.
  - rewrite length_app. cbn. lia.
  - exists r1, t1, res1. split_and!; [|done|done|done|done]. intros r' o Hr.
    eapply cr_more; [exact D1|]. eapply cr_more; [reflexivity|]. by apply Hrun.
Qed.

Lemma release_runs m base i res r hs gt :
  inv r ∅ (CRelease base i res) hs gt -> bounded r hs -> (length res - i <= m)%nat ->
  exists r', cons_runs r (CRelease base i res) r' (Some res) /\ inv r' ∅ CIdle hs (gt ++ res) /\ same_marks r r'.
Proof.
  revert i r; induction m as [|m IH]; intros i r Hi Hb Hm; destruct (decide (i < length res)%nat) as [Hlt|Hge]; try lia.
  1, 3: exists r; split_and!; [apply cr_end; cbn [deq_step]; by rewrite (proj2 (Nat.ltb_ge _ _)) by lia|eapply inv_return; [exact Hi|exact Hge]|done].
  eassert (deq_step zero r (CRelease base i res) = Some (_, CRelease base (S i) res, None)) as D.
  { cbn [deq_step]. rewrite (proj2 (Nat.ltb_lt _ _) Hlt). reflexivity. }
  pose proof (inv_deq_step zero _ _ _ _ _ _ _ _ Hi D Hb) as H1. cbn [default] in H1. rewrite app_nil_r in H1.
  destruct (IH _ _ H1) as (r' & Hrun & Hi' & Hs); [done|lia|]. exists r'. split_and!; [|done|done].
  by eapply cr_more.
Qed.

(** Nothing there: the consumer tries some times, and then waits without a token. *)
Lemma wait_runs m n sched r hs gt :
  inv r ∅ CIdle hs gt -> bounded r hs -> r_closed r = false -> r_tail r = r_head r ->
  (3 - sched + (if r_noticer r then 1 else 0) <= m)%nat -> cons_runs r (CTail n sched) (set_noticer false r) None.
Proof.
  revert sched r; induction m as [|m IH]; intros sched r Hi Hb Hcl He Hm;
    pose proof (shape_cap _ (i_shape _ _ _ _ _ _ Hi)) as Hcap; pose proof (i_head _ _ _ _ _ _ Hi) as Hh;
    pose proof (i_order _ _ _ _ _ _ Hi) as Ho; cbn in Ho; pose proof Hb as Hb'; unfold bounded in Hb'.
  all: assert (sequenceAt r (r_tail r) = r_tail r) as Es by (apply (quiet_slot _ _ _ _ Hi); lia).
  all: eapply cr_more; [reflexivity|]; eapply cr_more;
    [cbn [deq_step]; rewrite Es, u64_small, (proj2 (Z.eqb_neq _ _)), andb_false_r by lia; reflexivity|].
  all: destruct (Nat.ltb_spec sched 3) as [Hs|Hs]; try lia.
  - eapply cr_more; [cbn [deq_step]; rewrite Hcl, (proj2 (Nat.ltb_ge _ _) Hs); reflexivity|].
    destruct (r_noticer r) eqn:En; [lia|]. replace (set_noticer false r) with r by (destruct r; cbn in *; by subst).
    by apply cr_wait.
  - eapply cr_more; [cbn [deq_step]; rewrite Hcl, (proj2 (Nat.ltb_lt _ _) Hs); reflexivity|].
    apply (IH (S sched) r); [done..|]. lia.
  - eapply cr_more; [cbn [deq_step]; rewrite Hcl, (proj2 (Nat.ltb_ge _ _) Hs); reflexivity|].
    destruct (r_noticer r) eqn:En.
    + eapply cr_more; [cbn [deq_step]; rewrite En; reflexivity|].
      eapply cr_more; [cbn [deq_step r_closed set_noticer]; rewrite Hcl; reflexivity|].
      apply (IH sched (set_noticer false r)); try done; [by apply (inv_flags zero r _ _ _ _ true false)|].
      cbn [r_noticer set_noticer]. lia.
    + replace (set_noticer false r) with r by (destruct r; cbn in *; by subst). by apply cr_wait.
Qed.

(** What has been read when the slice is full or the queue is empty. *)
Lemma taken_prefix (r : ring) hs t n (res : list A) :
  0 <= r_tail r -> t <= len hs -> t = r_tail r + len res -> take (Z.to_nat t) hs = take (Z.to_nat (r_tail r)) hs ++ res ->
  (length res <= n)%nat -> length res = n \/ t = len hs -> res = take n (contents r hs).
Proof.
  intros H0 Ht Et Etk Hl Hend. unfold contents, len in *.
  assert (drop (Z.to_nat (r_tail r)) hs = res ++ drop (Z.to_nat t) hs) as ->.
  { rewrite <- (take_drop (Z.to_nat t) hs) at 1. rewrite Etk, <- app_assoc.
    rewrite drop_app_length'; [done|]. rewrite length_take. lia. }
  destruct Hend as [<-|E]; [by rewrite take_app_length|].
  rewrite (drop_ge hs) by lia. rewrite app_nil_r, take_ge; [done|lia].
Qed.

Lemma drop_taken (hs res : list A) a n t :
  0 <= a -> t = a + len res -> res = take n (drop (Z.to_nat a) hs) -> drop (Z.to_nat t) hs = drop (Z.to_nat a + n) hs.
Proof.
  intros Ha -> ->. unfold len. rewrite length_take, length_drop.
  destruct (decide (Z.to_nat a + n <= length hs)%nat); [f_equal; lia|]. rewrite !drop_ge by lia. done.
Qed.

Lemma dequeue_runs n r hs q :
  stands_for r hs q -> bounded r hs -> (0 < n)%nat ->
  exists r', match fifo_dequeue n q with
             | Some (l, q') => cons_runs r (deq_call n) r' (Some l) /\ stands_for r' hs q'
             | None => cons_runs r (deq_call n) r' None /\ stands_for r' hs q
             end.
Proof.
  intros [Hi ->] Hb Hn. destruct n as [|n]; [lia|]. pose proof (i_order _ _ _ _ _ _ Hi) as Ho. cbn in Ho.
  pose proof (i_head _ _ _ _ _ _ Hi) as Hh. pose proof (len_contents _ _ _ Hi) as Hlen.
  assert (inv r ∅ (CRead (S n) 0 (r_tail r) []) hs (take (Z.to_nat (r_tail r)) hs)) as H0.
  { eapply inv_consumer; [exact Hi|done|done|done|]. split; [change (len []) with 0; lia|by rewrite app_nil_r]. }
  destruct (read_runs _ (S n) 0 _ [] r hs _ H0 Hb (le_n _)) as (r1 & t1 & res1 & Hrun & Hi1 & Hs1 & Hl1 & Hend1); [cbn; lia|].
  destruct Hs1 as (M1 & M2 & M3 & M4 & M5). unfold fifo_dequeue. cbn [q_items q_closed q_cap].
  pose proof (i_consumer _ _ _ _ _ _ Hi1) as [Et Etk]. rewrite M2 in Et, Etk.
  assert (res1 = take (S n) (contents r hs)) as Eres.
  { pose proof (i_order _ _ _ _ _ _ Hi1) as Ho1. cbn in Ho1. apply (taken_prefix r hs t1); [lia|lia|exact Et|exact Etk|exact Hl1|].
    destruct Hend1 as [E|E]; [by left|right; lia]. }
  destruct (contents r hs) as [|x items] eqn:Econt.
  - assert (r_tail r = r_head r) as He by (unfold len in Hlen; cbn in Hlen; lia).
    destruct (r_closed r) eqn:Ecl.
    + exists r. split; [|by split; [|rewrite Ecl, Econt]].
      pose proof (shape_cap _ (i_shape _ _ _ _ _ _ Hi)) as Hcap.
      destruct (quiet_slot _ _ _ (r_tail r) Hi ltac:(lia)) as [_ Hq].
      unfold bounded in Hb. eapply cr_more; [reflexivity|].
      eapply cr_more; [cbn [deq_step]; rewrite Hq, u64_small, (proj2 (Z.eqb_neq _ _)), andb_false_r by lia; reflexivity|].
      eapply cr_more; [cbn [deq_step]; rewrite Ecl; reflexivity|].
      eapply cr_more; [cbn [deq_step]; rewrite Ecl; reflexivity|]. eapply cr_more; [reflexivity|].
      apply cr_end. cbn [deq_step]. unfold Len. rewrite He, Z.ltb_irrefl, Z.sub_diag. reflexivity.
    + exists (set_noticer false r). split; [by eapply wait_runs|]. split.
      * by apply (inv_flags zero r _ _ _ _ true false).
      * unfold contents in *. cbn [r_tail set_noticer]. change (Cap (set_noticer false r)) with (Cap r). by rewrite Econt, <- Ecl.
  - set (l := x :: items) in *. assert (res1 <> []) as Hne by (rewrite Eres; done).
    assert (forall A (b : bool) (u v : A), b = false -> (if b then u else v) = v) as Hif by (by intros ? ? ? ? ->).
    eassert (deq_step zero r1 (CRead (S n) 0 t1 res1) = Some (r1, CCommit t1 res1, None)) as D1.
    { cbn [deq_step]. rewrite Hif; [by destruct res1|]. apply andb_false_iff.
      destruct Hend1 as [E|E]; [left; apply Nat.ltb_ge; lia|right]. apply Z.eqb_neq. intros E'.
      pose proof (i_order _ _ _ _ _ _ Hi1) as Ho1. cbn in Ho1. unfold bounded in Hb. pose proof (shape_cap _ (i_shape _ _ _ _ _ _ Hi)).
      rewrite u64_small in E' by lia. pose proof (seen_ready zero r1 _ _ _ _ t1 Hi1 eq_refl E'). lia. }
    assert (bounded r1 hs) as Hb1 by (unfold bounded; by rewrite M3).
    pose proof (inv_deq_step zero _ _ _ _ _ _ _ _ Hi1 D1 Hb1) as H2. cbn [default] in H2. rewrite app_nil_r in H2.
    pose proof (inv_deq_step zero _ _ _ _ _ _ _ _ H2 eq_refl Hb1) as H3. cbn [default] in H3. rewrite app_nil_r in H3.
    destruct (release_runs _ _ _ _ _ _ _ H3 Hb1 (le_n _)) as (r' & Hrun2 & Hi2 & (N1 & N2 & N3 & N4 & N5)).
    exists r'. split.
    + rewrite <- Eres. eapply cr_more; [reflexivity|]. apply Hrun. eapply cr_more; [exact D1|]. eapply cr_more; [reflexivity|exact Hrun2].
    + cbn [r_tail set_tail] in N2. split.
      * rewrite N2, Etk. exact Hi2.
      * unfold contents in *. rewrite N2, N3, N4. cbn [r_closed set_tail]. change (Cap (set_tail t1 r1)) with (Cap r1). rewrite M3, M4.
        f_equal. change (r_tail (set_tail t1 r1)) with t1. subst l. rewrite <- Econt, drop_drop. symmetry.
        apply (drop_taken hs res1 (r_tail r) (S n) t1); [lia|exact Et|]. rewrite Econt. exact Eres.
Qed.

End Spec.
End QueueSpec.

(** ** The properties of the ring. *)

Import Queue QueueInv QueueRun QueueSpec.

Section Lemmas.
Context {A : Type} (zero : A).

Lemma new_stands capacity :
  stands_for zero (New zero capacity) [] (mkFifo (Z.to_nat (round_capacity capacity)) [] false).
Proof.
  split.
  - apply (inv_threads zero _ (threads (start zero capacity []))); [|apply start_inv].
    intros tid p Hp. cbn in Hp. by rewrite lookup_empty in Hp.
  - destruct (New_shape zero capacity) as [_ ->]. done.
Qed.

(** Positions with the same slot, both under way, are the same. *)
Lemma claim_window s tid p h x :
  sinv zero s -> threads s !! tid = Some p -> claim_of p = Some (h, x) ->
  taken (mem s) (consumer s) <= h < r_head (mem s) /\ sequenceAt (mem s) h = h.
Proof.
  intros Hi Hp Hc. pose proof (i_threads _ _ _ _ _ _ Hi tid p Hp) as Hok.
  destruct p; try discriminate Hc; injection Hc as <- <-; destruct Hok as (? & ? & _); done.
Qed.

Lemma same_slot s h h' :
  sinv zero s -> freed (mem s) (consumer s) <= h < r_head (mem s) -> freed (mem s) (consumer s) <= h' < r_head (mem s) ->
  index (mem s) h = index (mem s) h' -> h = h'.
Proof.
  intros Hi Hh Hh' E. pose proof (i_order _ _ _ _ _ _ Hi) as Ho. eapply index_inj; [apply Hi|exact E|lia].
Qed.
End Lemmas.

Section Props.
Context {A : Type} (zero : A).

(** C13: one call at a time, on a ring on which no other call is under way, the ring does
    what the bounded queue does that the model of the worker connections uses: New gives the
    empty one; Enqueue and TryEnqueue return false when it is closed or full and append
    otherwise; Dequeue takes up to as many as fit, ends on a queue that is closed and empty
    and waits on one that is open and empty; Close closes it; and each call leaves such a
    ring again. Calls that overlap are the subject of [queue_fifo] and [queue_wakes]; they
    need not look like calls one after the other ([queue_late_enqueue]). *)
Theorem queue_refines capacity r hs q :
  stands_for zero r hs q -> len hs + 1 + Cap r < 2 ^ 64 ->
  stands_for zero (New zero capacity) [] (mkFifo (Z.to_nat (round_capacity capacity)) [] false) /\
  (forall k x, exists r' hs', prod_runs r (EClosed k x) r' (Some (fifo_enqueue x q).1) /\
                              stands_for zero r' hs' (fifo_enqueue x q).2) /\
  (forall n, (0 < n)%nat -> exists r',
     match fifo_dequeue n q with
     | Some (l, q') => cons_runs zero r (deq_call n) r' (Some l) /\ stands_for zero r' hs q'
     | None => cons_runs zero r (deq_call n) r' None /\ stands_for zero r' hs q
     end) /\
  (exists r', prod_runs r KCas r' None /\ stands_for zero r' hs (fifo_close q)).
Proof.
  intros Hq Hb. split_and!.
  - apply new_stands.
  - intros k x. destruct (enqueue_runs zero k x r hs q Hq Hb) as (r' & hs' & H1 & H2 & _). by exists r', hs'.
  - intros n Hn. apply dequeue_runs; [done|unfold bounded; lia|done].
  - by apply close_runs.
Qed.

(** C14: however the steps of the producers and the consumer interleave, what Dequeue
    has returned, then what it has in hand, then at most a ring full, is exactly
    what was accepted, in the order of the compare-and-swaps: nothing is lost,
    doubled or overtaken (as long as fewer than 2^64 elements have been accepted). *)
Theorem queue_fifo capacity s :
  reachable zero capacity s -> bounded (mem s) (hist s) ->
  exists pending, hist s = got s ++ held (consumer s) ++ pending /\ len pending <= Cap (mem s).
Proof.
  intros Hr Hb. pose proof (reachable_inv zero capacity s Hr Hb) as Hi.
  exists (drop (Z.to_nat (taken (mem s) (consumer s))) (hist s)). split; [by apply (got_held zero)|].
  pose proof (i_order _ _ _ _ _ _ Hi) as Ho. rewrite (i_head _ _ _ _ _ _ Hi) in Ho. unfold len in *. rewrite length_drop. lia.
Qed.

(** in every state that is reached the head counts what was accepted, the tail is
    at most a ring behind it, and no slot is used by two: no two producers write
    the same one, and the consumer takes from none that is being written. *)
Theorem queue_invariant capacity s :
  reachable zero capacity s -> bounded (mem s) (hist s) ->
  r_head (mem s) = len (hist s) /\ 0 <= r_tail (mem s) <= r_head (mem s) /\ r_head (mem s) <= r_tail (mem s) + Cap (mem s) /\
  (forall t1 t2 p1 p2 h1 h2 x1 x2, threads s !! t1 = Some p1 -> threads s !! t2 = Some p2 ->
     claim_of p1 = Some (h1, x1) -> claim_of p2 = Some (h2, x2) -> index (mem s) h1 = index (mem s) h2 -> t1 = t2) /\
  (forall limit sched t res tid p h x, consumer s = CTake limit sched t res -> threads s !! tid = Some p ->
     claim_of p = Some (h, x) -> index (mem s) t <> index (mem s) h).
Proof.
  intros Hr Hb. pose proof (reachable_inv zero capacity s Hr Hb) as Hi. pose proof (i_order _ _ _ _ _ _ Hi) as Ho. split_and!.
  - apply Hi.
  - lia.
  - lia.
  - lia.
  - intros t1 t2 p1 p2 h1 h2 x1 x2 H1 H2 C1 C2 E. destruct (claim_window zero s _ _ _ _ Hi H1 C1) as [B1 _].
    destruct (claim_window zero s _ _ _ _ Hi H2 C2) as [B2 _].
    assert (h1 = h2) as -> by (apply (same_slot zero s); [done|lia|lia|done]). by eapply (i_unique _ _ _ _ _ _ Hi).
  - intros limit sched t res tid p h x Hc Hp Hcl E. destruct (claim_window zero s _ _ _ _ Hi Hp Hcl) as [B1 Bs].
    pose proof (i_consumer _ _ _ _ _ _ Hi) as Hok. rewrite Hc in *. destruct Hok as (_ & Hlt & Hs). cbn [taken freed] in *.
    assert (t = h) as -> by (apply (same_slot zero s); rewrite ?Hc; cbn [freed]; [done|lia|lia|done]). lia.
Qed.

(** C15: the consumer does not sleep through anything: when it waits for a token, there
    is none, and no producer is under way, the queue is open and everything that was
    accepted has been returned. *)
Theorem queue_wakes capacity s limit sched :
  reachable zero capacity s -> bounded (mem s) (hist s) ->
  consumer s = CWait limit sched -> r_noticer (mem s) = false ->
  (forall tid p, threads s !! tid = Some p -> p = Idle) ->
  r_closed (mem s) = false /\ got s = hist s.
Proof.
  intros Hr Hb Hc Hn Hid. pose proof (reachable_inv zero capacity s Hr Hb) as Hi.
  pose proof (reachable_awake zero capacity s Hr Hb) as Ha. unfold awake in Ha. rewrite Hc in Ha. destruct Ha as (_ & Ha & Hcl).
  assert (forall q, q <> Idle -> noticed s q -> False) as Hno.
  { intros q Hq [Hq'|(tid & Ht)]; [congruence|]. apply Hq. by eapply Hid. }
  split.
  - destruct (r_closed (mem s)); [|done]. exfalso. by apply (Hno KNotify); [|apply Hcl].
  - pose proof (i_order _ _ _ _ _ _ Hi) as Ho. pose proof (i_got _ _ _ _ _ _ Hi) as Hg. rewrite Hc in *. cbn in Ho, Hg.
    assert (r_tail (mem s) = r_head (mem s)) as E.
    { destruct (decide (r_tail (mem s) = r_head (mem s))); [done|]. exfalso. apply (Hno ENotify); [done|]. apply Ha.
      apply (idle_ready zero s Hi); [intros tid p Hp; by rewrite (Hid tid p Hp)|]. rewrite Hc. cbn. lia. }
    rewrite Hg, E, (i_head _ _ _ _ _ _ Hi), take_ge; [done|unfold len; lia].
Qed.
End Props.

(** ** A ring of two at work *)

Definition after (tids : list nat) (l : list (act (A := Z))) : state :=
  default (start 0 2 tids) (run_acts 0 l (start 0 2 tids)).

Lemma after_reachable tids l : is_Some (run_acts 0 l (start 0 2 tids)) -> reachable 0 2 (after tids l).
Proof. intros [s E]. exists tids. unfold after. rewrite E. by apply (run_acts_steps 0 l). Qed.

(** One enqueues and returns, the other has written but not told. *)
Definition demo_ring : state :=
  after [0; 1]%nat ([AEnqueue 0 Loop 5; AThread 0; AThread 0; AThread 0; AEnqueue 1 Loop 6] ++ replicate 4 (AThread 0) ++
    replicate 5 (AThread 1) ++ [ADequeue 4; AConsumer; AConsumer; AConsumer]).

Lemma demo_ring_reachable : reachable 0 2 demo_ring.
Proof. apply after_reachable. vm_compute. by eexists. Qed.

Theorem queue_fifo_witness : hist demo_ring = [5; 6] /\ held (consumer demo_ring) = [5] /\
  exists pending, hist demo_ring = got demo_ring ++ held (consumer demo_ring) ++ pending /\ len pending <= Cap (mem demo_ring).
Proof.
  split; [vm_compute; reflexivity|]. split; [vm_compute; reflexivity|].
  apply (queue_fifo 0 2 demo_ring demo_ring_reachable). vm_compute. reflexivity.
Defined.

Theorem queue_invariant_witness : hist demo_ring = [5; 6] /\ r_head (mem demo_ring) = len (hist demo_ring).
Proof.
  split; [vm_compute; reflexivity|].
  destruct (queue_invariant 0 2 demo_ring demo_ring_reachable) as [E _]; [vm_compute; reflexivity|exact E].
Defined.

(** The consumer has taken all there was, and waits. *)
Definition demo_waiting : state :=
  after [0%nat] ([AEnqueue 0 Loop 5] ++ replicate 7 (AThread 0) ++ [ADequeue 4] ++ replicate 7 AConsumer ++
    [ADequeue 4] ++ replicate 17 AConsumer).

Lemma demo_waiting_reachable : reachable 0 2 demo_waiting.
Proof. apply after_reachable. vm_compute. by eexists. Qed.

Theorem queue_wakes_witness : consumer demo_waiting = CWait 4 3 /\ got demo_waiting = hist demo_waiting.
Proof.
  assert (consumer demo_waiting = CWait 4 3) as Hw by (vm_compute; reflexivity). split; [exact Hw|].
  apply (queue_wakes 0 2 demo_waiting 4 3 demo_waiting_reachable); [vm_compute; reflexivity|exact Hw|vm_compute; reflexivity|].
  intros tid p Hp. assert (threads demo_waiting = {[0%nat := Idle]}) as Et by (vm_compute; reflexivity).
  rewrite Et in Hp. by apply lookup_singleton_Some in Hp as [_ <-].
Defined.

Theorem queue_refines_witness : exists r hs, stands_for 0 r hs (mkFifo 4 [7] false).
Proof.
  destruct (queue_refines 0 2 (New 0 3) [] (mkFifo 4 [] false) (new_stands 0 3)) as (_ & He & _); [vm_compute; reflexivity|].
  destruct (He Loop 7) as (r & hs & _ & Hq). by exists r, hs.
Defined.

(** A producer that has seen the queue open, while it is closed and the consumer is
    told that it is over. *)
Definition late_schedule : list (act (A := Z)) :=
  [AEnqueue 1 Loop 6; AThread 1; AClose 0; AThread 0; AThread 0; ADequeue 4] ++ replicate 5 AConsumer.
Definition demo_over : state := after [0; 1]%nat late_schedule.
Definition demo_late : state := after [0; 1]%nat (late_schedule ++ [AConsumer] ++ replicate 6 (AThread 1)).

(** Enqueue can return true after Dequeue has returned 0, which is the sign that
    the queue is closed and empty: a producer that loaded the flag before Close goes
    on, and its element stays in the ring. *)
Theorem queue_late_enqueue :
  reachable 0 2 demo_over /\ deq_step 0 (mem demo_over) (consumer demo_over) = Some (mem demo_over, CIdle, Some []) /\
  star (step 0) demo_over demo_late /\ enq_step (mem demo_late) (EClosed Loop 7) = Some (mem demo_late, Idle, Some false) /\
  hist demo_late = [6] /\ got demo_late = [] /\ consumer demo_late = CIdle /\
  threads demo_late = {[0%nat := Idle; 1%nat := Idle]}.
Proof.
  split_and!; try (vm_compute; reflexivity).
  - apply after_reachable. vm_compute. by eexists.
  - apply (run_acts_steps 0 ([AConsumer] ++ replicate 6 (AThread 1))). vm_compute. reflexivity.
Qed.
