(* ===== verification/Pool.v ===== *)
(** src/internal/queue/amqp091: the pools of AMQP connections (connPool.go) and of
    AMQP channels (channelPool.go), which have the same code, and their goroutines:
    those that take and give back, and the heartbeat that throws closed ones out.
    A buffered Go channel is a list or, for tokens, a number; a goroutine whose
    send finds its channel full has no step. *)

From S2P Require Export Prelude.

Module Pool.

(** ** The state

    [idle] is the channel [pool], [size] the number of tokens in the channel of that
    name, both of capacity [cap]. [born] and [dead] are the sockets the AMQP library
    has opened and those that are closed. *)
Record pool := mkPool {
  idle : list nat;
  size : nat;
  cap : nat;
  born : gset nat;
  dead : gset nat;
  refCount : nat -> Z;
}.

Definition set_idle (l : list nat) (p : pool) : pool := mkPool l (size p) (cap p) (born p) (dead p) (refCount p).
Definition set_size (n : nat) (p : pool) : pool := mkPool (idle p) n (cap p) (born p) (dead p) (refCount p).
Definition set_born (s : gset nat) (p : pool) : pool := mkPool (idle p) (size p) (cap p) s (dead p) (refCount p).
Definition set_dead (s : gset nat) (p : pool) : pool := mkPool (idle p) (size p) (cap p) (born p) s (refCount p).
Definition add_ref (s : nat) (d : Z) (p : pool) : pool :=
  mkPool (idle p) (size p) (cap p) (born p) (dead p)
         (fun t => if decide (t = s) then i32 (refCount p t + d) else refCount p t).

Definition IsClosed (s : nat) (p : pool) : bool := bool_decide (s ∈ dead p).

(** [newConnPool], [newChannelPool]: all tokens, no socket. *)
Definition newPool (poolSize : nat) : pool := mkPool [] poolSize poolSize ∅ ∅ (fun _ => 0).

(** ** The goroutines *)

Inductive pc :=
  | Idle
  | GPool                          (* get: take an idle socket, if there is one *)
  | GSize                          (* take a token, if there is one *)
  | GCreate                        (* with a token: open a socket *)
  | GBack                          (* failed, after three seconds: put the token back *)
  | GWait                          (* wait for a socket, for three seconds at most *)
  | GInc (s : nat)                 (* count the reference *)
  | Held (s : nat)                 (* the caller has it *)
  | Release (o : option nat)       (* release: look at it, after the reference is taken off *)
  | RDec (s : nat)
  | RSize                          (* put a token *)
  | RPool (s : nat)                (* put the socket *)
  | HStart                         (* heartbeat: the length of the pool *)
  | HLoop (i : nat)
  | HGot (i : nat) (s : nat)
  | HPut (i : nat) (s : nat)
  | HSize (i : nat).

(** What the library, the clock and [select] decide. *)
Inductive choice :=
  | Go
  | Timeout
  | Quit                           (* quit.Ctx is done *)
  | Created (o : option nat).      (* the answer of Dial or Channel *)

(** A send on a buffered channel. *)
Definition put_size (p : pool) : option pool :=
  if (size p <? cap p)%nat then Some (set_size (S (size p)) p) else None.
Definition put_idle (s : nat) (p : pool) : option pool :=
  if (length (idle p) <? cap p)%nat then Some (set_idle (idle p ++ [s]) p) else None.

(** [channelPool] counts the references, [connPool] does not. *)
Definition taken (counting : bool) (s : nat) : pc := if counting then GInc s else Held s.

(** [getAmqpConnection], [getAmqpChannel] and [release], step by step. *)
Definition get_step (counting : bool) (p : pool) (c : choice) (g : pc) : option (pool * pc) :=
  match g with
  | GPool => match idle p with
             | s :: l => Some (set_idle l p, taken counting s)
             | [] => Some (p, GSize)
             end
  | GSize => match size p with
             | S n => Some (set_size n p, GCreate)
             | O => Some (p, GWait)
             end
  | GCreate => match c with
               | Created None => Some (p, GBack)
               | Created (Some s) =>
                   if decide (s ∈ born p) then None
                   else let p := set_born ({[s]} ∪ born p) p in
                        Some (if IsClosed s p then (p, GBack) else (p, taken counting s))
               | _ => None
               end
  | GBack => p ← put_size p; Some (p, Idle)
  | GWait => match c, idle p with
             | Timeout, _ => Some (p, Idle)
             | _, s :: l => Some (set_idle l p, taken counting s)
             | _, [] => None
             end
  | GInc s => Some (add_ref s 1 p, Held s)
  | _ => None
  end.

Definition release_step (counting : bool) (p : pool) (g : pc) : option (pool * pc) :=
  match g with
  | Release None => Some (p, RSize)
  | Release (Some s) => if counting then Some (p, RDec s) else Some (p, if IsClosed s p then RSize else RPool s)
  | RDec s => let p := add_ref s (-1) p in Some (p, if IsClosed s p then RSize else RPool s)
  | RSize => p ← put_size p; Some (p, Idle)
  | RPool s => p ← put_idle s p; Some (p, Idle)
  | _ => None
  end.

(** [heartbeat]: a closed socket becomes a token again. *)
Definition heartbeat_step (p : pool) (c : choice) (g : pc) : option (pool * pc) :=
  match g with
  | HStart => Some (p, HLoop (length (idle p)))
  | HLoop O => Some (p, Idle)
  | HLoop (S i) => match c, idle p with
                   | Quit, _ => Some (p, Idle)
                   | _, s :: l => Some (set_idle l p, HGot i s)
                   | _, [] => Some (p, HLoop i)
                   end
  | HGot i s => Some (p, if IsClosed s p then HSize i else HPut i s)
  | HPut i s => p ← put_idle s p; Some (p, HLoop i)
  | HSize i => p ← put_size p; Some (p, HLoop i)
  | _ => None
  end.

Definition pool_step (counting : bool) (p : pool) (c : choice) (g : pc) : option (pool * pc) :=
  match g with
  | Idle | Held _ => None
  | GPool | GSize | GCreate | GBack | GWait | GInc _ => get_step counting p c g
  | Release _ | RDec _ | RSize | RPool _ => release_step counting p g
  | HStart | HLoop _ | HGot _ _ | HPut _ _ | HSize _ => heartbeat_step p c g
  end.

(** ** All goroutines together *)

Section System.
Context (counting : bool).

Inductive step : pool * list pc -> pool * list pc -> Prop :=
  | s_call p ts i g : ts !! i = Some Idle -> g = GPool \/ g = HStart -> step (p, ts) (p, <[i := g]> ts)
  | s_release p ts i s : ts !! i = Some (Held s) -> step (p, ts) (p, <[i := Release (Some s)]> ts)
  | s_go p ts i g c p' g' :
      ts !! i = Some g -> pool_step counting p c g = Some (p', g') -> step (p, ts) (p', <[i := g']> ts)
  | s_close p ts s : step (p, ts) (set_dead ({[s]} ∪ dead p) p, ts).

Definition reachable (poolSize : nat) (st : pool * list pc) : Prop :=
  exists n, star step (newPool poolSize, replicate n Idle) st.

End System.

(** ** What a goroutine has in its hands *)

(** A token, or the socket that stands for one. *)
Definition token (g : pc) : nat :=
  match g with
  | GCreate | GBack | GInc _ | Held _ | Release _ | RDec _ | RSize | RPool _ | HGot _ _ | HPut _ _ | HSize _ => 1
  | Idle | GPool | GSize | GWait | HStart | HLoop _ => 0
  end.

Definition owned (g : pc) : list nat :=
  match g with
  | GInc s | Held s | Release (Some s) | RDec s | RPool s | HGot _ s | HPut _ s => [s]
  | _ => []
  end.

(** References that are counted. *)
Definition counted (s : nat) (g : pc) : nat :=
  match g with
  | Held t | Release (Some t) | RDec t => if decide (t = s) then 1 else 0
  | _ => 0
  end.

(** A goroutine about to send on one of the channels. *)
Definition sending (g : pc) : bool :=
  match g with GBack | RSize | RPool _ | HPut _ _ | HSize _ => true | _ => false end.

End Pool.

(** ** The invariant of the AMQP pools: what is in the channels and in the hands of the
    goroutines always adds up to the size of the pool. *)

Module PoolInv.
Import Pool.

(** One goroutine of many. *)
Lemma pick {A} (ts : list A) i g :
  ts !! i = Some g -> exists rest, ts ≡ₚ g :: rest /\ forall g', <[i := g']> ts ≡ₚ g' :: rest.
Proof.
  intros Hi. exists (take i ts ++ drop (S i) ts). pose proof (lookup_lt_Some _ _ _ Hi) as Hl. split.
  - rewrite <- (take_drop_middle _ _ _ Hi) at 1. by rewrite Permutation_middle.
  - intros g'. rewrite insert_take_drop by done. by rewrite Permutation_middle.
Qed.

(** The sockets that are idle or in somebody's hands. *)
Definition sockets (st : pool * list pc) : list nat := idle st.1 ++ mjoin (owned <$> st.2).

Definition counts (counting : bool) (st : pool * list pc) : Prop :=
  counting = true -> forall s, refCount st.1 s = Z.of_nat (sum_list_with (counted s) st.2).

Record inv (counting : bool) (poolSize : nat) (st : pool * list pc) : Prop := mkInv {
  inv_cap : cap st.1 = poolSize;
  inv_tokens : (size st.1 + length (idle st.1) + sum_list_with token st.2 = poolSize)%nat;
  inv_once : NoDup (sockets st);
  inv_born : Forall (fun s => s ∈ born st.1) (sockets st);
  inv_kept : forall s, s ∈ born st.1 -> s ∉ dead st.1 -> s ∈ sockets st;
  inv_counts : counts counting st;
}.

Lemma sockets_perm p ts ts' : ts ≡ₚ ts' -> sockets (p, ts) ≡ₚ sockets (p, ts').
Proof. intros H. unfold sockets. cbn. by rewrite H. Qed.

Lemma inv_perm b n p ts ts' : ts ≡ₚ ts' -> inv b n (p, ts) -> inv b n (p, ts').
Proof.
  intros H [Hc Ht Hn Hb Hk Hr]. pose proof (sockets_perm p ts ts' H) as Hs. cbn [fst snd] in *. split; cbn [fst snd].
  - done.
  - by rewrite <- H.
  - by rewrite <- Hs.
  - by rewrite <- Hs.
  - intros s. rewrite <- Hs. apply Hk.
  - intros Hb' s. cbn [fst snd]. rewrite <- H. by apply Hr.
Qed.

Lemma sockets_cons p g rest : sockets (p, g :: rest) ≡ₚ owned g ++ sockets (p, rest).
Proof. unfold sockets. cbn [fst snd]. rewrite fmap_cons. cbn [mjoin list_join]. apply Permutation_app_swap_app. Qed.

(** The case of a step that leaves the sockets and the references where they are. *)
Lemma inv_move b n p p' g g' rest :
  inv b n (p, g :: rest) ->
  cap p' = cap p -> born p' = born p -> dead p' = dead p -> (b = true -> refCount p' = refCount p) ->
  (size p' + length (idle p') + token g' = size p + length (idle p) + token g)%nat ->
  idle p' ++ owned g' ≡ₚ idle p ++ owned g ->
  (b = true -> forall s, counted s g' = counted s g) ->
  inv b n (p', g' :: rest).
Proof.
  intros [Hc Ht Hn Hb Hk Hr] Ec Eb Ed Er Et Es Ecnt.
  assert (sockets (p', g' :: rest) ≡ₚ sockets (p, g :: rest)) as Hs.
  { unfold sockets. cbn. rewrite !app_assoc. by rewrite Es. }
  split; cbn [fst snd sum_list_with] in *.
  - congruence.
  - lia.
  - by rewrite Hs.
  - rewrite Hs, Eb. done.
  - intros s. rewrite Eb, Ed, Hs. apply Hk.
  - intros Hcnt s. cbn [fst snd sum_list_with]. specialize (Hr Hcnt s). cbn [fst snd sum_list_with] in Hr.
    by rewrite (Er Hcnt), Hr, (Ecnt Hcnt s).
Qed.

(** A reference that is counted or taken off. *)
Lemma inv_ref n p g g' rest s d :
  inv true n (p, g :: rest) -> owned g = [s] -> owned g' = [s] -> token g = 1%nat -> token g' = 1%nat ->
  (forall t, Z.of_nat (counted t g') = Z.of_nat (counted t g) + (if decide (t = s) then d else 0)) ->
  inv true n (add_ref s d p, g' :: rest).
Proof.
  intros [Hc Ht Hn Hb Hk Hr] Eo Eo' Et Et' Ec.
  assert (sockets (add_ref s d p, g' :: rest) = sockets (p, g :: rest)) as Hs.
  { unfold sockets. cbn. by rewrite Eo, Eo'. }
  split; cbn [fst snd sum_list_with] in *; rewrite ?Hs; try done.
  - cbn. lia.
  - intros _ t. cbn [fst snd sum_list_with add_ref refCount]. pose proof (Hr eq_refl t) as Ht'.
    cbn [fst snd sum_list_with] in Ht'. specialize (Ec t). destruct (decide (t = s)) as [->|]; [|lia].
    assert (forall x, (counted s x <= 1)%nat) as Hle by (intros []; cbn; try destruct o; repeat case_decide; lia).
    assert (sum_list_with (counted s) rest = 0%nat) as Hz.
    { rewrite sockets_cons, Eo in Hn. cbn in Hn. apply NoDup_cons in Hn as [Hn _].
      assert (s ∉ mjoin (owned <$> rest)) as Hj by (intros Hj; apply Hn, elem_of_app; by right).
      clear -Hj. induction rest as [|x rest IH]; [done|]. cbn in Hj |- *. rewrite not_elem_of_app in Hj.
      destruct Hj as [Hx Hrest]. rewrite (IH Hrest). destruct x; cbn in *; try done; try destruct o; cbn in *; try done;
        rewrite not_elem_of_cons in Hx; destruct Hx as [Hx _]; by rewrite decide_False. }
    pose proof (Hle g'). pose proof (Hle g). rewrite i32_small; lia.
Qed.

(** A closed socket that is thrown away. *)
Lemma inv_drop b n p g g' rest s :
  inv b n (p, g :: rest) -> owned g = [s] -> owned g' = [] -> token g = token g' -> IsClosed s p = true ->
  (b = true -> forall t, counted t g' = counted t g) ->
  inv b n (p, g' :: rest).
Proof.
  intros [Hc Ht Hn Hb Hk Hr] Eo Eo' Et Hdead%bool_decide_eq_true Ec.
  rewrite sockets_cons, Eo in Hn, Hb. cbn [app] in Hn, Hb. apply NoDup_cons in Hn as [_ Hn]. apply Forall_cons in Hb as [_ Hb].
  assert (sockets (p, g' :: rest) ≡ₚ sockets (p, rest)) as Hs by by rewrite sockets_cons, Eo'.
  split; cbn [fst snd sum_list_with] in *; rewrite ?Hs; try done; [lia| |].
  - intros t Hb' Hd. specialize (Hk t Hb' Hd). rewrite sockets_cons, Eo in Hk. rewrite Hs.
    apply elem_of_cons in Hk as [->|Hk]; done.
  - intros Hcnt t. specialize (Hr Hcnt t). cbn [fst snd sum_list_with] in *. by rewrite (Ec Hcnt t).
Qed.

(** A new socket. *)
Lemma inv_create b n p rest s :
  inv b n (p, GCreate :: rest) -> s ∉ born p ->
  inv b n (set_born ({[s]} ∪ born p) p, (if IsClosed s p then GBack else taken b s) :: rest).
Proof.
  intros [Hc Ht Hn Hb Hk Hr] Hs.
  assert (s ∉ sockets (p, rest)) as Hni.
  { intros Hin. apply Hs. rewrite sockets_cons in Hb. cbn [owned app] in Hb. rewrite Forall_forall in Hb. by apply Hb. }
  rewrite sockets_cons in Hn, Hb. cbn [owned app] in Hn, Hb.
  set (q := set_born ({[s]} ∪ born p) p).
  assert (forall g, sockets (q, g :: rest) ≡ₚ owned g ++ sockets (p, rest)) as E by (intros g; by rewrite sockets_cons).
  assert (Forall (fun t => t ∈ born q) (sockets (p, rest))) as Hbq.
  { eapply Forall_impl; [exact Hb|]. cbn. set_solver. }
  assert (forall g, owned g = [s] \/ s ∈ dead p -> forall t, t ∈ born q -> t ∉ dead q -> t ∈ sockets (q, g :: rest)) as Hkq.
  { intros g Hg t Ht' Hdt. rewrite E. specialize (Hk t). rewrite sockets_cons in Hk. cbn in Ht', Hdt, Hk.
    apply elem_of_union in Ht' as [->%elem_of_singleton|Ht']; [|set_solver].
    destruct Hg as [->|Hg]; [set_solver|done]. }
  unfold IsClosed, taken. change (dead q) with (dead p). case_bool_decide as Hd; [|destruct b].
  all: split; [done|cbn in *; lia|rewrite E; cbn; try apply NoDup_cons; done|rewrite E; cbn| |done].
  all: try (apply Hkq; by auto). all: try apply Forall_cons; try done. all: split; [set_solver|done].
Qed.

Lemma one_more (l : list nat) s : l ++ [s] ≡ₚ (s :: l) ++ [].
Proof. rewrite app_nil_r. symmetry. apply Permutation_cons_append. Qed.

(** A step that only moves a token or a socket; [E] says what the channel held. *)
Ltac moves H E :=
  eapply inv_move; [exact H|reflexivity|reflexivity|reflexivity|try reflexivity; try done
                   |cbn [size idle set_size set_idle add_ref token]; rewrite ?E; cbn [length]; rewrite ?length_app; cbn [length]; try lia
                   |cbn [size idle set_size set_idle add_ref owned]; rewrite ?E; first [reflexivity|apply one_more|symmetry; apply one_more|by rewrite app_nil_r|idtac]
                   |try reflexivity; try done].

Lemma get_inv b n p c g p' g' rest :
  inv b n (p, g :: rest) -> get_step b p c g = Some (p', g') -> inv b n (p', g' :: rest).
Proof.
  intros H Hs. destruct g; cbn in Hs; try done.
  - destruct (idle p) as [|s l] eqn:E; simplify_eq; [moves H E|].
    unfold taken. destruct b; moves H E.
  - destruct (size p) as [|m] eqn:E; simplify_eq; moves H E.
  - destruct c as [| | |[s|]]; try done; [|simplify_eq; moves H I].
    destruct (decide (s ∈ born p)) as [|Hn]; [done|]. pose proof (inv_create b n p rest s H Hn) as Hc.
    unfold IsClosed in *. cbn in Hs. case_bool_decide; simplify_eq; done.
  - unfold put_size in Hs. destruct (Nat.ltb_spec (size p) (cap p)); cbn in Hs; simplify_eq. moves H I.
  - destruct c; destruct (idle p) as [|s l] eqn:E; simplify_eq; try done; unfold taken; try destruct b; moves H E.
  - simplify_eq. destruct b.
    + eapply inv_ref; [exact H|done..|]. intros t. cbn. repeat case_decide; simplify_eq; lia.
    + moves H I.
Qed.

Lemma counted_RPool b n p s rest : inv b n (p, RDec s :: rest) -> inv b n (add_ref s (-1) p, RPool s :: rest).
Proof. intros H. destruct b; [|moves H I]. eapply inv_ref; [exact H|done..|]. intros t. cbn. repeat case_decide; simplify_eq; lia. Qed.

Lemma release_inv b n p g p' g' rest :
  inv b n (p, g :: rest) -> release_step b p g = Some (p', g') -> inv b n (p', g' :: rest).
Proof.
  intros H Hs. destruct g as [| | | | | | | |o|s| |s| | | | |]; cbn in Hs; try done.
  - destruct o as [s|]; [|simplify_eq; moves H I]. destruct b; simplify_eq; [moves H I|].
    destruct (IsClosed s p') eqn:E; [by eapply inv_drop|moves H I].
  - simplify_eq. pose proof (counted_RPool b n p s rest H) as H'.
    destruct (IsClosed s _) eqn:E; [|done]. by eapply inv_drop.
  - unfold put_size in Hs. destruct (Nat.ltb_spec (size p) (cap p)); cbn in Hs; simplify_eq. moves H I.
  - unfold put_idle in Hs. destruct (Nat.ltb_spec (length (idle p)) (cap p)); cbn in Hs; simplify_eq. moves H I.
Qed.

Lemma heartbeat_inv b n p c g p' g' rest :
  inv b n (p, g :: rest) -> heartbeat_step p c g = Some (p', g') -> inv b n (p', g' :: rest).
Proof.
  intros H Hs. destruct g as [| | | | | | | |o|s| |s| |i|i s|i s|i]; cbn in Hs; try done.
  - simplify_eq. moves H I.
  - destruct i as [|i]; [simplify_eq; moves H I|]. destruct c; destruct (idle p) as [|s l] eqn:E; simplify_eq; moves H E.
  - destruct (IsClosed s p) eqn:E; simplify_eq; [by eapply inv_drop|moves H I].
  - unfold put_idle in Hs. destruct (Nat.ltb_spec (length (idle p)) (cap p)); cbn in Hs; simplify_eq. moves H I.
  - unfold put_size in Hs. destruct (Nat.ltb_spec (size p) (cap p)); cbn in Hs; simplify_eq. moves H I.
Qed.

(** ** Every state that is reached *)

Lemma pool_step_inv b n p c g p' g' rest :
  inv b n (p, g :: rest) -> pool_step b p c g = Some (p', g') -> inv b n (p', g' :: rest).
Proof.
  intros H Hs. destruct g; cbn [pool_step] in Hs; try done;
    eauto using get_inv, release_inv, heartbeat_inv.
Qed.

Lemma pool_sys_inv b n st st' : inv b n st -> step b st st' -> inv b n st'.
Proof.
  intros H Hs. destruct Hs as [p ts i g Hi Hg|p ts i s Hi|p ts i g c p' g' Hi Hs|p ts s].
  1-3: destruct (pick ts i _ Hi) as (rest & E & E'); eapply inv_perm in H; [|exact E];
    eapply inv_perm; [symmetry; apply E'|].
  - destruct Hg as [->| ->]; moves H I.
  - moves H I.
  - by eapply pool_step_inv.
  - destruct H as [Hc Ht Hn Hb Hk Hr]. split; try done. intros t Ht' Hd. apply Hk; [done|]. cbn in Hd. set_solver.
Qed.

Lemma new_pool_inv b n k : inv b n (newPool n, replicate k Idle).
Proof.
  assert (forall f : pc -> nat, f Idle = 0%nat -> sum_list_with f (replicate k Idle) = 0%nat) as Hz.
  { intros f Hf. induction k as [|k IH]; cbn; [done|]. by rewrite Hf, IH. }
  assert (mjoin (owned <$> replicate k Idle) = []) as Hj by (clear Hz; induction k as [|k IH]; [done|exact IH]).
  split; cbn; rewrite ?Hz by done; unfold sockets; cbn; rewrite ?Hj; try done; try lia; try by constructor.
  intros _ s. cbn. by rewrite Hz.
Qed.

Lemma pool_reachable_inv b n st : reachable b n st -> inv b n st.
Proof. intros [k Hs]. eapply star_invariant; [|exact Hs|apply new_pool_inv]. intros x y. apply pool_sys_inv. Qed.

(** A goroutine that sends on a channel of the pool finds room. *)
Lemma sending_steps b n p ts i g :
  inv b n (p, ts) -> ts !! i = Some g -> sending g = true -> exists r, pool_step b p Go g = Some r.
Proof.
  intros H Hi Hg. destruct (pick ts i _ Hi) as (rest & E & _). eapply inv_perm in H; [|exact E].
  destruct H as [Hc Ht _ _ _ _]. cbn [fst snd sum_list_with] in *.
  assert (token g = 1%nat) as Htk by (by destruct g). rewrite Htk in Ht.
  destruct g; try done; cbn [pool_step get_step release_step heartbeat_step]; unfold put_size, put_idle;
    case (Nat.ltb_spec _ _); intros Hlt; first [by eexists|exfalso; lia].
Qed.

(** The open sockets fit in the pool. *)
Lemma open_bound b n p ts : inv b n (p, ts) -> (base.size (born p ∖ dead p) <= n)%nat.
Proof.
  intros [Hc Ht Hn Hb Hk _]. cbn [fst snd] in *.
  assert (length (mjoin (owned <$> ts)) <= sum_list_with token ts)%nat as Hlen.
  { clear. induction ts as [|g ts IH]; [done|]. 
    change (length (owned g ++ mjoin (owned <$> ts)) <= token g + sum_list_with token ts)%nat.
    rewrite length_app. assert (length (owned g) <= token g)%nat by (destruct g as [| | | | | | | |[]| | | | | | | |]; cbn; lia). lia. }
  assert (length (sockets (p, ts)) <= n)%nat as Hs by (unfold sockets; cbn; rewrite length_app; lia).
  etransitivity; [|exact Hs].
  transitivity (base.size (list_to_set (C := gset nat) (sockets (p, ts)))).
  - apply subseteq_size. intros s Hin. apply elem_of_list_to_set. set_solver.
  - by rewrite size_list_to_set.
Qed.

(** Nobody shares a socket. *)
Lemma exclusive b n p ts i j g h s :
  inv b n (p, ts) -> ts !! i = Some g -> ts !! j = Some h -> s ∈ owned g -> s ∈ owned h -> i = j.
Proof.
  intros [_ _ Hn _ _ _] Hi Hj Hg Hh. unfold sockets in Hn. apply NoDup_app in Hn as (_ & _ & Hn). cbn in Hn.
  destruct (decide (i = j)) as [|Hne]; [done|]. exfalso.
  destruct (pick ts i _ Hi) as (rest & E & E'). rewrite E in Hn. cbn in Hn. apply NoDup_app in Hn as (_ & Hd & _).
  apply (Hd s Hg). apply list_elem_of_join. exists (owned h). split; [done|]. apply list_elem_of_fmap. exists h. split; [done|].
  assert (h ∈ <[i := Idle]> ts) as Hin.
  { apply list_elem_of_lookup. exists j. by rewrite list_lookup_insert_ne. }
  rewrite E' in Hin. apply elem_of_cons in Hin as [->|]; [|done]. cbn in Hh. by apply elem_of_nil in Hh.
Qed.

(** ** Progress *)

(** The steps of its own that a goroutine has before it. *)
Definition rank (n : nat) (g : pc) : nat :=
  match g with
  | Idle | Held _ => 0
  | GPool => 5 | GSize => 4 | GCreate => 3 | GWait => 2 | GBack | GInc _ => 1
  | Release _ => 3 | RDec _ => 2 | RSize | RPool _ => 1
  | HStart => 3 * n + 2
  | HLoop i => 3 * i + 1 | HGot i _ => 3 * i + 3 | HPut i _ | HSize i => 3 * i + 2
  end.

Lemma idle_bound b n p ts : inv b n (p, ts) -> (length (idle p) <= n)%nat.
Proof. intros [_ Ht _ _ _ _]. cbn [fst snd] in Ht. lia. Qed.

Lemma rank_decreases b n p ts i g c p' g' :
  inv b n (p, ts) -> ts !! i = Some g -> pool_step b p c g = Some (p', g') -> (rank n g' < rank n g)%nat.
Proof.
  intros H%idle_bound _. destruct g as [| | | | | | | |[s|]|s| |s| |[|j]|j s|j s|j]; cbn [pool_step get_step release_step heartbeat_step]; try done.
  all: unfold put_size, put_idle, taken; repeat case_match; intros; simplify_option_eq; cbn [rank]; try lia.
Qed.

(** A goroutine that does not send on a channel of the pool. *)
Lemma quiet_steps b p g :
  g <> Idle -> (forall s, g <> Held s) -> sending g = false ->
  exists p' g', pool_step b p (match g with GCreate => Created None | GWait => Timeout | _ => Go end) g = Some (p', g').
Proof.
  intros Hi Hh Hs. destruct g as [| | | | | | |s|[s|]|s| |s| |[|j]|j s|j s|j]; try done; cbn [pool_step get_step release_step heartbeat_step]; eauto.
  - by destruct (idle p); eauto.
  - by destruct (Pool.size p); eauto.
  - by destruct (Hh s).
  - by destruct b; eauto.
  - by destruct (idle p); eauto.
Qed.

(** The rounds of a heartbeat that is under way are at most those of the pool. *)
Definition rounds (n : nat) (g : pc) : Prop :=
  match g with HLoop i => i <= n | HGot i _ | HPut i _ | HSize i => i < n | _ => True end%nat.

Lemma step_rounds b n st st' : inv b n st -> Forall (rounds n) st.2 -> step b st st' -> Forall (rounds n) st'.2.
Proof.
  intros Hinv Hf Hs. destruct Hs as [p ts i g Hi Hg|p ts i s Hi|p ts i g c p' g' Hi Hg|p ts s]; cbn [snd] in *; try done;
    apply Forall_insert; try done.
  - by destruct Hg as [-> | ->].
  - pose proof (Forall_lookup_1 _ _ _ _ Hf Hi) as Hr. apply idle_bound in Hinv.
    destruct g as [| | | | | | | |[s|]|s| |s| |[|j]|j s|j s|j]; cbn [pool_step get_step release_step heartbeat_step rounds] in *; try done.
    all: unfold put_size, put_idle, taken in *; repeat case_match; simplify_option_eq; cbn [rounds]; try done; lia.
Qed.

Lemma rank_bound b n p ts i g : reachable b n (p, ts) -> ts !! i = Some g -> (rank n g <= 3 * n + 5)%nat.
Proof.
  intros [k Hs] Hi. assert (inv b n (p, ts) /\ Forall (rounds n) ts) as [_ Hf].
  { eapply (star_invariant _ (fun st => inv b n st /\ Forall (rounds n) st.2)); [|exact Hs|].
    - intros x y [Hx Hf] Hstep. split; [by eapply pool_sys_inv|by eapply step_rounds].
    - split; [apply new_pool_inv|]. cbn. by apply Forall_replicate. }
  pose proof (Forall_lookup_1 _ _ _ _ Hf Hi) as Hr. destruct g; cbn [rank rounds] in *; lia.
Qed.
End PoolInv.
