(* ===== verification/Channels.v ===== *)
(** src/internal/queue/amqp091/channelPool.go: a channel is made on a connection that is
    borrowed from the pool of connections ([createChannel], connPool.go), beside the
    heartbeats of both pools. The two pools together behave, each for itself, like the pool
    of [Pool]. *)

From S2P Require Export Pool.

Module Channels.
Import Pool PoolInv.

(** Where a goroutine is inside [createChannel]; at the end, whether it has a channel. *)
Inductive creating :=
  | NotCreating
  | Getting (g : pc)                       (* connPool.getAmqpConnection *)
  | Opening (conn : nat)                   (* amqpConn.Channel() *)
  | Confirming (conn : nat)                (* ch.Confirm(false) *)
  | Releasing (g : pc) (ok : bool)         (* the deferred connPool.release *)
  | Made (ok : bool).

(** A step on the pool of connections; the library answers [Go] or, with an error,
    [Timeout]. *)
Definition createChannel_step (conns : pool) (c : choice) (k : creating) : option (pool * creating) :=
  match k with
  | NotCreating => Some (conns, Getting GPool)
  | Getting (Held s) => Some (conns, Opening s)
  | Getting Idle => Some (conns, Made false)
  | Getting g => '(conns, g) ← pool_step false conns c g; Some (conns, Getting g)
  | Opening s => match c with
                 | Go => Some (conns, Confirming s)
                 | Timeout => Some (conns, Releasing (Release (Some s)) false)
                 | _ => None
                 end
  | Confirming s => match c with
                    | Go => Some (conns, Releasing (Release (Some s)) true)
                    | Timeout => Some (conns, Releasing (Release (Some s)) false)
                    | _ => None
                    end
  | Releasing Idle ok => Some (conns, Made ok)
  | Releasing g ok => '(conns, g) ← pool_step false conns c g; Some (conns, Releasing g ok)
  | Made _ => None
  end.

(** The goroutines: those on the pool of channels (they send batches, or run its heartbeat:
    [loopHeartbeat] and the monitors), where each is inside [createChannel], and those that
    run the heartbeat of the pool of connections: [loopHeartbeat] and, for each connection,
    the goroutine that waits for it to close. *)
Record system := mkSys { conns : pool; chans : pool; outer : list pc; inner : list creating; beats : list pc }.

Inductive step : system -> system -> Prop :=
  (* everything on the channels but the making of one: also the heartbeat of their pool *)
  | c_call s i g : outer s !! i = Some Idle -> g = GPool \/ g = HStart ->
      step s (mkSys (conns s) (chans s) (<[i := g]> (outer s)) (inner s) (beats s))
  | c_release s i ch : outer s !! i = Some (Held ch) ->
      step s (mkSys (conns s) (chans s) (<[i := Release (Some ch)]> (outer s)) (inner s) (beats s))
  | c_go s i g c p' g' : outer s !! i = Some g -> g <> GCreate -> pool_step true (chans s) c g = Some (p', g') ->
      step s (mkSys (conns s) p' (<[i := g']> (outer s)) (inner s) (beats s))
  (* inside createChannel *)
  | c_create s i k c p' k' : outer s !! i = Some GCreate -> inner s !! i = Some k ->
      createChannel_step (conns s) c k = Some (p', k') ->
      step s (mkSys p' (chans s) (outer s) (<[i := k']> (inner s)) (beats s))
  | c_made s i ch p' g' : outer s !! i = Some GCreate -> inner s !! i = Some (Made (bool_decide (is_Some ch))) ->
      pool_step true (chans s) (Created ch) GCreate = Some (p', g') ->
      step s (mkSys (conns s) p' (<[i := g']> (outer s)) (<[i := NotCreating]> (inner s)) (beats s))
  (* the heartbeat of the connections *)
  | c_beat s i : beats s !! i = Some Idle ->
      step s (mkSys (conns s) (chans s) (outer s) (inner s) (<[i := HStart]> (beats s)))
  | c_beat_go s i g c p' g' : beats s !! i = Some g -> pool_step false (conns s) c g = Some (p', g') ->
      step s (mkSys p' (chans s) (outer s) (inner s) (<[i := g']> (beats s)))
  (* sockets that close *)
  | c_close_conn s x : step s (mkSys (set_dead ({[x]} ∪ dead (conns s)) (conns s)) (chans s) (outer s) (inner s) (beats s))
  | c_close_chan s x : step s (mkSys (conns s) (set_dead ({[x]} ∪ dead (chans s)) (chans s)) (outer s) (inner s) (beats s)).

(** [n] goroutines that use the channels, and [b] that look after the connections. *)
Definition start (connPoolSize channelPoolSize n b : nat) : system :=
  mkSys (newPool connPoolSize) (newPool channelPoolSize) (replicate n Idle) (replicate n NotCreating) (replicate b Idle).

Definition reachable (connPoolSize channelPoolSize n b : nat) (s : system) : Prop :=
  star step (start connPoolSize channelPoolSize n b) s.

(** ** What a goroutine is for the pool of connections *)

Definition as_pc (k : creating) : pc :=
  match k with
  | NotCreating | Made _ => Idle
  | Getting g => g
  | Opening s | Confirming s => Held s
  | Releasing g _ => g
  end.

(** All goroutines that are on the pool of connections. *)
Definition on_conns (s : system) : list pc := (as_pc <$> inner s) ++ beats s.

Lemma createChannel_refines p ts bs i k c p' k' :
  ts !! i = Some k -> createChannel_step p c k = Some (p', k') ->
  star (Pool.step false) (p, (as_pc <$> ts) ++ bs) (p', (as_pc <$> <[i := k']> ts) ++ bs).
Proof.
  intros Hi Hs. rewrite list_fmap_insert. assert ((as_pc <$> ts) !! i = Some (as_pc k)) as Ha by by rewrite list_lookup_fmap, Hi.
  rewrite <- insert_app_l by (by eapply lookup_lt_Some). apply (lookup_app_l_Some _ bs) in Ha.
  set (l := (as_pc <$> ts) ++ bs) in *. clearbody l.
  assert (forall g', as_pc k = g' -> star (Pool.step false) (p, l) (p, <[i := g']> l)) as Hsame
    by (intros g' <-; rewrite list_insert_id by done; constructor).
  assert (forall g' p2, pool_step false p c (as_pc k) = Some (p2, g') -> star (Pool.step false) (p, l) (p2, <[i := g']> l)) as Hgo
    by (intros g' p2 Hp; apply star_one; by eapply s_go).
  destruct k as [|g|s|s|g ok|ok]; cbn [createChannel_step as_pc] in *; try done.
  - injection Hs as <- <-. apply star_one. apply s_call; [done|by left].
  - destruct g; try (injection Hs as <- <-; by apply Hsame);
      (destruct (pool_step false p c _) as [[p2 g2]|] eqn:E; [|done]; injection Hs as <- <-; by apply Hgo).
  - destruct c; try done; injection Hs as <- <-; [by apply Hsame|]. apply star_one. by apply s_release.
  - destruct c; try done; injection Hs as <- <-; apply star_one; by apply s_release.
  - destruct g; try (injection Hs as <- <-; by apply Hsame);
      (destruct (pool_step false p c _) as [[p2 g2]|] eqn:E; [|done]; injection Hs as <- <-; by apply Hgo).
Qed.

(** A goroutine of the heartbeat among all. *)
Lemma beat_at (l : list pc) bs i g g' :
  bs !! i = Some g -> (l ++ bs) !! (length l + i)%nat = Some g /\ l ++ <[i := g']> bs = <[(length l + i)%nat := g']> (l ++ bs).
Proof. intros Hi. split; [by rewrite lookup_app_r, Nat.add_comm, Nat.add_sub by lia|by rewrite insert_app_r]. Qed.

(** Both views of a step. *)
Lemma step_refines s s' :
  step s s' ->
  star (Pool.step false) (conns s, on_conns s) (conns s', on_conns s') /\
  star (Pool.step true) (chans s, outer s) (chans s', outer s').
Proof.
  unfold on_conns.
  intros Hs. destruct Hs as [s i g Hi Hg|s i ch Hi|s i g c p' g' Hi Hne Hp|s i k c p' k' Hi Hk Hp|s i ch p' g' Hi Hk Hp|
    s i Hi|s i g c p' g' Hi Hp|s x|s x];
    cbn [conns chans outer inner beats].
  - split; [constructor|]. apply star_one. by apply s_call.
  - split; [constructor|]. apply star_one. by apply s_release.
  - split; [constructor|]. apply star_one. by eapply s_go.
  - split; [|constructor]. by eapply createChannel_refines.
  - split; [|apply star_one; by eapply s_go]. rewrite list_fmap_insert.
    rewrite list_insert_id; [constructor|]. by rewrite list_lookup_fmap, Hk.
  - destruct (beat_at (as_pc <$> inner s) _ _ _ HStart Hi) as [Ha ->]. split; [|constructor].
    apply star_one, s_call; [done|by right].
  - destruct (beat_at (as_pc <$> inner s) _ _ _ g' Hi) as [Ha ->]. split; [|constructor]. apply star_one. by eapply s_go.
  - split; [apply star_one, s_close|constructor].
  - split; [constructor|apply star_one, s_close].
Qed.

Lemma channels_refine n m k b s :
  reachable n m k b s ->
  Pool.reachable false n (conns s, on_conns s) /\ Pool.reachable true m (chans s, outer s).
Proof.
  intros Hr. assert (star (Pool.step false) (conns (start n m k b), on_conns (start n m k b)) (conns s, on_conns s) /\
    star (Pool.step true) (chans (start n m k b), outer (start n m k b)) (chans s, outer s)) as [H1 H2].
  { induction Hr as [|x y z Hxy _ [IH1 IH2]]; [by split; constructor|]. destruct (step_refines x y Hxy) as [S1 S2].
    split; eapply star_app; eauto. }
  unfold on_conns at 1 in H1. cbn in H1, H2. rewrite fmap_replicate, <- replicate_add in H1. split; [by exists (k + b)%nat|by exists k].
Qed.

(** ** A goroutine that makes a channel is inside [createChannel] at most while it holds a
    token of the pool of channels. *)

Definition paired (s : system) : Prop :=
  length (outer s) = length (inner s) /\
  forall i g k, outer s !! i = Some g -> inner s !! i = Some k -> g <> GCreate -> k = NotCreating.

Lemma paired_step s s' : paired s -> step s s' -> paired s'.
Proof.
  intros [Hl Hp] Hs. split.
  - destruct Hs; cbn [outer inner]; rewrite ?length_insert; done.
  - assert (forall i j g g' k, outer s !! j = Some g' -> g' <> GCreate -> <[j := g]> (outer s) !! i <> Some GCreate ->
      is_Some (outer s !! i) -> inner s !! i = Some k -> k = NotCreating) as Hother.
    { intros i j g g' k Hj Hg' Hi [h Hh] Hk. destruct (decide (i = j)) as [->|Hne]; [exact (Hp _ _ _ Hj Hk Hg')|].
      rewrite list_lookup_insert_ne in Hi by done. apply (Hp _ _ _ Hh Hk). intros ->. by apply Hi. }
    intros i g k. destruct Hs as [s j h Hj Hg|s j ch Hj|s j h c p' g' Hj Hne Hstep|s j k0 c p' k' Hj Hk Hstep|s j ch p' g' Hj Hk Hstep|s j Hj|s j h c p' g' Hj Hstep|s x|s x];
      cbn [outer inner]; intros Hi Hik Hgc.
    1-3: eapply (Hother i j _ _ _ Hj); [done|rewrite Hi; congruence|apply lookup_lt_is_Some_2; rewrite Hl; exact (lookup_lt_Some _ _ _ Hik)|exact Hik].
    + destruct (decide (i = j)) as [->|Hne]; [congruence|]. rewrite list_lookup_insert_ne in Hik by done. exact (Hp _ _ _ Hi Hik Hgc).
    + destruct (decide (i = j)) as [->|Hne].
      * rewrite (list_lookup_insert_eq _ _ _ (lookup_lt_Some _ _ _ Hk)) in Hik. congruence.
      * rewrite list_lookup_insert_ne in Hi by done. rewrite list_lookup_insert_ne in Hik by done. exact (Hp _ _ _ Hi Hik Hgc).
    + exact (Hp _ _ _ Hi Hik Hgc).
    + exact (Hp _ _ _ Hi Hik Hgc).
    + exact (Hp _ _ _ Hi Hik Hgc).
    + exact (Hp _ _ _ Hi Hik Hgc).
Qed.

Lemma reachable_paired n m k b s : reachable n m k b s -> paired s.
Proof.
  intros Hr. eapply star_invariant; [exact paired_step|exact Hr|]. split; cbn; [by rewrite !length_replicate|].
  intros i g c _ Hc _. by apply lookup_replicate in Hc as [-> _].
Qed.

(** ** Progress *)

(** What the goroutines of the connections can be at: [createChannel] calls nothing else
    and hands on what it gets. *)
Definition at_work (k : creating) : Prop :=
  match k with
  | Getting g => match g with GPool | GSize | GCreate | GBack | GWait | Idle | Held _ => True | _ => False end
  | Releasing g _ => match g with Release (Some _) | RSize | RPool _ | Idle => True | _ => False end
  | _ => True
  end.

Lemma createChannel_at_work p c k p' k' : at_work k -> createChannel_step p c k = Some (p', k') -> at_work k'.
Proof.
  destruct k as [|g|s|s|g ok|ok]; cbn [createChannel_step at_work]; try done.
  - by intros _ [= <- <-].
  - destruct g; try done; cbn [pool_step get_step]; intros _; repeat case_match; intros; simplify_option_eq; done.
  - by destruct c; try done; intros _ [= <- <-].
  - by destruct c; try done; intros _ [= <- <-].
  - destruct g as [| | | | | | | |[s|]| | | | | | | |]; try done; cbn [pool_step release_step]; intros _; intros; simplify_option_eq; try done.
    by destruct (IsClosed _ _).
Qed.

Lemma reachable_at_work n m k b s : reachable n m k b s -> Forall at_work (inner s).
Proof.
  intros Hr. eapply (star_invariant step (fun s => Forall at_work (inner s))); [|exact Hr|by apply Forall_replicate].
  intros x y Hx Hs. destruct Hs as [x i g Hi Hg|x i ch Hi|x i g c p' g' Hi Hne Hp|x i kk c p' k' Hi Hk Hp|x i ch p' g' Hi Hk Hp|
    x i Hi|x i g c p' g' Hi Hp|x z|x z];
    cbn [inner]; try done; apply Forall_insert; try done.
  eapply createChannel_at_work; [|exact Hp]. by eapply Forall_lookup_1.
Qed.

(** Those that run the heartbeat of the connections do nothing else. *)
Definition beating (g : pc) : Prop :=
  match g with Idle | HStart | HLoop _ | HGot _ _ | HPut _ _ | HSize _ => True | _ => False end.

Lemma reachable_beating n m k b s : reachable n m k b s -> Forall beating (beats s).
Proof.
  intros Hr. eapply (star_invariant step (fun s => Forall beating (beats s))); [|exact Hr|by apply Forall_replicate].
  intros x y Hx Hs. destruct Hs as [x i g Hi Hg|x i ch Hi|x i g c p' g' Hi Hne Hp|x i kk c p' k' Hi Hk Hp|x i ch p' g' Hi Hk Hp|
    x i Hi|x i g c p' g' Hi Hp|x z|x z];
    cbn [beats]; try done; apply Forall_insert; try done.
  assert (beating g) as Hb by exact (Forall_lookup_1 _ _ _ _ Hx Hi).
  destruct g as [| | | | | | | | | | | | |[|j]|j s0|j s0|j]; try done; cbn [pool_step heartbeat_step] in Hp;
    repeat case_match; simplify_option_eq; done.
Qed.

(** In the middle of a call of the pool of connections there is a next step. *)
Lemma conns_go n m k b s i g :
  reachable n m k b s -> on_conns s !! i = Some g -> g <> Idle -> (forall x, g <> Held x) ->
  exists c p' g', pool_step false (conns s) c g = Some (p', g') /\ g' <> g.
Proof.
  intros Hr Ha Hi Hh. destruct (channels_refine _ _ _ _ _ Hr) as [Hc _]. apply pool_reachable_inv in Hc.
  assert (exists c p' g', pool_step false (conns s) c g = Some (p', g')) as (c & p' & g' & E).
  { destruct (sending g) eqn:Es; [destruct (sending_steps _ _ _ _ _ _ Hc Ha Es) as [[p' g'] E]; eauto|].
    eexists. by apply quiet_steps. }
  exists c, p', g'. split; [done|]. intros ->. apply (rank_decreases _ _ _ _ _ _ _ _ _ Hc Ha) in E. lia.
Qed.

(** Making a channel is never stuck. *)
Lemma creating_steps n m k b s i kk :
  reachable n m k b s -> outer s !! i = Some GCreate -> inner s !! i = Some kk ->
  exists s', step s s' /\ inner s' !! i <> Some kk.
Proof.
  intros Hr Ho Hk.
  assert (forall c p' k', createChannel_step (conns s) c kk = Some (p', k') -> k' <> kk -> exists s', step s s' /\ inner s' !! i <> Some kk) as Hgo.
  { intros c p' k' Hs Hne. eexists. split; [by eapply c_create|]. cbn [inner].
    rewrite list_lookup_insert_eq by (by eapply lookup_lt_Some). congruence. }
  assert (at_work kk) as Hw by exact (Forall_lookup_1 _ _ _ _ (reachable_at_work _ _ _ _ _ Hr) Hk).
  assert (on_conns s !! i = Some (as_pc kk)) as Ha by (apply lookup_app_l_Some; by rewrite list_lookup_fmap, Hk).
  assert (forall g, as_pc kk = g -> g <> Idle -> (forall x, g <> Held x) -> exists c p' g', pool_step false (conns s) c g = Some (p', g') /\ g' <> g) as Hp
    by (intros g <-; by eapply conns_go).
  destruct kk as [|g|x|x|g ok|ok]; cbn [as_pc at_work] in *.
  - by eapply (Hgo Go).
  - destruct g eqn:Eg; try done; try (by eapply (Hgo Go));
      (destruct (Hp _ eq_refl) as (c & p' & g' & E & Hne); [done|done|]; eapply (Hgo c); [cbn [createChannel_step]; by rewrite E|congruence]).
  - by eapply (Hgo Go).
  - by eapply (Hgo Go).
  - destruct g as [| | | | | | | |o| | | | | | | |] eqn:Eg; try done; try (by eapply (Hgo Go));
      (destruct (Hp _ eq_refl) as (c & p' & g' & E & Hne); [done|done|]; eapply (Hgo c); [cbn [createChannel_step]; by rewrite E|congruence]).
  - assert (exists ch p' g', bool_decide (is_Some ch) = ok /\ pool_step true (chans s) (Created ch) GCreate = Some (p', g')) as (ch & p' & g' & <- & E).
    { destruct ok; [|exists None; by eexists _, _]. exists (Some (base.fresh (born (chans s)))). cbn [pool_step get_step].
      rewrite decide_False by apply is_fresh. destruct (IsClosed _ _); by eexists _, _. }
    eexists. split; [by eapply c_made|]. cbn [inner]. by rewrite list_lookup_insert_eq by (by eapply lookup_lt_Some).
Qed.

(** C19: The pool of channels on top of the pool of connections: a channel is made on a
    connection that is borrowed from the other pool and given back before the channel is
    handed out, while heartbeats look after both pools and sockets close. Whatever the
    interleaving, each of the two pools behaves like the pool of [Pool] with the calls that
    reach it, so there are never more connections and channels open than their sizes; a
    goroutine that makes a channel always has a next step, so that the two pools cannot
    block each other; and neither can a heartbeat of the connections be blocked. *)
Theorem channels_correct n m k b s :
  reachable n m k b s ->
  Pool.reachable false n (conns s, on_conns s) /\ Pool.reachable true m (chans s, outer s) /\
  (base.size (born (conns s) ∖ dead (conns s)) <= n)%nat /\ (base.size (born (chans s) ∖ dead (chans s)) <= m)%nat /\
  (forall i g kk, outer s !! i = Some g -> inner s !! i = Some kk -> g <> GCreate -> kk = NotCreating) /\
  (forall i, outer s !! i = Some GCreate -> exists kk s', inner s !! i = Some kk /\ step s s' /\ inner s' !! i <> Some kk) /\
  (forall i g, beats s !! i = Some g -> g <> Idle -> exists s', step s s' /\ beats s' !! i <> Some g).
Proof.
  intros Hr. destruct (channels_refine _ _ _ _ _ Hr) as [Hc Hh]. destruct (reachable_paired _ _ _ _ _ Hr) as [Hl Hp].
  split_and!; [done|done|by eapply open_bound, pool_reachable_inv|by eapply open_bound, pool_reachable_inv|exact Hp| |].
  - intros i Hi. destruct (lookup_lt_is_Some_2 (inner s) i) as [kk Hk]; [rewrite <- Hl; exact (lookup_lt_Some _ _ _ Hi)|].
    destruct (creating_steps _ _ _ _ _ _ _ Hr Hi Hk) as (s' & Hs & Hne). by exists kk, s'.
  - intros i g Hi Hne. assert (beating g) as Hb by exact (Forall_lookup_1 _ _ _ _ (reachable_beating _ _ _ _ _ Hr) Hi).
    destruct (beat_at (as_pc <$> inner s) _ _ _ g Hi) as [Ha _].
    destruct (conns_go _ _ _ _ _ _ _ Hr Ha Hne) as (c & p' & g' & Hs & Hg); [by intros x ->|].
    eexists. split; [by eapply c_beat_go|]. cbn [beats]. rewrite list_lookup_insert_eq by (by eapply lookup_lt_Some). congruence.
Qed.

(** One goroutine that has asked for a channel, beside the heartbeat of the connections. *)
Definition demo_asking : system := mkSys (newPool 1) (set_size 0 (newPool 1)) [GCreate] [NotCreating] [HStart].

Lemma demo_asking_reachable : reachable 1 1 1 1 demo_asking.
Proof.
  eapply star_cons; [eapply (c_call _ 0%nat GPool); [reflexivity|by left]|].
  eapply star_cons; [eapply (c_go _ 0%nat _ Go); [reflexivity|done|reflexivity]|].
  eapply star_cons; [eapply (c_go _ 0%nat _ Go); [reflexivity|done|reflexivity]|].
  eapply star_cons; [eapply (c_beat _ 0%nat); reflexivity|].
  apply star_nil.
Qed.

Lemma channels_correct_witness :
  Pool.reachable false 1 (newPool 1, [Idle; HStart]) /\ exists s', step demo_asking s' /\ inner s' !! 0%nat <> Some NotCreating.
Proof.
  destruct (channels_correct 1 1 1 1 demo_asking demo_asking_reachable) as (H1 & _ & _ & _ & _ & H6 & _).
  split; [exact H1|]. destruct (H6 0%nat eq_refl) as (kk & s' & Hk & Hs & Hne). exists s'. split; [exact Hs|].
  injection Hk as <-. exact Hne.
Defined.
End Channels.
