(* ===== verification/EventQueue.v ===== *)
(** src/internal/queue: the queues that carry the events to Redis. The packets and
    their pool (internal/packet.go) and the queue with its sending goroutine and
    the tasks that it starts (redisQueue/queue.go). [Send] and [Close] are those of
    the AMQP queue (amqp091/queue.go) too. *)

From S2P Require Export State.

Module EventQueue.

(** ** The state

    A packet is an object that goes from the pool to a caller of [Send], to the
    queue, to a task and back. [packets] are all that exist, [free] those in the
    pool, [slices] the number of buffers that are out of the library's pool of
    buffers. [marks] are the calls of [Mark] on the metrics, [cmds] the commands
    that Redis got, with its answer to each call. *)
Record Packet := mkPkt { Message : bytes; bodyFromPool : bool }.

Inductive redisCmd :=
  | LPush (key : string) (value : bytes)
  | XAdd (stream : string) (value : bytes).

(** A call: the commands of a pipeline, or one command, and the answer: which commands
    failed, and whether the call reports an error. *)
Definition exchange := (list redisCmd * (list bool * bool))%type.

(** What Redis has taken and what it has refused: all or nothing but for a pipeline whose
    commands are told apart. Without an answer for each command nothing is known to be
    taken. *)
Definition answered (fate : bool) (x : exchange) : list redisCmd :=
  let '(cs, (errs, err)) := x in
  if negb err then (if fate then cs else [])
  else if negb (length errs =? length cs)%nat then (if fate then [] else cs)
  else (filter (fun y : bool * redisCmd => y.1 = negb fate) (zip errs cs)).*2.

(** The answers of the libraries are lists, taken in order; an empty list stands
    for success. The answer to a pipeline says which commands failed and whether
    [Exec] reports an error. *)
Record state := mkState {
  packets : gmap nat Packet;
  free : list nat;
  slices : Z;
  sendCh : fifo nat;
  closeLock : Z;
  marks : list (Z * Z);
  submit_errs : list bool;
  answers : list (list bool * bool);
  cmds : list exchange;
}.

Definition set_packets (m : gmap nat Packet) (st : state) : state :=
  mkState m (free st) (slices st) (sendCh st) (closeLock st) (marks st) (submit_errs st) (answers st) (cmds st).
Definition set_free (l : list nat) (st : state) : state :=
  mkState (packets st) l (slices st) (sendCh st) (closeLock st) (marks st) (submit_errs st) (answers st) (cmds st).
Definition set_slices (n : Z) (st : state) : state :=
  mkState (packets st) (free st) n (sendCh st) (closeLock st) (marks st) (submit_errs st) (answers st) (cmds st).
Definition set_sendCh (q : fifo nat) (st : state) : state :=
  mkState (packets st) (free st) (slices st) q (closeLock st) (marks st) (submit_errs st) (answers st) (cmds st).
Definition set_closeLock (n : Z) (st : state) : state :=
  mkState (packets st) (free st) (slices st) (sendCh st) n (marks st) (submit_errs st) (answers st) (cmds st).
Definition Mark (item n : Z) (st : state) : state :=
  mkState (packets st) (free st) (slices st) (sendCh st) (closeLock st) (marks st ++ [(item, n)]) (submit_errs st) (answers st) (cmds st).
Definition set_cmds (l : list exchange) (st : state) : state :=
  mkState (packets st) (free st) (slices st) (sendCh st) (closeLock st) (marks st) (submit_errs st) (answers st) l.

(** [goroutine.DefaultWorkerPool.Submit]: whether it failed. *)
Definition Submit (st : state) : bool * state :=
  (default false (head (submit_errs st)),
   mkState (packets st) (free st) (slices st) (sendCh st) (closeLock st) (marks st) (tail (submit_errs st)) (answers st) (cmds st)).

(** The answer to [n] commands. *)
Definition Exec (n : nat) (st : state) : (list bool * bool) * state :=
  (default (replicate n false, false) (head (answers st)),
   mkState (packets st) (free st) (slices st) (sendCh st) (closeLock st) (marks st) (submit_errs st) (tail (answers st)) (cmds st)).

Definition packet (st : state) (p : nat) : Packet := default (mkPkt [] false) (packets st !! p).
Definition message (st : state) (p : nat) : bytes := Message (packet st p).

(** ** internal/packet.go *)

Definition reset (p : nat) (st : state) : state :=
  set_packets (<[p := mkPkt [] false]> (packets st))
    (if bodyFromPool (packet st p) then set_slices (slices st - 1) st else st).

Definition PacketObjPool_Get (st : state) : nat * state :=
  match free st with
  | p :: l => (p, set_free l st)
  | [] => let p := base.fresh (dom (packets st)) in (p, set_packets (<[p := mkPkt [] false]> (packets st)) st)
  end.

Definition PacketObjPool_Put (p : nat) (st : state) : state :=
  let st := reset p st in set_free (p :: free st) st.

Definition Put_all (l : list nat) (st : state) : state := foldl (fun st p => PacketObjPool_Put p st) st l.

Section EventQueue.
Context `{Proto}.

(** [Packet.Set]: whether it failed. The buffer that is asked for goes back at once
    when the encoding fails or needs another one. *)
Definition Packet_Set (p : nat) (m : Proto.message) (cmd : Z) (st : state) : bool * state :=
  match marshal m with
  | None => (true, st)
  | Some body =>
      let size := proto_size m in
      let pooled := (0 <? size) && (4 + len body <=? byteslice_cap (size + 4)) in
      (false, set_packets (<[p := mkPkt (put_be 4 (u32 cmd) ++ body) pooled]> (packets st))
                (if pooled then set_slices (slices st + 1) st else st))
  end.

(** ** Send and Close *)

Definition ItemRedisQueueToBusinessSucceedCount : Z := 14.
Definition ItemRedisQueueToBusinessSucceedByte : Z := 15.
Definition ItemRedisQueueToBusinessFailedCount : Z := 16.
Definition ItemAMQP091ToBusinessSucceedCount : Z := 20.
Definition ItemAMQP091ToBusinessSucceedByte : Z := 21.
Definition ItemAMQP091ToBusinessFailedCount : Z := 22.

Definition Send_counting (failedItem : Z) (m : Proto.message) (cmd : Z) (st : state) : state :=
  let '(pkg, st) := PacketObjPool_Get st in
  let '(err, st) := Packet_Set pkg m cmd st in
  if (err : bool) then PacketObjPool_Put pkg st
  else
    let '(ok, q) := fifo_enqueue pkg (sendCh st) in
    if (ok : bool) then set_sendCh q st
    else PacketObjPool_Put pkg (Mark failedItem 1 st).

Definition Redis_Send : Proto.message -> Z -> state -> state := Send_counting ItemRedisQueueToBusinessFailedCount.
Definition AMQP_Send : Proto.message -> Z -> state -> state := Send_counting ItemAMQP091ToBusinessFailedCount.

(** [Close]: whether it was the first call; a timer closes the queue then. *)
Definition Close (st : state) : bool * state :=
  if closeLock st =? 0 then (true, set_closeLock 1 st) else (false, st).
Definition Close_timer (st : state) : state := set_sendCh (fifo_close (sendCh st)) st.

(** ** The sending goroutine of the Redis queue *)

(** What it submits to the pool of goroutines. *)
Inductive task := Batch (l : list nat) (size : Z) | Single (p : nat).

Definition task_packets (t : task) : list nat := match t with Batch l _ => l | Single p => [p] end.

(** A packet of a batch that is too big for one command. *)
Definition submit_single (a : list task * state) (pkg : nat) : list task * state :=
  let '(err, st) := Submit a.2 in
  if (err : bool) then (a.1, Mark ItemRedisQueueToBusinessFailedCount 1 (PacketObjPool_Put pkg st))
  else (a.1 ++ [Single pkg], st).

(** One turn of [loopSend]: whether it goes on, and what it has submitted; [None] is
    a goroutine that waits for packets. *)
Definition loopSend_turn (receivePackLimit : Z) (dequeueSize : nat) (st : state) : option (bool * list task * state) :=
  match fifo_dequeue dequeueSize (sendCh st) with
  | None => None
  | Some (l, q) =>
      let st := set_sendCh q st in
      let packLimit := Z.max receivePackLimit (Z.of_nat dequeueSize * 2 * 1024) in
      let size := foldl (fun n p => n + len (message st p)) 0 l in
      Some (match l with
            | [] => (false, [], st)
            | _ =>
                if size <? packLimit then
                  let '(err, st) := Submit st in
                  if (err : bool) then (true, [], Mark ItemRedisQueueToBusinessFailedCount (len l) (Put_all l st))
                  else (true, [Batch l size], st)
                else
                  let '(ts, st) := foldl submit_single ([], st) l in (true, ts, st)
            end)
  end.

(** ** The tasks *)

Section Modes.
Context (command : bytes -> redisCmd).

(** [sendListBatchMode], [sendStreamBatchMode]: one pipeline. *)
Definition batchMode (l : list nat) (size : Z) (st : state) : state :=
  let '((errs, err), st) := Exec (length l) st in
  let st := set_cmds (cmds st ++ [((fun p => command (message st p)) <$> l, (errs, err))]) st in
  if negb err then
    Mark ItemRedisQueueToBusinessSucceedByte size (Mark ItemRedisQueueToBusinessSucceedCount (len l) st)
  else if negb (length errs =? length l)%nat then
    Mark ItemRedisQueueToBusinessFailedCount (len l) st
  else
    let '(failedCount, succeedSize) :=
      foldl (fun '(f, s) '(e, p) => if (e : bool) then (f + 1, s) else (f, s + len (message st p))) (0, 0) (zip errs l) in
    let st := Mark ItemRedisQueueToBusinessFailedCount failedCount st in
    if 0 <? succeedSize then
      Mark ItemRedisQueueToBusinessSucceedByte succeedSize
        (Mark ItemRedisQueueToBusinessSucceedCount (len l - failedCount) st)
    else st.

(** [sendListSingleMode], [sendStreamSingleMode]. *)
Definition singleMode (p : nat) (st : state) : state :=
  let '((_, err), st) := Exec 1 st in
  let st := set_cmds (cmds st ++ [([command (message st p)], ([err], err))]) st in
  if (err : bool) then Mark ItemRedisQueueToBusinessFailedCount 1 st
  else Mark ItemRedisQueueToBusinessSucceedByte (len (message st p)) (Mark ItemRedisQueueToBusinessSucceedCount 1 st).

(** The closure that is submitted: the packets go back at its end. *)
Definition run_task (t : task) (st : state) : state :=
  match t with
  | Batch l size => Put_all l (batchMode l size st)
  | Single p => PacketObjPool_Put p (singleMode p st)
  end.
End Modes.

Definition sendListBatchMode (redisKey : string) := batchMode (LPush redisKey).
Definition sendListSingleMode (redisKey : string) := singleMode (LPush redisKey).
Definition sendStreamBatchMode (redisKey : string) := batchMode (XAdd redisKey).
Definition sendStreamSingleMode (redisKey : string) := singleMode (XAdd redisKey).

(** [newQueue]: the mode of the type of the key; another type panics. *)
Definition command_of (keyType redisKey : string) : option (bytes -> redisCmd) :=
  if String.eqb keyType "list" then Some (LPush redisKey)
  else if String.eqb keyType "stream" then Some (XAdd redisKey)
  else None.

Definition new_state : state := mkState ∅ [] 0 (mkFifo 1024 [] false) 0 [] [] [] [].

(** ** Everything together

    The handlers and the tasks run in any order; the messages that were sent are the
    history. *)
Section System.
Context (command : bytes -> redisCmd) (receivePackLimit : Z) (dequeueSize : nat).

Record system := mkSys { st : state; pending : list task; sent : list bytes }.

Definition encoding (m : Proto.message) (cmd : Z) : list bytes :=
  match marshal m with Some body => [put_be 4 (u32 cmd) ++ body] | None => [] end.

Inductive step : system -> system -> Prop :=
  | s_send s m cmd : step s (mkSys (Redis_Send m cmd (st s)) (pending s) (sent s ++ encoding m cmd))
  | s_turn s b ts st' :
      loopSend_turn receivePackLimit dequeueSize (st s) = Some (b, ts, st') ->
      step s (mkSys st' (pending s ++ ts) (sent s))
  | s_task s l1 t l2 :
      pending s = l1 ++ t :: l2 -> step s (mkSys (run_task command t (st s)) (l1 ++ l2) (sent s))
  | s_close s : step s (mkSys (Close (st s)).2 (pending s) (sent s))
  | s_timer s : step s (mkSys (Close_timer (st s)) (pending s) (sent s))
  | s_answers s submits execs :
      step s (mkSys (mkState (packets (st s)) (free (st s)) (slices (st s)) (sendCh (st s)) (closeLock (st s))
                             (marks (st s)) submits execs (cmds (st s))) (pending s) (sent s)).

Definition reachable (s : system) : Prop := star step (mkSys new_state [] []) s.
End System.

End EventQueue.
End EventQueue.
