(* ===== verification/EventHist.v ===== *)
(** What both event queues share, and the invariant of the Redis queue: who owns each packet, and where each message
    that was sent has gone. *)

From S2P Require Export EventQueue.

Module EventQueueInv.
Import EventQueue.

(** ** Who owns the packets

    [w] are the packets that are out of the pool. *)

Definition pooled (st : state) (p : nat) : Z := if bodyFromPool (packet st p) then 1 else 0.
Definition total_pooled (st : state) (w : list nat) : Z := foldr (fun p n => pooled st p + n) 0 w.

Record own (st : state) (w : list nat) : Prop := mkOwn {
  own_once : NoDup (free st ++ w);
  own_all : forall p, p ∈ free st ++ w <-> p ∈ dom (packets st);
  own_clean : Forall (fun p => packet st p = mkPkt [] false) (free st);
  own_long : Forall (fun p => 4 <= len (message st p)) w;
  own_slices : slices st = total_pooled st w;
}.

Lemma total_pooled_perm st w w' : w ≡ₚ w' -> total_pooled st w = total_pooled st w'.
Proof. unfold total_pooled. induction 1; cbn; lia. Qed.

Lemma total_pooled_ext st st' w :
  (forall p, p ∈ w -> packet st' p = packet st p) -> total_pooled st' w = total_pooled st w.
Proof.
  unfold total_pooled. induction w as [|p w IH]; intros H; cbn; [done|].
  rewrite IH by (intros q Hq; apply H; by constructor). unfold pooled. by rewrite (H p) by constructor.
Qed.

Lemma own_perm st w w' : w ≡ₚ w' -> own st w -> own st w'.
Proof.
  intros E [Ho Ha Hc Hl Hs]. split; [by rewrite <- E|intros p; by rewrite <- E|done|by rewrite <- E|].
  by rewrite <- (total_pooled_perm st _ _ E).
Qed.

Lemma total_pooled_cons st p w : total_pooled st (p :: w) = pooled st p + total_pooled st w.
Proof. done. Qed.

(** States with the same packets. *)
Definition same_packets (st st' : state) : Prop :=
  packets st' = packets st /\ free st' = free st /\ slices st' = slices st.

Lemma own_same st st' w : same_packets st st' -> own st w -> own st' w.
Proof.
  intros (Ep & Ef & Es) [Ho Ha Hc Hl Hs].
  assert (forall p, packet st' p = packet st p) as E by (intros p; unfold packet; by rewrite Ep).
  split; rewrite ?Ef, ?Ep, ?Es; try done.
  - eapply Forall_impl; [exact Hc|]. cbn. intros p. by rewrite E.
  - eapply Forall_impl; [exact Hl|]. cbn. intros p. unfold message. by rewrite E.
  - rewrite Hs. symmetry. by apply total_pooled_ext.
Qed.

(** ** Putting packets back *)

Lemma packet_Put p q st : packet (PacketObjPool_Put p st) q = if decide (p = q) then mkPkt [] false else packet st q.
Proof.
  unfold packet, PacketObjPool_Put, reset. destruct (bodyFromPool _); cbn; case_decide as E;
    subst; rewrite ?lookup_insert_eq, ?lookup_insert_ne by done; done.
Qed.

Lemma own_Put p st w : own st (p :: w) -> own (PacketObjPool_Put p st) w.
Proof.
  intros [Ho Ha Hc Hl Hs].
  assert (free (PacketObjPool_Put p st) = p :: free st) as Ef by (unfold PacketObjPool_Put, reset; by destruct (bodyFromPool _)).
  assert (dom (packets (PacketObjPool_Put p st)) = {[p]} ∪ dom (packets st)) as Ed.
  { unfold PacketObjPool_Put, reset. destruct (bodyFromPool _); apply dom_insert_L. }
  assert (slices (PacketObjPool_Put p st) = slices st - pooled st p) as Es.
  { unfold PacketObjPool_Put, reset, pooled. destruct (bodyFromPool _); cbn; lia. }
  assert ((p :: free st) ++ w ≡ₚ free st ++ p :: w) as E by (cbn; apply Permutation_middle).
  assert (p ∉ w) as Hpw.
  { apply NoDup_app in Ho as (_ & _ & Ho). by apply NoDup_cons in Ho as [Ho _]. }
  apply Forall_cons in Hl as [_ Hl].
  assert (forall q, q ∈ w -> packet (PacketObjPool_Put p st) q = packet st q) as Eq.
  { intros q Hq. rewrite packet_Put. case_decide; [by subst|done]. }
  split; rewrite ?Ef, ?Ed, ?Es.
  - by rewrite E.
  - intros q. rewrite E, Ha. pose proof (proj1 (Ha p)). set_solver.
  - apply Forall_cons. split; [rewrite packet_Put; by case_decide|].
    eapply Forall_impl; [exact Hc|]. cbn. intros q Hq. rewrite packet_Put. by case_decide.
  - rewrite Forall_forall in Hl |- *. intros q Hq. unfold message. rewrite Eq by done. by apply Hl.
  - rewrite Hs, (total_pooled_ext st (PacketObjPool_Put p st) w), total_pooled_cons by done. lia.
Qed.

(** What [Put] leaves as it is. *)
Definition rest (st : state) := (sendCh st, closeLock st, marks st, submit_errs st, answers st, cmds st).

Lemma rest_Put p st : rest (PacketObjPool_Put p st) = rest st.
Proof. unfold PacketObjPool_Put, reset, rest. by destruct (bodyFromPool _). Qed.

Lemma own_Put_all l st w :
  own st (l ++ w) ->
  own (Put_all l st) w /\ rest (Put_all l st) = rest st /\ (forall q, q ∈ w -> packet (Put_all l st) q = packet st q).
Proof.
  revert st; induction l as [|p l IH]; intros st Ho; [done|].
  change (Put_all (p :: l) st) with (Put_all l (PacketObjPool_Put p st)).
  pose proof (own_Put _ _ _ Ho) as Ho'. destruct (IH _ Ho') as (H1 & H2 & H3).
  split; [done|]. split; [by rewrite H2, rest_Put|]. intros q Hq. rewrite H3, packet_Put by done.
  destruct Ho as [Hn _ _ _ _]. apply NoDup_app in Hn as (_ & _ & Hn). cbn in Hn. apply NoDup_cons in Hn as [Hn _].
  case_decide; [|done]. subst. set_solver.
Qed.

(** ** Taking a packet and filling it *)

(** [p] is in the hands of [Send], still empty. *)
Record taken (st : state) (p : nat) (w : list nat) : Prop := mkTaken {
  t_once : NoDup (free st ++ p :: w);
  t_all : forall q, q ∈ free st ++ p :: w <-> q ∈ dom (packets st);
  t_clean : Forall (fun q => packet st q = mkPkt [] false) (free st);
  t_long : Forall (fun q => 4 <= len (message st q)) w;
  t_slices : slices st = total_pooled st w;
  t_empty : packet st p = mkPkt [] false;
}.

Lemma taken_fresh st p w : taken st p w -> p ∉ w /\ p ∉ free st /\ p ∈ dom (packets st).
Proof.
  intros [Ho Ha _ _ _ _]. apply NoDup_app in Ho as (_ & Hd & Hn). apply NoDup_cons in Hn as [Hn _].
  split; [done|]. split; [|apply Ha; set_solver]. intros Hin. apply (Hd p Hin). constructor.
Qed.

Lemma own_Get st w :
  own st w ->
  let '(p, st1) := PacketObjPool_Get st in
  taken st1 p w /\ rest st1 = rest st /\ (forall q, q ∈ w -> packet st1 q = packet st q).
Proof.
  intros [Ho Ha Hc Hl Hs]. unfold PacketObjPool_Get. destruct (free st) as [|p l] eqn:Ef.
  - set (p := base.fresh (dom (packets st))). assert (p ∉ dom (packets st)) as Hp by apply is_fresh.
    cbn in Ho, Ha. rewrite <- Ha in Hp. clearbody p.
    match goal with |- taken ?s _ _ /\ _ => set (st1 := s) end.
    assert (forall q, q ∈ w -> packet st1 q = packet st q) as Eq.
    { intros q Hq. unfold packet. cbn. by rewrite lookup_insert_ne by (intros ->; done). }
    split; [|done]. split; cbn; rewrite ?Ef; cbn; try done.
    + by constructor.
    + intros q. rewrite dom_insert, elem_of_cons, elem_of_union, elem_of_singleton, Ha. done.
    + rewrite Forall_forall in Hl |- *. intros q Hq. unfold message. rewrite Eq by done. by apply Hl.
    + by rewrite (total_pooled_ext st st1 w).
    + unfold packet. cbn. by rewrite lookup_insert_eq.
  - cbn in Ho, Ha. apply Forall_cons in Hc as [Hcp Hc].
    assert (l ++ p :: w ≡ₚ p :: l ++ w) as E by (symmetry; apply Permutation_middle).
    split; [|done]. split; cbn; try done; try (by rewrite E); intros q; rewrite E; apply Ha.
Qed.

Lemma taken_Put st p w :
  taken st p w -> own (PacketObjPool_Put p st) w /\ (forall q, q ∈ w -> packet (PacketObjPool_Put p st) q = packet st q).
Proof.
  intros Ht. pose proof (taken_fresh _ _ _ Ht) as (Hpw & Hpf & Hpd). destruct Ht as [Ho Ha Hc Hl Hs He].
  assert (forall q, q ∈ w -> packet (PacketObjPool_Put p st) q = packet st q) as Eq.
  { intros q Hq. rewrite packet_Put. case_decide; [by subst|done]. }
  split; [|done]. unfold PacketObjPool_Put, reset in *. rewrite He in *. cbn in *.
  assert (p :: free st ++ w ≡ₚ free st ++ p :: w) as E by apply Permutation_middle.
  split; cbn [free set_free set_packets packets slices] in *.
  - by rewrite <- E in Ho.
  - intros q. cbn. rewrite E, Ha, dom_insert. set_solver.
  - apply Forall_cons. split; [unfold packet; cbn; by rewrite lookup_insert_eq|].
    rewrite Forall_forall in Hc |- *. intros q Hq. unfold packet. cbn. rewrite lookup_insert_ne by (intros ->; done). by apply Hc.
  - rewrite Forall_forall in Hl |- *. intros q Hq. unfold message. rewrite Eq by done. by apply Hl.
  - rewrite Hs. symmetry. by apply total_pooled_ext.
Qed.

Section Set_packet.
Context `{Proto}.

Lemma taken_Set p m cmd st w :
  taken st p w ->
  let '(err, st') := Packet_Set p m cmd st in
  rest st' = rest st /\ (forall q, q ∈ w -> packet st' q = packet st q) /\
  encoding m cmd = (if err then [] else [message st' p]) /\
  (if err then taken st' p w else own st' (p :: w)).
Proof.
  intros Ht. unfold Packet_Set, encoding. destruct (marshal m) as [body|]; [|done].
  pose proof (taken_fresh _ _ _ Ht) as (Hpw & Hpf & Hpd). destruct Ht as [Ho Ha Hc Hl Hs _].
  set (b := (0 <? _) && _). match goal with |- rest ?s = _ /\ _ => set (st2 := s) end.
  assert (packet st2 p = mkPkt (put_be 4 (u32 cmd) ++ body) b) as Ep.
  { unfold packet, st2. destruct b; cbn; by rewrite lookup_insert_eq. }
  assert (forall q, q <> p -> packet st2 q = packet st q) as Eq.
  { intros q Hne. unfold packet, st2. destruct b; cbn; by rewrite lookup_insert_ne. }
  assert (free st2 = free st) as Ef by (unfold st2; by destruct b).
  assert (forall q, q ∈ w -> packet st2 q = packet st q) as Ew by (intros q Hq; apply Eq; intros ->; done).
  split; [unfold st2; by destruct b|]. split; [done|]. split; [unfold message; by rewrite Ep|].
  split; rewrite ?Ef; [done| | | |].
  - intros q. rewrite Ha. unfold st2. destruct b; cbn; rewrite dom_insert; set_solver.
  - rewrite Forall_forall in Hc |- *. intros q Hq. rewrite Eq by (intros ->; done). by apply Hc.
  - apply Forall_cons. split.
    + unfold message. rewrite Ep. cbn [Message]. rewrite len_app. pose proof (len_nonneg body).
      unfold len at 1. rewrite length_put_be. lia.
    + rewrite Forall_forall in Hl |- *. intros q Hq. unfold message. rewrite Ew by done. by apply Hl.
  - rewrite total_pooled_cons, (total_pooled_ext st st2 w) by done. rewrite <- Hs. unfold pooled. rewrite Ep.
    unfold st2. cbn. destruct b; cbn; lia.
Qed.
End Set_packet.
End EventQueueInv.

(** ** What the event queues on Redis and on AMQP have in common: packets that are owned
    once, and a history that says where each message has gone. The history is an
    interface: the laws are what [Send], a failed submission and a queue that is
    read need of it. *)

Module EventHist.
Import EventQueue EventQueueInv.

(** ** Sums of marks and of lengths *)

Definition total (item : Z) (l : list (Z * Z)) : Z := foldr (fun x n => (if x.1 =? item then x.2 else 0) + n) 0 l.

Lemma total_app item l k : total item (l ++ k) = total item l + total item k.
Proof. induction l as [|x l IH]; cbn; [done|]. unfold total in *. lia. Qed.

Lemma total_cons item i n l : total item ((i, n) :: l) = (if i =? item then n else 0) + total item l.
Proof. done. Qed.

(** The total of a list of marks that is written out. *)
Ltac totals :=
  rewrite ?total_cons;
  repeat match goal with |- context [if ?b then _ else _] => let v := eval vm_compute in b in change b with v; cbv iota end;
  repeat match goal with |- context [total ?i []] => change (total i []) with 0 end.

Definition lens (l : list bytes) : Z := foldr (fun b n => len b + n) 0 l.

Lemma lens_cons b l : lens (b :: l) = len b + lens l.
Proof. done. Qed.

Lemma lens_app l k : lens (l ++ k) = lens l + lens k.
Proof. induction l as [|x l IH]; cbn; [done|]. unfold lens in *. lia. Qed.

Lemma foldl_lens {A} (f : A -> bytes) l n : foldl (fun n p => n + len (f p)) n l = n + lens (f <$> l).
Proof. revert n; induction l as [|x l IH]; intros n; cbn; [lia|]. rewrite IH. unfold lens. lia. Qed.

(** ** Histories

    Of the marks, the commands, the messages that wait and those that were sent. *)
Class History (failedItem : Z) (hist : list (Z * Z) -> list exchange -> list bytes -> list bytes -> Prop) : Prop := {
  hist_perm ms cs msgs msgs' sent : msgs ≡ₚ msgs' -> hist ms cs msgs sent -> hist ms cs msgs' sent;
  hist_more ms cs msgs sent m : hist ms cs msgs sent -> hist ms cs (m :: msgs) (sent ++ [m]);
  hist_drop ms cs l msgs sent n :
    hist ms cs (l ++ msgs) sent -> n = len l -> hist (ms ++ [(failedItem, n)]) cs msgs sent;
}.

Lemma messages_ext st st' (w : list nat) : (forall q, q ∈ w -> packet st' q = packet st q) -> message st' <$> w = message st <$> w.
Proof. intros E. apply list_fmap_ext. intros i q Hq. unfold message. rewrite E; [done|]. by eapply list_elem_of_lookup_2. Qed.

Lemma same_packet st st' q : same_packets st st' -> packet st' q = packet st q.
Proof. intros (E & _). unfold packet. by rewrite E. Qed.

Lemma rest_same a b : rest a = rest b -> sendCh a = sendCh b /\ marks a = marks b /\ cmds a = cmds b.
Proof. by intros [= ? ? ? ? ? ?]. Qed.

Lemma fifo_dequeue_items {A} n (q q' : fifo A) l : fifo_dequeue n q = Some (l, q') -> q_items q = l ++ q_items q'.
Proof.
  unfold fifo_dequeue. destruct (q_items q) as [|x items] eqn:E.
  - destruct (q_closed q); [|done]. intros [= <- <-]. by rewrite E.
  - intros E'. injection E' as <- <-. cbn [q_items]. by rewrite take_drop.
Qed.

Section Good.
Context {failedItem : Z} {hist : list (Z * Z) -> list exchange -> list bytes -> list bytes -> Prop} `{!History failedItem hist}.

Definition good (st : state) (w : list nat) (sent : list bytes) : Prop :=
  own st w /\ hist (marks st) (cmds st) (message st <$> w) sent.

Lemma good_perm st w w' sent : w ≡ₚ w' -> good st w sent -> good st w' sent.
Proof. intros E [Ho Hh]. split; [by eapply own_perm|]. eapply hist_perm; [|exact Hh]. by rewrite E. Qed.

(** A state that differs in the queue, the lock or the answers to come. *)
Lemma good_same st st' w sent :
  good st w sent -> same_packets st st' -> marks st' = marks st -> cmds st' = cmds st -> good st' w sent.
Proof.
  intros [Ho Hh] Hs Hm Hc. split; [by eapply own_same|]. rewrite Hm, Hc.
  rewrite (messages_ext st st'); [done|]. intros q _. by apply same_packet.
Qed.

(** Packets that go back and are counted as failed, in either order. *)
Lemma good_drop st st' l w sent :
  good st (l ++ w) sent -> same_packets (Put_all l st) st' -> cmds st' = cmds st ->
  marks st' = marks st ++ [(failedItem, len l)] ->
  good st' w sent /\ (forall q, q ∈ w -> packet st' q = packet st q).
Proof.
  intros [Ho Hh] Hs Hc Hm. destruct (own_Put_all _ _ _ Ho) as (Ho' & _ & Ew).
  assert (forall q, q ∈ w -> packet st' q = packet st q) as E by (intros q Hq; rewrite (same_packet _ _ q Hs); by apply Ew).
  split; [|done]. split; [by eapply own_same|]. rewrite Hm, Hc, (messages_ext st st' w) by done.
  rewrite fmap_app in Hh. eapply hist_drop; [exact Hh|]. unfold len. by rewrite length_fmap.
Qed.

(** A batch that could not be submitted. *)
Lemma good_unsubmitted st l w sent :
  let st' := Mark failedItem (len l) (Put_all l st) in
  good st (l ++ w) sent ->
  good st' w sent /\ sendCh st' = sendCh st /\ (forall q, q ∈ w -> packet st' q = packet st q).
Proof.
  intros st' Hg. destruct (own_Put_all l st _ (proj1 Hg)) as (_ & Hr & _). apply rest_same in Hr as (Hq & Hm & Hc).
  destruct (good_drop st st' l w sent Hg) as [Hd E]; [by split_and!|done|by unfold st'; cbn; rewrite Hm|done].
Qed.

(** A packet that could not be put into the queue. *)
Lemma good_refused st p w sent :
  let st' := PacketObjPool_Put p (Mark failedItem 1 st) in
  good st (p :: w) sent ->
  good st' w sent /\ sendCh st' = sendCh st /\ (forall q, q ∈ w -> packet st' q = packet st q).
Proof.
  intros st' Hg. destruct (good_drop st st' [p] w sent Hg) as [Hd Ed].
  1-3: unfold st', Put_all, PacketObjPool_Put, reset, Mark, packet, same_packets; cbn; by destruct (bodyFromPool _).
  split; [done|]. split; [|done]. unfold st', PacketObjPool_Put, reset, Mark, packet. cbn. by destruct (bodyFromPool _).
Qed.

(** What the sending goroutine takes from the queue. *)
Lemma good_dequeue st n l q w sent :
  good st (q_items (sendCh st) ++ w) sent -> fifo_dequeue n (sendCh st) = Some (l, q) ->
  good (set_sendCh q st) (l ++ q_items q ++ w) sent.
Proof.
  intros Hg Eq%fifo_dequeue_items. apply (good_same st); [|by split_and!|done|done]. by rewrite Eq, <- app_assoc in Hg.
Qed.

Lemma Send_good `{Proto} m cmd st w sent :
  let st' := Send_counting failedItem m cmd st in
  let all := q_items (sendCh st) ++ w in
  good st all sent ->
  good st' (q_items (sendCh st') ++ w) (sent ++ encoding m cmd) /\ (forall q, q ∈ all -> packet st' q = packet st q).
Proof.
  cbv zeta. set (all := q_items (sendCh st) ++ w). intros [Ho Hh]. unfold Send_counting.
  pose proof (own_Get _ _ Ho) as Hg. destruct (PacketObjPool_Get st) as [p st1]. destruct Hg as (Ht & Hr1 & Ew1).
  pose proof (taken_Set p m cmd _ _ Ht) as Hs. destruct (Packet_Set p m cmd st1) as [err st2].
  destruct Hs as (Hr2 & Ew2 & He & Hown). rewrite He. rewrite Hr1 in Hr2. apply rest_same in Hr2 as (Hq & Hm & Hc).
  assert (forall q, q ∈ all -> packet st2 q = packet st q) as Ew by (intros q Hin; rewrite Ew2, Ew1 by done; done).
  destruct err.
  - destruct (taken_Put _ _ _ Hown) as [Ho' Ew']. destruct (rest_same _ _ (rest_Put p st2)) as (Hq' & Hm' & Hc').
    assert (forall q, q ∈ all -> packet (PacketObjPool_Put p st2) q = packet st q) as E by (intros q Hin; rewrite Ew', Ew by done; done).
    rewrite app_nil_r. split; [|done]. rewrite Hq', Hq. split; [done|]. rewrite Hm', Hc', Hm, Hc. fold all. by rewrite (messages_ext _ _ _ E).
  - assert (good st2 (p :: all) (sent ++ [message st2 p])) as Hgood.
    { split; [done|]. rewrite Hm, Hc, fmap_cons, (messages_ext _ _ _ Ew). by apply hist_more. }
    pose proof (good_refused st2 p all _ Hgood) as (Hd & Hsc & Ed). unfold fifo_enqueue.
    destruct (q_closed (sendCh st2)); [|destruct (_ <=? _)%nat].
    1,2: split; [by rewrite Hsc, Hq|intros q Hin; rewrite Ed, Ew by done; done].
    split; [|done]. eapply good_perm; [|eapply good_same; [exact Hgood|by split_and!|done|done]].
    cbn. rewrite Hq, <- app_assoc. apply Permutation_middle.
Qed.

(** Closing, the timer and new answers. *)
Lemma good_Close st w sent : good st w sent -> good (Close st).2 w sent.
Proof. intros Hg. unfold Close. destruct (closeLock st =? 0); [|done]. eapply good_same; [exact Hg|by split_and!|done|done]. Qed.

Lemma packet_Close st q : packet (Close st).2 q = packet st q /\ sendCh (Close st).2 = sendCh st.
Proof. unfold Close. by destruct (closeLock st =? 0). Qed.
End Good.
Arguments good hist st w sent : clear implicits.

End EventHist.
