(* ===== verification/EventProps.v ===== *)
(** The Redis queue as a whole, and where the messages go: each one that was sent waits, was given to Redis or was
    dropped, and the metrics say how many. *)

From S2P Require Export EventHist Demo.

Module EventQueueRun.
Import EventQueue EventQueueInv EventHist.

Definition payload (c : redisCmd) : bytes := match c with LPush _ v | XAdd _ v => v end.

Lemma command_payload kt key command b : command_of kt key = Some command -> payload (command b) = b.
Proof. unfold command_of. destruct (String.eqb kt "list"); [by intros [= <-]|]. destruct (String.eqb kt "stream"); [by intros [= <-]|done]. Qed.

(** ** The history

    [msgs] wait. The others are those that Redis took, those that it refused, both read off
    its answers, or [dropped] before. *)
Definition given (cs : list exchange) : list bytes := payload <$> mjoin cs.*1.
Definition acked (cs : list exchange) : list bytes := payload <$> mjoin (answered true <$> cs).
Definition refused (cs : list exchange) : list bytes := payload <$> mjoin (answered false <$> cs).

Definition hist (ms : list (Z * Z)) (cs : list exchange) (msgs sent : list bytes) : Prop :=
  exists dropped,
    sent ≡ₚ acked cs ++ refused cs ++ dropped ++ msgs /\
    total ItemRedisQueueToBusinessSucceedCount ms = len (acked cs) /\
    total ItemRedisQueueToBusinessSucceedByte ms = lens (acked cs) /\
    total ItemRedisQueueToBusinessFailedCount ms = len (refused cs) + len dropped.

(** Each command is taken or refused. *)
Lemma answered_all (x : exchange) : x.1 ≡ₚ answered true x ++ answered false x.
Proof.
  destruct x as [cs [errs err]]. cbn [answered fst]. destruct err; cbn [negb]; [|by rewrite app_nil_r].
  destruct (Nat.eqb_spec (length errs) (length cs)) as [E|E]; cbn [negb]; [|done].
  revert errs E; induction cs as [|c cs IH]; intros [|e errs] E; try done. injection E as E. cbn [zip zip_with].
  rewrite !filter_cons. cbn [fst negb]. specialize (IH errs E). destruct e.
  - rewrite decide_False, decide_True by done. cbn [fmap list_fmap snd]. rewrite <- Permutation_middle. by f_equiv.
  - rewrite decide_True, decide_False by done. cbn [fmap list_fmap snd app]. by f_equiv.
Qed.

Lemma given_answered cs : given cs ≡ₚ acked cs ++ refused cs.
Proof.
  unfold given, acked, refused. rewrite <- fmap_app. apply fmap_Permutation.
  induction cs as [|x cs IH]; [done|]. rewrite !fmap_cons, !mjoin_cons, IH, (answered_all x).
  rewrite <- !app_assoc. f_equiv. rewrite !app_assoc. f_equiv. apply Permutation_app_comm.
Qed.

Lemma answers_snoc (cs : list exchange) (x : exchange) : acked (cs ++ [x]) = acked cs ++ (payload <$> answered true x) /\
                          refused (cs ++ [x]) = refused cs ++ (payload <$> answered false x).
Proof. unfold acked, refused. rewrite !fmap_app, !join_app, !fmap_app. cbn [fmap list_fmap mjoin list_join]. by rewrite !app_nil_r. Qed.

#[export] Instance redis_history : History ItemRedisQueueToBusinessFailedCount hist.
Proof.
  split.
  - intros ms cs msgs msgs' sent E (d & Hs & Hrest). exists d. by rewrite <- E.
  - intros ms cs msgs sent m (d & Hs & Hrest). exists d. split; [|done].
    rewrite Hs, <- !app_assoc. do 3 f_equiv. symmetry. apply Permutation_cons_append.
  - intros ms cs l msgs sent n (d & Hs & H1 & H2 & H3) ->. exists (d ++ l).
    rewrite !total_app. totals. rewrite <- !app_assoc, len_app. split_and!; [done|lia|lia|lia].
Qed.

Lemma hist_exec ms ms' (cs : list exchange) (x : exchange) l msgs sent :
  hist ms cs (l ++ msgs) sent -> payload <$> x.1 = l ->
  total ItemRedisQueueToBusinessSucceedCount ms' = len (answered true x) ->
  total ItemRedisQueueToBusinessSucceedByte ms' = lens (payload <$> answered true x) ->
  total ItemRedisQueueToBusinessFailedCount ms' = len (answered false x) ->
  hist (ms ++ ms') (cs ++ [x]) msgs sent.
Proof.
  intros (d & Hs & H1 & H2 & H3) Hl E1 E2 E3. exists d. destruct (answers_snoc cs x) as [Ea Er]. rewrite Ea, Er.
  rewrite !total_app, !len_app, lens_app, H1, H2, H3, E1, E2, E3. unfold len. rewrite !length_fmap.
  split_and!; [|lia|lia|lia]. rewrite Hs, <- Hl, (answered_all x), fmap_app.
  set (a := acked cs). set (r := refused cs). set (a' := payload <$> answered true x). set (r' := payload <$> answered false x).
  clearbody a r a' r'. solve_Permutation.
Qed.

Abbreviation good := (EventHist.good hist).

(** ** The tasks *)

Definition sized (st : state) (t : task) : Prop :=
  match t with Batch l size => size = lens (message st <$> l) | Single _ => True end.

(** What the loop over the answers to a pipeline counts. *)
Lemma count_answers (command : bytes -> redisCmd) st l errs f0 s0 :
  (forall b, payload (command b) = b) ->
  length errs = length l -> Forall (fun p => 4 <= len (message st p)) l ->
  let x := ((fun p => command (message st p)) <$> l, (errs, true)) in
  4 * len (answered true x) <= lens (payload <$> answered true x) /\
  foldl (fun '(f, s) '(e, p) => if (e : bool) then (f + 1, s) else (f, s + len (message st p))) (f0, s0) (zip errs l)
  = (f0 + len (answered false x), s0 + lens (payload <$> answered true x)).
Proof.
  intros Hcommand Hlen. cbv zeta. cbn [answered negb]. rewrite length_fmap, Hlen, Nat.eqb_refl. cbn [negb].
  revert errs f0 s0 Hlen; induction l as [|p l IH]; intros errs f0 s0 Hlen Hl; destruct errs as [|e errs]; try done.
  { cbn. change (lens []) with 0. split; [done|]. f_equal; rewrite ?len_nil; lia. }
  apply Forall_cons in Hl as [Hp Hl]. injection Hlen as Hlen. cbn [fmap list_fmap zip zip_with foldl]. rewrite !filter_cons.
  cbn [fst negb]. destruct e.
  - rewrite decide_False, decide_True by done. destruct (IH errs (f0 + 1) s0 Hlen Hl) as [H4 ->]. split; [done|].
    cbn [fmap list_fmap snd]. rewrite len_cons. f_equal. lia.
  - rewrite decide_True, decide_False by done. destruct (IH errs f0 (s0 + len (message st p)) Hlen Hl) as [H4 ->].
    cbn [fmap list_fmap snd]. rewrite len_cons, lens_cons, Hcommand. split; [lia|]. f_equal. lia.
Qed.

Section Tasks.
Context (command : bytes -> redisCmd) (Hcommand : forall b, payload (command b) = b).

(** What a mode does: it gives the messages to Redis and counts them as Redis answers. *)
Definition executed (st st' : state) (l : list nat) : Prop :=
  same_packets st st' /\
  exists ms' x, x.1 = (fun p => command (message st p)) <$> l /\ cmds st' = cmds st ++ [x] /\ marks st' = marks st ++ ms' /\
    total ItemRedisQueueToBusinessSucceedCount ms' = len (answered true x) /\
    total ItemRedisQueueToBusinessSucceedByte ms' = lens (payload <$> answered true x) /\
    total ItemRedisQueueToBusinessFailedCount ms' = len (answered false x).

Lemma batchMode_executed l size st :
  Forall (fun p => 4 <= len (message st p)) l -> size = lens (message st <$> l) ->
  executed st (batchMode command l size st) l.
Proof.
  intros Hl ->. unfold batchMode, Exec. destruct (default _ (head (answers st))) as [errs err].
  set (x := ((fun p => command (message st p)) <$> l, (errs, err))).
  assert (payload <$> x.1 = message st <$> l) as Ex.
  { cbn [x fst]. rewrite <- list_fmap_compose. apply list_fmap_ext. intros i p _. apply Hcommand. }
  assert (len x.1 = len l) as Elen by (unfold len; cbn [x fst]; by rewrite length_fmap).
  destruct err; cbn [negb].
  2: { split; [done|].
       exists [(ItemRedisQueueToBusinessSucceedCount, len l); (ItemRedisQueueToBusinessSucceedByte, lens (message st <$> l))], x.
       change (answered true x) with x.1. change (answered false x) with (@nil redisCmd). rewrite Ex, Elen. totals.
       split_and!; [done|done|cbn [marks Mark set_cmds]; by rewrite <- app_assoc|lia|lia|done]. }
  destruct (Nat.eqb_spec (length errs) (length l)) as [Hlen|Hlen]; cbn [negb].
  2: { assert (answered true x = [] /\ answered false x = x.1) as [E1 E2].
       { cbn [x answered negb fst]. rewrite length_fmap. by rewrite (proj2 (Nat.eqb_neq _ _) Hlen). }
       split; [done|]. exists [(ItemRedisQueueToBusinessFailedCount, len l)], x. rewrite E1, E2, Elen. totals.
       split_and!; try done; cbn; lia. }
  destruct (count_answers command st l errs 0 0 Hcommand Hlen Hl) as [H4 Hf]. fold x in H4, Hf.
  match goal with |- context [foldl ?g (0, 0) (zip errs l)] =>
    replace (foldl g (0, 0) (zip errs l)) with (0 + len (answered false x), 0 + lens (payload <$> answered true x))
      by exact (eq_sym Hf) end.
  rewrite !Z.add_0_l. pose proof (Permutation_length (answered_all x)) as El. rewrite length_app in El.
  set (a := answered true x) in *. set (r := answered false x) in *.
  destruct (Z.ltb_spec 0 (lens (payload <$> a))) as [Ha|Ha].
  - split; [done|]. exists [(ItemRedisQueueToBusinessFailedCount, len r); (ItemRedisQueueToBusinessSucceedCount, len l - len r);
      (ItemRedisQueueToBusinessSucceedByte, lens (payload <$> a))], x. totals. fold a r.
    split_and!; [done|done|cbn [marks Mark set_cmds]; by rewrite <- !app_assoc|unfold len in *; lia..].
  - pose proof (len_nonneg a). assert (len a = 0) as E0 by lia. assert (a = []) as Ea by (unfold len in E0; by destruct a).
    split; [done|]. exists [(ItemRedisQueueToBusinessFailedCount, len r)], x. fold a r. rewrite Ea. totals.
    split_and!; try done; cbn; lia.
Qed.

Lemma singleMode_executed p st : executed st (singleMode command p st) [p].
Proof.
  unfold singleMode, Exec. destruct (default _ (head (answers st))) as [errs err].
  destruct err; (split; [done|]).
  - eexists [_], ([command (message st p)], ([true], true)). totals. split_and!; done.
  - eexists [_; _], ([command (message st p)], ([false], false)). cbn [cmds marks Mark set_cmds]. rewrite <- !app_assoc. cbn [app]. totals.
    cbn [answered negb fmap list_fmap]. rewrite lens_cons, Hcommand. split_and!; done.
Qed.

Lemma good_executed st st' l w sent :
  good st (l ++ w) sent -> executed st st' l ->
  good (Put_all l st') w sent /\ (forall q, q ∈ w -> packet (Put_all l st') q = packet st q).
Proof.
  intros [Ho Hh] (Hs & ms' & x & Ex & Hc & Hm & E1 & E2 & E3).
  destruct (own_Put_all l st' w) as (Ho' & Hr & Ew); [by eapply own_same|].
  assert (forall q, q ∈ w -> packet (Put_all l st') q = packet st q) as Eq.
  { intros q Hq. rewrite Ew by done. by apply same_packet. }
  split; [|done]. split; [done|]. unfold rest in Hr. injection Hr as _ _ Hm' _ _ Hc'.
  rewrite Hm', Hc', Hm, Hc, (messages_ext _ _ _ Eq). rewrite fmap_app in Hh.
  eapply hist_exec; [exact Hh| |done..]. rewrite Ex, <- list_fmap_compose. apply list_fmap_ext. intros i p _. apply Hcommand.
Qed.

Lemma run_task_good t st w sent :
  good st (task_packets t ++ w) sent -> sized st t ->
  good (run_task command t st) w sent /\ (forall q, q ∈ w -> packet (run_task command t st) q = packet st q).
Proof.
  intros Hg Hsz. destruct t as [l size|p].
  - apply good_executed; [done|]. apply batchMode_executed; [|done]. destruct Hg as [[_ _ _ Hl _] _].
    by apply Forall_app in Hl as [Hl _].
  - exact (good_executed st _ [p] w sent Hg (singleMode_executed p st)).
Qed.
End Tasks.

Lemma rest_Put_all l st : rest (Put_all l st) = rest st.
Proof. revert st; induction l as [|p l IH]; intros st; [done|].
  change (Put_all (p :: l) st) with (Put_all l (PacketObjPool_Put p st)). by rewrite IH, rest_Put.
Qed.

Lemma run_task_sendCh command t st : sendCh (run_task command t st) = sendCh st.
Proof.
  destruct t as [l size|p]; unfold run_task.
  - destruct (rest_same _ _ (rest_Put_all l (batchMode command l size st))) as [-> _]. unfold batchMode, Exec.
    destruct (default _ _) as [errs err]. destruct err; [|done]. destruct (_ =? _)%nat; [|done]. cbn [negb].
    destruct (foldl _ _ _). by destruct (_ <? _).
  - destruct (rest_same _ _ (rest_Put p (singleMode command p st))) as [-> _]. unfold singleMode, Exec.
    destruct (default _ _) as [errs err]. by destruct err.
Qed.

(** ** The whole queue *)

Definition task_waiting (ts : list task) : list nat := mjoin (task_packets <$> ts).

Definition waiting (st : state) (ts : list task) : list nat := q_items (sendCh st) ++ task_waiting ts.

Lemma task_waiting_app l k : task_waiting (l ++ k) = task_waiting l ++ task_waiting k.
Proof. unfold task_waiting. by rewrite fmap_app, join_app. Qed.

Lemma sized_ext st st' ts :
  (forall q, q ∈ task_waiting ts -> packet st' q = packet st q) -> Forall (sized st) ts -> Forall (sized st') ts.
Proof.
  intros E Hts. rewrite Forall_forall in Hts |- *. intros t Ht. specialize (Hts t Ht). destruct t as [l size|p]; [|done].
  cbn in *. rewrite (messages_ext st st' l); [done|]. intros q Hq. apply E. apply list_elem_of_join.
  exists l. split; [done|]. apply list_elem_of_fmap. by exists (Batch l size).
Qed.

Section Preserved.
Context `{Proto} (command : bytes -> redisCmd) (Hcommand : forall b, payload (command b) = b).
Context (receivePackLimit : Z) (dequeueSize : nat).

Definition inv (s : system) : Prop :=
  good (st s) (waiting (st s) (pending s)) (sent s) /\ Forall (sized (st s)) (pending s).

(** A step that keeps the tasks and what is out of the pool with them. *)
Lemma inv_keep s st' sent' :
  inv s -> good st' (waiting st' (pending s)) sent' ->
  (forall q, q ∈ waiting (st s) (pending s) -> packet st' q = packet (st s) q) ->
  inv (mkSys st' (pending s) sent').
Proof.
  intros [_ Hsz] Hg E. split; [done|]. apply (sized_ext (st s)); [|done].
  intros q Hq. apply E, elem_of_app. by right.
Qed.

Lemma Send_inv m cmd s : inv s -> inv (mkSys (Redis_Send m cmd (st s)) (pending s) (sent s ++ encoding m cmd)).
Proof.
  intros Hinv. destruct (Send_good m cmd (st s) (task_waiting (pending s)) (sent s) (proj1 Hinv)) as [Hg E].
  by apply inv_keep.
Qed.

(** The packets of a batch that is too big, one by one. *)
Lemma submit_single_good l ts st1 w sn :
  let r := foldl submit_single (ts, st1) l in
  good st1 (l ++ task_waiting ts ++ w) sn ->
  good r.2 (task_waiting r.1 ++ w) sn /\ sendCh r.2 = sendCh st1 /\
  (forall q, q ∈ task_waiting ts ++ w -> packet r.2 q = packet st1 q) /\
  (exists k, r.1 = ts ++ k /\ Forall (fun t => exists p, t = Single p) k).
Proof.
  revert ts st1; induction l as [|p l IH]; intros ts st1; cbv zeta.
  { intros Hg. split_and!; try done. exists []. by rewrite app_nil_r. }
  intros Hg. cbn [foldl]. set (st2 := (Submit st1).2).
  replace (submit_single (ts, st1) p) with
    (if default false (head (submit_errs st1)) then (ts, Mark ItemRedisQueueToBusinessFailedCount 1 (PacketObjPool_Put p st2))
     else (ts ++ [Single p], st2)) by done.
  assert (good st2 (p :: l ++ task_waiting ts ++ w) sn) as Hg2 by (eapply good_same; [exact Hg|by split_and!|done|done]).
  destruct (default false (head (submit_errs st1))).
  - destruct (good_drop st2 (Mark ItemRedisQueueToBusinessFailedCount 1 (PacketObjPool_Put p st2)) [p] _ _ Hg2) as [Hg3 E3].
    1-3: unfold Put_all, PacketObjPool_Put, reset, Mark, packet, same_packets; cbn; by destruct (bodyFromPool _).
    destruct (IH ts _ Hg3) as (H1 & H2 & H3 & H4). split; [done|]. split; [|split; [|done]].
    + rewrite H2. unfold Mark, PacketObjPool_Put, reset. by destruct (bodyFromPool _).
    + intros q Hq. rewrite H3 by done. apply E3, elem_of_app. by right.
  - destruct (IH (ts ++ [Single p]) st2) as (H1 & H2 & H3 & k & Hk & Hs).
    { eapply good_perm; [|exact Hg2]. rewrite task_waiting_app, <- app_assoc.
      change (task_waiting [Single p] ++ w) with (p :: w). rewrite !(app_assoc l). apply Permutation_middle. }
    split; [done|]. split; [done|]. split.
    + intros q Hin. apply H3. rewrite task_waiting_app, !elem_of_app in *. tauto.
    + exists (Single p :: k). split; [by rewrite Hk, <- app_assoc|]. constructor; [by eexists|done].
Qed.

(** New tasks, whose packets come from the queue. *)
Lemma inv_tasks s st' ts :
  inv s -> good st' (waiting st' (pending s ++ ts)) (sent s) -> Forall (sized st') ts ->
  (forall q, q ∈ task_waiting (pending s) -> packet st' q = packet (st s) q) ->
  inv (mkSys st' (pending s ++ ts) (sent s)).
Proof. intros [_ Hsz] Hg Hts E. split; [done|]. apply Forall_app. split; [by eapply sized_ext|done]. Qed.

Lemma events_turn_inv s b ts st' :
  inv s -> loopSend_turn receivePackLimit dequeueSize (st s) = Some (b, ts, st') ->
  inv (mkSys st' (pending s ++ ts) (sent s)).
Proof.
  intros Hinv Hturn. pose proof Hinv as [Hg _]. unfold loopSend_turn in Hturn.
  set (tw := task_waiting (pending s)). destruct (fifo_dequeue dequeueSize (sendCh (st s))) as [[l q]|] eqn:Eq; [|done].
  pose proof (good_dequeue (st s) dequeueSize l q tw (sent s) Hg Eq) as Hg0. apply fifo_dequeue_items in Eq.
  set (st0 := set_sendCh q (st s)) in *.
  assert (forall p, p ∈ tw -> p ∈ q_items q ++ tw) as Hin by (intros p Hp; apply elem_of_app; by right).
  destruct l as [|p l]; [simplify_eq; apply inv_tasks; [done|by rewrite app_nil_r|done|done]|].
  remember (p :: l) as pl eqn:Epl. clear Epl. destruct (_ <? Z.max _ _).
  - unfold Submit in Hturn. set (st1 := mkState _ _ _ _ _ _ (tail _) _ _) in Hturn.
    assert (good st1 (pl ++ q_items q ++ tw) (sent s)) as Hg1 by (eapply good_same; [exact Hg0|by split_and!|done|done]).
    destruct (default false (head (submit_errs st0))); simplify_eq.
    + destruct (good_unsubmitted st1 pl _ _ Hg1) as (Hg2 & Hq & E2).
      apply inv_tasks; [done| |done|intros x Hx; by apply E2, Hin]. unfold waiting. by rewrite app_nil_r, Hq.
    + apply inv_tasks; [done| | |done].
      * eapply good_perm; [|exact Hg1]. unfold waiting. rewrite task_waiting_app. cbn. rewrite app_nil_r.
        rewrite (app_assoc (q_items q)). apply Permutation_app_comm.
      * repeat constructor. cbn. by rewrite foldl_lens.
  - destruct (submit_single_good pl [] st0 (q_items q ++ tw) (sent s)) as (H1 & H2 & H3 & k & Hk & Hs); [exact Hg0|].
    destruct (foldl submit_single ([], st0) pl) as [ts' st2]. cbn [fst snd] in *. simplify_eq.
    apply inv_tasks; [done| |eapply Forall_impl; [exact Hs|]; by intros t [x ->]|intros x Hx; by apply H3, Hin].
    eapply good_perm; [|exact H1]. unfold waiting. rewrite H2, !task_waiting_app. change (task_waiting []) with (@nil nat). cbn [app st0 set_sendCh sendCh].
    rewrite (app_assoc (q_items q)). apply Permutation_app_comm.
Qed.

Lemma perm_front (a b c d : list nat) : a ++ b ++ c ++ d ≡ₚ c ++ a ++ b ++ d.
Proof. by rewrite (app_assoc a b), (app_assoc (a ++ b) c), (Permutation_app_comm (a ++ b) c), <- !app_assoc. Qed.

(** ** Every state that is reached *)

Lemma events_step_inv s s' : inv s -> step command receivePackLimit dequeueSize s s' -> inv s'.
Proof.
  intros Hinv Hstep. destruct Hstep as [s m cmd|s b ts st' Ht|s l1 t l2 Hp|s|s|s a b].
  - by apply Send_inv.
  - by eapply events_turn_inv.
  - destruct Hinv as [Hg Hsz]. rewrite Hp in Hg, Hsz. apply Forall_app in Hsz as [Hs1 Hs2]. apply Forall_cons in Hs2 as [Hst Hs2].
    destruct (run_task_good command Hcommand t (st s) (waiting (st s) (l1 ++ l2)) (sent s)) as [Hg' E]; [|done|].
    { eapply good_perm; [|exact Hg]. unfold waiting. rewrite !task_waiting_app, (app_assoc (task_packets t)). change (task_waiting (t :: l2)) with (task_packets t ++ task_waiting l2).
      rewrite <- app_assoc. apply perm_front. }
    assert (forall q, q ∈ task_waiting (l1 ++ l2) -> packet (run_task command t (st s)) q = packet (st s) q) as Eq.
    { intros q Hq. apply E, elem_of_app. by right. }
    split; [|apply (sized_ext (st s)); [done|by apply Forall_app]]. unfold waiting in *. cbn [st pending sent].
    replace (sendCh (run_task command t (st s))) with (sendCh (st s)); [done|]. symmetry. by apply run_task_sendCh.
  - destruct (packet_Close (st s) 0) as [_ E]. apply inv_keep; [done| |intros q _; apply packet_Close].
    unfold waiting. rewrite E. by apply good_Close, Hinv.
  - apply inv_keep; [done| |done]. destruct Hinv as [Hg _]. eapply good_same; [exact Hg|by split_and!|done|done].
  - apply inv_keep; [done| |done]. destruct Hinv as [Hg _]. eapply good_same; [exact Hg|by split_and!|done|done].
Qed.

Lemma events_reachable_inv s : reachable command receivePackLimit dequeueSize s -> inv s.
Proof.
  intros Hr. eapply star_invariant; [exact events_step_inv|exact Hr|]. split; [|done]. split.
  - split; [constructor| |constructor|constructor|done]. intros p. cbn. set_solver.
  - by exists [].
Qed.
End Preserved.
End EventQueueRun.

(** ** What happens to the events that go to Redis: every message is accounted for. *)

Import EventQueue EventQueueInv EventHist EventQueueRun.

(** C16: Whatever the interleaving of the handlers that send, the sending goroutine,
    its tasks and a shutdown, and whatever Redis and the pool of goroutines answer:
    every message that was encoded is acknowledged by Redis, refused by it (both by its
    answers to the commands: [answered]), dropped before it was given to Redis, or still waits
    in the queue or in a task, exactly once; Redis has been
    given the first two and nothing else; the metrics of success, bytes and failure
    count exactly the acknowledged and the other two; a packet object is never in
    two places at once, those in the pool are clean, and the library's buffers that
    are out are those of the packets that are out. When nothing waits any more, the
    counts of success and of failure add up to the number of messages. *)
Theorem redis_accounts `{Proto} keyType redisKey command receivePackLimit dequeueSize s :
  command_of keyType redisKey = Some command -> EventQueue.reachable command receivePackLimit dequeueSize s ->
  let w := waiting (st s) (pending s) in
  let ms := marks (st s) in
  let cs := cmds (st s) in
  (exists dropped,
     sent s ≡ₚ acked cs ++ refused cs ++ dropped ++ (message (st s) <$> w) /\
     given cs ≡ₚ acked cs ++ refused cs /\
     total ItemRedisQueueToBusinessSucceedCount ms = len (acked cs) /\
     total ItemRedisQueueToBusinessSucceedByte ms = lens (acked cs) /\
     total ItemRedisQueueToBusinessFailedCount ms = len (refused cs) + len dropped) /\
  own (st s) w /\
  (w = [] -> slices (st s) = 0 /\
     total ItemRedisQueueToBusinessSucceedCount ms + total ItemRedisQueueToBusinessFailedCount ms = len (sent s)).
Proof.
  intros Hc Hr. eapply events_reachable_inv in Hr; [|intros b; by eapply command_payload]. destruct Hr as [[Ho Hh] _].
  cbv zeta. split; [destruct Hh as (d & Hd & Hrest); exists d; split; [exact Hd|split; [apply given_answered|exact Hrest]]|].
  split; [exact Ho|]. intros Hw. destruct Ho as [_ _ _ _ Hs]. rewrite Hw in Hs. split; [exact Hs|].
  destruct Hh as (d & Hsent & -> & _ & ->). rewrite Hw in Hsent. cbn in Hsent. rewrite app_nil_r in Hsent.
  unfold len. rewrite Hsent, !length_app. lia.
Qed.

(** Two messages, of which Redis takes the first: the handlers, the sending
    goroutine and its task. *)
Definition demo_answered : EventQueue.state :=
  let s2 := Redis_Send MUnRegisterResp 2 (Redis_Send MUnRegisterResp 1 new_state) in
  mkState (packets s2) (free s2) (slices s2) (sendCh s2) (closeLock s2) (marks s2) [] [([false; true], true)] (cmds s2).

Definition demo_events : system :=
  match loopSend_turn 2048 10 demo_answered with
  | Some (_, t :: _, st) => mkSys (run_task (LPush "events") t st) [] ([put_be 4 1 ++ [7]] ++ [put_be 4 2 ++ [7]])
  | _ => mkSys new_state [] []
  end.

Lemma demo_events_reachable : EventQueue.reachable (LPush "events") 2048 10 demo_events.
Proof.
  eapply star_cons; [apply (s_send _ _ _ _ MUnRegisterResp 1)|].
  eapply star_cons; [apply (s_send _ _ _ _ MUnRegisterResp 2)|].
  eapply star_cons; [apply (s_answers _ _ _ _ [] [([false; true], true)])|].
  eapply star_cons; [eapply s_turn; vm_compute; reflexivity|].
  eapply star_cons; [eapply (s_task _ _ _ _ []); reflexivity|].
  vm_compute. apply star_nil.
Qed.

Lemma redis_accounts_witness :
  waiting (st demo_events) (pending demo_events) = [] /\
  acked (cmds (st demo_events)) = [[0; 0; 0; 1; 7]] /\ refused (cmds (st demo_events)) = [[0; 0; 0; 2; 7]] /\
  total ItemRedisQueueToBusinessSucceedCount (marks (st demo_events)) +
  total ItemRedisQueueToBusinessFailedCount (marks (st demo_events)) = len (sent demo_events).
Proof.
  split; [reflexivity|]. split; [reflexivity|]. split; [reflexivity|].
  apply (redis_accounts "list" "events" (LPush "events") 2048 10 demo_events); [reflexivity|exact demo_events_reachable|reflexivity].
Defined.

Lemma Exec_answered n st a rest :
  answers st = a :: rest -> exists st', Exec n st = (a, st') /\ marks st' = marks st.
Proof. intros Ha. unfold Exec. rewrite Ha. cbn. eexists. split; [reflexivity|done]. Qed.

Lemma count_failed g (l : list nat) errs n :
  Forall (fun err => err = true) errs -> length errs = length l ->
  foldl (fun '(f, s) '(e, p) => if (e : bool) then (f + 1, s) else (f, s + len (message g p))) (n, 0) (zip errs l) = (n + len l, 0).
Proof.
  revert n errs. induction l as [|p l IH]; intros n [|b e] Hfe Hlen; cbn in Hlen; try done; [cbn; by rewrite Z.add_0_r|].
  apply Forall_cons in Hfe as [-> Hfe]. cbn. rewrite IH, len_cons; [f_equal; lia|done|lia].
Qed.

(** Every push is made with [quit.Ctx]. A task that runs after main has cancelled it gets
    an error for every command (a command of go-redis with a done context fails), and so
    loses what it holds: the events are counted as failed. *)
Theorem cancelled_events_dropped command t st errs rest :
  answers st = (errs, true) :: rest -> Forall (fun err => err = true) errs ->
  let ms := marks (run_task command t st) in
  total ItemRedisQueueToBusinessSucceedCount ms = total ItemRedisQueueToBusinessSucceedCount (marks st) /\
  total ItemRedisQueueToBusinessFailedCount ms = total ItemRedisQueueToBusinessFailedCount (marks st) + len (task_packets t).
Proof.
  intros Ha He. cbv zeta. destruct t as [l size|p]; cbn [run_task task_packets].
  - destruct (rest_same _ _ (rest_Put_all l (batchMode command l size st))) as (_ & -> & _). unfold batchMode.
    destruct (Exec_answered (length l) st _ _ Ha) as (st' & -> & Hm).
    cbn [negb]. destruct (length errs =? length l)%nat eqn:El; cbn [negb].
    + rewrite count_failed by (done || by apply Nat.eqb_eq). cbn [Z.ltb Z.compare marks Mark set_cmds].
      rewrite Hm, !total_app. totals. lia.
    + cbn [marks Mark set_cmds]. rewrite Hm, !total_app. totals. lia.
  - destruct (rest_same _ _ (rest_Put p (singleMode command p st))) as (_ & -> & _). unfold singleMode.
    destruct (Exec_answered 1 st _ _ Ha) as (st' & -> & Hm).
    cbn [marks Mark set_cmds]. rewrite Hm, !total_app. totals. unfold len. cbn. lia.
Qed.
