(* ===== verification/Amqp.v ===== *)
(** src/internal/queue/amqp091: a batch of packets that is published on a channel
    (queue.go), and the goroutine that watches the channel, whose count of what the
    broker confirmed goes into the metrics (channelPool.go). *)

From S2P Require Export EventHist.

Module Amqp.
Import EventQueue EventHist.

(** ** sendBatch *)

(** A record that is put into [publishedCh]; the size 0 takes the record of the
    same number back. *)
Record published := mkPub { seqNo : Z; p_size : Z }.

(** What [Publish] and the [IsClosed] after it answer. *)
Inductive publishing := Accepted | Failed | FailedClosed.

(** The loop over the packets: the records, the messages that the library took with
    their numbers, the marks, the next number of the channel. The library numbers
    what it takes, so a message that fails uses up no number. *)
Fixpoint publish_loop (packets : list bytes) (answers : list publishing) (seq : Z)
    : list published * list (Z * bytes) * list (Z * Z) * Z :=
  match packets with
  | [] => ([], [], [], seq)
  | pkg :: rest =>
      let record := mkPub seq (len pkg) in
      match default Accepted (head answers) with
      | Accepted =>
          let '(rs, ps, ms, seq') := publish_loop rest (tail answers) (u64 (seq + 1)) in
          (record :: rs, (seq, pkg) :: ps, ms, seq')
      | Failed =>
          let '(rs, ps, ms, seq') := publish_loop rest (tail answers) seq in
          (record :: mkPub seq 0 :: rs, ps, (ItemAMQP091ToBusinessFailedCount, 1) :: ms, seq')
      | FailedClosed =>
          ([record; mkPub seq 0], [], [(ItemAMQP091ToBusinessFailedCount, len packets)], seq)
      end
  end.

(** [sendBatch]: without a channel everything has failed. *)
Definition sendBatch (channel : bool) (packets : list bytes) (answers : list publishing) (seq : Z)
    : list published * list (Z * bytes) * list (Z * Z) * Z :=
  if channel then publish_loop packets answers seq
  else ([], [], [(ItemAMQP091ToBusinessFailedCount, len packets)], seq).

(** The batches of a channel, one after the other: the pool gives it to one
    goroutine at a time. *)
Fixpoint sendBatches (batches : list (list bytes * list publishing)) (seq : Z)
    : list published * list (Z * bytes) * list (Z * Z) * Z :=
  match batches with
  | [] => ([], [], [], seq)
  | (packets, answers) :: rest =>
      let '(rs, ps, ms, seq) := sendBatch true packets answers seq in
      let '(rs', ps', ms', seq') := sendBatches rest seq in
      (rs ++ rs', ps ++ ps', ms ++ ms', seq')
  end.

(** ** The sending goroutine *)

(** One turn of [loopSend]: whether it goes on, the batch that it has submitted. *)
Definition loopSend_turn (dequeueSize : nat) (st : state) : option (bool * list (list nat) * state) :=
  match fifo_dequeue dequeueSize (sendCh st) with
  | None => None
  | Some (l, q) =>
      let st := set_sendCh q st in
      Some (match l with
            | [] => (false, [], st)
            | _ =>
                let '(err, st) := Submit st in
                if (err : bool) then (true, [], Mark ItemAMQP091ToBusinessFailedCount (len l) (Put_all l st))
                else (true, [l], st)
            end)
  end.

(** The closure that is submitted: [sendBatch], and the packets go back at its end.
    The records and what is published are returned with the state. *)
Definition run_batch (channel : bool) (answers : list publishing) (seq : Z) (l : list nat) (st : state)
    : list published * list (Z * bytes) * state :=
  let '(rs, ps, ms, _) := sendBatch channel (message st <$> l) answers seq in
  (rs, ps, Put_all l (foldl (fun st x => Mark x.1 x.2 st) st ms)).

(** ** The monitor *)

Inductive phase := Running | Draining | Closing | Ended.

Record monitor := mkMonitor {
  publishedMp : gmap Z Z;
  m_phase : phase;
  m_marks : list (Z * Z);
}.

(** What its [select] can receive. *)
Inductive mevent :=
  | ErrClosed                              (* errCh *)
  | Published (pb : published)             (* publishedCh *)
  | Confirm (tag : Z) (ack : bool)         (* confirmCh *)
  | ConfirmClosed
  | Quit                                   (* quit.Ctx.Done() *)
  | Delay (refCount : Z) (queued : nat).   (* the timer, with refCount and len(publishedCh) *)

Definition on_published (pb : published) (m : monitor) : monitor :=
  mkMonitor (if 0 <? p_size pb then <[seqNo pb := p_size pb]> (publishedMp m) else delete (seqNo pb) (publishedMp m))
            (m_phase m) (m_marks m).

Definition on_confirm (tag : Z) (ack : bool) (m : monitor) : monitor :=
  mkMonitor (delete tag (publishedMp m)) (m_phase m)
    (m_marks m ++
     (if ack then [(ItemAMQP091ToBusinessSucceedCount, 1);
                   (ItemAMQP091ToBusinessSucceedByte, default 0 (publishedMp m !! tag))]
      else [(ItemAMQP091ToBusinessFailedCount, 1)])).

Definition in_phase (p : phase) (m : monitor) : monitor := mkMonitor (publishedMp m) p (m_marks m).

(** The deferred function: what has a size and was not confirmed has failed. *)
Definition finish (m : monitor) : monitor :=
  let failedCount := Z.of_nat (size (filter (fun x : Z * Z => 0 < x.2) (publishedMp m))) in
  mkMonitor (publishedMp m) Ended
    (m_marks m ++ (if 0 <? failedCount then [(ItemAMQP091ToBusinessFailedCount, failedCount)] else [])).

Definition monitor_step (m : monitor) (e : mevent) : option monitor :=
  match m_phase m, e with
  | Running, (ErrClosed | ConfirmClosed) => Some (in_phase Draining m)
  | (Running | Draining), Published pb => Some (on_published pb m)
  | (Running | Closing), Confirm tag ack => Some (on_confirm tag ack m)
  | Draining, Quit => Some (finish m)
  | Draining, Delay refCount queued =>
      Some (if (refCount =? 0) && (queued =? 0)%nat then in_phase Closing m else m)
  | Closing, ConfirmClosed => Some (finish m)
  | _, _ => None
  end.

Fixpoint monitor_run (m : monitor) (l : list mevent) : option monitor :=
  match l with
  | [] => Some m
  | e :: l' => match monitor_step m e with Some m' => monitor_run m' l' | None => None end
  end.

Definition new_monitor : monitor := mkMonitor ∅ Running [].

(** The records among what it receives. *)
Fixpoint records (l : list mevent) : list published :=
  match l with
  | [] => []
  | Published pb :: l' => pb :: records l'
  | _ :: l' => records l'
  end.

(** Every confirmation comes after the record of its number and before the next
    record of it; [open] are the numbers that are recorded and not confirmed. *)
Fixpoint orderly (open : gset Z) (l : list mevent) : Prop :=
  match l with
  | [] => True
  | Published pb :: l' =>
      if 0 <? p_size pb then ((seqNo pb ∉ open) /\ orderly ({[seqNo pb]} ∪ open) l')
      else ((seqNo pb ∈ open) /\ orderly (open ∖ {[seqNo pb]}) l')
  | Confirm tag _ :: l' => tag ∈ open /\ orderly (open ∖ {[tag]}) l'
  | _ :: l' => orderly open l'
  end.

(** ** The accounts *)

(** How many messages the records leave published. *)
Definition net (l : list published) : Z := foldr (fun pb n => (if 0 <? p_size pb then 1 else -1) + n) 0 l.

Definition counted (ms : list (Z * Z)) : Z :=
  total ItemAMQP091ToBusinessSucceedCount ms + total ItemAMQP091ToBusinessFailedCount ms.

Lemma net_app l k : net (l ++ k) = net l + net k.
Proof. induction l as [|x l IH]; cbn; [done|]. unfold net in *. lia. Qed.

Lemma counted_app l k : counted (l ++ k) = counted l + counted k.
Proof. unfold counted. rewrite !total_app. lia. Qed.

(** A batch: at most two records for each packet, so it fits into [publishedCh];
    each packet is published or counted as failed. *)
Lemma publish_loop_spec packets answers seq :
  Forall (fun b => 0 < len b) packets ->
  let '(rs, ps, ms, _) := publish_loop packets answers seq in
  (length rs <= 2 * length packets)%nat /\ net rs = len ps /\ net rs + counted ms = len packets.
Proof.
  revert answers seq; induction packets as [|pkg packets IH]; intros answers seq Hp; [done|].
  apply Forall_cons in Hp as [Hpkg Hp]. cbn [publish_loop]. apply Z.ltb_lt in Hpkg.
  assert (forall s n rs, net (mkPub s n :: rs) = (if 0 <? n then 1 else -1) + net rs) as Hn by done.
  destruct (default Accepted (head answers)).
  - specialize (IH (tail answers) (u64 (seq + 1)) Hp). destruct (publish_loop _ _ _) as [[[rs ps] ms] s'].
    rewrite Hn, Hpkg, !len_cons. cbn [length]. lia.
  - specialize (IH (tail answers) seq Hp). destruct (publish_loop _ _ _) as [[[rs ps] ms] s'].
    rewrite !Hn, Hpkg. change (0 <? 0) with false. cbv iota. unfold counted in *. totals. rewrite len_cons. cbn [length]. lia.
  - rewrite !Hn, Hpkg. change (0 <? 0) with false. cbv iota. unfold counted. totals. change (net []) with 0.
    change (len (@nil (Z * bytes))) with 0. cbn [length]. pose proof (len_nonneg packets). lia.
Qed.

Lemma sendBatches_spec batches seq :
  Forall (fun x => Forall (fun b => 0 < len b) x.1) batches ->
  let '(rs, ps, ms, _) := sendBatches batches seq in
  net rs = len ps /\ net rs + counted ms = len (mjoin batches.*1).
Proof.
  revert seq; induction batches as [|[packets answers] batches IH]; intros seq Hb; [done|].
  apply Forall_cons in Hb as [Hp Hb]. cbn [sendBatches sendBatch fst] in *.
  pose proof (publish_loop_spec packets answers seq Hp) as H1. destruct (publish_loop _ _ _) as [[[rs ps] ms] s1].
  specialize (IH s1 Hb). destruct (sendBatches batches s1) as [[[rs' ps'] ms'] s2].
  change (mjoin ((packets, answers) :: batches).*1) with (packets ++ mjoin batches.*1).
  rewrite net_app, counted_app, !len_app. lia.
Qed.

(** ** What the monitor keeps *)

Record kept (open : gset Z) (n : Z) (m : monitor) : Prop := mkKept {
  k_open : dom (publishedMp m) = open;
  k_sizes : map_Forall (fun _ v => 0 < v) (publishedMp m);
  k_count : m_phase m <> Ended -> counted (m_marks m) + Z.of_nat (size (publishedMp m)) = n;
  k_end : m_phase m = Ended -> counted (m_marks m) = n;
}.

Lemma kept_published open n m pb :
  kept open n m -> m_phase m <> Ended ->
  (if 0 <? p_size pb then seqNo pb ∉ open else seqNo pb ∈ open) ->
  kept (if 0 <? p_size pb then {[seqNo pb]} ∪ open else open ∖ {[seqNo pb]})
       (n + if 0 <? p_size pb then 1 else -1) (on_published pb m).
Proof.
  intros [Ho Hs Hc He] Hph Hin. unfold on_published. destruct (Z.ltb_spec 0 (p_size pb)) as [Hpos|Hpos]; split; cbn; try done.
  - by rewrite dom_insert_L, Ho.
  - by apply map_Forall_insert_2.
  - intros _. rewrite map_size_insert_None; [specialize (Hc Hph); lia|]. apply not_elem_of_dom. by rewrite Ho.
  - by rewrite dom_delete_L, Ho.
  - by apply map_Forall_delete.
  - intros _. rewrite <- Ho in Hin. apply elem_of_dom in Hin as [v Hv]. specialize (Hc Hph).
    rewrite map_size_delete_Some by eauto. assert (size (publishedMp m) <> 0%nat); [|lia].
    intros E%map_size_empty_inv. by rewrite E in Hv.
Qed.

Lemma kept_confirm open n m tag ack :
  kept open n m -> m_phase m <> Ended -> tag ∈ open -> kept (open ∖ {[tag]}) n (on_confirm tag ack m).
Proof.
  intros [Ho Hs Hc He] Hph Hin. split; cbn; try done.
  - by rewrite dom_delete_L, Ho.
  - by apply map_Forall_delete.
  - intros _. rewrite <- Ho in Hin. apply elem_of_dom in Hin as [v Hv]. specialize (Hc Hph).
    rewrite map_size_delete_Some, counted_app by eauto.
    assert (size (publishedMp m) <> 0%nat) as Hz by (intros E%map_size_empty_inv; by rewrite E in Hv).
    destruct ack; unfold counted at 2; totals; lia.
Qed.

Lemma kept_finish open n m : kept open n m -> m_phase m <> Ended -> kept open n (finish m).
Proof.
  intros [Ho Hs Hc He] Hph. split; cbn; try done. intros _. specialize (Hc Hph). rewrite counted_app.
  rewrite map_filter_id by (intros i x Hx; exact (Hs i x Hx)).
  destruct (Z.ltb_spec 0 (Z.of_nat (size (publishedMp m)))); unfold counted at 2; totals; lia.
Qed.

Lemma monitor_run_kept l open n m m' :
  kept open n m -> orderly open l -> monitor_run m l = Some m' -> exists open', kept open' (n + net (records l)) m'.
Proof.
  revert open n m; induction l as [|e l IH]; intros open n m Hk Ho Hr; cbn [monitor_run] in Hr.
  { simplify_eq. exists open. by rewrite Z.add_0_r. }
  destruct (monitor_step m e) as [m1|] eqn:E; [|done]. unfold monitor_step in E.
  assert (forall p, p <> Ended -> m_phase m <> Ended -> kept open n (in_phase p m)) as Hp.
  { intros p Hp Hph. destruct Hk as [H1 H2 H3 H4]. split; cbn; [done|done|auto|done]. }
  assert (m_phase m <> Ended) as Hph by (destruct (m_phase m), e; done).
  destruct e as [|pb|tag ack| | |rc q]; cbn [orderly records] in Ho |- *.
  - eapply IH; [|done|done]. destruct (m_phase m); simplify_eq; by apply Hp.
  - change (net (pb :: records l)) with ((if 0 <? p_size pb then 1 else -1) + net (records l)). rewrite Z.add_assoc.
    assert (m1 = on_published pb m) as -> by (destruct (m_phase m); by simplify_eq).
    eapply IH; [apply (kept_published open); [done|done|]| |done].
    + revert Ho. destruct (0 <? p_size pb); tauto.
    + revert Ho. destruct (0 <? p_size pb); tauto.
  - assert (m1 = on_confirm tag ack m) as -> by (destruct (m_phase m); by simplify_eq).
    eapply IH; [apply (kept_confirm open); [done|done|exact (proj1 Ho)]|exact (proj2 Ho)|done].
  - eapply IH; [|done|done]. destruct (m_phase m) eqn:Em; simplify_eq; [apply Hp; congruence|apply kept_finish; [done|congruence]].
  - eapply IH; [|done|done]. destruct (m_phase m) eqn:Em; simplify_eq. apply kept_finish; [done|congruence].
  - eapply IH; [|done|done]. destruct (m_phase m); simplify_eq. destruct (_ && _); [by apply Hp|done].
Qed.

Lemma new_kept : kept ∅ 0 new_monitor.
Proof. split; cbn; done. Qed.
End Amqp.
