(* ===== verification/AmqpProps.v ===== *)
(** The AMQP queue as a whole: handlers, the sending goroutine and the batches it has
    submitted, in any order; and what the pools and the accounts of the queue promise. *)

From S2P Require Export Amqp Pool Demo.

Module AmqpRun.
Import EventQueue EventQueueInv EventHist Amqp.

(** ** A history: what was published, and what is counted as failed *)

Definition hist (out : list bytes) (ms : list (Z * Z)) (cs : list exchange) (msgs sent : list bytes) : Prop :=
  exists failed, sent ≡ₚ out ++ failed ++ msgs /\ total ItemAMQP091ToBusinessFailedCount ms = len failed.

#[export] Instance amqp_history out : History ItemAMQP091ToBusinessFailedCount (hist out).
Proof.
  split.
  - intros ms cs msgs msgs' sent E (f & Hs & Hf). exists f. by rewrite <- E.
  - intros ms cs msgs sent m (f & Hs & Hf). exists f. split; [|done].
    rewrite Hs, <- !app_assoc. do 2 f_equiv. symmetry. apply Permutation_cons_append.
  - intros ms cs l msgs sent n (f & Hs & Hf) ->. exists (f ++ l). rewrite total_app, len_app. totals.
    split; [by rewrite <- app_assoc|lia].
Qed.

(** A batch: what it publishes and what it counts as failed is what it was given. *)
Lemma publish_loop_split packets answers seq :
  let '(_, ps, ms, _) := publish_loop packets answers seq in
  exists f, packets ≡ₚ ps.*2 ++ f /\ total ItemAMQP091ToBusinessFailedCount ms = len f.
Proof.
  revert answers seq; induction packets as [|pkg packets IH]; intros answers seq; [by exists []|].
  cbn [publish_loop]. destruct (default Accepted (head answers)).
  - specialize (IH (tail answers) (u64 (seq + 1))). destruct (publish_loop _ _ _) as [[[rs ps] ms] s'].
    destruct IH as (f & E & Hf). exists f. split; [by cbn; rewrite E|done].
  - specialize (IH (tail answers) seq). destruct (publish_loop _ _ _) as [[[rs ps] ms] s'].
    destruct IH as (f & E & Hf). exists (pkg :: f). rewrite len_cons. totals. split; [rewrite E; apply Permutation_middle|lia].
  - exists (pkg :: packets). totals. split; [done|lia].
Qed.

Lemma sendBatch_split channel packets answers seq :
  let '(_, ps, ms, _) := sendBatch channel packets answers seq in
  exists f, packets ≡ₚ ps.*2 ++ f /\ total ItemAMQP091ToBusinessFailedCount ms = len f.
Proof.
  unfold sendBatch. destruct channel; [apply publish_loop_split|]. exists packets. totals. split; [done|lia].
Qed.

Lemma Mark_all ms st :
  let st' := foldl (fun st x => Mark x.1 x.2 st) st ms in
  same_packets st st' /\ marks st' = marks st ++ ms /\ cmds st' = cmds st /\ sendCh st' = sendCh st.
Proof.
  cbv zeta. revert st; induction ms as [|[i n] ms IH]; intros st; cbn [foldl fst snd]; [by rewrite app_nil_r|].
  destruct (IH (Mark i n st)) as (Hs & -> & -> & ->). split; [done|]. cbn. by rewrite <- app_assoc.
Qed.

Lemma run_batch_good channel answers seq l st out w sent :
  let '(_, ps, st') := run_batch channel answers seq l st in
  good (hist out) st (l ++ w) sent ->
  good (hist (out ++ ps.*2)) st' w sent /\ sendCh st' = sendCh st.
Proof.
  unfold run_batch. pose proof (sendBatch_split channel (message st <$> l) answers seq) as Hb.
  destruct (sendBatch _ _ _ _) as [[[rs ps] ms] s']. destruct Hb as (f & E & Hf). intros [Ho (failed & Hs & Hft)].
  set (st1 := foldl _ st ms). destruct (Mark_all ms st) as (Hsame & Hm & Hc & Hq). fold st1 in Hsame, Hm, Hc, Hq.
  destruct (own_Put_all l st1 w (own_same _ _ _ Hsame Ho)) as (Ho' & Hr & Ew). apply rest_same in Hr as (Hq' & Hm' & Hc').
  split; [|by rewrite Hq']. split; [done|]. rewrite Hm', Hm. exists (failed ++ f). rewrite total_app, len_app. split; [|lia].
  rewrite (messages_ext st _ w) by (intros q Hin; rewrite Ew, (same_packet _ _ q Hsame) by done; done).
  rewrite Hs, fmap_app, E, <- !app_assoc. f_equiv. apply Permutation_app_swap_app.
Qed.

(** ** The system *)

Section System.
Context `{Proto} (dequeueSize : nat).

Record system := mkSys { st : state; pending : list (list nat); out : list bytes; sent : list bytes }.

Inductive step : system -> system -> Prop :=
  | a_send s m cmd : step s (mkSys (AMQP_Send m cmd (st s)) (pending s) (out s) (sent s ++ encoding m cmd))
  | a_turn s b ts st' :
      loopSend_turn dequeueSize (st s) = Some (b, ts, st') ->
      step s (mkSys st' (pending s ++ ts) (out s) (sent s))
  | a_batch s l1 l l2 channel answers seq rs ps st' :
      pending s = l1 ++ l :: l2 -> run_batch channel answers seq l (st s) = (rs, ps, st') ->
      step s (mkSys st' (l1 ++ l2) (out s ++ ps.*2) (sent s))
  | a_close s : step s (mkSys (Close (st s)).2 (pending s) (out s) (sent s))
  | a_timer s : step s (mkSys (Close_timer (st s)) (pending s) (out s) (sent s))
  | a_submits s submits :
      step s (mkSys (mkState (packets (st s)) (free (st s)) (slices (st s)) (sendCh (st s)) (closeLock (st s))
                             (marks (st s)) submits (answers (st s)) (cmds (st s))) (pending s) (out s) (sent s)).

Definition reachable (s : system) : Prop := star step (mkSys new_state [] [] []) s.

Definition waiting (s : system) : list nat := q_items (sendCh (st s)) ++ mjoin (pending s).

Definition inv (s : system) : Prop := good (hist (out s)) (st s) (waiting s) (sent s).

Lemma amqp_turn_inv s b ts st' :
  inv s -> loopSend_turn dequeueSize (st s) = Some (b, ts, st') -> inv (mkSys st' (pending s ++ ts) (out s) (sent s)).
Proof.
  unfold inv, waiting, loopSend_turn. intros Hg. destruct (fifo_dequeue _ _) as [[l q]|] eqn:Eq; [|done].
  apply good_dequeue with (1 := Hg) in Eq. destruct l as [|p l].
  { intros [= <- <- <-]. by rewrite app_nil_r. }
  remember (p :: l) as pl eqn:Epl. clear Epl. unfold Submit. set (st1 := mkState _ _ _ _ _ _ (tail _) _ _).
  assert (good (hist (out s)) st1 (pl ++ q_items q ++ mjoin (pending s)) (sent s)) as Hg1
    by (eapply good_same; [exact Eq|by split_and!|done|done]).
  destruct (default false _); intros [= <- <- <-]; cbn [st pending out sent].
  - destruct (good_unsubmitted st1 pl _ _ Hg1) as (Hg2 & Hq & _). by rewrite app_nil_r, Hq.
  - eapply good_perm; [|exact Hg1]. rewrite join_app. cbn. rewrite app_nil_r, (app_assoc (q_items q)). apply Permutation_app_comm.
Qed.

Lemma amqp_step_inv s s' : inv s -> step s s' -> inv s'.
Proof.
  intros Hi Hs. destruct Hs as [s m cmd|s b ts st' Ht|s l1 l l2 channel answers seq rs ps st' Hp Hr|s|s|s submits].
  - by apply (Send_good m cmd (st s) (mjoin (pending s)) (sent s)).
  - by eapply amqp_turn_inv.
  - pose proof (run_batch_good channel answers seq l (st s) (out s) (q_items (sendCh (st s)) ++ mjoin (l1 ++ l2)) (sent s)) as Hb.
    rewrite Hr in Hb. destruct Hb as [Hg Hq].
    + eapply good_perm; [|exact Hi]. unfold waiting. rewrite Hp, !join_app. cbn.
      rewrite (Permutation_app_swap_app (mjoin l1) l). apply Permutation_app_swap_app.
    + unfold inv, waiting. cbn. by rewrite Hq.
  - unfold inv, waiting. cbn [st pending out sent].
    destruct (packet_Close (st s) 0) as [_ ->]. by apply good_Close.
  - eapply good_same; [exact Hi|by split_and!|done|done].
  - eapply good_same; [exact Hi|by split_and!|done|done].
Qed.

Lemma amqp_reachable_inv s : reachable s -> inv s.
Proof.
  intros Hr. eapply star_invariant; [exact amqp_step_inv|exact Hr|]. split.
  - split; [constructor| |constructor|constructor|done]. intros p. cbn. set_solver.
  - by exists [].
Qed.
End System.
End AmqpRun.

(** ** The properties of the AMQP queue: its pools and what it counts. *)

Module AmqpPools.
Import Pool PoolInv.

(** C17: The pools of AMQP connections and of AMQP channels, under every interleaving
    of the goroutines that take, give back and check, and of sockets that close:
    the tokens, the idle sockets and what the goroutines have in their hands add up
    to the size of the pool; so no more sockets are open than that, and every open
    one is idle or in somebody's hands; a socket is in one pair of hands at most,
    and not idle meanwhile; the references that a channel counts are those that
    are held. *)
Theorem pool_correct counting poolSize p ts :
  reachable counting poolSize (p, ts) ->
  (Pool.size p + length (idle p) + sum_list_with token ts = poolSize)%nat /\
  (base.size (born p ∖ dead p) <= poolSize)%nat /\
  (forall s, s ∈ born p -> s ∉ dead p -> s ∈ idle p \/ exists i g, ts !! i = Some g /\ s ∈ owned g) /\
  (forall i j g h s, ts !! i = Some g -> ts !! j = Some h -> s ∈ owned g -> s ∈ owned h -> i = j) /\
  (forall i g s, ts !! i = Some g -> s ∈ owned g -> s ∉ idle p) /\
  (counting = true -> forall s, refCount p s = Z.of_nat (sum_list_with (counted s) ts)).
Proof.
  intros Hr%pool_reachable_inv. split_and!; [apply Hr|by eapply open_bound| |intros; by eapply exclusive| |apply Hr].
  - intros s Hb Hd. pose proof (inv_kept _ _ _ Hr s Hb Hd) as Hin. unfold sockets in Hin. apply elem_of_app in Hin as [?|Hin]; [by left|right].
    apply list_elem_of_join in Hin as (l & Hs & (g & -> & Hg)%list_elem_of_fmap). apply list_elem_of_lookup in Hg as [i Hi]. eauto.
  - intros i g s Hi Hs Hin. pose proof (inv_once _ _ _ Hr) as Hn. unfold sockets in Hn. apply NoDup_app in Hn as (_ & Hn & _).
    apply (Hn s Hin). apply list_elem_of_join. exists (owned g). split; [done|]. apply list_elem_of_fmap. exists g.
    split; [done|]. by eapply list_elem_of_lookup_2.
Qed.

(** A pool of one: it is taken and held. *)
Lemma demo_pool_held :
  exists p, reachable true 1 (p, [Held 7; GWait]) /\ born p = {[7%nat]} /\ dead p = ∅.
Proof.
  eexists. split; [exists 2%nat|].
  - eapply star_cons; [eapply (s_call _ _ _ 0%nat GPool); [reflexivity|by left]|].
    eapply star_cons; [eapply (s_call _ _ _ 1%nat GPool); [reflexivity|by left]|].
    eapply star_cons; [eapply (s_go _ _ _ 0%nat _ Go); reflexivity|].
    eapply star_cons; [eapply (s_go _ _ _ 0%nat _ Go); reflexivity|].
    eapply star_cons; [eapply (s_go _ _ _ 1%nat _ Go); reflexivity|].
    eapply star_cons; [eapply (s_go _ _ _ 1%nat _ Go); reflexivity|].
    eapply star_cons; [eapply (s_go _ _ _ 0%nat _ (Created (Some 7%nat))); reflexivity|].
    eapply star_cons; [eapply (s_go _ _ _ 0%nat _ Go); reflexivity|].
    apply star_nil.
  - split; reflexivity.
Qed.

Lemma pool_correct_witness :
  exists p, (Pool.size p + length (idle p) + sum_list_with token [Held 7; GWait] = 1)%nat /\
            refCount p 7 = Z.of_nat (sum_list_with (counted 7) [Held 7; GWait]).
Proof.
  destruct demo_pool_held as (p & Hr & _). exists p.
  destruct (pool_correct true 1 p [Held 7; GWait] Hr) as (H1 & _ & _ & _ & _ & H6). split; [exact H1|exact (H6 eq_refl 7%nat)].
Defined.

(** C18: No goroutine of the pools is stuck: outside of a call and while the socket is
    held there is nothing to do, in every other position there is a step (when it
    waits for a socket, the timeout), in particular the channels a goroutine sends on have
    room; and every step brings it nearer to the end of its call, so getting a socket
    takes five steps of the goroutine at most, giving it back three, and a heartbeat
    three for each socket of the pool and two more. *)
Theorem pool_progress counting poolSize p ts i g :
  reachable counting poolSize (p, ts) -> ts !! i = Some g ->
  (g <> Idle -> (forall s, g <> Held s) -> exists c p' g', pool_step counting p c g = Some (p', g')) /\
  (forall c p' g', pool_step counting p c g = Some (p', g') -> (rank poolSize g' < rank poolSize g)%nat) /\
  (rank poolSize g <= 3 * poolSize + 5)%nat.
Proof.
  intros Hre Hi. pose proof (pool_reachable_inv _ _ _ Hre) as Hr. split_and!.
  - intros Hne Hnh. destruct (sending g) eqn:Es; [destruct (sending_steps _ _ _ _ _ _ Hr Hi Es) as [[p' g'] E]; eauto|].
    exists (match g with GCreate => Created None | GWait => Timeout | _ => Go end). by apply quiet_steps.
  - intros c p' g'. by eapply rank_decreases.
  - by eapply rank_bound.
Qed.

Lemma pool_progress_witness :
  exists p, pool_step true p Timeout GWait <> None /\ (rank 1 GWait <= 3 * 1 + 5)%nat.
Proof.
  destruct demo_pool_held as (p & Hr & _). exists p. split; [done|].
  exact (proj2 (proj2 (pool_progress true 1 p _ 1%nat GWait Hr eq_refl))).
Defined.
End AmqpPools.

Module AmqpAccounts.
Import EventQueue EventQueueInv EventHist Amqp AmqpRun.

(** C20: Whatever the interleaving of the handlers that send, the sending goroutine,
    its batches and a shutdown, and whatever the broker and the pool of goroutines
    answer: every message that was encoded is published on a channel, counted as
    failed, or still waits in the queue or in a batch, exactly once; and the packet
    objects and the library's buffers are owned as in the Redis queue. *)
Theorem amqp_accounts `{Proto} dequeueSize s :
  AmqpRun.reachable dequeueSize s ->
  own (st s) (waiting s) /\
  exists failed, sent s ≡ₚ out s ++ failed ++ (message (st s) <$> waiting s) /\
    total ItemAMQP091ToBusinessFailedCount (marks (st s)) = len failed.
Proof. intros Hr. exact (amqp_reachable_inv dequeueSize s Hr). Qed.

(** Three messages: the broker refuses the second. *)
Definition demo_sent : EventQueue.state :=
  AMQP_Send MUnRegisterResp 3 (AMQP_Send MUnRegisterResp 2 (AMQP_Send MUnRegisterResp 1 new_state)).

Definition demo_msg (n : Z) : bytes := [0; 0; 0; n; 7].

Lemma demo_amqp_reachable :
  exists s, AmqpRun.reachable 2 s /\ pending s = [] /\ out s = [demo_msg 1] /\ message (st s) <$> waiting s = [demo_msg 3].
Proof.
  eexists. split.
  - eapply star_cons; [apply (a_send _ _ MUnRegisterResp 1)|].
    eapply star_cons; [apply (a_send _ _ MUnRegisterResp 2)|].
    eapply star_cons; [apply (a_send _ _ MUnRegisterResp 3)|].
    eapply star_cons; [eapply a_turn; vm_compute; reflexivity|].
    eapply star_cons; [eapply (a_batch _ _ [] _ [] true [Accepted; Failed] 1); [reflexivity|vm_compute; reflexivity]|].
    apply star_nil.
  - split_and!; vm_compute; reflexivity.
Qed.

Lemma amqp_accounts_witness :
  exists s failed, out s = [demo_msg 1] /\ sent s ≡ₚ out s ++ failed ++ [demo_msg 3] /\
    total ItemAMQP091ToBusinessFailedCount (marks (st s)) = len failed.
Proof.
  destruct demo_amqp_reachable as (s & Hr & _ & Ho & Hw). destruct (amqp_accounts 2 s Hr) as (_ & failed & H1 & H2).
  exists s, failed. split; [exact Ho|]. split; [rewrite <- Hw; exact H1|exact H2].
Defined.

(** ** What the broker has confirmed *)

(** The numbers of the positive confirmations. *)
Definition acked_tags (l : list mevent) : list Z :=
  omap (fun e => match e with Confirm tag true => Some tag | _ => None end) l.

(** The size of the message that the library has taken under a number. *)
Definition size_of (ps : list (Z * bytes)) (tag : Z) : Z := default 0 (len <$> (list_to_map ps : gmap Z bytes) !! tag).

Definition sizes (ps : list (Z * bytes)) (tags : list Z) : Z := foldr (fun tag n => size_of ps tag + n) 0 tags.

(** The records of some batches: one for each message that was taken, two for each that
    was not. *)
Inductive recorded (ps : list (Z * bytes)) : list published -> Prop :=
  | rec_nil : recorded ps []
  | rec_taken n pkg rs : (n, pkg) ∈ ps -> 0 < len pkg -> recorded ps rs -> recorded ps (mkPub n (len pkg) :: rs)
  | rec_undone n k rs : 0 < k -> recorded ps rs -> recorded ps (mkPub n k :: mkPub n 0 :: rs).

Lemma recorded_mono ps qs rs : ps ⊆ qs -> recorded ps rs -> recorded qs rs.
Proof. induction 2; constructor; auto. Qed.

Lemma recorded_app ps rs rs' : recorded ps rs -> recorded ps rs' -> recorded ps (rs ++ rs').
Proof. induction 1; intros Hrs; cbn; [done|apply rec_taken; auto|apply rec_undone; auto]. Qed.

(** The numbers count up, from the next of the channel. *)
Definition numbered (seq seq' : Z) (ps : list (Z * bytes)) : Prop :=
  NoDup ps.*1 /\ Forall (fun x => seq <= x.1 < seq') ps.

Lemma numbered_app a b c ps qs : a <= b <= c -> numbered a b ps -> numbered b c qs -> numbered a c (ps ++ qs).
Proof.
  intros Ho [H1 H2] [H3 H4]. split.
  - rewrite fmap_app. apply NoDup_app. split_and!; [done| |done]. intros x Hx Hx'.
    apply list_elem_of_fmap in Hx as (y & -> & Hy), Hx' as (z & E & Hz). rewrite Forall_forall in H2, H4.
    specialize (H2 _ Hy). specialize (H4 _ Hz). lia.
  - apply Forall_app. split; (eapply Forall_impl; [eassumption|]); cbn; lia.
Qed.

Lemma publish_loop_records packets answers seq :
  Forall (fun b => 0 < len b) packets -> 0 <= seq -> seq + len packets < 2 ^ 64 ->
  let '(rs, ps, ms, seq') := publish_loop packets answers seq in
  recorded ps rs /\ numbered seq seq' ps /\ seq <= seq' <= seq + len packets /\
  total ItemAMQP091ToBusinessSucceedCount ms = 0 /\ total ItemAMQP091ToBusinessSucceedByte ms = 0.
Proof.
  revert answers seq; induction packets as [|pkg packets IH]; intros answers seq Hp Hpos Hb.
  { cbn. split_and!; try done; [apply rec_nil|by split; constructor|pose proof (len_nonneg (@nil bytes)); lia]. }
  apply Forall_cons in Hp as [Hpkg Hp]. rewrite len_cons in Hb. pose proof (len_nonneg packets). cbn [publish_loop].
  destruct (default Accepted (head answers)).
  - specialize (IH (tail answers) (u64 (seq + 1)) Hp). rewrite u64_small in IH |- * by lia.
    specialize (IH ltac:(lia) ltac:(lia)). destruct (publish_loop _ _ _) as [[[rs ps] ms] s'].
    destruct IH as (Hr & Hn & Hs & H1 & H2). split_and!; [| |rewrite ?len_cons; lia|rewrite ?len_cons; lia|done|done].
    + constructor; [by left|done|]. eapply recorded_mono; [|exact Hr]. by apply list_subseteq_cons.
    + apply (numbered_app seq (seq + 1) s' [(seq, pkg)]); [lia| |done]. split; [apply NoDup_singleton|]. repeat constructor; cbn; lia.
  - specialize (IH (tail answers) seq Hp Hpos ltac:(lia)). destruct (publish_loop _ _ _) as [[[rs ps] ms] s'].
    destruct IH as (Hr & Hn & Hs & H1 & H2). totals. split_and!; [by constructor|done|rewrite ?len_cons; lia..|done|done].
  - totals. split_and!; try done; [by repeat constructor|by split; constructor|rewrite ?len_cons; lia..].
Qed.

Lemma sendBatches_records batches seq :
  Forall (fun x => Forall (fun b => 0 < len b) x.1) batches -> 0 <= seq -> seq + len (mjoin batches.*1) < 2 ^ 64 ->
  let '(rs, ps, ms, seq') := sendBatches batches seq in
  recorded ps rs /\ numbered seq seq' ps /\ seq <= seq' <= seq + len (mjoin batches.*1) /\
  total ItemAMQP091ToBusinessSucceedCount ms = 0 /\ total ItemAMQP091ToBusinessSucceedByte ms = 0.
Proof.
  revert seq; induction batches as [|[packets answers] batches IH]; intros seq Hp Hpos Hb.
  { cbn. split_and!; try done; [apply rec_nil|by split; constructor|pose proof (len_nonneg (@nil bytes)); lia]. }
  apply Forall_cons in Hp as [Hpkg Hp]. change (mjoin ((packets, answers) :: batches).*1) with (packets ++ mjoin batches.*1) in *.
  rewrite len_app in *. pose proof (len_nonneg (mjoin batches.*1)). cbn [sendBatches sendBatch fst] in *.
  pose proof (publish_loop_records packets answers seq Hpkg Hpos ltac:(lia)) as H1.
  destruct (publish_loop _ _ _) as [[[rs ps] ms] s1]. destruct H1 as (Hr & Hn & Hs & H1 & H2).
  specialize (IH s1 Hp ltac:(lia) ltac:(lia)). destruct (sendBatches batches s1) as [[[rs' ps'] ms'] s2].
  destruct IH as (Hr' & Hn' & Hs' & H1' & H2'). rewrite !total_app. split_and!; [|by apply (numbered_app seq s1 s2); [lia|..]|lia..].
  apply recorded_app; (eapply recorded_mono; [|eassumption]); [apply list_subseteq_app_l|apply list_subseteq_app_r]; done.
Qed.

Lemma size_of_taken ps n pkg : NoDup ps.*1 -> (n, pkg) ∈ ps -> size_of ps n = len pkg.
Proof. intros Hn Hin. unfold size_of. by rewrite (elem_of_list_to_map_1 ps n pkg) by done. Qed.

(** A confirmation cannot come between a record and its undoing. *)
Lemma undone_open t open l rs : t ∉ open -> orderly open l -> records l = mkPub t 0 :: rs -> False.
Proof.
  revert open; induction l as [|e l IH]; intros open Hn Ho Hr; [done|].
  destruct e as [|pb|tag ack| | |rc q]; cbn [orderly records] in *; try by eapply IH.
  - injection Hr as -> _. cbn [p_size seqNo] in Ho. by destruct Ho.
  - eapply (IH (open ∖ {[tag]})); [set_solver|apply Ho|done].
Qed.

(** [pend] is the number of a message that was not taken and is still recorded. *)
Lemma monitor_bytes ps l m m' pend rs open :
  NoDup ps.*1 -> recorded ps rs -> records l = match pend with Some t => [mkPub t 0] | None => [] end ++ rs ->
  orderly open l -> (forall t, pend = Some t -> t ∈ open) ->
  (forall tag, tag ∈ open -> pend <> Some tag -> publishedMp m !! tag = Some (size_of ps tag)) ->
  monitor_run m l = Some m' ->
  total ItemAMQP091ToBusinessSucceedByte (m_marks m') =
  total ItemAMQP091ToBusinessSucceedByte (m_marks m) + sizes ps (acked_tags l).
Proof.
  intros Hnd. revert m pend rs open; induction l as [|e l IH]; intros m pend rs open Hrec Hr Ho Hpend Hm Hrun; cbn [monitor_run] in Hrun.
  { simplify_eq. cbn. lia. }
  destruct (monitor_step m e) as [m1|] eqn:Es; [|done].
  assert (forall m2, monitor_run m2 l = Some m' -> publishedMp m2 = publishedMp m -> total ItemAMQP091ToBusinessSucceedByte (m_marks m2) =
    total ItemAMQP091ToBusinessSucceedByte (m_marks m) -> records l = match pend with Some t => [mkPub t 0] | None => [] end ++ rs ->
    orderly open l -> total ItemAMQP091ToBusinessSucceedByte (m_marks m') =
    total ItemAMQP091ToBusinessSucceedByte (m_marks m) + sizes ps (acked_tags l)) as Hsame.
  { intros m2 Hrun2 E1 E2 Hr2 Ho2. rewrite <- E2. eapply (IH m2); try done. by rewrite E1. }
  assert (total ItemAMQP091ToBusinessSucceedByte (m_marks (finish m)) = total ItemAMQP091ToBusinessSucceedByte (m_marks m)) as Hfin.
  { unfold finish. cbn [m_marks]. rewrite total_app. destruct (_ <? _); totals; lia. }
  unfold monitor_step in Es. destruct e as [|pb|tag ack| | |rc q]; cbn [orderly records acked_tags omap list_omap] in *.
  - destruct (m_phase m); simplify_eq; by apply (Hsame _ Hrun).
  - assert (m1 = on_published pb m) as -> by (destruct (m_phase m); by simplify_eq). clear Es Hsame.
    change (m_marks m) with (m_marks (on_published pb m)). destruct pend as [t|]; cbn [app] in Hr.
    + injection Hr as -> Hr. cbn [p_size seqNo] in Ho. destruct Ho as [Hin Ho].
      eapply (IH _ None rs); [done|done|exact Ho|done| |done]. intros tag Htag _. unfold on_published. cbn.
      apply elem_of_difference in Htag as [Htag Hne]. rewrite lookup_delete_ne by set_solver. apply Hm; [done|]. set_solver.
    + destruct Hrec as [|n pkg rs Hin Hpos Hrec|n k rs Hpos Hrec]; [done|..]; injection Hr as -> Hr; cbn [p_size seqNo] in Ho;
        pose proof Hpos as Hlt; apply Z.ltb_lt in Hlt; rewrite Hlt in Ho; destruct Ho as [Hnin Ho].
      * eapply (IH _ None rs); [done|done|exact Ho|done| |done]. intros tag Htag _. unfold on_published. cbn [p_size seqNo publishedMp].
        rewrite Hlt. destruct (decide (tag = n)) as [->|Hne]; [by rewrite lookup_insert_eq, (size_of_taken ps n pkg)|].
        rewrite lookup_insert_ne by done. apply Hm; [set_solver|done].
      * eapply (IH _ (Some n) rs); [done|exact Hr|exact Ho| | |done]; [intros ? [= <-]; set_solver|].
        intros tag Htag Hne. unfold on_published. cbn [p_size seqNo publishedMp]. rewrite Hlt.
        rewrite lookup_insert_ne by congruence. apply Hm; [set_solver|done].
  - assert (m1 = on_confirm tag ack m) as -> by (destruct (m_phase m); by simplify_eq). clear Es Hsame. destruct Ho as [Hin Ho].
    assert (pend <> Some tag) as Hne.
    { intros ->. cbn [app] in Hr. eapply (undone_open tag (open ∖ {[tag]})); [set_solver|exact Ho|exact Hr]. }
    rewrite (IH (on_confirm tag ack m) pend rs (open ∖ {[tag]})); [|done|done|done| | |done].
    + unfold on_confirm. cbn [m_marks]. rewrite total_app, (Hm tag Hin Hne).
      destruct ack; cbn [from_option default Datatypes.id]; totals; fold (acked_tags l); unfold sizes; cbn [foldr Datatypes.id]; unfold Datatypes.id; lia.
    + intros t Ht. specialize (Hpend t Ht). set_solver.
    + intros t Ht Hpt. unfold on_confirm. cbn [publishedMp]. rewrite lookup_delete_ne by set_solver. apply Hm; [set_solver|done].
  - destruct (m_phase m); simplify_eq; by apply (Hsame _ Hrun).
  - destruct (m_phase m); simplify_eq; by apply (Hsame _ Hrun).
  - destruct (m_phase m); simplify_eq. destruct (_ && _); by apply (Hsame _ Hrun).
Qed.

(** Each positive confirmation is a success, and nothing else is. *)
Lemma monitor_succeeded l m m' :
  monitor_run m l = Some m' ->
  total ItemAMQP091ToBusinessSucceedCount (m_marks m') = total ItemAMQP091ToBusinessSucceedCount (m_marks m) + len (acked_tags l).
Proof.
  revert m; induction l as [|e l IH]; intros m Hrun; cbn [monitor_run] in Hrun.
  { simplify_eq. cbn. unfold len. cbn. lia. }
  destruct (monitor_step m e) as [m1|] eqn:Es; [|done]. rewrite (IH m1 Hrun). unfold monitor_step in Es.
  assert (total ItemAMQP091ToBusinessSucceedCount (m_marks (finish m)) = total ItemAMQP091ToBusinessSucceedCount (m_marks m)) as Hfin.
  { unfold finish. cbn [m_marks]. rewrite total_app. destruct (_ <? _); totals; lia. }
  destruct e as [|pb|tag ack| | |rc q]; cbn [acked_tags omap list_omap].
  3: { assert (m1 = on_confirm tag ack m) as -> by (destruct (m_phase m); by simplify_eq). unfold on_confirm. cbn [m_marks].
       rewrite total_app. destruct ack; totals; [rewrite len_cons|]; fold (acked_tags l); lia. }
  all: destruct (m_phase m); simplify_eq; try (destruct (_ && _)); fold (acked_tags l); cbn [m_marks in_phase on_published]; lia.
Qed.

(** C21: The life of a channel, from its first batch to the end of the goroutine that
    watches it. Whatever it receives in whatever order, the messages counted as succeeded
    are those that the broker has confirmed. If it has received all the records before it
    ends, in the order in which the batches put them, and every confirmation after the
    record of its number (neither is so of every run: [confirmed_too_early],
    [ended_too_early]), then with the marks of the batches each packet that was to be sent
    is counted once: the bytes are those of the messages that the library took under the
    confirmed numbers, and all packets that were not confirmed count as failed, whether
    they were refused, never published, or lost when the connection broke or the program
    ended. *)
Theorem amqp_confirmed batches seq events m :
  Forall (fun x => Forall (fun b => 0 < len b) x.1) batches -> 0 <= seq -> seq + len (mjoin batches.*1) < 2 ^ 64 ->
  monitor_run new_monitor events = Some m ->
  let '(rs, ps, ms, _) := sendBatches batches seq in
  let all := ms ++ m_marks m in
  total ItemAMQP091ToBusinessSucceedCount all = len (acked_tags events) /\
  (records events = rs -> orderly ∅ events -> m_phase m = Ended ->
     total ItemAMQP091ToBusinessSucceedByte all = sizes ps (acked_tags events) /\
     total ItemAMQP091ToBusinessFailedCount all = len (mjoin batches.*1) - len (acked_tags events)).
Proof.
  intros Hb Hpos Hbound Hm. pose proof (sendBatches_spec batches seq Hb) as Hsp. pose proof (sendBatches_records batches seq Hb Hpos Hbound) as Hre.
  destruct (sendBatches batches seq) as [[[rs ps] ms] s']. destruct Hsp as [Hn Hc]. destruct Hre as (Hr & [Hnd _] & _ & E1 & E2).
  pose proof (monitor_succeeded _ _ _ Hm) as Hs. cbv zeta. rewrite !total_app, E1, E2, Hs. split; [done|].
  intros <- Ho He. rewrite (monitor_bytes ps events new_monitor m None _ ∅ Hnd Hr eq_refl Ho) by done.
  split; [done|]. destruct (monitor_run_kept _ _ _ _ _ new_kept Ho Hm) as [open Hk].
  pose proof (k_end _ _ _ Hk He) as Hend. unfold counted in *. change (total _ (m_marks new_monitor)) with 0 in Hs. lia.
Qed.

(** A broker that takes two messages, refuses one, confirms one, and goes away. *)
Definition demo_events : list mevent :=
  [Published (mkPub 1 5); Published (mkPub 2 5); Published (mkPub 2 0); Published (mkPub 2 6); Confirm 1 true;
   ErrClosed; Delay 0 0; ConfirmClosed].

Lemma amqp_confirmed_witness :
  exists m, monitor_run new_monitor demo_events = Some m /\
    total ItemAMQP091ToBusinessSucceedCount ([(ItemAMQP091ToBusinessFailedCount, 1)] ++ m_marks m) = 1 /\
    total ItemAMQP091ToBusinessSucceedByte ([(ItemAMQP091ToBusinessFailedCount, 1)] ++ m_marks m) = 5 /\
    total ItemAMQP091ToBusinessFailedCount ([(ItemAMQP091ToBusinessFailedCount, 1)] ++ m_marks m) = 2.
Proof.
  eexists. split; [vm_compute; reflexivity|].
  match goal with |- total _ (_ ++ m_marks ?x) = _ /\ _ =>
    destruct (amqp_confirmed [([demo_msg 1; demo_msg 2], [Accepted; Failed]); ([[0; 0; 0; 3; 7; 7]], [])] 1 demo_events x) as [H1 H2] end.
  - repeat constructor.
  - discriminate.
  - vm_compute. reflexivity.
  - vm_compute. reflexivity.
  - destruct H2 as [H2 H3].
    + reflexivity.
    + split; [set_solver|]. split; [set_solver|]. split; [set_solver|]. split; [set_solver|]. split; [set_solver|done].
    + reflexivity.
    + split; [exact H1|]. split; [exact H2|exact H3].
Defined.

(** Without the order: the confirmation may be received before the record of its
    number, since [select] takes any channel that is ready. The message counts as
    succeeded with no bytes, and as failed at the end. *)
Example confirmed_too_early :
  (fun m => counted (m_marks m)) <$>
    monitor_run new_monitor [Confirm 1 true; Published (mkPub 1 5); ErrClosed; Delay 0 0; ConfirmClosed] = Some 2.
Proof. reflexivity. Qed.

(** And without all the records: after the end was announced [select] may take that and
    leave the record of a message that the broker has taken in [publishedCh]; the message
    is not counted at all. *)
Example ended_too_early :
  (fun m => (m_phase m, counted (m_marks m))) <$> monitor_run new_monitor [ErrClosed; Quit] = Some (Ended, 0).
Proof. reflexivity. Qed.
End AmqpAccounts.
