(* ===== verification/Net.v ===== *)
(** What the configuration uses of package net, and src/internal/utils/utils.go on
    top of it: host and port, IP addresses, names; and an instance with addresses as text. *)

From S2P Require Export Prelude.

Module Net.

(** ** SplitHostPort and JoinHostPort *)

Abbreviation chars := (list ascii).

Definition colon : ascii := ":"%char.
Definition lbracket : ascii := "["%char.
Definition rbracket : ascii := "]"%char.

(** The index of the first and of the last occurrence. *)
Fixpoint index (c : ascii) (s : chars) : option nat :=
  match s with
  | [] => None
  | x :: s' => if decide (x = c) then Some 0%nat else S <$> index c s'
  end.

Fixpoint last_index (c : ascii) (s : chars) : option nat :=
  match s with
  | [] => None
  | x :: s' => match last_index c s' with
               | Some i => Some (S i)
               | None => if decide (x = c) then Some 0%nat else None
               end
  end.

(** [net.SplitHostPort]; the errors are not told apart. *)
Definition split_chars (s : chars) : option (chars * chars) :=
  match last_index colon s with
  | None => None
  | Some i =>
      let found (host : chars) (j k : nat) :=
        if bool_decide (lbracket ∈ drop j s) || bool_decide (rbracket ∈ drop k s) then None
        else Some (host, drop (S i) s) in
      if bool_decide (head s = Some lbracket) then
        match index rbracket s with
        | None => None
        | Some e => if (S e =? i)%nat then found (take (e - 1) (drop 1 s)) 1%nat (S e) else None
        end
      else
        let host := take i s in
        if bool_decide (colon ∈ host) then None else found host 0%nat 0%nat
  end.

Definition SplitHostPort (hostport : string) : option (string * string) :=
  match split_chars (String.list_ascii_of_string hostport) with
  | Some (h, p) => Some (String.string_of_list_ascii h, String.string_of_list_ascii p)
  | None => None
  end.

Definition JoinHostPort (host port : string) : string :=
  if bool_decide (colon ∈ String.list_ascii_of_string host)
  then ("[" ++ host ++ "]:" ++ port)%string
  else (host ++ ":" ++ port)%string.

(** ** IP addresses: four bytes, or sixteen. *)

Definition v4InV6Prefix : bytes := [0; 0; 0; 0; 0; 0; 0; 0; 0; 0; 255; 255].

Definition To4 (ip : bytes) : option bytes :=
  if (length ip =? 4)%nat then Some ip
  else if (length ip =? 16)%nat && bool_decide (take 12 ip = v4InV6Prefix) then Some (drop 12 ip)
  else None.

Definition byte_of (ip : bytes) (i : nat) : Z := nth i ip 0.

Definition Equal (ip x : bytes) : bool :=
  if (length ip =? length x)%nat then bool_decide (ip = x)
  else if (length ip =? 4)%nat && (length x =? 16)%nat
  then bool_decide (take 12 x = v4InV6Prefix) && bool_decide (ip = drop 12 x)
  else if (length ip =? 16)%nat && (length x =? 4)%nat
  then bool_decide (take 12 ip = v4InV6Prefix) && bool_decide (drop 12 ip = x)
  else false.

Definition IPv4 (a b c d : Z) : bytes := v4InV6Prefix ++ [a; b; c; d].
Definition IPv6zero : bytes := replicate 16 0.
Definition IPv6loopback : bytes := replicate 15 0 ++ [1].

Definition IsUnspecified (ip : bytes) : bool := Equal ip (IPv4 0 0 0 0) || Equal ip IPv6zero.
Definition IsLoopback (ip : bytes) : bool :=
  match To4 ip with Some ip4 => byte_of ip4 0 =? 127 | None => Equal ip IPv6loopback end.
Definition IsMulticast (ip : bytes) : bool :=
  match To4 ip with
  | Some ip4 => Z.land (byte_of ip4 0) 240 =? 224
  | None => (length ip =? 16)%nat && (byte_of ip 0 =? 255)
  end.
Definition IsLinkLocalUnicast (ip : bytes) : bool :=
  match To4 ip with
  | Some ip4 => (byte_of ip4 0 =? 169) && (byte_of ip4 1 =? 254)
  | None => (length ip =? 16)%nat && (byte_of ip 0 =? 254) && (Z.land (byte_of ip 1) 192 =? 128)
  end.
Definition IsGlobalUnicast (ip : bytes) : bool :=
  ((length ip =? 4)%nat || (length ip =? 16)%nat) && negb (Equal ip (IPv4 255 255 255 255)) &&
  negb (IsUnspecified ip) && negb (IsLoopback ip) && negb (IsMulticast ip) && negb (IsLinkLocalUnicast ip).

(** ** utils.go

    The resolver, the interfaces of the machine and the text form of an address. *)
Class Network : Type := {
  ParseIP : string -> option bytes;
  IP_String : bytes -> string;
  LookupHost : string -> option (list string);
  InterfaceAddrs : option (list (option bytes));   (* None: not an IPNet *)
}.

Section Utils.
Context `{Network}.

(** [ip.To4().String()]: the text of no address is "<nil>". *)
Definition To4_String (ip : bytes) : string :=
  match To4 ip with Some ip4 => IP_String ip4 | None => "<nil>" end.

Definition IsValidIPv4 (ip : string) : bool :=
  match ParseIP ip with Some parsed => bool_decide (is_Some (To4 parsed)) | None => false end.

(** The addresses of a name: the last global one, the last loopback one, whether
    one is unspecified; each starts as the name itself. *)
Definition host_step (found : string * string * string) (addr : string) : string * string * string :=
  let '(global, loopBack, unspecified) := found in
  match ParseIP addr with
  | None => found
  | Some ip =>
      (if IsGlobalUnicast ip then To4_String ip else global,
       if IsLoopback ip then To4_String ip else loopBack,
       if IsUnspecified ip then "127.0.0.1"%string else unspecified)
  end.

Definition GetHostByName (name : string) : string :=
  match LookupHost name with
  | None => name
  | Some addrList =>
      let '(global, loopBack, unspecified) := foldl host_step (name, name, name) addrList in
      if bool_decide (global <> name) then global
      else if bool_decide (loopBack <> name) then loopBack
      else unspecified
  end.

(** The first address that is neither loopback nor link-local and has four bytes. *)
Fixpoint first_local (addrs : list (option bytes)) : string :=
  match addrs with
  | [] => EmptyString
  | None :: rest => first_local rest
  | Some ip :: rest =>
      if IsLoopback ip || IsLinkLocalUnicast ip then first_local rest
      else match To4 ip with Some ip4 => IP_String ip4 | None => first_local rest end
  end.

Definition GetLocalIPAddress : string :=
  match InterfaceAddrs with None => EmptyString | Some addrs => first_local addrs end.

End Utils.

(** ** What they promise *)

Lemma index_first (c : ascii) s k : c ∉ s -> index c (s ++ c :: k) = Some (length s).
Proof.
  induction s as [|x s IH]; intros Hs; cbn.
  - by rewrite decide_True.
  - apply not_elem_of_cons in Hs as [Hx Hs]. rewrite decide_False by done. by rewrite IH.
Qed.

Lemma last_index_none (c : ascii) s : c ∉ s -> last_index c s = None.
Proof.
  induction s as [|x s IH]; intros Hs; cbn; [done|]. apply not_elem_of_cons in Hs as [Hx Hs].
  rewrite IH by done. by rewrite decide_False.
Qed.

Lemma last_index_last (c : ascii) s k : c ∉ k -> last_index c (s ++ c :: k) = Some (length s).
Proof.
  intros Hk. induction s as [|x s IH]; cbn; [by rewrite last_index_none, decide_True|]. by rewrite IH.
Qed.

Definition plain (s : string) : Prop :=
  let l := String.list_ascii_of_string s in (lbracket ∉ l) /\ (rbracket ∉ l).
Definition no_colon (s : string) : Prop := colon ∉ String.list_ascii_of_string s.

Lemma list_ascii_app (s t : string) :
  String.list_ascii_of_string (s ++ t)%string = String.list_ascii_of_string s ++ String.list_ascii_of_string t.
Proof.
  induction s as [|c s IH]; [done|]. change (String.String c s ++ t)%string with (String.String c (s ++ t)%string).
  cbn [String.list_ascii_of_string app]. by rewrite IH.
Qed.

(** What is joined is split into the same parts. *)
Lemma split_brackets h p :
  lbracket ∉ h -> rbracket ∉ h -> lbracket ∉ p -> rbracket ∉ p -> colon ∉ p ->
  split_chars (lbracket :: h ++ rbracket :: colon :: p) = Some (h, p).
Proof.
  intros Hh1 Hh2 Hp1 Hp2 Hp3. set (s := lbracket :: h ++ rbracket :: colon :: p). set (n := length h).
  assert (forall k, drop (S (n + k)) s = drop k (rbracket :: colon :: p)) as Hdrop.
  { intros k. unfold s, n. cbn [drop]. apply drop_app_add. }
  assert (last_index colon s = Some (S (S n))) as Hl.
  { assert (s = (lbracket :: h ++ [rbracket]) ++ colon :: p) as -> by (unfold s; cbn; by rewrite <- app_assoc).
    rewrite last_index_last by done. cbn. rewrite length_app. cbn. f_equal. lia. }
  assert (index rbracket s = Some (S n)) as Hi.
  { change s with ((lbracket :: h) ++ rbracket :: colon :: p). apply index_first. by apply not_elem_of_cons. }
  unfold split_chars. rewrite Hl, Hi, Nat.eqb_refl, bool_decide_eq_true_2 by done.
  assert (drop (S (S n)) s = colon :: p) as Hk by (pose proof (Hdrop 1%nat) as E; by rewrite Nat.add_1_r in E).
  assert (drop (S (S (S n))) s = p) as Hp.
  { pose proof (Hdrop 2%nat) as E. by replace (S (n + 2)) with (S (S (S n))) in E by lia. }
  rewrite Hk, Hp. rewrite (bool_decide_eq_false_2 (lbracket ∈ _)) by (unfold s; cbn; set_solver).
  rewrite (bool_decide_eq_false_2 (rbracket ∈ _)) by set_solver.
  cbn [orb]. replace (S n - 1)%nat with n by lia. do 2 f_equal. apply take_app_length.
Qed.

Lemma split_plain h p :
  lbracket ∉ h -> rbracket ∉ h -> colon ∉ h -> lbracket ∉ p -> rbracket ∉ p -> colon ∉ p ->
  split_chars (h ++ colon :: p) = Some (h, p).
Proof.
  intros Hh1 Hh2 Hh3 Hp1 Hp2 Hp3. unfold split_chars. rewrite last_index_last by done.
  assert (head (h ++ colon :: p) <> Some lbracket) as Hhd by (destruct h as [|c h']; cbn; [done|set_solver]).
  rewrite (bool_decide_eq_false_2 (head _ = _)), take_app_length, (bool_decide_eq_false_2 (colon ∈ h)) by done.
  rewrite !drop_0, !bool_decide_eq_false_2 by set_solver. cbn [orb].
  assert (drop (S (length h)) (h ++ colon :: p) = p) as Hp.
  { replace (S (length h)) with (length h + 1)%nat by lia. by rewrite drop_app_add. }
  by rewrite Hp.
Qed.

Lemma split_join host port :
  plain host -> plain port -> no_colon port -> SplitHostPort (JoinHostPort host port) = Some (host, port).
Proof.
  intros [Hh1 Hh2] [Hp1 Hp2] Hp3. unfold SplitHostPort, JoinHostPort, no_colon in *.
  case_bool_decide as Hc; rewrite !list_ascii_app; cbn [String.list_ascii_of_string app].
  - rewrite split_brackets by done. by rewrite !String.string_of_list_ascii_of_string.
  - rewrite split_plain by done. by rewrite !String.string_of_list_ascii_of_string.
Qed.

Lemma To4_String_cases `{Network} ip : To4_String ip = "<nil>"%string \/ exists ip4, To4 ip = Some ip4 /\ To4_String ip = IP_String ip4.
Proof. unfold To4_String. destruct (To4 ip) as [ip4|]; eauto. Qed.

(** What a name is resolved to: an IPv4 address of it, the name itself, or the text
    of no address. *)
Definition resolved `{Network} (name s : string) : Prop :=
  s = name \/ s = "<nil>"%string \/ s = "127.0.0.1"%string \/
  exists a ip ip4, ParseIP a = Some ip /\ To4 ip = Some ip4 /\ s = IP_String ip4.

Lemma host_step_resolved `{Network} name f addr :
  (resolved name f.1.1 /\ resolved name f.1.2 /\ resolved name f.2) ->
  resolved name (host_step f addr).1.1 /\ resolved name (host_step f addr).1.2 /\ resolved name (host_step f addr).2.
Proof.
  destruct f as [[g l] u]. cbn [fst snd]. intros (Hg & Hl & Hu). unfold host_step. destruct (ParseIP addr) as [ip|] eqn:Ep; [|done].
  cbn [fst snd].
  assert (resolved name (To4_String ip)) as Ht.
  { destruct (To4_String_cases ip) as [E|(ip4 & E1 & E2)]; [by right; left|]. do 3 right. by exists addr, ip, ip4. }
  split_and!; [by destruct (IsGlobalUnicast ip)|by destruct (IsLoopback ip)|].
  destruct (IsUnspecified ip); [|done]. unfold resolved. auto.
Qed.

Lemma GetHostByName_resolved `{Network} name : resolved name (GetHostByName name).
Proof.
  unfold GetHostByName. destruct (LookupHost name) as [l|]; [|by left].
  assert (let f := foldl host_step (name, name, name) l in resolved name f.1.1 /\ resolved name f.1.2 /\ resolved name f.2) as Hf.
  { cbv zeta. apply (foldl_ind (fun f => resolved name f.1.1 /\ resolved name f.1.2 /\ resolved name f.2)).
    - cbn. unfold resolved. auto.
    - intros f a. apply host_step_resolved. }
  destruct (foldl _ _ _) as [[g lo] u]. cbn in Hf. case_bool_decide; [tauto|]. case_bool_decide; tauto.
Qed.

Lemma first_local_cases `{Network} l :
  first_local l = EmptyString \/ exists ip ip4, Some ip ∈ l /\ To4 ip = Some ip4 /\ first_local l = IP_String ip4.
Proof.
  assert (forall x k, first_local k = EmptyString \/ (exists ip ip4, Some ip ∈ k /\ To4 ip = Some ip4 /\ first_local k = IP_String ip4) ->
    first_local k = EmptyString \/ (exists ip ip4, Some ip ∈ x :: k /\ To4 ip = Some ip4 /\ first_local k = IP_String ip4)) as Hk.
  { intros x k [?|(ip & ip4 & Hin & ?)]; [by left|right]. exists ip, ip4. by split; [right|]. }
  induction l as [|[ip|] l IH]; cbn; [by left| |by apply Hk].
  destruct (_ || _); [by apply Hk|]. destruct (To4 ip) as [ip4|] eqn:E; [|by apply Hk]. right. exists ip, ip4. by split; [left|].
Qed.

Lemma To4_bytes ip ip4 : To4 ip = Some ip4 -> wf_bytes ip -> length ip4 = 4%nat /\ wf_bytes ip4.
Proof.
  unfold To4. destruct (Nat.eqb_spec (length ip) 4); [by intros [= <-]|].
  destruct (Nat.eqb_spec (length ip) 16) as [Hl|]; [|done]. cbn [andb]. case_bool_decide; [|done]. intros [= <-] Hw.
  rewrite length_drop, Hl. split; [done|by apply Forall_drop].
Qed.
(** What the program relies on of package net: addresses are made of bytes, [ParseIP]
    gives sixteen of them, the text of a four-byte address is read back as that address,
    and "<nil>", which [String] gives for no address, is none. *)
Class IPText `{Network} : Prop := {
  ip_parsed : forall s ip, ParseIP s = Some ip -> wf_bytes ip;
  ip_interface : forall l ip, InterfaceAddrs = Some l -> Some ip ∈ l -> wf_bytes ip;
  ip_text : forall ip4, length ip4 = 4%nat -> wf_bytes ip4 ->
    plain (IP_String ip4) /\ ParseIP (IP_String ip4) = Some (v4InV6Prefix ++ ip4);
  ip_loopback : IP_String [127; 0; 0; 1] = "127.0.0.1"%string;
  ip_length : forall s ip, ParseIP s = Some ip -> length ip = 16%nat;
  ip_nil : ParseIP "<nil>" = None;
}.

End Net.

(** ** An instance of what the program relies on of package net: addresses as dotted
    decimals, a resolver and the interfaces of one machine. It shows that the
    assumptions of [IPText] hold of the documented text form. *)

Module NetText.
Import Net.

Definition dot : ascii := "."%char.
Definition digit (v : Z) : ascii := ascii_of_nat (48 + Z.to_nat v).
Definition digit_value (c : ascii) : Z := Z.of_nat (nat_of_ascii c) - 48.

Definition dec (b : Z) : chars :=
  if b <? 10 then [digit b]
  else if b <? 100 then [digit (b / 10); digit (b mod 10)]
  else [digit (b / 100); digit (b / 10 mod 10); digit (b mod 10)].

(** A decimal octet; one with a leading zero is refused. *)
Definition octet (s : chars) : option Z :=
  let v := foldl (fun a c => a * 10 + digit_value c) 0 s in
  if (0 <=? v) && (v <? 256) && bool_decide (s = dec v) then Some v else None.

Fixpoint split_dots (s : chars) : list chars :=
  match s with
  | [] => [[]]
  | c :: s' => match split_dots s' with
               | [] => [[c]]
               | w :: ws => if decide (c = dot) then [] :: w :: ws else (c :: w) :: ws
               end
  end.

Fixpoint join_dots (ws : list chars) : chars :=
  match ws with [] => [] | [w] => w | w :: ws' => w ++ dot :: join_dots ws' end.

Definition parse (s : string) : option bytes :=
  match split_dots (String.list_ascii_of_string s) with
  | [a; b; c; d] =>
      match octet a, octet b, octet c, octet d with
      | Some a, Some b, Some c, Some d => Some (v4InV6Prefix ++ [a; b; c; d])
      | _, _, _, _ => None
      end
  | _ => None
  end.

Definition text (ip : bytes) : string := String.string_of_list_ascii (join_dots (dec <$> ip)).

#[export] Instance machine : Network := {
  ParseIP := parse;
  IP_String := text;
  LookupHost := fun name =>
    if String.eqb name "netsvr" then Some ["127.0.0.1"; "10.0.0.7"]%string
    else if String.eqb name "localhost" then Some ["127.0.0.1"]%string else None;
  InterfaceAddrs := Some [None; Some [127; 0; 0; 1]; Some (v4InV6Prefix ++ [192; 168; 1; 5])];
}.

(** What holds of every octet, by going through all of them. *)
Definition good_octet (b : Z) : bool :=
  bool_decide (octet (dec b) = Some b) && forallb (fun c => negb (bool_decide (c ∈ [dot; lbracket; rbracket]))) (dec b).

Lemma octets_good : forallb good_octet (seqZ 0 256) = true.
Proof. vm_compute. reflexivity. Qed.

Lemma dec_good b : is_byte b -> octet (dec b) = Some b /\ (forall c, c ∈ [dot; lbracket; rbracket] -> c ∉ dec b).
Proof.
  intros Hb. pose proof octets_good as H. rewrite forallb_forall in H. specialize (H b).
  apply andb_true_iff in H as [H1%bool_decide_eq_true H2]; [|by apply list_elem_of_In, elem_of_seqZ].
  split; [done|]. intros c Hc Hin. rewrite forallb_forall in H2. specialize (H2 c). rewrite <- list_elem_of_In in H2.
  apply negb_true_iff, bool_decide_eq_false in H2; done.
Qed.

Lemma split_plain_word w : dot ∉ w -> split_dots w = [w].
Proof.
  induction w as [|c w IH]; [done|]. intros [Hc Hw]%not_elem_of_cons. cbn. rewrite IH by done. by rewrite decide_False.
Qed.

Lemma split_word w s : dot ∉ w -> split_dots (w ++ dot :: s) = w :: split_dots s.
Proof.
  assert (forall k, split_dots k <> []) as Hne.
  { intros [|c k]; cbn; [done|]. destruct (split_dots k); [done|]. by destruct (decide _). }
  induction w as [|c w IH]; cbn.
  - destruct (split_dots s) eqn:E; [by apply Hne in E|]. by rewrite decide_True.
  - intros [Hc Hw]%not_elem_of_cons. rewrite IH by done. by rewrite decide_False.
Qed.

Lemma split_join_dots ws : ws <> [] -> (forall w, w ∈ ws -> dot ∉ w) -> split_dots (join_dots ws) = ws.
Proof.
  induction ws as [|w ws IH]; [done|]. intros _ Hd. destruct ws as [|w' ws].
  - apply split_plain_word, Hd. by left.
  - change (join_dots (w :: w' :: ws)) with (w ++ dot :: join_dots (w' :: ws)). rewrite split_word by (apply Hd; by left).
    f_equal. apply IH; [done|]. intros x Hx. apply Hd. by right.
Qed.

Lemma elem_of_join_dots c ws : c ∈ join_dots ws -> c = dot \/ exists w, w ∈ ws /\ c ∈ w.
Proof.
  induction ws as [|w ws IH]; cbn; [by intros []%elem_of_nil|]. destruct ws as [|w' ws].
  - intros Hc. right. exists w. by split; [left|].
  - intros [Hc|[->|Hc]%elem_of_cons]%elem_of_app; [|by left|].
    + right. exists w. by split; [left|].
    + destruct (IH Hc) as [->|(x & Hx & Hc')]; [by left|]. right. exists x. by split; [right|].
Qed.

Lemma octet_byte s v : octet s = Some v -> is_byte v.
Proof.
  unfold octet. destruct (_ && _) eqn:E; [|done]. intros [= <-]. apply andb_true_iff in E as [[?%Z.leb_le ?%Z.ltb_lt]%andb_true_iff _].
  unfold is_byte. lia.
Qed.

Lemma wf_prefix ip : wf_bytes ip -> wf_bytes (v4InV6Prefix ++ ip).
Proof. intros H. apply Forall_app. by split; [apply all_bytes_wf|]. Qed.

#[export] Instance machine_text : IPText.
Proof.
  split.
  - intros s ip. cbn. unfold parse. destruct (split_dots _) as [|a [|b [|c [|d [|]]]]]; try done.
    destruct (octet a) eqn:Ea, (octet b) eqn:Eb, (octet c) eqn:Ec, (octet d) eqn:Ed; try done. intros [= <-].
    apply wf_prefix. repeat constructor; (eapply octet_byte; eassumption).
  - intros l ip [= <-]. rewrite !elem_of_cons, elem_of_nil. intros [|[[= ->]|[[= ->]|[]]]]; [done|by apply all_bytes_wf..].
  - intros ip4 Hl Hw. destruct ip4 as [|a [|b [|c [|d [|]]]]]; try done. cbn [IP_String ParseIP machine].
    assert (forall w, w ∈ dec <$> [a; b; c; d] -> forall x, x ∈ [dot; lbracket; rbracket] -> x ∉ w) as Hd.
    { intros w (y & -> & Hy)%list_elem_of_fmap. apply dec_good. unfold wf_bytes in Hw. rewrite Forall_forall in Hw. by apply Hw. }
    unfold wf_bytes in Hw. rewrite !Forall_cons in Hw. destruct Hw as (Ha & Hb & Hc & Hdd & _). split.
    + unfold plain, text. rewrite String.list_ascii_of_string_of_list_ascii.
      split; intros [|(w & Hw' & Hc')]%elem_of_join_dots; try done; (eapply Hd; [exact Hw'| |exact Hc']); set_solver.
    + unfold parse, text. rewrite String.list_ascii_of_string_of_list_ascii, split_join_dots; [|done|].
      2: { intros w Hw'. apply (Hd w Hw'). set_solver. }
      cbn [fmap list_fmap]. by rewrite !(fun x H => proj1 (dec_good x H)) by done.
  - reflexivity.
  - intros s ip. cbn. unfold parse. destruct (split_dots _) as [|a [|b [|c [|d [|]]]]]; try done.
    destruct (octet a), (octet b), (octet c), (octet d); try done. by intros [= <-].
  - reflexivity.
Qed.
End NetText.
