(* ===== verification/Config.v ===== *)
(** src/configs/config.go: the settings, their checks and defaults. *)

From S2P Require Export Net Customer.

Module Config.
Import Net.

(** ** The settings

    A pointer field is an option. The pointer [DB] of a Redis queue has an identity
    of its own, because the name of a queue is made from it: it is a location and a
    value. *)

Record RedisQueue := mkRedisQueue {
  r_Address : string;
  r_Password : option string;
  r_DB : option (nat * Z);
  r_Key : string;
  r_KeyType : string;
}.

Record AMQP091Queue := mkAMQPQueue {
  a_Address : string;
  a_Username : string;
  a_Password : string;
  a_VHost : option string;
  a_Exchange : string;
  a_ExchangeType : string;
  a_Queue : option string;
  a_RoutingKey : option string;
  a_Durable : option bool;
  a_AutoDelete : option bool;
}.

Record CustomerConfig := mkCustomer {
  Multicore : Z;
  c_ListenAddress : string;
  HandlePattern : string;
  AllowOrigin : list string;
  MaxOnlineNum : Z;
  HeartbeatInterval : Z;                (* time.Duration *)
  HeartbeatIntervalSecond : Z;          (* uint32 *)
  c_ReceivePackLimit : Z;
  SendMessageType : Z;
  c_HeartbeatMessage : bytes;
  CompressionLevel : Z;
  LimitWindowSize : Z;                  (* time.Duration *)
  LimitWindowSizeSeconds : Z;           (* int64 *)
  LimitWindowMaxRequests : Z;           (* int32 *)
  LimitZeroWindowMaxRequests : Z;       (* int32 *)
}.

(** Worker and Task; the last is the capacity [SendChanCap] of the worker. *)
Record ServerConfig := mkServer {
  s_ListenAddress : string;
  ReadDeadline : Z;
  SendDeadline : Z;
  s_ReceivePackLimit : Z;               (* uint32 *)
  ReadBufferSize : Z;
  SendChanCap : Z;
  s_HeartbeatMessage : bytes;
}.

(** Three queues and what they have in common. *)
Record Queues (Q : Type) := mkQueues { common : Q; OnOpenQ : Q; OnMessageQ : Q; OnCloseQ : Q }.
Arguments mkQueues {Q}. Arguments common {Q}. Arguments OnOpenQ {Q}. Arguments OnMessageQ {Q}. Arguments OnCloseQ {Q}.

Record settings := mkSettings {
  LogLevel : string;
  LogFile : string;
  ShutdownWaitTime : Z;
  PprofListenAddress : string;
  Autobahn : bool;
  Limit_OnOpen : Z;                     (* int32 *)
  Limit_OnMessage : Z;                  (* int32 *)
  Customer : CustomerConfig;
  OnOpenApi : string;
  OnMessageApi : string;
  OnCloseApi : string;
  CallbackTimeout : Z;
  Redis : Queues RedisQueue;
  AMQP : Queues AMQP091Queue;
  Worker : ServerConfig;
  Task : ServerConfig;
  MetricsItem : list Z;
}.

(** ** The checks of [init]: a message is what the program exits with. *)

Definition result (A : Type) : Type := string + A.

Definition rbind {A B} (x : result A) (f : A -> result B) : result B :=
  match x with inl e => inl e | inr a => f a end.
Notation "'let!' x := m 'in' k" := (rbind m (fun x => k)) (at level 200, x name, k at level 200) : netsvr_scope.

Definition Second : Z := 10 ^ 9.

(** [Duration.Seconds] is a float64. A number v >= 0 stands for v / 2^90: all the numbers
    of 53 binary digits that occur are whole then. [round64 n d] is the float64 that is
    nearest to n / d, the even one of two. *)
Definition unit64 : Z := 2 ^ 90.

Definition round_even (n d : Z) : Z :=
  let q := n / d in
  let r := n mod d in
  if (2 * r <? d) || ((2 * r =? d) && Z.even q) then q else q + 1.

Definition round64 (n d : Z) : Z :=
  if n =? 0 then 0 else
  let u := 2 ^ (Z.log2 (n / d) - 52) in
  round_even n (d * u) * u.

Definition Seconds (d : Z) : Z :=
  let sec := Z.quot d Second in
  let nsec := Z.rem d Second in
  round64 (sec * unit64 + round64 (nsec * unit64) Second) 1.

(** The conversion of a float64 to an integer type: the digits before the point. *)
Definition whole (f : Z) : Z := f / unit64.

(** [strings.ToLower], of ASCII. *)
Definition ToLower (s : string) : string :=
  String.string_of_list_ascii (to_lower <$> String.list_ascii_of_string s).

Definition or_default (bad : bool) (d v : Z) : Z := if bad then d else v.
Definition or_string (d v : string) : string := if is_empty v then d else v.

Definition check_customer (c : CustomerConfig) : result CustomerConfig :=
  let multicore := or_default ((Multicore c <? 0) || (100 <? Multicore c)) 100 (Multicore c) in
  let limit := or_default (c_ReceivePackLimit c <=? 0) 2097152 (c_ReceivePackLimit c) in
  let! messageType :=
    (if SendMessageType c =? 0 then inr OpText
     else if negb (SendMessageType c =? OpText) && negb (SendMessageType c =? OpBinary)
     then inl "Config Customer.SendMessageType, must be in [1,2]"%string
     else inr (SendMessageType c)) in
  let interval := or_default (HeartbeatInterval c <=? 0) (Second * 120) (HeartbeatInterval c) in
  let pattern := or_string "/" (HandlePattern c) in
  if isNil (c_HeartbeatMessage c) then inl "Config Customer.HeartbeatMessage is required"%string else
  if (CompressionLevel c <? -2) || (9 <? CompressionLevel c) then inl "Config Customer.CompressionLevel is invalid"%string else
  let window := or_default (LimitWindowSize c <=? 0) Second (LimitWindowSize c) in
  let maxRequests := or_default (LimitWindowMaxRequests c <=? 0) 100 (LimitWindowMaxRequests c) in
  let zeroRequests := or_default (LimitZeroWindowMaxRequests c <=? 0) 1000 (LimitZeroWindowMaxRequests c) in
  inr (mkCustomer multicore (c_ListenAddress c) pattern (AllowOrigin c) (MaxOnlineNum c) interval
         (u32 (whole (Seconds interval))) limit messageType (c_HeartbeatMessage c) (CompressionLevel c)
         window (whole (Seconds window)) maxRequests zeroRequests).

(** [setRedisQueueDefaultParams]; [next] is where the next [new(int)] is. *)
Definition setRedisQueueDefaultParams (common : RedisQueue) (next : nat) (q : RedisQueue) : RedisQueue * nat :=
  let or_common {A} (v d : option A) := match v with Some _ => v | None => d end in
  let db := or_common (r_DB q) (r_DB common) in
  (mkRedisQueue (or_string (r_Address common) (r_Address q))
     (or_common (or_common (r_Password q) (r_Password common)) (Some EmptyString))
     (or_common db (Some (next, 0)))
     (or_string (r_Key common) (r_Key q)) (or_string (r_KeyType common) (r_KeyType q)),
   match db with Some _ => next | None => S next end).

(** The type of a key: whether an unknown one ends the program. *)
Definition check_KeyType (fatal : bool) (what : string) (q : RedisQueue) : result RedisQueue :=
  let set t := mkRedisQueue (r_Address q) (r_Password q) (r_DB q) (r_Key q) t in
  if is_empty (r_KeyType q) then inr (set "list"%string)
  else
    let t := ToLower (r_KeyType q) in
    if String.eqb t "list" || String.eqb t "stream" || negb fatal then inr (set t)
    else inl ("Config RedisQueue." ++ what ++ ".KeyType is invalid")%string.

Definition check_redis (next : nat) (q : Queues RedisQueue) : result (Queues RedisQueue) :=
  let '(o, next) := setRedisQueueDefaultParams (common q) next (OnOpenQ q) in
  let '(m, next) := setRedisQueueDefaultParams (common q) next (OnMessageQ q) in
  let '(c, next) := setRedisQueueDefaultParams (common q) next (OnCloseQ q) in
  let! o := check_KeyType true "OnOpen" o in
  let! c := check_KeyType true "OnClose" c in
  let! m := check_KeyType false "OnMessage" m in
  inr (mkQueues (common q) o m c).

Definition setAMQP091QueueDefaultParams (common q : AMQP091Queue) : AMQP091Queue :=
  let or_common {A} (v d : option A) (z : A) := match v, d with Some x, _ => Some x | None, Some x => Some x | None, None => Some z end in
  mkAMQPQueue (or_string (a_Address common) (a_Address q)) (or_string (a_Username common) (a_Username q))
    (or_string (a_Password common) (a_Password q))
    (match a_VHost q with
     | Some v => Some v
     | None => Some (or_string "/" (default EmptyString (a_VHost common)))
     end)
    (or_string (a_Exchange common) (a_Exchange q)) (or_string (a_ExchangeType common) (a_ExchangeType q))
    (or_common (a_Queue q) (a_Queue common) EmptyString) (or_common (a_RoutingKey q) (a_RoutingKey common) EmptyString)
    (or_common (a_Durable q) (a_Durable common) false) (or_common (a_AutoDelete q) (a_AutoDelete common) false).

Definition exchange_types : list string := ["direct"; "fanout"; "topic"; "headers"]%string.

Definition check_ExchangeType (what : string) (q : AMQP091Queue) : result AMQP091Queue :=
  let set t := mkAMQPQueue (a_Address q) (a_Username q) (a_Password q) (a_VHost q) (a_Exchange q) t (a_Queue q)
                           (a_RoutingKey q) (a_Durable q) (a_AutoDelete q) in
  if is_empty (a_ExchangeType q) then inr (set "direct"%string)
  else
    let t := ToLower (a_ExchangeType q) in
    if bool_decide (t ∈ exchange_types) then inr (set t)
    else inl ("Config AMQP091Queue." ++ what ++ ".ExchangeType is invalid")%string.

(** A section without a VHost takes the pointer of the common one, and writes the
    default through it. *)
Definition write_VHost (sections : list AMQP091Queue) (common : AMQP091Queue) : AMQP091Queue :=
  if existsb (fun q => bool_decide (a_VHost q = None)) sections && bool_decide (a_VHost common = Some EmptyString)
  then mkAMQPQueue (a_Address common) (a_Username common) (a_Password common) (Some "/"%string) (a_Exchange common)
         (a_ExchangeType common) (a_Queue common) (a_RoutingKey common) (a_Durable common) (a_AutoDelete common)
  else common.

Definition check_amqp (q : Queues AMQP091Queue) : result (Queues AMQP091Queue) :=
  let set := setAMQP091QueueDefaultParams (common q) in
  let! o := check_ExchangeType "OnOpen" (set (OnOpenQ q)) in
  let! m := check_ExchangeType "OnMessage" (set (OnMessageQ q)) in
  let! c := check_ExchangeType "OnClose" (set (OnCloseQ q)) in
  inr (mkQueues (write_VHost [OnOpenQ q; OnMessageQ q; OnCloseQ q] (common q)) o m c).

Section Init.
Context `{Network}.

(** A listen address: the host is an IPv4 address or is turned into one. *)
Definition check_listen (what address : string) : result string :=
  match SplitHostPort address with
  | None => inl ("Config " ++ what ++ ".ListenAddress, split failed")%string
  | Some (host, port) =>
      if negb (IsValidIPv4 host) then
        let ipv4 := GetHostByName host in
        if String.eqb ipv4 host then inl ("Config " ++ what ++ ".ListenAddress, convert " ++ host ++ " to ipv4 failed")%string
        else inr (JoinHostPort ipv4 port)
      else if String.eqb host "0.0.0.0" then
        let ipv4 := GetLocalIPAddress in
        if is_empty ipv4 then inl ("Config " ++ what ++ ".ListenAddress, Not allowed to configure 0.0.0.0")%string
        else inr (JoinHostPort ipv4 port)
      else inr address
  end.

(** The worker server, which need not be there; no [SendChanCap] is below 1. *)
Definition check_worker (s : ServerConfig) : result ServerConfig :=
  let read := or_default (ReadDeadline s <=? 0) (Second * 120) (ReadDeadline s) in
  let send := or_default (SendDeadline s <=? 0) (Second * 10) (SendDeadline s) in
  let limit := or_default (s_ReceivePackLimit s =? 0) (1024 * 1024 * 2) (s_ReceivePackLimit s) in
  let buffer := or_default (ReadBufferSize s <=? 0) (4 * 1024) (ReadBufferSize s) in
  let chan := or_default (SendChanCap s <=? 0) 1024 (SendChanCap s) in
  let! address :=
    (if is_empty (s_ListenAddress s) then inr EmptyString
     else
       let! address := check_listen "Worker" (s_ListenAddress s) in
       if isNil (s_HeartbeatMessage s) then inl "Config Worker.HeartbeatMessage is required"%string else inr address) in
  inr (mkServer address read send limit buffer chan (s_HeartbeatMessage s)).

Definition check_task (s : ServerConfig) : result ServerConfig :=
  let read := or_default (ReadDeadline s <=? 0) (Second * 120) (ReadDeadline s) in
  let send := or_default (SendDeadline s <=? 0) (Second * 10) (SendDeadline s) in
  let limit := or_default (s_ReceivePackLimit s =? 0) (1024 * 1024 * 2) (s_ReceivePackLimit s) in
  let buffer := or_default (ReadBufferSize s <=? 0) (64 * 1024) (ReadBufferSize s) in
  let! address := check_listen "Task" (s_ListenAddress s) in
  if isNil (s_HeartbeatMessage s) then inl "Config Task.HeartbeatMessage is required"%string
  else inr (mkServer address read send limit buffer (SendChanCap s) (s_HeartbeatMessage s)).

(** [init], after the file has been decoded. *)
Definition init (next : nat) (s : settings) : result settings :=
  let! customer := check_customer (Customer s) in
  let! redis := check_redis next (Redis s) in
  let! amqp := check_amqp (AMQP s) in
  let! worker := check_worker (Worker s) in
  let! task := check_task (Task s) in
  inr (mkSettings (LogLevel s) (LogFile s) (ShutdownWaitTime s) (PprofListenAddress s) (Autobahn s)
         (Limit_OnOpen s) (Limit_OnMessage s) customer (OnOpenApi s) (OnMessageApi s) (OnCloseApi s)
         (CallbackTimeout s) redis amqp worker task (MetricsItem s)).

End Init.

(** ** The log: [None] is the panic of a name that is too short. [Join] is filepath.Join. *)

Definition GetLogFile (Join : string -> string -> string) (RootPath : string) (s : settings) : option string :=
  if is_empty (LogFile s) then Some EmptyString
  else if String.prefix "/" (LogFile s) then Some (LogFile s)
  else match String.list_ascii_of_string (LogFile s) with
       | _ :: c :: _ => Some (if bool_decide (c = ":"%char) then LogFile s else Join RootPath (LogFile s))
       | _ => None
       end.

Inductive Level := DebugLevel | InfoLevel | WarnLevel | ErrorLevel.

Definition GetLogLevel (s : settings) : Level :=
  if String.eqb (LogLevel s) "debug" then DebugLevel
  else if String.eqb (LogLevel s) "info" then InfoLevel
  else if String.eqb (LogLevel s) "warn" then WarnLevel
  else ErrorLevel.

(** ** The settings as the operations read them *)

Definition to_config (s : settings) (amqpEvents redisEvents : list Z) : config :=
  mkConfig (Autobahn s) (HandlePattern (Customer s)) (AllowOrigin (Customer s)) (MaxOnlineNum (Customer s))
    (HeartbeatIntervalSecond (Customer s)) (c_ReceivePackLimit (Customer s)) (SendMessageType (Customer s))
    (c_HeartbeatMessage (Customer s)) (LimitWindowSizeSeconds (Customer s)) (LimitWindowMaxRequests (Customer s))
    (LimitZeroWindowMaxRequests (Customer s)) (OnOpenApi s) (OnMessageApi s) (OnCloseApi s)
    (s_ListenAddress (Worker s)) (s_ReceivePackLimit (Worker s)) (SendChanCap (Worker s)) (s_HeartbeatMessage (Worker s))
    (s_ReceivePackLimit (Task s)) (s_HeartbeatMessage (Task s)) amqpEvents redisEvents.

End Config.
