(* ===== verification/Logging.v ===== *)
(** The log: src/pkg/log/log.go, the writer that works in the background, and
    src/internal/log/log.go, what the server library is given. A log line is the bytes
    that zerolog makes of it; lumberjack, which writes the file, is known by the calls of
    its [Write], which returns. *)

From S2P Require Export Config.

Module Logging.
Import Config.

(** ** The writer

    [bufs] are the byte slices by address, [ch] the channel, [lj] the calls of
    [lj.Write] in order, [Wg] the counter of [quit.Wg]. *)
Inductive pc :=
  | WSelect
  | WWrite (buf : nat)                     (* received; not yet written *)
  | WRound (i : nat)                       (* stopping: [i] rounds are left *)
  | WDrain (i lastN : nat)
  | WDrainWrite (i lastN : nat) (buf : nat)
  | WSleep (i : nat)
  | WReturned.

#[export] Instance pc_eq_dec : EqDecision pc.
Proof. solve_decision. Defined.

Record logger := mkLogger {
  bufs : gmap nat bytes;
  ch : list nat;
  lj : list bytes;
  Wg : Z;
  coroutine : pc;
}.

Definition set_bufs (m : gmap nat bytes) (l : logger) : logger := mkLogger m (ch l) (lj l) (Wg l) (coroutine l).
Definition set_ch (c : list nat) (l : logger) : logger := mkLogger (bufs l) c (lj l) (Wg l) (coroutine l).
Definition set_lj (d : list bytes) (l : logger) : logger := mkLogger (bufs l) (ch l) d (Wg l) (coroutine l).
Definition add_Wg (n : Z) (l : logger) : logger := mkLogger (bufs l) (ch l) (lj l) (Wg l + n) (coroutine l).
Definition set_pc (p : pc) (l : logger) : logger := mkLogger (bufs l) (ch l) (lj l) (Wg l) p.

Definition content (l : logger) (b : nat) : bytes := default [] (bufs l !! b).

Definition chanCap : nat := 1024.

Definition NewAsyncWriter (m : gmap nat bytes) (wg : Z) : logger := add_Wg 1 (mkLogger m [] [] wg WSelect).

Definition lj_Write (buf : nat) (l : logger) : logger := set_lj (lj l ++ [content l buf]) l.

(** The goroutine of [NewAsyncWriter], step by step. [quit] is what [select] takes when
    it has the choice. *)
Definition coroutine_step (cancelled quit : bool) (l : logger) : option logger :=
  match coroutine l with
  | WSelect =>
      if quit then (if cancelled then Some (set_pc (WRound 3) l) else None)
      else match ch l with b :: c => Some (set_pc (WWrite b) (set_ch c l)) | [] => None end
  | WWrite b => Some (set_pc WSelect (lj_Write b l))
  | WRound O => Some (set_pc WReturned (add_Wg (-1) l))
  | WRound (S i) => Some (set_pc (WDrain (S i) (length (ch l))) l)
  | WDrain i O => Some (set_pc (WSleep i) l)
  | WDrain i (S n) => match ch l with b :: c => Some (set_pc (WDrainWrite i n b) (set_ch c l)) | [] => None end
  | WDrainWrite i n b => Some (set_pc (WDrain i n) (lj_Write b l))
  | WSleep i => Some (set_pc (WRound (i - 1)) l)
  | WReturned => None
  end.

(** [Write]: how much was written, and whether it is an error. *)
Definition Write (p : nat) (l : logger) : Z * bool * logger :=
  let d := content l p in
  let buf := base.fresh (dom (bufs l)) in
  let l := set_bufs (<[buf := d]> (bufs l)) l in
  if (length (ch l) <? chanCap)%nat then (len d, false, set_ch (ch l ++ [buf]) l) else (0, true, l).

(** ** [New], and who logs *)

Inductive sink := Console | File | Async.

Definition New (lvl : Level) (filename : string) (async : bool) : Level * sink :=
  (lvl, if is_empty filename then Console else if async then Async else File).

(** internal/log: the logger of the program. *)
Definition Logger (Join : string -> string -> string) (RootPath : string) (s : settings) : option (Level * sink) :=
  filename ← GetLogFile Join RootPath s;
  Some (New (GetLogLevel s) filename true).

Definition severity (l : Level) : Z :=
  match l with DebugLevel => 0 | InfoLevel => 1 | WarnLevel => 2 | ErrorLevel => 3 end.

(** Whether a message of a level is written. *)
Definition enabled (logger : Level * sink) (l : Level) : bool := severity logger.1 <=? severity l.

(** [loggingSubstitute]: the level that each method of the server library's interface
    logs at; the log of [Fatalf] ends the program. *)
Inductive method := Debugf | Infof | Warnf | Errorf | Fatalf.

Definition substitute (m : method) : option (Level + unit) :=
  match m with
  | Debugf => None
  | Infof => Some (inl InfoLevel)
  | Warnf => Some (inl WarnLevel)
  | Errorf => Some (inl ErrorLevel)
  | Fatalf => Some (inr tt)
  end.

(** ** The writer and its callers

    A caller owns the slice that it passes, and uses it again after the call.
    [accepted] are the lines of the calls that were not refused. *)
Record sys := mkSys { lg : logger; cancelled : bool; users : gset nat; accepted : list bytes }.

Inductive step : sys -> sys -> Prop :=
  | s_make s p d : p ∉ dom (bufs (lg s)) ->
      step s (mkSys (set_bufs (<[p := d]> (bufs (lg s))) (lg s)) (cancelled s) ({[p]} ∪ users s) (accepted s))
  | s_fill s p d : p ∈ users s ->
      step s (mkSys (set_bufs (<[p := d]> (bufs (lg s))) (lg s)) (cancelled s) (users s) (accepted s))
  | s_write s p n err l : p ∈ users s -> Write p (lg s) = (n, err, l) ->
      step s (mkSys l (cancelled s) (users s) (if (err : bool) then accepted s else accepted s ++ [content (lg s) p]))
  | s_cancel s : step s (mkSys (lg s) true (users s) (accepted s))
  | s_coroutine s q l : coroutine_step (cancelled s) q (lg s) = Some l ->
      step s (mkSys l (cancelled s) (users s) (accepted s)).

Definition start : sys := mkSys (NewAsyncWriter ∅ 0) false ∅ [].
Definition reachable (s : sys) : Prop := star step start s.

(** ** What holds in every state *)

(** The line in the hands of the goroutine. *)
Definition in_hand (l : logger) : list nat :=
  match coroutine l with WWrite b | WDrainWrite _ _ b => [b] | _ => [] end.

Definition waiting (l : logger) : list nat := in_hand l ++ ch l.

Definition stopping (p : pc) : bool :=
  match p with WSelect | WWrite _ => false | _ => true end.

(** What a round has still to take. *)
Definition owed (p : pc) : nat := match p with WDrain _ n | WDrainWrite _ n _ => n | _ => 0%nat end.

Definition rounds (p : pc) : nat :=
  match p with
  | WSelect | WWrite _ => 3
  | WRound i | WDrain i _ | WDrainWrite i _ _ | WSleep i => i
  | WReturned => 0
  end%nat.

(** Slices that wait belong to the writer alone. *)
Record inv (s : sys) : Prop := mkInv {
  inv_users : users s ⊆ dom (bufs (lg s));
  inv_apart : forall b, b ∈ waiting (lg s) -> b ∈ dom (bufs (lg s)) /\ b ∉ users s;
  inv_lines : lj (lg s) ++ (content (lg s) <$> waiting (lg s)) = accepted s;
  inv_room : (length (ch (lg s)) <= chanCap)%nat;
  inv_owed : (owed (coroutine (lg s)) <= length (ch (lg s)))%nat;
  inv_stop : stopping (coroutine (lg s)) = true -> cancelled s = true;
  inv_rounds : (rounds (coroutine (lg s)) <= 3)%nat;
  inv_Wg : Wg (lg s) = match coroutine (lg s) with WReturned => 0 | _ => 1 end;
}.

(** The slices change, but not those that wait. *)
Lemma content_bufs l m b : bufs l !! b = m !! b -> content (set_bufs m l) b = content l b.
Proof. unfold content. cbn. by intros ->. Qed.

Lemma contents_bufs l p d (bs : list nat) :
  p ∉ bs -> content (set_bufs (<[p := d]> (bufs l)) l) <$> bs = content l <$> bs.
Proof.
  intros Hp. apply list_fmap_ext. intros i b Hb. apply content_bufs. rewrite lookup_insert_ne; [done|].
  intros ->. apply Hp. by eapply list_elem_of_lookup_2.
Qed.

Lemma inv_bufs l c us us' acc p d :
  inv (mkSys l c us acc) -> p ∉ waiting l -> us' ⊆ {[p]} ∪ us ->
  inv (mkSys (set_bufs (<[p := d]> (bufs l)) l) c us' acc).
Proof.
  intros [] Hp Hus. split; cbn in *; try done.
  - set_solver.
  - intros b Hb. destruct (inv_apart0 b Hb) as [Hd Hn]. split; [set_solver|]. intros Hi.
    apply Hus, elem_of_union in Hi as [->%elem_of_singleton|]; done.
  - change (lj l ++ (content (set_bufs (<[p := d]> (bufs l)) l) <$> waiting l) = acc).
    by rewrite contents_bufs.
Qed.

(** A line that is accepted goes behind those that wait, in a slice of its own. *)
Lemma inv_Write s p n err l :
  inv s -> Write p (lg s) = (n, err, l) ->
  inv (mkSys l (cancelled s) (users s) (if (err : bool) then accepted s else accepted s ++ [content (lg s) p])).
Proof.
  destruct s as [g c us acc]. cbn. intros Hi. unfold Write. cbn [ch set_bufs].
  set (buf := base.fresh (dom (bufs g))). assert (buf ∉ dom (bufs g)) as Hf by apply is_fresh.
  assert (buf ∉ waiting g) as Hw by (intros Hb; by destruct (inv_apart _ Hi buf Hb)).
  pose proof (inv_bufs g c us us acc buf (content g p) Hi Hw ltac:(set_solver)) as Hb.
  pose proof (inv_users _ Hi) as Hu. cbn in Hu.
  set (g' := set_bufs _ g) in *. destruct (Nat.ltb_spec (length (ch g)) chanCap) as [Hl|Hl]; intros [= <- <- <-]; [|done].
  destruct Hb. split; cbn in *; try done.
  - intros b. unfold waiting. cbn. rewrite app_assoc, elem_of_app, list_elem_of_singleton. intros [Hin| ->].
    + by apply inv_apart0.
    + split; [set_solver|]. by intros Hin%Hu.
  - unfold waiting, in_hand. cbn. rewrite app_assoc, fmap_app, app_assoc. rewrite <- inv_lines0. f_equal.
    cbn. unfold content. cbn. by rewrite lookup_insert_eq.
  - rewrite length_app. cbn. unfold chanCap in *. lia.
  - rewrite length_app. cbn. lia.
Qed.

Lemma inv_coroutine s q l :
  inv s -> coroutine_step (cancelled s) q (lg s) = Some l -> inv (mkSys l (cancelled s) (users s) (accepted s)).
Proof.
  destruct s as [[m c d w p] k us acc]. cbn [lg cancelled users accepted].
  intros [Hus Hap Hli Hro How Hst Hrs Hw]; unfold waiting, in_hand in *; cbn in *.
  unfold coroutine_step; cbn.
  destruct p as [|b|[|i]|i [|n]|i n b|i|]; cbn in *; intros Hs; try done.
  - destruct q; [destruct k; [|done]|destruct c as [|b c]; [done|]]; simplify_eq; split; cbn in *; try done; try lia.
  - simplify_eq. split; unfold waiting; cbn in *; try done; try lia; [set_solver|by rewrite <- app_assoc].
  - simplify_eq. split; unfold waiting; cbn in *; try done; lia.
  - simplify_eq. split; unfold waiting; cbn in *; try done; lia.
  - simplify_eq. split; unfold waiting; cbn in *; try done; lia.
  - destruct c as [|b c]; [done|]. simplify_eq. split; unfold waiting; cbn in *; try done; lia.
  - simplify_eq. split; unfold waiting; cbn in *; try done; try lia; [set_solver|by rewrite <- app_assoc].
  - simplify_eq. split; unfold waiting; cbn in *; try done; lia.
Qed.

Lemma coroutine_owed c q l l' :
  (owed (coroutine l) <= length (ch l))%nat -> coroutine_step c q l = Some l' -> (owed (coroutine l') <= length (ch l'))%nat.
Proof.
  destruct l as [m k d w p]. unfold coroutine_step. cbn. intros Ho.
  destruct p as [|b|[|i]|i [|n]|i n b|i|]; cbn in *; intros Hs; try done;
    try (destruct q, c); try (destruct k as [|b k]); simplify_eq; cbn in *; lia.
Qed.

Lemma log_step_inv s s' : inv s -> step s s' -> inv s'.
Proof.
  intros Hi Hs. destruct Hs as [r p d Hp|r p d Hp|r p n err l Hp Hw|r|r q l Hq].
  - destruct r as [g c us acc]. cbn in *. apply (inv_bufs g c us); [done| |set_solver].
    intros Hw. by destruct (inv_apart _ Hi p Hw).
  - destruct r as [g c us acc]. cbn in *. apply (inv_bufs g c us); [done| |set_solver].
    intros Hw. by destruct (inv_apart _ Hi p Hw).
  - by eapply inv_Write.
  - destruct Hi. split; done.
  - by eapply inv_coroutine.
Qed.

Lemma log_reachable_inv s : reachable s -> inv s.
Proof.
  intros Hr. eapply star_invariant; [by apply log_step_inv|exact Hr|].
  split; cbn; try done; try set_solver; unfold chanCap; lia.
Qed.

(** C26: At any moment the lines that lumberjack got, the one in the hands of the
    goroutine and those in the channel are the lines that were accepted, in their order and
    as they were when [Write] was called, whatever the callers do with their slices since;
    at most 1024 wait; a line is refused only when that many do; and the goroutine is
    counted in [quit.Wg] until it returns. *)
Theorem log_in_order s :
  reachable s ->
  lj (lg s) ++ (content (lg s) <$> waiting (lg s)) = accepted s /\
  (length (ch (lg s)) <= 1024)%nat /\
  (forall p, (Write p (lg s)).1 =
     (if bool_decide (length (ch (lg s)) = 1024%nat) then (0, true) else (len (content (lg s) p), false))) /\
  Wg (lg s) = (if bool_decide (coroutine (lg s) = WReturned) then 0 else 1).
Proof.
  intros []%log_reachable_inv. split_and!; [done|done| |].
  - intros p. unfold Write. cbn. unfold chanCap in *. bool_case; done || lia.
  - rewrite inv_Wg0. by destruct (coroutine (lg s)).
Qed.

(** ** Stopping

    Runs with the number of the goroutine's own steps, and runs in which nothing new is
    logged. *)
Inductive runs : nat -> sys -> sys -> Prop :=
  | runs_nil s : runs 0 s s
  | runs_own n s q l s' :
      coroutine_step (cancelled s) q (lg s) = Some l ->
      runs n (mkSys l (cancelled s) (users s) (accepted s)) s' -> runs (S n) s s'
  | runs_other n s s1 s' : step s s1 -> coroutine (lg s1) = coroutine (lg s) -> runs n s1 s' -> runs n s s'.

Definition round_cost : nat := (2 * chanCap + 3)%nat.

(** The steps that the goroutine may still take. *)
Definition steps_left (p : pc) : nat :=
  match p with
  | WSelect | WWrite _ | WReturned => 0
  | WRound i => i * round_cost + 1
  | WDrain i n => (i - 1) * round_cost + 2 * n + 3
  | WDrainWrite i n _ => (i - 1) * round_cost + 2 * n + 4
  | WSleep i => (i - 1) * round_cost + 2
  end%nat.

Lemma coroutine_left c q l l' :
  (length (ch l) <= chanCap)%nat -> stopping (coroutine l) = true -> coroutine_step c q l = Some l' ->
  stopping (coroutine l') = true /\ (steps_left (coroutine l') < steps_left (coroutine l))%nat.
Proof.
  destruct l as [m k d w p]. unfold coroutine_step. cbn. intros Hl Hs.
  destruct p as [|b|[|i]|i [|n]|i n b|i|]; cbn; intros Hst; try done; try (destruct k as [|b k]; [done|]);
    simplify_eq; cbn; split; try done; unfold round_cost, chanCap in *; nia.
Qed.

Lemma stopping_goes_on c l :
  (owed (coroutine l) <= length (ch l))%nat -> stopping (coroutine l) = true ->
  coroutine l = WReturned \/ exists l', coroutine_step c false l = Some l'.
Proof.
  destruct l as [m k d w p]. cbn. intros Ho. unfold coroutine_step. cbn.
  destruct p as [|b|[|i]|i [|n]|i n b|i|]; cbn in *; try done; eauto.
  destruct k as [|b k]; cbn in *; [lia|eauto].
Qed.

Lemma runs_star n s s' : runs n s s' -> star step s s'.
Proof. induction 1; [constructor| |]; (eapply star_cons; [|done]); [by eapply s_coroutine|done]. Qed.

Lemma runs_bound n s s' :
  inv s -> stopping (coroutine (lg s)) = true -> runs n s s' ->
  inv s' /\ stopping (coroutine (lg s')) = true /\ (n + steps_left (coroutine (lg s')) <= steps_left (coroutine (lg s)))%nat.
Proof.
  intros Hi Hs Hr. induction Hr as [s|n s q l s' Hl Hr IH|n s s1 s' Hst Hpc Hr IH]; [by split_and!|..].
  - pose proof (inv_coroutine _ _ _ Hi Hl) as Hi1. destruct (coroutine_left _ _ _ _ (inv_room _ Hi) Hs Hl) as [Hs1 Hlt].
    destruct (IH Hi1 Hs1) as (? & ? & ?). split_and!; [done|done|]. cbn in *. lia.
  - rewrite <- Hpc in Hs |- *. apply IH; [by eapply log_step_inv|done].
Qed.

(** When nothing is logged any more, what waits at the start of a round is written in it. *)
Inductive silent : sys -> sys -> Prop :=
  | silent_own s q l :
      coroutine_step (cancelled s) q (lg s) = Some l -> silent s (mkSys l (cancelled s) (users s) (accepted s)).

Lemma silent_steps s s' : star silent s s' -> star step s s'.
Proof. induction 1 as [|a b c Hab _ IH]; [constructor|]. eapply star_cons; [|exact IH]. destruct Hab. by eapply s_coroutine. Qed.

Definition flushed (l : logger) : Prop :=
  match coroutine l with
  | WSelect | WWrite _ => True
  | WRound i | WSleep i => (i <= (match coroutine l with WRound _ => 0 | _ => 1 end))%nat -> ch l = []
  | WDrain i n | WDrainWrite i n _ => n = length (ch l)
  | WReturned => ch l = []
  end.

Lemma silent_flushed s s' : flushed (lg s) -> silent s s' -> flushed (lg s').
Proof.
  intros Hf Hs. destruct Hs as [s q l Hl]. destruct s as [[m k d w p] c us acc]. unfold flushed, coroutine_step in *. cbn in *.
  destruct p as [|b|[|i]|i [|n]|i n b|i|]; cbn in *; try done.
  - destruct q; [destruct c; [|done]|destruct k as [|b k]; [done|]]; simplify_eq; cbn; [lia|done].
  - by simplify_eq.
  - simplify_eq. cbn. by apply Hf.
  - by simplify_eq.
  - simplify_eq. cbn. by destruct k.
  - destruct k as [|b k]; [done|]. simplify_eq. cbn in *. by injection Hf.
  - by simplify_eq.
  - simplify_eq. cbn. intros Hi. apply Hf. lia.
Qed.

(** The steps that the goroutine may still take after the end was announced, when nothing
    is logged. *)
Definition silent_left (l : logger) : nat :=
  match coroutine l with
  | WSelect => 2 * length (ch l) + 3 * round_cost + 2
  | WWrite _ => 2 * length (ch l) + 3 * round_cost + 3
  | p => steps_left p
  end%nat.

Lemma silent_left_step q l l' :
  (length (ch l) <= chanCap)%nat -> coroutine_step true q l = Some l' -> (silent_left l' < silent_left l)%nat.
Proof.
  intros Hl Hs. destruct (stopping (coroutine l)) eqn:Hst.
  - destruct (coroutine_left true q l l' Hl Hst Hs) as [Hst' Hlt]. unfold silent_left.
    destruct (coroutine l), (coroutine l'); done.
  - destruct l as [m k d w p]. unfold coroutine_step in Hs. cbn in *. unfold silent_left, round_cost, chanCap in *.
    destruct p as [|b| | | | |]; try done; [destruct q; [|destruct k as [|b k]; [done|]]|]; simplify_eq; cbn in *; lia.
Qed.

Lemma announced_goes_on s :
  inv s -> cancelled s = true -> coroutine (lg s) = WReturned \/ exists s', silent s s'.
Proof.
  intros Hi Hc. destruct (stopping (coroutine (lg s))) eqn:Hst.
  - destruct (stopping_goes_on (cancelled s) (lg s) (inv_owed _ Hi) Hst) as [|[l Hl]]; [by left|right].
    eexists. by eapply silent_own.
  - right. destruct (coroutine_step (cancelled s) true (lg s)) as [l|] eqn:E; [eexists; by eapply silent_own|].
    unfold coroutine_step in E. rewrite Hc in E. by destruct (coroutine (lg s)).
Qed.

Lemma silent_bound n s s' :
  inv s -> cancelled s = true -> nsteps silent n s s' ->
  inv s' /\ cancelled s' = true /\ (n + silent_left (lg s') <= silent_left (lg s))%nat.
Proof.
  intros Hi Hc Hr. induction Hr as [s|n s s1 s' Hs _ IH]; [by split_and!|]. destruct Hs as [s q l Hl].
  pose proof (inv_coroutine _ _ _ Hi Hl) as Hi1. rewrite Hc in Hl. pose proof (silent_left_step _ _ _ (inv_room _ Hi) Hl).
  destruct IH as (? & ? & ?); [done|done|]. cbn in *. split_and!; [done|done|lia].
Qed.

Lemma silent_written s s' :
  inv s -> flushed (lg s) -> star silent s s' -> coroutine (lg s') = WReturned -> lj (lg s') = accepted s.
Proof.
  intros Hi Hf Hr Hw.
  assert (forall a b, inv a /\ flushed (lg a) /\ accepted a = accepted s -> silent a b ->
                      inv b /\ flushed (lg b) /\ accepted b = accepted s) as Hstep.
  { intros a b (Ha & Hfa & Hac) Hab. split_and!; [|by eapply silent_flushed|]; destruct Hab; [by eapply inv_coroutine|done]. }
  destruct (star_invariant silent (fun a => inv a /\ flushed (lg a) /\ accepted a = accepted s) s s' Hstep Hr) as (Hi' & Hf' & <-); [done|].
  rewrite <- (inv_lines _ Hi'). unfold flushed, waiting, in_hand in *. rewrite Hw in *. rewrite Hf'. cbn. by rewrite app_nil_r.
Qed.

(** C27: Once the goroutine has seen that the program stops, it never waits, and it returns
    after at most 6154 steps of its own, whatever is logged meanwhile. When the stop has
    been announced and nothing is logged any more, it returns after at most 8204 steps,
    whatever [select] takes; and when the last line was accepted no later than the moment
    in which it saw the announcement, everything that was accepted is in the file when it
    has returned. ([late_line] shows that what is accepted later may be lost.) *)
Theorem log_flushes s :
  reachable s ->
  (forall n s', stopping (coroutine (lg s)) = true -> runs n s s' ->
     (n <= 6154)%nat /\ (coroutine (lg s') = WReturned \/ exists l, coroutine_step (cancelled s') false (lg s') = Some l)) /\
  (forall n s', cancelled s = true -> nsteps silent n s s' ->
     (n <= 8204)%nat /\ (coroutine (lg s') = WReturned \/ exists s'', silent s' s'')) /\
  (forall s', stopping (coroutine (lg s)) = false \/ coroutine (lg s) = WRound 3 ->
     star silent s s' -> coroutine (lg s') = WReturned -> lj (lg s') = accepted s).
Proof.
  intros Hi%log_reachable_inv. split_and!.
  - intros n s' Hs Hr. destruct (runs_bound n s s' Hi Hs Hr) as (Hi' & Hs' & Hn). split; [|apply stopping_goes_on; [apply Hi'|done]].
    assert (steps_left (coroutine (lg s)) <= 6154)%nat; [|lia].
    pose proof (inv_owed _ Hi) as Ho. pose proof (inv_room _ Hi) as Hro. pose proof (inv_rounds _ Hi) as Hrs.
    unfold steps_left, round_cost, chanCap in *. destruct (coroutine (lg s)); cbn in *; nia.
  - intros n s' Hc Hr. destruct (silent_bound n s s' Hi Hc Hr) as (Hi' & Hc' & Hn). split; [|by apply announced_goes_on].
    assert (silent_left (lg s) <= 8204)%nat; [|lia].
    pose proof (inv_owed _ Hi) as Ho. pose proof (inv_room _ Hi) as Hro. pose proof (inv_rounds _ Hi) as Hrs.
    unfold silent_left, steps_left, round_cost, chanCap in *. destruct (coroutine (lg s)); cbn in *; nia.
  - intros s' Hp. apply silent_written; [done|]. unfold flushed. destruct Hp as [Hp|Hp]; [|rewrite Hp; lia]. by destruct (coroutine (lg s)).
Qed.

(** What is logged after the goroutine has returned is never written. *)
Lemma log_lost s s' :
  coroutine (lg s) = WReturned -> star step s s' -> coroutine (lg s') = WReturned /\ lj (lg s') = lj (lg s).
Proof.
  intros Hp Hr. apply (star_invariant step (fun a => coroutine (lg a) = WReturned /\ lj (lg a) = lj (lg s)) s s'); [|done|done].
  clear. intros a b [Hp Hl] Hab. destruct Hab as [r p d Hd|r p d Hd|r p n err l Hd Hw|r|r q l Hq]; cbn in *; try done.
  - unfold Write in Hw. destruct (_ <? _)%nat; by simplify_eq.
  - unfold coroutine_step in Hq. by rewrite Hp in Hq.
Qed.

(** ** A concrete run: a caller logs a line, uses its slice again, and the program stops. *)

Definition demo_made : sys := mkSys (set_bufs {[0%nat := [104; 105]]} (lg start)) false {[0%nat]} [].
Definition demo_logged : sys := mkSys (Write 0 (lg demo_made)).2 false {[0%nat]} [[104; 105]].
Definition demo_reused : sys := mkSys (set_bufs (<[0%nat := [0]]> (bufs (lg demo_logged))) (lg demo_logged)) false {[0%nat]} [[104; 105]].
Definition demo_stopped : sys := mkSys (lg demo_reused) true {[0%nat]} [[104; 105]].

Lemma demo_reached : reachable demo_reused.
Proof.
  unfold reachable. eapply star_cons; [exact (s_make start 0 [104; 105] (not_elem_of_empty 0%nat))|].
  eapply star_cons; [eapply (s_write demo_made 0); [vm_compute; reflexivity|reflexivity]|].
  eapply star_cons; [apply (s_fill demo_logged 0 [0]); vm_compute; reflexivity|]. constructor.
Qed.

Lemma log_in_order_witness :
  content (lg demo_reused) <$> waiting (lg demo_reused) = [[104; 105]] /\ content (lg demo_reused) 0 = [0].
Proof.
  split; [|reflexivity]. destruct (log_in_order demo_reused demo_reached) as [Hl _]. exact Hl.
Defined.

(** The steps of the goroutine on its own, as many as it has. *)
Fixpoint own_steps (n : nat) (s : sys) : sys :=
  match n with
  | O => s
  | S n' => match coroutine_step (cancelled s) true (lg s) with
            | Some l => own_steps n' (mkSys l (cancelled s) (users s) (accepted s))
            | None => s
            end
  end.

Lemma own_steps_silent n s : star silent s (own_steps n s).
Proof.
  revert s. induction n as [|n IH]; intros s; cbn; [constructor|].
  destruct (coroutine_step _ _ _) as [l|] eqn:El; [|constructor]. eapply star_cons; [by eapply silent_own|apply IH].
Qed.

Lemma log_flushes_witness :
  coroutine (lg (own_steps 20 demo_stopped)) = WReturned /\ lj (lg (own_steps 20 demo_stopped)) = [[104; 105]].
Proof.
  split; [vm_compute; reflexivity|].
  destruct (log_flushes demo_stopped (star_app _ _ _ _ demo_reached (star_one _ _ _ (s_cancel demo_reused)))) as (_ & _ & Hf).
  apply (Hf (own_steps 20 demo_stopped)); [by left|apply own_steps_silent|vm_compute; reflexivity].
Defined.

(** The goroutine is in its last sleep, and a caller logs its slice: the call succeeds, and
    the line never reaches the file. *)
Definition demo_asleep : sys := own_steps 11 demo_stopped.
Definition demo_late : sys := mkSys (Write 0 (lg demo_asleep)).2 true {[0%nat]} [[104; 105]; [0]].

Theorem late_line :
  exists s s', reachable s /\ star step s s' /\ coroutine (lg s') = WReturned /\
    accepted s' = [[104; 105]; [0]] /\ lj (lg s') = [[104; 105]].
Proof.
  exists demo_late, (own_steps 20 demo_late). split_and!.
  - assert (reachable demo_asleep) as Ha.
    { eapply star_app; [exact demo_reached|]. eapply star_cons; [apply s_cancel|]. apply silent_steps, (own_steps_silent 11). }
    assert (0%nat ∈ users demo_asleep) as Hin by (vm_compute; done).
    assert (Write 0 (lg demo_asleep) = (1, false, (Write 0 (lg demo_asleep)).2)) as E by (vm_compute; reflexivity).
    pose proof (s_write _ _ _ _ _ Hin E) as Hs. cbv iota in Hs.
    assert (mkSys (Write 0 (lg demo_asleep)).2 (cancelled demo_asleep) (users demo_asleep)
              (accepted demo_asleep ++ [content (lg demo_asleep) 0]) = demo_late) as El by (vm_compute; reflexivity).
    rewrite El in Hs. by eapply star_app; [exact Ha|apply star_one].
  - apply silent_steps, own_steps_silent.
  - vm_compute. reflexivity.
  - vm_compute. reflexivity.
  - vm_compute. reflexivity.
Qed.
End Logging.
