(* ===== verification/ConfigProps.v ===== *)
(** The properties of the settings: what is accepted is well formed, and checking
    it again changes nothing. *)

From S2P Require Export Config Net.

Module ConfigProps.
Import Net Config.

(** ** Defaults *)

Lemma or_default_pos d v : 0 < d -> 0 < or_default (v <=? 0) d v.
Proof. unfold or_default. destruct (Z.leb_spec v 0); lia. Qed.

Lemma or_default_id d v : 0 < v -> or_default (v <=? 0) d v = v.
Proof. unfold or_default. destruct (Z.leb_spec v 0); lia. Qed.

Lemma or_string_nonempty d v : d <> EmptyString -> or_string d v <> EmptyString.
Proof. unfold or_string. intros Hd. destruct (is_empty v) eqn:E; [done|]. by apply is_empty_false in E. Qed.

Lemma or_string_id d v : v <> EmptyString -> or_string d v = v.
Proof. unfold or_string. intros Hv. apply is_empty_false in Hv. by rewrite Hv. Qed.

Lemma ToLower_idem s : ToLower (ToLower s) = ToLower s.
Proof.
  unfold ToLower. rewrite String.list_ascii_of_string_of_list_ascii, <- list_fmap_compose. f_equal. apply list_fmap_ext.
  intros i c _. cbn. revert c. assert (forall c, to_lower (to_lower c) = to_lower c) as H; [|auto].
  intros [[] [] [] [] [] [] [] []]; reflexivity.
Qed.

Lemma ToLower_nonempty s : s <> EmptyString -> ToLower s <> EmptyString.
Proof. destruct s as [|c s]; [done|]. by intros _. Qed.

(** ** The seconds of a duration *)

Lemma round_even_bounds n d :
  0 < d -> n / d <= round_even n d /\ 2 * (round_even n d * d) <= 2 * n + d.
Proof.
  intros Hd. unfold round_even. pose proof (Z.div_mod n d ltac:(lia)) as E. pose proof (Z.mod_pos_bound n d Hd).
  destruct (Z.ltb_spec (2 * (n mod d)) d); cbn [orb]; [split; nia|].
  destruct (Z.eqb_spec (2 * (n mod d)) d), (Z.even (n / d)); cbn [andb]; split; nia.
Qed.

(** Rounding goes up by half a unit of the last of 53 digits at most, and never below a
    number that has no more digits. *)
Lemma round64_bounds n d k e :
  0 < d -> 0 <= n -> 2 ^ 52 * d <= n \/ n = 0 -> n < 2 ^ (k + 53) * d -> 0 <= k <= e ->
  2 * (round64 n d * d) <= 2 * n + 2 ^ k * d /\ (forall m, m * 2 ^ e * d <= n -> m * 2 ^ e <= round64 n d).
Proof.
  intros Hd Hn Hlo Hhi Hk. unfold round64. destruct (Z.eqb_spec n 0) as [->|Hn0].
  { split; [pose proof (Z.pow_pos_nonneg 2 k); nia|]. intros m Hm. pose proof (Z.pow_pos_nonneg 2 e). nia. }
  assert (2 ^ 52 <= n / d) as Hq by (apply Z.div_le_lower_bound; lia).
  assert (n / d < 2 ^ (k + 53)) as Hq2 by (apply Z.div_lt_upper_bound; lia).
  assert (52 <= Z.log2 (n / d)) as Hl by (apply Z.log2_le_pow2; lia).
  assert (Z.log2 (n / d) < k + 53) as Hl2 by (apply Z.log2_lt_pow2; lia).
  set (l := Z.log2 (n / d) - 52). assert (0 <= l <= k) as Hlk by (unfold l; lia).
  pose proof (Z.pow_pos_nonneg 2 l) as Hu. specialize (Hu ltac:(lia) ltac:(lia)).
  assert (2 ^ l <= 2 ^ k) as Huk by (apply Z.pow_le_mono_r; lia).
  destruct (round_even_bounds n (d * 2 ^ l) ltac:(nia)) as [H1 H2]. split; [nia|].
  intros m Hm. assert (2 ^ e = 2 ^ (e - l) * 2 ^ l) as Ee by (rewrite <- Z.pow_add_r by lia; f_equal; lia).
  assert (m * 2 ^ (e - l) <= n / (d * 2 ^ l)) by (apply Z.div_le_lower_bound; [nia|]; rewrite Ee in Hm; nia).
  rewrite Ee. nia.
Qed.

Lemma seconds_parts d :
  0 <= d < 2 ^ 63 ->
  let f := round64 (Z.rem d Second * unit64) Second in
  (f = 0 \/ 2 ^ 52 <= f) /\ 2 * (f * Second) <= 2 * ((d mod Second) * unit64) + 2 ^ 37 * Second.
Proof.
  intros Hd f. unfold f, Second, unit64. rewrite Z.rem_mod_nonneg by lia.
  pose proof (Z.mod_pos_bound d (10 ^ 9) ltac:(lia)) as Hm.
  destruct (decide (d mod 10 ^ 9 = 0)) as [->|Hr]; [split; [by left|done]|].
  destruct (round64_bounds (d mod 10 ^ 9 * 2 ^ 90) (10 ^ 9) 37 37) as [H1 H2]; [lia..|].
  split; [right; specialize (H2 (2 ^ 15)); lia|exact H1].
Qed.

(** The seconds are those of the whole division, but for one where a duration of more than
    194 days is within two nanoseconds of the next. *)
Lemma whole_Seconds d :
  0 <= d < 2 ^ 63 ->
  d / Second <= whole (Seconds d) <= d / Second + 1 /\ (d < 2 ^ 24 * Second -> whole (Seconds d) = d / Second).
Proof.
  intros Hd. destruct (seconds_parts d Hd) as [F1 F2]. unfold whole, Seconds. rewrite Z.quot_div_nonneg by (unfold Second; lia).
  set (f := round64 (Z.rem d Second * unit64) Second) in *. clearbody f. unfold Second, unit64 in *.
  pose proof (Z.mod_pos_bound d (10 ^ 9) ltac:(lia)) as Hm.
  assert (0 <= d / 10 ^ 9) as Hs0 by (apply Z.div_pos; lia).
  assert (d / 10 ^ 9 < 2 ^ 34) as Hs by (apply Z.div_lt_upper_bound; lia).
  assert (d < 2 ^ 24 * 10 ^ 9 -> d / 10 ^ 9 < 2 ^ 24) as Hsmall by (intros; apply Z.div_lt_upper_bound; lia).
  set (s := d / 10 ^ 9) in *. set (r := d mod 10 ^ 9) in *. clearbody s r.
  destruct (round64_bounds (s * 2 ^ 90 + f) 1 71 90) as [H1 H2]; [lia..|]. specialize (H2 s ltac:(lia)).
  split.
  - split; [apply Z.div_le_lower_bound; lia|]. enough (round64 (s * 2 ^ 90 + f) 1 / 2 ^ 90 < s + 2) by lia. apply Z.div_lt_upper_bound; lia.
  - intros Hlt%Hsmall. destruct (round64_bounds (s * 2 ^ 90 + f) 1 61 61) as [H3 _]; [lia..|].
    apply Z.le_antisymm; [|apply Z.div_le_lower_bound; lia].
    enough (round64 (s * 2 ^ 90 + f) 1 / 2 ^ 90 < s + 1) by lia. apply Z.div_lt_upper_bound; lia.
Qed.

Lemma small_Seconds v :
  0 < v -> v < 2 ^ 24 * Second -> whole (Seconds v) = v / Second /\ u32 (whole (Seconds v)) = v / Second.
Proof.
  intros H0 Hv. destruct (whole_Seconds v) as [_ H]; [unfold Second in Hv; lia|]. rewrite (H Hv). split; [done|].
  apply Z.mod_small. split; [apply Z.div_pos; unfold Second; lia|]. apply Z.div_lt_upper_bound; unfold Second in *; lia.
Qed.

(** At 2^24 seconds the nanosecond before the next one is lost. *)
Example Seconds_rounds : whole (Seconds (2 ^ 24 * Second + 999999999)) = 2 ^ 24 + 1.
Proof. reflexivity. Qed.

(** ** What is well formed *)

Record valid_customer (c : CustomerConfig) : Prop := mkValidCustomer {
  v_Multicore : 0 <= Multicore c <= 100;
  v_ReceivePackLimit : 0 < c_ReceivePackLimit c;
  v_SendMessageType : SendMessageType c = OpText \/ SendMessageType c = OpBinary;
  v_HeartbeatInterval : 0 < HeartbeatInterval c;
  v_HeartbeatIntervalSecond : HeartbeatIntervalSecond c = u32 (whole (Seconds (HeartbeatInterval c)));
  v_HeartbeatWhole : HeartbeatInterval c < 2 ^ 24 * Second -> HeartbeatIntervalSecond c = HeartbeatInterval c / Second;
  v_HandlePattern : HandlePattern c <> EmptyString;
  v_HeartbeatMessage : c_HeartbeatMessage c <> [];
  v_CompressionLevel : -2 <= CompressionLevel c <= 9;
  v_LimitWindowSize : 0 < LimitWindowSize c;
  v_LimitWindowSizeSeconds : LimitWindowSizeSeconds c = whole (Seconds (LimitWindowSize c));
  v_WindowWhole : LimitWindowSize c < 2 ^ 24 * Second -> LimitWindowSizeSeconds c = LimitWindowSize c / Second;
  v_MaxRequests : 0 < LimitWindowMaxRequests c;
  v_ZeroRequests : 0 < LimitZeroWindowMaxRequests c;
}.

Lemma check_customer_valid c c' : check_customer c = inr c' -> valid_customer c'.
Proof.
  unfold check_customer. intros H.
  destruct (if SendMessageType c =? 0 then _ else _) as [e|mt] eqn:Emt in H; [done|]. cbn [rbind] in H.
  destruct (isNil (c_HeartbeatMessage c)) eqn:Ehb; [done|].
  destruct ((CompressionLevel c <? -2) || (9 <? CompressionLevel c)) eqn:Ecl; [done|]. injection H as <-.
  split; cbn -[Seconds Z.pow]; try apply or_default_pos; try apply or_string_nonempty; try done;
    try (intros Hw; apply small_Seconds; [by apply or_default_pos|exact Hw]).
  - unfold or_default. destruct (Z.ltb_spec (Multicore c) 0), (Z.ltb_spec 100 (Multicore c)); cbn; lia.
  - destruct (SendMessageType c =? 0); [injection Emt as <-; by left|].
    destruct (Z.eqb_spec (SendMessageType c) OpText), (Z.eqb_spec (SendMessageType c) OpBinary); cbn in Emt; simplify_eq; auto.
  - by destruct (c_HeartbeatMessage c).
  - apply orb_false_iff in Ecl as [?%Z.ltb_ge ?%Z.ltb_ge]. lia.
Qed.

Lemma check_customer_idem c : valid_customer c -> check_customer c = inr c.
Proof.
  intros [Hm Hr Hs Hi His _ Hp Hh Hc Hw Hws _ Hmr Hzr]. unfold check_customer.
  rewrite !or_default_id by done. rewrite or_string_id by done.
  replace (or_default _ _ (Multicore c)) with (Multicore c).
  2: { unfold or_default. destruct (Z.ltb_spec (Multicore c) 0), (Z.ltb_spec 100 (Multicore c)); cbn; lia. }
  replace (if SendMessageType c =? 0 then _ else _) with (inr (SendMessageType c) : result Z) by (by destruct Hs as [-> | ->]).
  cbn [rbind]. destruct (c_HeartbeatMessage c) eqn:E; [done|]. cbn [isNil].
  replace ((CompressionLevel c <? -2) || (9 <? CompressionLevel c)) with false
    by (symmetry; apply orb_false_iff; split; apply Z.ltb_ge; lia).
  rewrite <- E, <- His, <- Hws. by destruct c.
Qed.

(** *** The queues *)

Definition redis_type (q : RedisQueue) : Prop := r_KeyType q = "list"%string \/ r_KeyType q = "stream"%string.

(** A section that takes nothing more from the common one. *)
Record set_redis (common q : RedisQueue) : Prop := mkSetRedis {
  s_Address : r_Address q = or_string (r_Address common) (r_Address q);
  s_Key : r_Key q = or_string (r_Key common) (r_Key q);
  s_Password : is_Some (r_Password q); s_DB : is_Some (r_DB q); s_lower : ToLower (r_KeyType q) = r_KeyType q;
  s_KeyType : r_KeyType q <> EmptyString;
}.

Definition valid_redis (q : Queues RedisQueue) : Prop :=
  set_redis (common q) (OnOpenQ q) /\ set_redis (common q) (OnMessageQ q) /\ set_redis (common q) (OnCloseQ q) /\
  redis_type (OnOpenQ q) /\ redis_type (OnCloseQ q).

Lemma check_KeyType_cases fatal what q q' :
  check_KeyType fatal what q = inr q' ->
  ToLower (r_KeyType q') = r_KeyType q' /\ r_KeyType q' <> EmptyString /\ (fatal = true -> redis_type q') /\
  q' = mkRedisQueue (r_Address q) (r_Password q) (r_DB q) (r_Key q) (r_KeyType q').
Proof.
  unfold check_KeyType. destruct (is_empty (r_KeyType q)) eqn:E.
  { intros [= <-]. split_and!; try done. intros _. by left. }
  apply is_empty_false in E. destruct (String.eqb_spec (ToLower (r_KeyType q)) "list") as [El|El];
    [|destruct (String.eqb_spec (ToLower (r_KeyType q)) "stream") as [Es|Es]].
  1,2: cbn [orb]; intros [= <-]; cbn; split_and!; [apply ToLower_idem|by apply ToLower_nonempty|intros _; unfold redis_type; cbn; auto|done].
  destruct fatal; cbn [orb negb]; [done|]. intros [= <-]. cbn. split_and!; [apply ToLower_idem|by apply ToLower_nonempty|done|done].
Qed.

Lemma or_string_idem d v : or_string d v = or_string d (or_string d v).
Proof. unfold or_string. destruct (is_empty v) eqn:E; [by destruct (is_empty d)|]. by rewrite E. Qed.

Lemma check_defaults fatal what common next q q' :
  check_KeyType fatal what (setRedisQueueDefaultParams common next q).1 = inr q' ->
  set_redis common q' /\ (fatal = true -> redis_type q').
Proof.
  intros (H1 & H2 & H3 & H4)%check_KeyType_cases. split; [|done].
  split; try done; rewrite H4; cbn; try apply or_string_idem.
  - by destruct (r_Password q), (r_Password common).
  - by destruct (r_DB q), (r_DB common).
Qed.

Lemma check_redis_valid next q q' : check_redis next q = inr q' -> valid_redis q'.
Proof.
  unfold check_redis. destruct (setRedisQueueDefaultParams (common q) next (OnOpenQ q)) as [o n1] eqn:Eo.
  destruct (setRedisQueueDefaultParams (common q) n1 (OnMessageQ q)) as [m n2] eqn:Em.
  destruct (setRedisQueueDefaultParams (common q) n2 (OnCloseQ q)) as [c n3] eqn:Ec.
  apply (f_equal fst) in Eo, Em, Ec. cbn [fst] in *. subst o m c.
  destruct (check_KeyType true "OnOpen" _) as [|o'] eqn:Eo; [done|]. destruct (check_KeyType true "OnClose" _) as [|c'] eqn:Ec; [done|].
  destruct (check_KeyType false "OnMessage" _) as [|m'] eqn:Em; [done|]. intros [= <-].
  apply check_defaults in Eo as [??], Ec as [??], Em as [? _]. unfold valid_redis. cbn. auto 6.
Qed.

Lemma check_KeyType_idem fatal what q :
  ToLower (r_KeyType q) = r_KeyType q -> r_KeyType q <> EmptyString -> (fatal = true -> redis_type q) -> check_KeyType fatal what q = inr q.
Proof.
  intros Hl Hne Ht. unfold check_KeyType. apply is_empty_false in Hne. rewrite Hne, Hl.
  replace (String.eqb (r_KeyType q) "list" || String.eqb (r_KeyType q) "stream" || negb fatal) with true; [by destruct q|].
  destruct fatal; [|by rewrite orb_true_r]. destruct (Ht eq_refl) as [-> | ->]; done.
Qed.

Lemma defaults_idem common next q : set_redis common q -> setRedisQueueDefaultParams common next q = (q, next).
Proof.
  intros [Ha Hk [p Hp] [d Hd] _ Hne]. unfold setRedisQueueDefaultParams. rewrite Hp, Hd, <- Ha, <- Hk, or_string_id by done.
  by destruct q; cbn in *; subst.
Qed.

Lemma check_redis_idem next q : valid_redis q -> check_redis next q = inr q.
Proof.
  intros (Ho & Hm & Hc & Hto & Htc). unfold check_redis. rewrite !defaults_idem by done.
  rewrite !check_KeyType_idem; [by destruct q|..]; try done; by (apply Ho || apply Hm || apply Hc).
Qed.

Record set_amqp (common q : AMQP091Queue) : Prop := mkSetAMQP {
  sa_Address : a_Address q = or_string (a_Address common) (a_Address q);
  sa_Username : a_Username q = or_string (a_Username common) (a_Username q);
  sa_Password : a_Password q = or_string (a_Password common) (a_Password q);
  sa_Exchange : a_Exchange q = or_string (a_Exchange common) (a_Exchange q);
  sa_ExchangeType : a_ExchangeType q ∈ exchange_types;
  sa_VHost : is_Some (a_VHost q); sa_Queue : is_Some (a_Queue q); sa_RoutingKey : is_Some (a_RoutingKey q);
  sa_Durable : is_Some (a_Durable q); sa_AutoDelete : is_Some (a_AutoDelete q);
}.

Definition valid_amqp (q : Queues AMQP091Queue) : Prop :=
  set_amqp (common q) (OnOpenQ q) /\ set_amqp (common q) (OnMessageQ q) /\ set_amqp (common q) (OnCloseQ q).

Lemma check_ExchangeType_set what common q q' :
  check_ExchangeType what (setAMQP091QueueDefaultParams common q) = inr q' -> set_amqp common q'.
Proof.
  unfold check_ExchangeType. intros H.
  assert (exists t, t ∈ exchange_types /\ q' = mkAMQPQueue (or_string (a_Address common) (a_Address q)) (or_string (a_Username common) (a_Username q))
    (or_string (a_Password common) (a_Password q)) (a_VHost (setAMQP091QueueDefaultParams common q))
    (or_string (a_Exchange common) (a_Exchange q)) t (a_Queue (setAMQP091QueueDefaultParams common q))
    (a_RoutingKey (setAMQP091QueueDefaultParams common q)) (a_Durable (setAMQP091QueueDefaultParams common q))
    (a_AutoDelete (setAMQP091QueueDefaultParams common q))) as (t & Ht & ->).
  { destruct (is_empty _).
    - injection H as <-. exists "direct"%string. split; [|done]. repeat constructor.
    - case_bool_decide as Hin; [|done]. injection H as <-. eauto. }
  split; cbn; try apply or_string_idem; [done|..].
  - by destruct (a_VHost q).
  - by destruct (a_Queue q), (a_Queue common).
  - by destruct (a_RoutingKey q), (a_RoutingKey common).
  - by destruct (a_Durable q), (a_Durable common).
  - by destruct (a_AutoDelete q), (a_AutoDelete common).
Qed.

Lemma check_amqp_valid q q' : check_amqp q = inr q' -> valid_amqp q'.
Proof.
  unfold check_amqp. destruct (check_ExchangeType "OnOpen" _) as [|o] eqn:Eo; [done|].
  destruct (check_ExchangeType "OnMessage" _) as [|m] eqn:Em; [done|]. destruct (check_ExchangeType "OnClose" _) as [|c] eqn:Ec; [done|].
  intros [= <-]. apply check_ExchangeType_set in Eo, Em, Ec. unfold valid_amqp, write_VHost. cbn [common OnOpenQ OnMessageQ OnCloseQ].
  destruct (_ && _); [|done]. destruct Eo, Em, Ec. by split_and!; split.
Qed.

Lemma exchange_type_fixed t : t ∈ exchange_types -> t <> EmptyString /\ ToLower t = t.
Proof. unfold exchange_types. rewrite !elem_of_cons, elem_of_nil. intros [->|[->|[->|[->|[]]]]]; done. Qed.

Lemma check_ExchangeType_idem what common q :
  set_amqp common q -> check_ExchangeType what (setAMQP091QueueDefaultParams common q) = inr q.
Proof.
  intros [Ha Hu Hp He Ht [v Hv] [qu Hq] [r Hr] [d Hd] [x Hx]].
  destruct (exchange_type_fixed _ Ht) as [Hne Hl].
  assert (setAMQP091QueueDefaultParams common q = q) as ->.
  { unfold setAMQP091QueueDefaultParams. rewrite Hv, Hq, Hr, Hd, Hx, <- Ha, <- Hu, <- Hp, <- He, or_string_id by done.
    by destruct q; cbn in *; subst. }
  unfold check_ExchangeType. apply is_empty_false in Hne. rewrite Hne, Hl, bool_decide_eq_true_2 by done. by destruct q.
Qed.

Lemma check_amqp_idem q : valid_amqp q -> check_amqp q = inr q.
Proof.
  intros (Ho & Hm & Hc). unfold check_amqp. rewrite !check_ExchangeType_idem by done. cbn [rbind].
  assert (write_VHost [OnOpenQ q; OnMessageQ q; OnCloseQ q] (common q) = common q) as ->; [|by destruct q].
  destruct Ho as [_ _ _ _ _ [? Vo] _ _ _ _], Hm as [_ _ _ _ _ [? Vm] _ _ _ _], Hc as [_ _ _ _ _ [? Vc] _ _ _ _].
  unfold write_VHost. cbn [existsb]. by rewrite Vo, Vm, Vc.
Qed.

(** *** The listen addresses *)

Lemma split_port s h p : split_chars s = Some (h, p) -> (lbracket ∉ p) /\ (rbracket ∉ p).
Proof.
  unfold split_chars. destruct (last_index colon s) as [i|] eqn:Ei; [|done].
  assert (forall k, k <= i -> forall c, c ∉ drop k s -> c ∉ drop (S i) s)%nat as Hd.
  { intros k Hk c Hc Hin. apply Hc. replace (S i) with (k + (S i - k))%nat in Hin by lia. rewrite <- drop_drop in Hin.
    by apply subseteq_drop in Hin. }
  case_bool_decide.
  - destruct (index rbracket s) as [e|]; [|done]. destruct (Nat.eqb_spec (S e) i) as [Hei|]; [|done].
    case_bool_decide as H1; [done|]. case_bool_decide as H2; [done|]. intros [= <- <-].
    split; [apply (Hd 1%nat); [lia|done]|apply (Hd (S e)); [lia|done]].
  - case_bool_decide; [done|]. case_bool_decide as H1; [done|]. case_bool_decide as H2; [done|]. intros [= <- <-].
    split; apply (Hd 0%nat); done || lia.
Qed.

Lemma last_index_None c s : last_index c s = None -> c ∉ s.
Proof.
  induction s as [|x s IH]; cbn; [intros _ []%elem_of_nil|]. destruct (last_index c s); [done|].
  destruct (decide (x = c)) as [|Hx]; [done|]. intros _. apply not_elem_of_cons. split; [congruence|by apply IH].
Qed.

Lemma last_index_after c s i : last_index c s = Some i -> c ∉ drop (S i) s.
Proof.
  revert i; induction s as [|x s IH]; intros i; cbn; [done|]. destruct (last_index c s) as [j|] eqn:E.
  - intros [= <-]. by apply IH.
  - destruct (decide (x = c)); [|done]. intros [= <-]. rewrite drop_0. by apply last_index_None.
Qed.

Lemma split_chars_port s h p : split_chars s = Some (h, p) -> colon ∉ p.
Proof.
  unfold split_chars. destruct (last_index colon s) as [i|] eqn:Ei; [|done]. apply last_index_after in Ei.
  case_bool_decide; [destruct (index rbracket s) as [e|]; [|done]; destruct (S e =? i)%nat; [|done]|case_bool_decide; [done|]];
    (destruct (_ || _); [done|]; by intros [= <- <-]).
Qed.

Lemma SplitHostPort_port a h p : SplitHostPort a = Some (h, p) -> plain p /\ no_colon p.
Proof.
  unfold SplitHostPort, plain, no_colon. destruct (split_chars _) as [[h' p']|] eqn:E; [|done]. intros [= <- <-].
  rewrite String.list_ascii_of_string_of_list_ascii. split; [by eapply split_port|by eapply split_chars_port].
Qed.

Section Listen.
Context `{IPText}.

Definition good_host (h : string) : Prop := IsValidIPv4 h = true \/ h = "<nil>"%string.

Lemma IP_String_good ip ip4 : To4 ip = Some ip4 -> wf_bytes ip -> good_host (IP_String ip4) /\ plain (IP_String ip4).
Proof.
  intros E Hb. destruct (To4_bytes _ _ E Hb) as [Hl Hw]. destruct (ip_text ip4 Hl Hw) as [Hp Hparse]. split; [|done]. left. unfold IsValidIPv4. rewrite Hparse.
  apply bool_decide_eq_true. unfold To4. rewrite length_app, Hl. cbn [length v4InV6Prefix Nat.add Nat.eqb].
  rewrite take_app_le by (cbn; lia). rewrite bool_decide_eq_true_2 by done. cbn. eauto.
Qed.

Lemma good_join h p : good_host h -> plain h -> plain p -> no_colon p ->
  exists h' p', SplitHostPort (JoinHostPort h p) = Some (h', p') /\ good_host h'.
Proof. intros Hg Hh Hp Hc. exists h, p. split; [by apply split_join|done]. Qed.

Lemma nil_plain : plain "<nil>".
Proof. split; intros Hin; repeat (apply elem_of_cons in Hin as [Hin|Hin]; [done|]); by apply elem_of_nil in Hin. Qed.

Lemma check_listen_valid what a a' :
  check_listen what a = inr a' -> exists h p, SplitHostPort a' = Some (h, p) /\ good_host h.
Proof.
  unfold check_listen. destruct (SplitHostPort a) as [[h p]|] eqn:Es; [|done].
  destruct (SplitHostPort_port _ _ _ Es) as [Hp Hc]. destruct (IsValidIPv4 h) eqn:Ev; cbn [negb].
  - destruct (String.eqb h "0.0.0.0"); [|intros [= <-]; exists h, p; by unfold good_host; auto].
    destruct (is_empty GetLocalIPAddress) eqn:El; [done|]. intros [= <-]. apply is_empty_false in El.
    unfold GetLocalIPAddress in *. destruct InterfaceAddrs as [l|] eqn:Ei; [|done].
    destruct (first_local_cases l) as [|(ip & ip4 & Hin & E4 & E)]; [done|]. rewrite E.
    destruct (IP_String_good _ _ E4) as [Hg Hpl]; [by eapply ip_interface|]. by apply good_join.
  - destruct (String.eqb_spec (GetHostByName h) h) as [|Hne]; [done|]. intros [= <-].
    destruct (GetHostByName_resolved h) as [|[E|[E|(a0 & ip & ip4 & Hp4 & E4 & E)]]]; [done|..]; rewrite E.
    + apply good_join; try done; [by right|apply nil_plain].
    + rewrite <- ip_loopback. destruct (IP_String_good [127; 0; 0; 1] [127; 0; 0; 1] eq_refl) as [Hg Hpl]; [|by apply good_join].
      by apply all_bytes_wf.
    + destruct (IP_String_good _ _ E4) as [Hg Hpl]; [by eapply ip_parsed|]. by apply good_join.
Qed.

(** An address that is served is one that the check keeps. *)
Lemma check_listen_settled what a h p :
  SplitHostPort a = Some (h, p) -> IsValidIPv4 h = true -> h <> "0.0.0.0"%string -> check_listen what a = inr a.
Proof.
  intros Hs Hv Hne. unfold check_listen. rewrite Hs, Hv. cbn [negb]. by destruct (String.eqb_spec h "0.0.0.0").
Qed.

(** *** The servers and the whole *)

Record valid_limits (s : ServerConfig) : Prop := mkValidLimits {
  l_ReadDeadline : 0 < ReadDeadline s;
  l_SendDeadline : 0 < SendDeadline s;
  l_ReceivePackLimit : s_ReceivePackLimit s <> 0;
  l_ReadBufferSize : 0 < ReadBufferSize s;
}.

Definition valid_address (a : string) : Prop := exists h p, SplitHostPort a = Some (h, p) /\ good_host h.

Record valid_settings (s : settings) : Prop := mkValid {
  v_Customer : valid_customer (Customer s);
  v_Redis : valid_redis (Redis s);
  v_AMQP : valid_amqp (AMQP s);
  v_Worker : valid_limits (Worker s) /\ 0 < SendChanCap (Worker s);
  v_WorkerAddress : s_ListenAddress (Worker s) = EmptyString \/
                    valid_address (s_ListenAddress (Worker s)) /\ s_HeartbeatMessage (Worker s) <> [];
  v_Task : valid_limits (Task s);
  v_TaskAddress : valid_address (s_ListenAddress (Task s)) /\ s_HeartbeatMessage (Task s) <> [];
}.

(** An address whose host is a proper IPv4 address. *)
Definition settled (a : string) : Prop :=
  exists h p, SplitHostPort a = Some (h, p) /\ IsValidIPv4 h = true /\ h <> "0.0.0.0"%string.

Lemma limit_default d v : d <> 0 -> or_default (v =? 0) d v <> 0.
Proof. unfold or_default. intros Hd. by destruct (Z.eqb_spec v 0). Qed.

Lemma limit_default_id d v : v <> 0 -> or_default (v =? 0) d v = v.
Proof. unfold or_default. intros Hd. by destruct (Z.eqb_spec v 0). Qed.

Lemma isNil_false {A} (l : list A) : isNil l = false <-> l <> [].
Proof. by destruct l. Qed.

Lemma check_worker_valid s s' :
  check_worker s = inr s' ->
  (valid_limits s' /\ 0 < SendChanCap s') /\
  (s_ListenAddress s' = EmptyString \/ valid_address (s_ListenAddress s') /\ s_HeartbeatMessage s' <> []).
Proof.
  unfold check_worker. destruct (is_empty (s_ListenAddress s)); cbn [rbind].
  2: destruct (check_listen "Worker" _) as [|a] eqn:Ea; [done|]; cbn [rbind]; destruct (isNil _) eqn:Ehb; [done|]; cbn [rbind].
  all: intros [= <-]; split; [split; [split|]; cbn; try by apply or_default_pos|]; try by apply limit_default.
  - by left.
  - right. split; [by eapply check_listen_valid|by apply isNil_false].
Qed.

Lemma check_task_valid s s' :
  check_task s = inr s' ->
  valid_limits s' /\ valid_address (s_ListenAddress s') /\ s_HeartbeatMessage s' <> [].
Proof.
  unfold check_task. destruct (check_listen "Task" _) as [|a] eqn:Ea; [done|]. cbn [rbind].
  destruct (isNil _) eqn:Ehb; [done|]. intros [= <-]. split; [split; cbn; first [by apply or_default_pos|by apply limit_default]|].
  split; [by eapply check_listen_valid|by apply isNil_false].
Qed.

Lemma settled_idem what a : settled a -> check_listen what a = inr a.
Proof. intros (h & p & Hs & Hv & Hne). by eapply check_listen_settled. Qed.

Lemma check_worker_idem s :
  valid_limits s -> 0 < SendChanCap s ->
  (s_ListenAddress s = EmptyString \/ settled (s_ListenAddress s) /\ s_HeartbeatMessage s <> []) -> check_worker s = inr s.
Proof.
  intros [Hr Hs Hl Hb] Hc Ha. unfold check_worker. rewrite !or_default_id, limit_default_id by done.
  destruct Ha as [Ha|[Ha Hh%isNil_false]].
  - rewrite Ha. cbn. destruct s; cbn in *; by subst.
  - rewrite (settled_idem "Worker" _ Ha), Hh. cbn [rbind]. destruct (is_empty _) eqn:E; [|by destruct s].
    apply is_empty_true in E. by destruct s; cbn in *; subst.
Qed.

Lemma check_task_idem s :
  valid_limits s -> settled (s_ListenAddress s) -> s_HeartbeatMessage s <> [] -> check_task s = inr s.
Proof.
  intros [Hr Hs Hl Hb] Ha Hh%isNil_false. unfold check_task. rewrite !or_default_id, limit_default_id by done.
  rewrite (settled_idem "Task" _ Ha), Hh. by destruct s.
Qed.

Lemma init_valid next s s' : init next s = inr s' -> valid_settings s'.
Proof.
  unfold init. destruct (check_customer _) as [|c] eqn:Ec; [done|]. destruct (check_redis _ _) as [|r] eqn:Er; [done|].
  destruct (check_amqp _) as [|a] eqn:Ea; [done|]. destruct (check_worker _) as [|w] eqn:Ew; [done|].
  destruct (check_task _) as [|t] eqn:Et; [done|]. intros [= <-].
  apply check_worker_valid in Ew as [??]. apply check_task_valid in Et as [??].
  split; cbn; eauto using check_customer_valid, check_redis_valid, check_amqp_valid.
Qed.

(** C22: The settings that [init] accepts are well formed: every limit, interval and
    buffer size is positive, every section of the queues is complete after its
    defaults, the keys of OnOpen and OnClose are lists or streams, the task server
    listens on a host that is an IPv4 address (or the text "<nil>" that a name with
    IPv6 addresses only is resolved to), and both servers have a heartbeat. Settings
    that are well formed and whose hosts are proper IPv4 addresses are accepted as
    they are, so checking is idempotent. *)
Theorem init_correct next s :
  (forall s', init next s = inr s' -> valid_settings s') /\
  (valid_settings s -> settled (s_ListenAddress (Task s)) ->
   (s_ListenAddress (Worker s) = EmptyString \/ settled (s_ListenAddress (Worker s))) -> init next s = inr s).
Proof.
  split.
  - intros s'. apply init_valid.
  - intros [Hc Hr Ha [Hwl Hwc] Hwa Ht [_ Hth]] Hst Hsw. unfold init.
    rewrite check_customer_idem, check_redis_idem, check_amqp_idem, check_worker_idem, check_task_idem by (done || tauto).
    by destruct s.
Qed.
End Listen.

(** A file that names what it must, on the machine of [NetText]. *)
Import NetText.

Definition demo_redis : RedisQueue := mkRedisQueue "" None None "" "".
Definition demo_amqp : AMQP091Queue := mkAMQPQueue "" "" "" None "" "" None None None None.

Definition demo_settings : settings := {|
  LogLevel := "debug"; LogFile := ""; ShutdownWaitTime := 0; PprofListenAddress := ""; Autobahn := false;
  Limit_OnOpen := 0; Limit_OnMessage := 0;
  Customer := mkCustomer 200 "0.0.0.0:6060" "" [] 0 0 0 0 0 (str_bytes "~3yPvmnz~") 0 0 0 0 0;
  OnOpenApi := ""; OnMessageApi := ""; OnCloseApi := ""; CallbackTimeout := 0;
  Redis := mkQueues (mkRedisQueue "127.0.0.1:6379" None None "events" "STREAM") demo_redis demo_redis demo_redis;
  AMQP := mkQueues demo_amqp demo_amqp demo_amqp demo_amqp;
  Worker := mkServer "netsvr:6061" 0 0 0 0 0 (str_bytes "~6YOt5rW35piO~");
  Task := mkServer "0.0.0.0:6062" 0 0 0 0 0 (str_bytes "~6YOt5rW35piO~");
  MetricsItem := [];
|}.

Lemma init_correct_witness :
  exists s, init 0 demo_settings = inr s /\ valid_settings s /\ init 5 s = inr s /\
    s_ListenAddress (Worker s) = "10.0.0.7:6061"%string /\ s_ListenAddress (Task s) = "192.168.1.5:6062"%string.
Proof.
  assert (exists s, init 0 demo_settings = inr s) as [s Hs] by (eexists; vm_compute; reflexivity).
  exists s. assert (valid_settings s) as Hv by exact (proj1 (init_correct 0 demo_settings) s Hs).
  assert (s_ListenAddress (Worker s) = "10.0.0.7:6061"%string /\ s_ListenAddress (Task s) = "192.168.1.5:6062"%string) as [Hw Ht]
    by (vm_compute in Hs; injection Hs as <-; split; reflexivity).
  split_and!; [done|done| |done|done].
  apply (proj2 (init_correct 5 s)); [done|rewrite Ht|right; rewrite Hw].
  - exists "192.168.1.5"%string, "6062"%string. vm_compute. by repeat split.
  - exists "10.0.0.7"%string, "6061"%string. vm_compute. by repeat split.
Defined.
End ConfigProps.
