(* ===== verification/Startup.v ===== *)
(** From the settings to what runs: the limiters (internal/limit/manager.go), the
    queues on Redis (internal/queue/redisQueue/manager.go) and on AMQP
    (internal/queue/amqp091/manager.go). An object of a map is known by its key;
    a text that prints a pointer prints the address of what it points to. *)

From stdpp Require Import pretty.
From S2P Require Export Config EventQueue.

Module Startup.
Import Config.

(** ** The limiters *)

Definition limit_event (e n : Z) (m : gmap Z Z) : gmap Z Z := if 0 <? n then <[e := n]> m else m.

Definition limit_init (s : settings) : gmap Z Z :=
  limit_event Event_OnMessage (Limit_OnMessage s) (limit_event Event_OnOpen (Limit_OnOpen s) ∅).

(** A table with one entry for each event; [None] is a nil pointer. *)
Record manager := mkManager { m_OnOpen : option string; m_OnMessage : option string; m_OnClose : option string }.

Definition Manager_Get (m : manager) (event : Z) : option string :=
  if event =? Event_OnOpen then m_OnOpen m
  else if event =? Event_OnMessage then m_OnMessage m
  else if event =? Event_OnClose then m_OnClose m
  else None.

(** The events that have a queue. *)
Definition events (m : manager) : list Z :=
  filter (fun e => is_Some (Manager_Get m e)) [Event_OnOpen; Event_OnMessage; Event_OnClose].

(** ** The queues on Redis *)

Record redisClient := mkClient { Addr : string; Password : string; DB : Z }.

Record redisQueue := mkRQueue {
  q_client : redisClient;
  redisKey : string;
  redisDB : Z;
  keyType : string;
  rq_dequeueSize : nat;
}.

Definition db_value (q : RedisQueue) : Z := default 0 (snd <$> r_DB q).
Definition db_pointer (q : RedisQueue) : nat := default 0%nat (fst <$> r_DB q).

Definition redisId (q : RedisQueue) : string := "Address" +:+ r_Address q +:+ "DB" +:+ pretty (db_pointer q).
Definition redisQueueId (q : RedisQueue) : string :=
  redisId q +:+ "Key" +:+ r_Key q +:+ "KeyType" +:+ r_KeyType q.

Definition redis_configured (q : RedisQueue) : bool := negb (is_empty (r_Address q) || is_empty (r_Key q)).

Definition newClient (q : RedisQueue) : redisClient := mkClient (r_Address q) (default EmptyString (r_Password q)) (db_value q).

(** [newQueue]: [None] is the panic. *)
Definition newRedisQueue (c : redisClient) (q : RedisQueue) (dequeueSize : nat) : option redisQueue :=
  if String.eqb (r_KeyType q) "list" || String.eqb (r_KeyType q) "stream"
  then Some (mkRQueue c (r_Key q) (db_value q) (r_KeyType q) dequeueSize) else None.

Section Redis.
(** The answers to [Ping], for the section of each event. *)
Context (Ping : Z -> redisClient -> bool).

Definition makeRedisClient (e : Z) (mp : gmap string redisClient) (q : RedisQueue) : option (gmap string redisClient) :=
  if negb (redis_configured q) then Some mp
  else match mp !! redisId q with
       | Some _ => Some mp
       | None => if Ping e (newClient q) then Some (<[redisId q := newClient q]> mp) else None
       end.

Definition makeRedisQueue (clients : gmap string redisClient) (mp : gmap string redisQueue) (q : RedisQueue)
    : option (option string * gmap string redisQueue) :=
  if negb (redis_configured q) then Some (None, mp)
  else match mp !! redisQueueId q with
       | Some _ => Some (Some (redisQueueId q), mp)
       | None =>
           c ← clients !! redisId q;
           r ← newRedisQueue c q 256;
           Some (Some (redisQueueId q), <[redisQueueId q := r]> mp)
       end.

Definition redis_Start (r : Queues RedisQueue) : option (manager * gmap string redisQueue) :=
  cl ← makeRedisClient Event_OnOpen ∅ (OnOpenQ r);
  cl ← makeRedisClient Event_OnMessage cl (OnMessageQ r);
  cl ← makeRedisClient Event_OnClose cl (OnCloseQ r);
  '(o, mp) ← makeRedisQueue cl ∅ (OnOpenQ r);
  '(m, mp) ← makeRedisQueue cl mp (OnMessageQ r);
  '(c, mp) ← makeRedisQueue cl mp (OnCloseQ r);
  Some (mkManager o m c, mp).
End Redis.

(** ** The queues on AMQP *)

(** [getPoolSize]: connections and channels. *)
Definition getPoolSize (cpu : Z) : Z * Z :=
  let offset := if cpu <=? 8 then 1 else if cpu <=? 16 then 2 else if cpu <=? 32 then 3 else 5 in
  let connPoolSize := if cpu <? 4 then 1 else Z.max (cpu / 4) 1 + offset in
  (connPoolSize, connPoolSize * 12).

(** [url.QueryEscape]. *)
Definition hex_digit (n : Z) : ascii := ascii_of_nat (Z.to_nat (if n <? 10 then 48 + n else 55 + n)).
Definition unreserved (c : ascii) : bool :=
  let n := nat_of_ascii c in
  ((48 <=? n) && (n <=? 57) || (65 <=? n) && (n <=? 90) || (97 <=? n) && (n <=? 122))%nat ||
  bool_decide (c ∈ ["-"; "_"; "."; "~"]%char).
Definition escape (c : ascii) : list ascii :=
  if unreserved c then [c]
  else if bool_decide (c = " "%char) then ["+"%char]
  else let n := Z.of_nat (nat_of_ascii c) in ["%"%char; hex_digit (n / 16); hex_digit (n mod 16)].
Definition QueryEscape (s : string) : string :=
  String.string_of_list_ascii (mjoin (escape <$> String.list_ascii_of_string s)).

(** A pool of connections with its pool of channels. *)
Record channelPool := mkChannelPool {
  cp_url : string; cp_address : string; connPoolSize : Z; channelPoolSize : Z; cp_dequeueSize : nat }.

Record amqpQueue := mkAQueue {
  aq_pool : channelPool;
  deliveryMode : Z;
  exchange : string;
  routingKey : string;
  aq_dequeueSize : nat;
}.

(** What the broker is asked to declare. *)
Inductive declaration :=
  | ExchangeDeclare (name kind : string) (durable autoDelete : bool)
  | QueueDeclare (name : string) (durable autoDelete : bool)
  | QueueBind (name key exchange : string).

Definition amqp_configured (q : AMQP091Queue) : bool := negb (is_empty (a_Address q) || is_empty (a_Exchange q)).

Definition str (o : option string) : string := default EmptyString o.
Definition flag (o : option bool) : bool := default false o.

Definition connChannelPoolId (q : AMQP091Queue) : string := "Address" +:+ a_Address q +:+ "Username" +:+ a_Username q.
Definition topologyId (q : AMQP091Queue) : string :=
  "Address" +:+ a_Address q +:+ "Exchange" +:+ a_Exchange q +:+ "Queue" +:+ str (a_Queue q) +:+
  "RoutingKey" +:+ str (a_RoutingKey q).
Definition amqpQueueId (q : AMQP091Queue) : string :=
  "Address" +:+ a_Address q +:+ "Exchange" +:+ a_Exchange q +:+ "RoutingKey" +:+ str (a_RoutingKey q).

Definition amqp_url (q : AMQP091Queue) : string :=
  "amqp://" +:+ QueryEscape (a_Username q) +:+ ":" +:+ QueryEscape (a_Password q) +:+ "@" +:+ a_Address q +:+ str (a_VHost q).

Definition Transient : Z := 1.
Definition Persistent : Z := 2.

Definition newAMQPQueue (pool : channelPool) (q : AMQP091Queue) (dequeueSize : nat) : amqpQueue :=
  mkAQueue pool (if flag (a_Durable q) then Persistent else Transient) (a_Exchange q) (str (a_RoutingKey q)) dequeueSize.

Section AMQP.
(** For the section of each event: [Dial] says whether the pools of a url could be
    made, with their first connection and channel, [Open] whether a pool had a channel
    for the declarations, [Declare_ok] the answer to one. [cpu] is [runtime.NumCPU]. *)
Context (cpu : Z) (Dial : Z -> string -> bool) (Open : Z -> channelPool -> bool) (Declare_ok : Z -> declaration -> bool).

Definition makeConnChannel (e : Z) (mp : gmap string channelPool) (q : AMQP091Queue) (dequeueSize : nat) : gmap string channelPool :=
  if negb (amqp_configured q) then mp
  else match mp !! connChannelPoolId q with
       | Some _ => mp
       | None =>
           let '(conns, channels) := getPoolSize cpu in
           if Dial e (amqp_url q)
           then <[connChannelPoolId q := mkChannelPool (amqp_url q) (a_Address q) conns channels dequeueSize]> mp else mp
       end.

(** The declarations up to the first that fails, and whether none does. *)
Fixpoint declare_all (e : Z) (l : list declaration) : list declaration * bool :=
  match l with
  | [] => ([], true)
  | d :: l' => if Declare_ok e d then let '(done, ok) := declare_all e l' in (d :: done, ok) else ([d], false)
  end.

Definition topology (q : AMQP091Queue) : list declaration :=
  ExchangeDeclare (a_Exchange q) (a_ExchangeType q) true (flag (a_AutoDelete q)) ::
  (if is_empty (str (a_Queue q)) then []
   else [QueueDeclare (str (a_Queue q)) true (flag (a_AutoDelete q));
         QueueBind (str (a_Queue q)) (str (a_RoutingKey q)) (a_Exchange q)]).

Definition makeTopology (pools : gmap string channelPool) (e : Z) (st : gset string * list (string * declaration)) (q : AMQP091Queue)
    : gset string * list (string * declaration) :=
  if negb (amqp_configured q) then st
  else if bool_decide (topologyId q ∈ st.1) then st
  else match pools !! connChannelPoolId q with
       | None => st
       | Some pool =>
           if negb (Open e pool) then st
           else
             let '(made, ok) := declare_all e (topology q) in
             ((if (ok : bool) then {[topologyId q]} ∪ st.1 else st.1), st.2 ++ (pair (cp_url pool) <$> made))
       end.

Definition makeAMQPQueue (pools : gmap string channelPool) (mp : gmap string amqpQueue) (q : AMQP091Queue) (dequeueSize : nat)
    : option string * gmap string amqpQueue :=
  if negb (amqp_configured q) then (None, mp)
  else match mp !! amqpQueueId q with
       | Some _ => (Some (amqpQueueId q), mp)
       | None =>
           match pools !! connChannelPoolId q with
           | None => (None, mp)
           | Some pool => (Some (amqpQueueId q), <[amqpQueueId q := newAMQPQueue pool q dequeueSize]> mp)
           end
       end.

Definition sections (a : Queues AMQP091Queue) : list (Z * AMQP091Queue) :=
  [(Event_OnOpen, OnOpenQ a); (Event_OnMessage, OnMessageQ a); (Event_OnClose, OnCloseQ a)].

Definition amqp_pools (a : Queues AMQP091Queue) : gmap string channelPool :=
  foldl (fun mp '(e, q) => makeConnChannel e mp q 256) ∅ (sections a).

Definition amqp_Start (a : Queues AMQP091Queue) : manager * gmap string amqpQueue * list (string * declaration) :=
  let pools := amqp_pools a in
  let '(_, declared) := foldl (fun st '(e, q) => makeTopology pools e st q) (∅, []) (sections a) in
  let '(o, mp) := makeAMQPQueue pools ∅ (OnOpenQ a) 256 in
  let '(m, mp) := makeAMQPQueue pools mp (OnMessageQ a) 256 in
  let '(c, mp) := makeAMQPQueue pools mp (OnCloseQ a) 256 in
  (mkManager o m c, mp, declared).
End AMQP.

(** ** What the events find: the configuration of the running program *)

Definition boot (Ping : Z -> redisClient -> bool) (cpu : Z) (Dial : Z -> string -> bool) (Open : Z -> channelPool -> bool)
    (Declare_ok : Z -> declaration -> bool) (s : settings) : option (config * gmap Z Z) :=
  '(rm, _) ← redis_Start Ping (Redis s);
  let '(am, _, _) := amqp_Start cpu Dial Open Declare_ok (Config.AMQP s) in
  Some (to_config s (events am) (events rm), limit_init s).

(** [Shutdown] of either kind: every entry that is not nil is closed; two events that
    share a queue close it once. *)
Definition Shutdown (m : manager) (queues : gmap string EventQueue.state) : gmap string EventQueue.state :=
  foldl (fun qs e => match Manager_Get m e with
                     | Some id => alter (fun st => (EventQueue.Close st).2) id qs
                     | None => qs
                     end) queues [Event_OnOpen; Event_OnClose; Event_OnMessage].

End Startup.
