(* ===== verification/Accept.v ===== *)
(** The accept loops of the task server (src/internal/task/tcp.go) and of the worker
    server (src/internal/worker/tcp.go), which have the same code. *)

From S2P Require Export Prelude.

Module Accept.

(** What [Accept] answers, and whether the process has been told to stop when the loop
    looks. *)
Inductive answer := Conn (c : nat) | Temporary | Fatal.

Record turn := mkTurn { accepted : answer; stopping : bool }.

(** What the loop does: a goroutine that serves the connection ([process.Process], or
    [process] of a new worker connection), a connection that is closed, a pause. *)
Inductive action := Serve (c : nat) | Close (c : nat) | Sleep (d : Z).

Definition Millisecond : Z := 1000000.
Definition firstDelay : Z := 5 * Millisecond.
Definition maxDelay : Z := 1000 * Millisecond.

Definition next_delay (tempDelay : Z) : Z :=
  let d := if tempDelay =? 0 then firstDelay else i64 (tempDelay * 2) in
  if maxDelay <? d then maxDelay else d.

(** One turn: [None] ends the loop. *)
Definition accept_turn (tempDelay : Z) (t : turn) : option (Z * action) :=
  match accepted t with
  | Conn c => Some (tempDelay, if stopping t then Close c else Serve c)
  | Temporary => if stopping t then None else let d := next_delay tempDelay in Some (d, Sleep d)
  | Fatal => None
  end.

(** [Start]: what it does, and whether it has returned. *)
Fixpoint accept_loop (tempDelay : Z) (l : list turn) : list action * bool :=
  match l with
  | [] => ([], false)
  | t :: l' => match accept_turn tempDelay t with
               | None => ([], true)
               | Some (d, a) => let '(acts, ended) := accept_loop d l' in (a :: acts, ended)
               end
  end.

Definition Start : list turn -> list action * bool := accept_loop 0.

(** ** What it promises *)

(** The turn that ends the loop. *)
Definition ends (t : turn) : bool :=
  match accepted t with Conn _ => false | Temporary => stopping t | Fatal => true end.

(** The turns before that. *)
Fixpoint before_end (l : list turn) : list turn :=
  match l with [] => [] | t :: l' => if ends t then [] else t :: before_end l' end.

Definition is_sleep (a : action) : bool := match a with Sleep _ => true | _ => false end.
Definition is_temporary (t : turn) : bool := match accepted t with Temporary => true | _ => false end.
Definition is_conn (t : turn) : option action :=
  match accepted t with Conn c => Some (if stopping t then Close c else Serve c) | _ => None end.

Definition delay_after (n : nat) : Z := Z.min maxDelay (firstDelay * 2 ^ Z.of_nat n).

Lemma delay_after_bounds n : firstDelay <= delay_after n <= maxDelay.
Proof.
  unfold delay_after, firstDelay, maxDelay, Millisecond. assert (0 < 2 ^ Z.of_nat n) by (apply Z.pow_pos_nonneg; lia). lia.
Qed.

Lemma next_delay_after n : next_delay (delay_after n) = delay_after (S n).
Proof.
  pose proof (delay_after_bounds n) as Hb. unfold next_delay.
  destruct (Z.eqb_spec (delay_after n) 0) as [E|_]; [unfold firstDelay, Millisecond in *; lia|].
  rewrite i64_small by (unfold firstDelay, maxDelay, Millisecond in *; lia).
  unfold delay_after in *. rewrite Nat2Z.inj_succ, Z.pow_succ_r by lia.
  assert (0 < 2 ^ Z.of_nat n) by (apply Z.pow_pos_nonneg; lia). unfold firstDelay, maxDelay, Millisecond in *.
  set (p := 2 ^ Z.of_nat n) in *. case Z.ltb_spec; lia.
Qed.

(** The pauses of a loop that has had [n] temporary errors. *)
Lemma accept_loop_spec l n d :
  (n = 0%nat /\ d = 0 \/ exists k, n = S k /\ d = delay_after k) ->
  let '(acts, ended) := accept_loop d l in
  filter (fun a => is_sleep a = false) acts = omap is_conn (before_end l) /\
  filter is_sleep acts = Sleep <$> (delay_after <$> seq n (length (filter is_temporary (before_end l)))) /\
  length acts = length (before_end l) /\ ended = existsb ends l.
Proof.
  revert n d; induction l as [|t l IH]; intros n d Hd; [done|]. cbn [accept_loop before_end existsb].
  unfold accept_turn, ends at 1 3. destruct (accepted t) as [c| |] eqn:Ea; cbn [orb].
  - specialize (IH n d Hd). destruct (accept_loop d l) as [acts e]. destruct IH as (H1 & H2 & H3 & H4).
    assert (is_conn t = Some (if stopping t then Close c else Serve c)) as Ec by (unfold is_conn; by rewrite Ea).
    assert (is_temporary t = false) as Et by (unfold is_temporary; by rewrite Ea).
    cbn [omap list_omap]. rewrite Ec. unfold ends. rewrite Ea. cbn [orb].
    rewrite filter_cons_True by (by destruct (stopping t)). rewrite (filter_cons_False is_sleep) by (destruct (stopping t); by intros []).
    rewrite (filter_cons_False is_temporary) by (rewrite Et; by intros []). cbn [omap list_omap]. rewrite ?Ec. cbn [length]. by rewrite H1, H3.
  - unfold ends. rewrite Ea. destruct (stopping t); cbn [orb]; [by split_and!|].
    assert (next_delay d = delay_after n) as En by (destruct Hd as [[-> ->]|(k & -> & ->)]; [reflexivity|apply next_delay_after]).
    rewrite En. specialize (IH (S n) (delay_after n) (or_intror (ex_intro _ n (conj eq_refl eq_refl)))).
    destruct (accept_loop (delay_after n) l) as [acts e]. destruct IH as (H1 & H2 & H3 & H4).
    assert (is_conn t = None) as Ec by (unfold is_conn; by rewrite Ea).
    assert (is_temporary t = true) as Et by (unfold is_temporary; by rewrite Ea).
    rewrite filter_cons_False by done. rewrite (filter_cons_True is_sleep) by exact I.
    rewrite (filter_cons_True is_temporary) by (by rewrite Et). cbn [omap list_omap length seq fmap list_fmap]. rewrite ?Ec. by rewrite H1, H2, H3.
  - unfold ends. rewrite Ea. by split_and!.
Qed.

(** The accept loop goes on until the listener fails for good, or fails in any way
    after the process was told to stop. Until then every connection, in order, gets its
    goroutine, or is closed when the process is stopping, and every temporary error gives
    a pause: five milliseconds for the first, twice the last one after that, a second at
    most, however many connections were accepted in between. *)
Theorem accept_correct l :
  let '(acts, ended) := Start l in
  filter (fun a => is_sleep a = false) acts = omap is_conn (before_end l) /\
  filter is_sleep acts = Sleep <$> (delay_after <$> seq 0 (length (filter is_temporary (before_end l)))) /\
  length acts = length (before_end l) /\ ended = existsb ends l /\
  (forall d, Sleep d ∈ acts -> firstDelay <= d <= maxDelay).
Proof.
  pose proof (accept_loop_spec l 0 0 (or_introl (conj eq_refl eq_refl))) as H. unfold Start.
  destruct (accept_loop 0 l) as [acts e]. destruct H as (H1 & H2 & H3 & H4). split_and!; try done.
  intros d Hd. assert (Sleep d ∈ filter is_sleep acts) as Hf by (by apply list_elem_of_filter). rewrite H2 in Hf.
  apply list_elem_of_fmap in Hf as (x & [= ->] & (n & -> & _)%list_elem_of_fmap). apply delay_after_bounds.
Qed.

Lemma accept_correct_witness :
  filter (fun a => is_sleep a = false) (Start [mkTurn Temporary false; mkTurn (Conn 1) false; mkTurn Fatal true]).1 = [Serve 1] /\
  (firstDelay <= 5 * Millisecond <= maxDelay).
Proof.
  destruct (accept_correct [mkTurn Temporary false; mkTurn (Conn 1) false; mkTurn Fatal true]) as (H & _ & _ & _ & Hd).
  split; [exact H|]. apply Hd. vm_compute. left.
Defined.

(** A second error an hour after the first waits twice as long. *)
Example accept_keeps_delay :
  Start [mkTurn Temporary false; mkTurn (Conn 1) false; mkTurn (Conn 2) false; mkTurn Temporary false; mkTurn (Conn 3) true; mkTurn Fatal true]
  = ([Sleep (5 * Millisecond); Serve 1; Serve 2; Sleep (10 * Millisecond); Close 3], true).
Proof. reflexivity. Qed.
End Accept.
