(* ===== verification/SlicePool.v ===== *)
(** src/internal/utils/slicePool: pools of slices by capacity (string.go and wsConn.go,
    the same code for two kinds of elements). A slice is an object with a capacity
    and elements; [sync.Pool] hands out any object put into it, forgets what it
    likes, and makes a new one when it has none to give. *)

From S2P Require Export Prelude.

Module SlicePool.

Section Pool.
Context {A : Type}.

Record slice := mkSlice { capacity : Z; elements : list A }.

(** [heap] are the slices that exist; [pools] what each pool holds. *)
Record pool := mkPool { step : Z; heap : gmap nat slice; pools : gmap Z (list nat) }.

Definition set_heap (h : gmap nat slice) (p : pool) : pool := mkPool (step p) h (pools p).
Definition set_pools (m : gmap Z (list nat)) (p : pool) : pool := mkPool (step p) (heap p) m.

(** [NewStrSlice], [NewWsConn]. *)
Definition New (step : Z) : pool := mkPool (if step <=? 0 then 16 else step) ∅ ∅.

Definition poolIndex (capacity : Z) (p : pool) : Z := (capacity + step p - 1) / step p.

(** [make]: [s] is an address that is not in use. *)
Definition make (s : nat) (idx : Z) (p : pool) : pool := set_heap (<[s := mkSlice (idx * step p) []]> (heap p)) p.

(** [Get]: [choice] says which of the objects of a pool is handed out, if any. *)
Definition Get (cap : Z) (choice : option nat) (s : nat) (p : pool) : nat * pool :=
  let cap := if cap <=? 0 then 1 else cap in
  let idx := poolIndex cap p in
  match pools p !! idx, choice with
  | Some l, Some i =>
      match l !! i with
      | Some t => (t, set_pools (<[idx := delete i l]> (pools p)) p)
      | None => (s, make s idx p)
      end
  | _, _ => (s, make s idx p)
  end.

(** [Put]: emptied, and into the pool of its capacity, which is made if need be. *)
Definition Put (s : nat) (p : pool) : pool :=
  match heap p !! s with
  | None => p
  | Some sl =>
      let idx := poolIndex (capacity sl) p in
      let p := set_heap (<[s := mkSlice (capacity sl) []]> (heap p)) p in
      set_pools (<[idx := s :: default [] (pools p !! idx)]> (pools p)) p
  end.

(** What its user does with a slice: [append], which may give it another array. *)
Definition append (s : nat) (l : list A) (newcap : Z) (p : pool) : pool :=
  match heap p !! s with
  | None => p
  | Some sl =>
      let l' := elements sl ++ l in
      set_heap (<[s := mkSlice (if len l' <=? capacity sl then capacity sl else Z.max newcap (len l')) l']> (heap p)) p
  end.

(** Several users; [held] are the slices that they have. *)
Inductive pstep : pool * list nat -> pool * list nat -> Prop :=
  | p_get p held cap choice s : s ∉ dom (heap p) ->
      pstep (p, held) ((Get cap choice s p).2, (Get cap choice s p).1 :: held)
  | p_put p held1 s held2 : pstep (p, held1 ++ s :: held2) (Put s p, held1 ++ held2)
  | p_append p held s l newcap : s ∈ held -> pstep (p, held) (append s l newcap p, held)
  | p_forget p held idx l1 s l2 : pools p !! idx = Some (l1 ++ s :: l2) ->
      pstep (p, held) (set_pools (<[idx := l1 ++ l2]> (pools p)) p, held).

Definition reachable (stp : Z) (st : pool * list nat) : Prop := star pstep (New stp, []) st.

(** ** The invariant *)

(** A slice in a pool is there once, in no other and in nobody's hands; it is empty, and
    belongs there by its capacity. *)
Record inv (st : pool * list nat) : Prop := mkInv {
  i_step : 0 < step st.1;
  i_held : NoDup st.2 /\ Forall (fun s => s ∈ dom (heap st.1)) st.2;
  i_pools : forall idx l, pools st.1 !! idx = Some l ->
    NoDup l /\ Forall (fun s => (s ∉ st.2) /\ exists c, heap st.1 !! s = Some (mkSlice c []) /\ poolIndex c st.1 = idx) l;
}.

Lemma new_slices_inv stp : inv (New stp, []).
Proof.
  split; cbn.
  - destruct (Z.leb_spec stp 0); lia.
  - split; constructor.
  - intros idx l. by rewrite lookup_empty.
Qed.

(** A slice that is not in the pools may change. *)
Lemma inv_heap p held s sl :
  inv (p, held) -> s ∈ held -> inv (set_heap (<[s := sl]> (heap p)) p, held).
Proof.
  intros [Hs [Hn Hd] Hp] Hin. split; cbn [fst snd step set_heap heap pools] in *; [done| |].
  - split; [done|]. eapply Forall_impl; [exact Hd|]. intros t Ht. cbn. rewrite dom_insert. set_solver.
  - intros idx l Hl. destruct (Hp idx l Hl) as [Hnd Hf]. split; [done|]. eapply Forall_impl; [exact Hf|].
    cbn. intros t (Ht & c & Hc & Hi). split; [done|]. exists c. rewrite lookup_insert_ne by (intros ->; done). done.
Qed.

Lemma inv_make p held s idx :
  inv (p, held) -> s ∉ dom (heap p) -> inv (make s idx p, s :: held).
Proof.
  intros [Hs [Hn Hd] Hp] Hin. assert (s ∉ held) as Hh by (intros H; rewrite Forall_forall in Hd; by apply Hin, Hd).
  split; cbn [fst snd step make set_heap heap pools] in *; [done| |].
  - split; [by constructor|]. constructor; [rewrite dom_insert; set_solver|].
    eapply Forall_impl; [exact Hd|]. intros t Ht. cbn. rewrite dom_insert. set_solver.
  - intros j l Hl. destruct (Hp j l Hl) as [Hnd Hf]. split; [done|]. eapply Forall_impl; [exact Hf|].
    cbn. intros t (Ht & c & Hc & Hi). assert (t <> s) as Hts by (intros ->; apply Hin, elem_of_dom; eauto).
    split; [by apply not_elem_of_cons|]. exists c. by rewrite lookup_insert_ne by done.
Qed.

(** Objects that leave a pool. *)
Lemma inv_shrink p held idx l l' :
  inv (p, held) -> pools p !! idx = Some l -> l' `sublist_of` l -> inv (set_pools (<[idx := l']> (pools p)) p, held).
Proof.
  intros [Hs Hh Hp] Hl Hsub. split; cbn [fst snd step set_pools heap pools] in *; [done|done|].
  intros j k. destruct (decide (j = idx)) as [->|Hne]; [|rewrite lookup_insert_ne by done; apply Hp].
  rewrite lookup_insert_eq. intros [= <-]. destruct (Hp idx l Hl) as [Hnd Hf].
  split; [by eapply sublist_NoDup|]. rewrite Forall_forall in Hf |- *. intros t Ht. apply Hf. by eapply sublist_subseteq.
Qed.

(** What [Get] hands out. *)
Lemma Get_spec p held cap choice s :
  inv (p, held) -> s ∉ dom (heap p) ->
  let '(t, p') := Get cap choice s p in
  inv (p', t :: held) /\
  exists c, heap p' !! t = Some (mkSlice c []) /\ poolIndex c p = poolIndex (if cap <=? 0 then 1 else cap) p.
Proof.
  intros Hinv Hs. unfold Get. set (cap' := if cap <=? 0 then 1 else cap). set (idx := poolIndex cap' p).
  assert (inv (make s idx p, s :: held) /\ exists c, heap (make s idx p) !! s = Some (mkSlice c []) /\ poolIndex c p = idx) as Hnew.
  { split; [by apply inv_make|]. exists (idx * step p). cbn. rewrite lookup_insert_eq. split; [done|].
    pose proof (i_step _ Hinv) as Hst. cbn [fst] in Hst. unfold poolIndex.
    symmetry. apply (Z.div_unique_pos _ _ _ (step p - 1)); lia. }
  destruct (pools p !! idx) as [l|] eqn:El; [|exact Hnew]. destruct choice as [i|]; [|exact Hnew].
  destruct (l !! i) as [t|] eqn:Et; [|exact Hnew]. destruct (i_pools _ Hinv idx l El) as [Hnd Hf].
  assert (t ∈ l) as Ht by (by eapply list_elem_of_lookup_2). rewrite Forall_forall in Hf.
  destruct (Hf t Ht) as (Hth & c & Hc & Hi). cbn [fst snd] in *.
  split; [|exists c; cbn; done].
  destruct (inv_shrink p held idx l (delete i l) Hinv El) as [H1 [H2 H3] H4]; [apply sublist_delete|].
  split; cbn [fst snd step set_pools heap pools] in *; [done| |].
  - split; [by constructor|]. constructor; [apply elem_of_dom; eauto|done].
  - intros j k Hk. destruct (H4 j k Hk) as [Hnk Hfk]. split; [done|]. rewrite Forall_forall in Hfk |- *. intros u Hu.
    destruct (Hfk u Hu) as (Huh & cu & Hcu & Hiu). split; [|by exists cu]. apply not_elem_of_cons. split; [|done]. intros ->.
    assert (j = idx) as -> by (rewrite Hcu in Hc; injection Hc as ->; unfold poolIndex in *; cbn in *; congruence).
    rewrite lookup_insert_eq in Hk. injection Hk as <-. rewrite delete_take_drop in Hu.
    rewrite <- (take_drop_middle l i t Et) in Hnd. apply NoDup_app in Hnd as (_ & Hd & Hn). apply NoDup_cons in Hn as [Hn _].
    apply elem_of_app in Hu as [Hu|Hu]; [apply (Hd t Hu); by left|done].
Qed.

(** A slice goes back. *)
Lemma Put_inv p held1 s held2 : inv (p, held1 ++ s :: held2) -> inv (Put s p, held1 ++ held2).
Proof.
  intros [Hs [Hn Hd] Hp]. cbn [fst snd] in *. assert (held1 ++ s :: held2 ≡ₚ s :: held1 ++ held2) as E by (symmetry; apply Permutation_middle).
  rewrite E in Hn, Hd. apply NoDup_cons in Hn as [Hsn Hn]. apply Forall_cons in Hd as [Hsd Hd].
  apply elem_of_dom in Hsd as [sl Hsl]. unfold Put. rewrite Hsl. split; cbn [fst snd step set_pools set_heap heap pools] in *; [done| |].
  - split; [done|]. eapply Forall_impl; [exact Hd|]. intros t Ht. cbn. rewrite dom_insert. set_solver.
  - assert (forall j k, pools p !! j = Some k -> (s ∉ k) /\ NoDup k /\
      Forall (fun t => (t ∉ held1 ++ held2) /\ exists c, <[s:=mkSlice (capacity sl) []]> (heap p) !! t = Some (mkSlice c []) /\ poolIndex c p = j) k) as Hold.
    { intros j k Hk. destruct (Hp j k Hk) as [Hnk Hfk]. rewrite Forall_forall in Hfk.
      split; [intros Hin; destruct (Hfk s Hin) as [Hx _]; apply Hx; rewrite E; by left|]. split; [done|].
      apply Forall_forall. intros t Ht. destruct (Hfk t Ht) as (Hth & c & Hc & Hi). rewrite E in Hth.
      apply not_elem_of_cons in Hth as [Hts Hth]. split; [done|]. exists c. by rewrite lookup_insert_ne by done. }
    intros j k. destruct (decide (j = poolIndex (capacity sl) p)) as [->|Hne].
    2: { rewrite lookup_insert_ne by done. intros Hk. apply (Hold j k Hk). }
    rewrite lookup_insert_eq. intros [= <-].
    assert ((s ∉ held1 ++ held2) /\ exists c, <[s:=mkSlice (capacity sl) []]> (heap p) !! s = Some (mkSlice c []) /\
      poolIndex c p = poolIndex (capacity sl) p) as Hnew by (split; [done|]; exists (capacity sl); by rewrite lookup_insert_eq).
    destruct (pools p !! _) as [k|] eqn:Ek; cbn [default from_option id].
    + destruct (Hold _ _ Ek) as (Hsk & Hnk & Hfk). split; [by constructor|]. by constructor.
    + split; [apply NoDup_singleton|]. by constructor.
Qed.

Lemma slices_step_inv st st' : inv st -> pstep st st' -> inv st'.
Proof.
  intros Hi Hs. destruct Hs as [p held cap choice s Hf|p held1 s held2|p held s l newcap Hin|p held idx l1 s l2 Hl].
  - pose proof (Get_spec p held cap choice s Hi Hf) as Hg. destruct (Get cap choice s p) as [t p']. apply Hg.
  - by apply Put_inv.
  - unfold append. destruct (heap p !! s) as [sl|]; [|done]. by apply inv_heap.
  - eapply inv_shrink; [done|exact Hl|]. apply sublist_app; [done|]. by apply sublist_cons.
Qed.

Lemma slices_reachable_inv stp st : reachable stp st -> inv st.
Proof. intros Hr. eapply star_invariant; [exact slices_step_inv|exact Hr|apply new_slices_inv]. Qed.

(** A slice of the same pool has room but for less than a step. *)
Lemma same_pool_room n c cap :
  0 < n -> (c + n - 1) / n = (cap + n - 1) / n -> cap - n < c /\ (c mod n = 0 -> cap <= c).
Proof.
  intros Hn E. pose proof (Z.mod_pos_bound (c + n - 1) n Hn). pose proof (Z.mod_pos_bound (cap + n - 1) n Hn).
  pose proof (Z.div_mod (c + n - 1) n ltac:(lia)) as H1. pose proof (Z.div_mod (cap + n - 1) n ltac:(lia)) as H2. rewrite E in H1.
  split; [lia|]. intros Hm. apply Z.mod_divide in Hm as [k ->]; [|lia].
  assert (k = (k * n + n - 1) / n) as Hk by (apply (Z.div_unique_pos _ _ _ (n - 1)); lia).
  rewrite E in Hk. rewrite <- Hk in *. lia.
Qed.

(** Whatever slices were taken, filled, grown, put back and forgotten before, by
    any number of users: the slice that [Get] hands out is empty, nobody else has it,
    it is in no pool any more, and it has room for what was asked but for less than a
    step; it has all of it unless a slice with an odd capacity was put back. *)
Theorem slice_pool_correct stp p held cap choice s :
  reachable stp (p, held) -> s ∉ dom (heap p) ->
  let '(t, p') := Get cap choice s p in
  (t ∉ held) /\ (forall idx l, pools p' !! idx = Some l -> t ∉ l) /\
  exists c, heap p' !! t = Some (mkSlice c []) /\ cap - step p < c /\ (c mod step p = 0 -> cap <= c).
Proof.
  intros Hr%slices_reachable_inv Hf. pose proof (Get_spec p held cap choice s Hr Hf) as Hg.
  destruct (Get cap choice s p) as [t p']. destruct Hg as [[_ [Hn _] Hp] (c & Hc & Hi)]. pose proof (i_step _ Hr) as Hs.
  cbn [fst snd] in *. apply NoDup_cons in Hn as [Hn _]. split; [done|]. split.
  - intros idx l Hl Hin. destruct (Hp idx l Hl) as [_ Hfl]. rewrite Forall_forall in Hfl. destruct (Hfl t Hin) as [Hx _]. apply Hx. by left.
  - exists c. split; [done|]. unfold poolIndex in Hi.
    destruct (same_pool_room _ _ _ Hs Hi) as [H1 H2]. destruct (Z.leb_spec cap 0); split; [lia|intros Hm; specialize (H2 Hm); lia|lia|done].
Qed.

End Pool.

(** ** The two kinds

    The elements of the lists are texts in string.go and connections in wsConn.go, and
    connSlice.go makes the pool of the latter that the process uses. *)
Definition NewStrSlice : Z -> pool (A := string) := New.
Definition StrSlice_Get : Z -> option nat -> nat -> pool (A := string) -> nat * pool := Get.
Definition StrSlice_Put : nat -> pool (A := string) -> pool := Put.

(** A connection is its address. *)
Definition NewWsConn : Z -> pool (A := nat) := New.
Definition WsConn_Get : Z -> option nat -> nat -> pool (A := nat) -> nat * pool := Get.
Definition WsConn_Put : nat -> pool (A := nat) -> pool := Put.

Definition ConnSlice : pool (A := nat) := NewWsConn 1024.

(** Two lists are taken, filled, put back and taken again. *)
Lemma slice_pool_correct_witness :
  exists (p : pool (A := nat)) c, heap p !! 1%nat = Some (mkSlice c []) /\ 17 - 16 < c.
Proof.
  set (p1 := (Get (A := nat) 20 None 1 (New 0)).2). set (p2 := append 1 [7%nat; 8%nat] 0 p1). set (p3 := Put 1 p2).
  assert (reachable 0 (p3, [])) as Hr.
  { eapply star_cons; [apply (p_get _ _ 20 None 1); done|]. eapply star_cons; [apply (p_append _ _ 1 [7%nat; 8%nat] 0); by left|].
    eapply star_cons; [apply (p_put _ [] 1 [])|]. apply star_nil. }
  assert (2%nat ∉ dom (heap p3)) as Hf by (apply not_elem_of_dom; reflexivity).
  destruct (slice_pool_correct 0 p3 [] 17 (Some 0%nat) 2 Hr Hf) as (_ & _ & c & Hc & Hroom & _).
  exists (Get 17 (Some 0%nat) 2 p3).2, c. split; [exact Hc|exact Hroom].
Defined.
End SlicePool.
