(* ===== verification/Races.v ===== *)
(** Interleavings that break what each operation keeps when it runs alone: the code
    updates a connection and the registries under different locks. Each is a run of
    the pool of goroutines from a good state, found with the executable scheduler. *)

From S2P Require Export Demo.

Definition finished {W} (m : go W unit) : bool := match m with Ret _ => true | _ => false end.

(** ** Opening and closing

    The task that opens a connection looks at the closed flag once; here the whole
    close event comes between that look and the registration. *)

Definition opening : prog unit := open_task demo_config 3 (mkRequest "GET" "/netsvr" "" ∅).
Definition closing : prog unit := (_action <- OnClose demo_config 3 ;; Ret tt).

(** The run ends with a connection in the registry that is closed, and whose close
    event, which alone takes connections out, is over. *)
Theorem open_close_race :
  exists ts w, star (gstep (fun _ _ => False)) ([opening; closing], demo_world) (ts, w) /\
    finished <$> take 2 ts = [true; true] /\
    m_lookup (reg w) "u3" = Some 3%nat /\ (fun c => IsClosedOnSafe (c_codec c)) <$> heap w !! 3%nat = Some true.
Proof.
  assert (exists r, schedule (0 :: replicate 7 1 ++ replicate 6 0)%nat [opening; closing] demo_world = Some r /\
    finished <$> take 2 r.1 = [true; true] /\ m_lookup (reg r.2) "u3" = Some 3%nat /\
    (fun c => IsClosedOnSafe (c_codec c)) <$> heap r.2 !! 3%nat = Some true) as ([ts w] & Hs & Hrest)
    by (eexists; split; [vm_compute; reflexivity|vm_compute; by split_and!]).
  exists ts, w. split; [|exact Hrest]. by eapply schedule_star.
Qed.

(** ** Deleting a topic and subscribing to it

    [topicDelete] takes the topic out of the registry first and out of its connections
    afterwards; here a subscription of one of them comes in between. *)

Definition subscribed_world : world := after (topicSubscribe demo_config []) demo_world.

(** What is left of a run: which of the first two goroutines are done, the subscribers,
    and those after the connection has been closed as well. *)
Definition left_over (r : list (prog unit) * world) : list bool * bool * list ptr * list ptr :=
  (finished <$> take 2 r.1,
   bool_decide ("news"%string ∈ dom (default ∅ ((fun c => default ∅ (topics (c_info c))) <$> heap r.2 !! 1%nat))),
   subscribers (reg r.2) "news", subscribers (reg (after (OnClose demo_config 1) r.2)) "news").

(** The run ends with a subscriber that does not know of its topic, and closing the
    connection does not take it out. *)
Theorem delete_subscribe_race :
  exists r, star (gstep (fun _ _ => False)) ([topicSubscribe demo_config []; topicDelete demo_config []], subscribed_world) r /\
    left_over r = ([true; true], false, [1%nat], [1%nat]).
Proof.
  assert (exists r, schedule (1 :: replicate 15 0 ++ replicate 16 1)%nat [topicSubscribe demo_config []; topicDelete demo_config []] subscribed_world = Some r /\
    left_over r = ([true; true], false, [1%nat], [1%nat])) as ([ts w] & Hs & Hl)
    by (eexists; split; [vm_compute; reflexivity|vm_compute; reflexivity]).
  exists (ts, w). split; [by eapply schedule_star|exact Hl].
Qed.

(** ** Opening and changing the customerId

    The opening task writes the info under the lock, makes the connection known to the
    manager and adds the binder entry after that; here a [ConnInfoUpdate] of the same
    connection comes in between. *)

Definition opening_alice : prog unit :=
  open_accepted demo_config 2 (mkConnOpen "u2" "" "" "" "1.2.3.4:5") (Some demo_answer).

(** The customerId of connection 2 and the connections under two names. *)
Definition names_of_2 (w : world) : option string * list ptr * list ptr :=
  ((fun c => customerId (c_info c)) <$> heap w !! 2%nat,
   (map_to_list (default ∅ (b_lookup (reg w) "alice"))).*2, (map_to_list (default ∅ (b_lookup (reg w) "bob"))).*2).

(** The run ends with the connection under both names, and closing it leaves it under
    the one it never had in the end. *)
Theorem open_update_race :
  exists r, star (gstep (fun _ _ => False)) ([opening_alice; connInfoUpdate demo_config []], demo_one) r /\
    finished <$> take 2 r.1 = [true; true] /\
    names_of_2 r.2 = (Some "bob"%string, [2%nat], [2%nat]) /\
    names_of_2 (after (OnClose demo_config 2) r.2) = (Some "bob"%string, [2%nat], []).
Proof.
  assert (exists r, schedule (replicate 6 0 ++ replicate 24 1 ++ replicate 12 0)%nat
      [opening_alice; connInfoUpdate demo_config []] demo_one = Some r /\
    finished <$> take 2 r.1 = [true; true] /\
    names_of_2 r.2 = (Some "bob"%string, [2%nat], [2%nat]) /\
    names_of_2 (after (OnClose demo_config 2) r.2) = (Some "bob"%string, [2%nat], [])) as ([ts w] & Hs & Hl)
    by (eexists; split; [vm_compute; reflexivity|vm_compute; by split_and!]).
  exists (ts, w). split; [by eapply schedule_star|exact Hl].
Qed.
