(* ===== verification/Interleave.v ===== *)
(** The handlers of the gateway side by side: the goroutines that serve business
    connections, the tasks that open connections, the close events, the event loops that go
    through the bytes of a connection, messages, pings and heartbeat checks, and the
    business connections for events that register and go, in any number and any order of
    their actions. *)

From S2P Require Export OwnerTraffic.

(** What may be going on. *)
Inductive event :=
  | EvTask (p : ptr)                        (* a business connection is served *)
  | EvOpen (p : ptr) (req : request)        (* the task of [OnWebsocketOpen] *)
  | EvClose (p : ptr)
  | EvTraffic (p : ptr)                     (* bytes of a connection are there *)
  | EvMessage (p : ptr) (op : Z) (d : bytes)
  | EvPing (p : ptr)
  | EvHeartbeat (p : ptr)
  | EvWorker (p : ptr)                      (* a business connection for events is read *)
  | EvWorkerClose (p : ptr).                (* its sending goroutine has failed to write *)

Section Interleave.
Context {MO : MapOrder} `{Deflate} `{Proto} `{Http} {SV : Serving}.
Abbreviation cf := sv_config.
Abbreviation seen := (world * gset token)%type.

Definition goroutine (e : event) : prog unit :=
  match e with
  | EvTask p => Process cf p
  | EvOpen p req => recover (open_task cf p req)
  | EvClose p => _action <- OnClose cf p ;; Ret tt
  | EvTraffic p => _action <- OnTraffic cf p ;; gets (fun _ => tt)    (* and back to the library *)
  | EvMessage p op d => OnWebsocketMessage cf p op d
  | EvPing p => OnWebsocketPing p
  | EvHeartbeat p => _go_on <- heartbeat_check cf p ;; Ret tt
  | EvWorker p => worker_process cf p
  | EvWorkerClose p => Worker_Close p
  end.

(** The token an event starts with. *)
Definition owned (e : event) : option token :=
  match e with
  | EvTask p => Some (TTask p)
  | EvClose p => if decide (p ∈ tracked) then Some (TOnline p) else None
  | EvTraffic p => Some (TLoop p)
  | EvWorker p => Some (TReader p)
  | _ => None
  end.

Definition own_set (e : event) : gset token := match owned e with Some t => {[t]} | None => ∅ end.

(** The connections of an event are there; one is upgraded and opened before it is
    tracked; and the bytes of an upgraded one hold no frame whose length wraps around. *)
Definition possible (w : world) (e : event) : Prop :=
  match e with
  | EvTask p => is_Some (tasks w !! p)
  | EvOpen p _ => is_Some (heap w !! p) /\ p ∉ tracked
  | EvClose p => exists c, heap w !! p = Some c /\ (p ∈ tracked -> isUpgraded (c_codec c) = true)
  | EvTraffic p => p ∈ busy /\ exists c, heap w !! p = Some c /\
      (isUpgraded (c_codec c) = true -> wf_inbound (c_gnet c) /\ ~ holds_overflow (inbound (c_gnet c))) /\
      (isUpgraded (c_codec c) = false -> p ∉ tracked)
  | EvMessage p _ _ | EvPing p | EvHeartbeat p => is_Some (heap w !! p)
  | EvWorker p => is_empty (cf_WorkerListenAddress cf) = false /\ p ∈ reading /\ is_Some (workers w !! p)
  | EvWorkerClose p => is_empty (cf_WorkerListenAddress cf) = false /\ is_Some (workers w !! p)
  end.

(** A state between two handlers, each handler run to its end before the next. *)
Record at_rest (w : world) : Prop := {
  ar_inv : Inv w;
  ar_flagged p c : heap w !! p = Some c -> flagged c;
  ar_names p q c d : heap w !! p = Some c -> heap w !! q = Some d -> uniqId (c_info c) = uniqId (c_info d) -> p = q;
  ar_workers : workers_ok cf w;
  ar_tracked p : p ∈ tracked -> exists c, heap w !! p = Some c /\ is_online (reg w) p c;
}.

Record starts (evs : list event) (w : world) : Prop := {
  st_rest : at_rest w;
  st_possible : Forall (possible w) evs;
  st_once : NoDup (omap owned evs);    (* a connection is closed once, and has one event loop or goroutine *)
}.

(** Time passes, libraries answer, the network moves bytes (not those an event loop goes
    through), business processes connect and send (nothing more to those who are read), the
    sending goroutines take packets: what is no action of these goroutines. *)
Inductive surroundings (w : world) : world -> Prop :=
  | sur_env e : surroundings w (with_env e w)
  | sur_conn p c c' : heap w !! p = Some c -> same_conn c c' -> locked (c_info c') = locked (c_info c) ->
      guarded (c_info c') = guarded (c_info c) -> (p ∈ busy -> own_view c' = own_view c) -> surroundings w (with_heap (insert p c') w)
  | sur_worker p c' : (p ∈ reading -> forall c, workers w !! p = Some c -> n_in (w_net c') = n_in (w_net c)) ->
      surroundings w (with_workers (insert p c') w).

Lemma surroundings_ok : env_ok surroundings.
Proof.
  intros w w' G [e|p c c' Hp Hs Hl Hg Hb|p c' Hin] Hi.
  - assert (aside w (with_env e w)) as Ha by (by apply aside_inner).
    split; [by eapply aside_good|]. intros h _. by apply aside_rely.
  - destruct (conn_step w G p c c' Hi Hp Hs Hl Hg Hb) as [Hi' Hr]. split; [done|]. exact Hr.
  - destruct (worker_step w G p c' Hi) as [Hi' Hr]. split; [done|]. intros h Hh. apply Hr.
    intros Ht. by apply Hin, (gd_busy _ _ Hi p), Hh.
Qed.

(** ** The tokens at the start *)

Definition closing (evs : list event) (p : ptr) : Prop := EvClose p ∈ evs.

#[export] Instance event_close_dec evs p : Decision (closing evs p).
Proof.
  unfold closing. induction evs as [|e evs IH]; [right; apply not_elem_of_nil|].
  destruct IH as [IH|IH]; [left; by right|].
  destruct e as [q|q r|q|q|q o d|q|q|q|q];
    try (right; intros [Hx|Hx]%elem_of_cons; [discriminate|done]).
  destruct (decide (p = q)) as [->|Hne]; [left; constructor|right].
  intros [Hx|Hx]%elem_of_cons; [by injection Hx|done].
Defined.

(** The tracked connections without a close event. *)
Definition staying (evs : list event) : gset token :=
  set_map TOnline (filter (fun p => ~ closing evs p) tracked : gset ptr).

Definition first_tokens (evs : list event) : gset token := staying evs ∪ ⋃ (own_set <$> evs).

Lemma elem_of_staying evs t : t ∈ staying evs <-> exists p, t = TOnline p /\ p ∈ tracked /\ ~ closing evs p.
Proof.
  unfold staying. rewrite elem_of_map. split.
  - intros (p & -> & Hp). apply elem_of_filter in Hp as [? ?]. eauto.
  - intros (p & -> & Hp & Hn). exists p. split; [done|]. by apply elem_of_filter.
Qed.

Lemma elem_of_owned evs t : t ∈ ⋃ (own_set <$> evs) <-> exists e, e ∈ evs /\ owned e = Some t.
Proof.
  rewrite elem_of_union_list. split.
  - intros (X & HX & Ht). apply list_elem_of_fmap in HX as (e & -> & He). exists e. split; [done|].
    unfold own_set in Ht. destruct (owned e) as [t'|]; [|set_solver]. apply elem_of_singleton in Ht. by subst.
  - intros (e & He & Ht). exists (own_set e). split; [apply list_elem_of_fmap; eauto|]. unfold own_set. rewrite Ht. set_solver.
Qed.

Lemma first_online evs p : TOnline p ∈ first_tokens evs <-> p ∈ tracked.
Proof.
  unfold first_tokens. rewrite elem_of_union, elem_of_staying, elem_of_owned. split.
  - intros [(q & [= <-] & Hq & _)|(e & He & Ho)]; [done|]. destruct e as [q|q r|q|q|q o d|q|q|q|q]; cbn in Ho; try discriminate.
    destruct (decide (q ∈ tracked)); [by simplify_eq|done].
  - intros Hp. destruct (decide (closing evs p)) as [Hc|Hc]; [right|left; eauto].
    exists (EvClose p). split; [done|]. cbn. by rewrite decide_True.
Qed.

Lemma first_other evs t : t ∈ first_tokens evs -> match t with TOnline _ | TTask _ | TLoop _ | TReader _ => True | _ => False end.
Proof.
  unfold first_tokens. rewrite elem_of_union, elem_of_staying, elem_of_owned.
  intros [(q & -> & _)|(e & He & Ho)]; [done|].
  destruct e as [q|q r|q|q|q o d|q|q|q|q]; cbn in Ho; try discriminate; [by simplify_eq| |by simplify_eq|by simplify_eq].
  destruct (decide (q ∈ tracked)); [by simplify_eq|done].
Qed.

Lemma first_alive evs p : alive (first_tokens evs) p <-> p ∈ tracked.
Proof.
  unfold alive. rewrite first_online. split; [intros [Hp|Hp]; [done|by apply first_other in Hp]|by left].
Qed.

Lemma first_reader evs w p :
  Forall (possible w) evs -> (TLoop p ∈ first_tokens evs -> p ∈ busy) /\ (TReader p ∈ first_tokens evs -> p ∈ reading).
Proof.
  intros Hpos. rewrite Forall_forall in Hpos. unfold first_tokens.
  split; rewrite elem_of_union, elem_of_staying, elem_of_owned;
    (intros [(q & [=] & _)|(e & He & Ho)]; apply Hpos in He; destruct e as [q|q r|q|q|q o d|q|q|q|q]; cbn in Ho; try discriminate;
     [by case_decide|simplify_eq; apply He]).
Qed.

(** A state at rest is a good state. *)
Lemma at_rest_good evs w : at_rest w -> Forall (possible w) evs -> Owner.good w (first_tokens evs).
Proof.
  intros [(Hc & Hu & _) Hfl Hn Hw Ht] Hpos. split.
  - intros p. split; [by intros Hp%first_other|]. intros (c & Hp & Hl). by rewrite (Hu p c Hp) in Hl.
  - split; [apply Hc..| | |].
    + apply (cs_online _ _ Hc).
    + intros k i p Hm. apply (cs_binder _ _ Hc) in Hm as (c & Hp & Hi & _). eauto.
    + intros k i p Hm. apply (cs_topic _ _ Hc) in Hm as (c & Hp & Hi & _). eauto.
  - intros p q c d Hp Hq [E|E]; [by eapply (cs_ids _ _ Hc)|by eapply Hn].
  - exact Hfl.
  - split; intros p.
    + intros [Hp|Hp]; [by apply first_alive in Hp|by apply first_other in Hp].
    + intros _ Hp. by apply first_other in Hp.
    + intros _ Hp. by apply first_other in Hp.
  - exact Hw.
  - intros p Hp. destruct (Ht p Hp) as (c & Hc0 & Hon). exists c. split; [done|]. split.
    + intros k q Hm. apply (cs_binder _ _ Hc) in Hm as (d & Hd & Hi & _ & Hk & Hne).
      assert (q = p) as -> by (by eapply (cs_ids _ _ Hc)). simplify_eq.
      split_and!; [done|left; by apply first_alive|by left].
    + intros _ _ Hk. apply (cs_binder _ _ Hc). exists c. by split_and!.
    + intros Hna. destruct Hna. by apply first_alive.
    + rewrite first_online. done.
  - intros p. by eapply first_reader.
Qed.

(** ** Each goroutine is safe *)

Lemma calm_safe {A} s (m : prog A) (P : A -> seen -> Prop) : calm ∅ s m P -> safe m ∅ s (fun _ h' _ => h' = ∅).
Proof. intros Hm. eapply safe_mono; [exact Hm|]. by intros ? ? ? (-> & _). Qed.

Lemma goroutine_safe w G e : possible w e -> safe (goroutine e) (own_set e) (w, G) (fun _ h' _ => h' = ∅).
Proof.
  unfold own_set. destruct e as [p|p r|p|p|p o d|p|p|p|p]; cbn [goroutine possible owned].
  - intros [n Hn]. by apply (safe_Process (w, G) p n).
  - intros [Hp Hnt]. eapply calm_safe. apply calm_recover. by apply calm_open_task.
  - intros (c & Hp & Hup). apply safe_bind. destruct (decide (p ∈ tracked)) as [Ht|Ht].
    + eapply safe_mono; [apply safe_OnClose; [done|]|].
      * exists c. auto.
      * by intros a h' s' ->.
    + eapply safe_mono; [eapply calm_safe, calm_OnClose; [by exists c|done]|].
      by intros a h' s' ->.
  - intros (_ & c & Hp & Hok & Hnt). apply safe_bind. eapply safe_mono; [by eapply safe_OnTraffic|].
    intros a h' s' ->. by apply safe_give_up.
  - intros Hp. eapply calm_safe. by apply calm_OnWebsocketMessage.
  - intros Hp. eapply calm_safe. by apply calm_OnWebsocketPing.
  - intros Hp. apply safe_bind. eapply safe_mono; [eapply calm_safe; by apply calm_heartbeat_check|].
    by intros a h' s' ->.
  - intros (Hs & _ & c & Hp). eapply (safe_worker_process Hs p). by exists c.
  - intros (Hs & Hp). eapply calm_safe. by apply calm_Worker_Close.
Qed.

Lemma owned_apart evs i j e f :
  NoDup (omap owned evs) -> evs !! i = Some e -> evs !! j = Some f -> i <> j -> own_set e ## own_set f.
Proof.
  revert i j. induction evs as [|x evs IH]; intros i j Hnd Hi Hj Hne; [done|].
  assert (forall n y t, evs !! n = Some y -> owned y = Some t -> t ∈ omap owned evs) as Hin.
  { intros n y t Hn Ht. apply list_elem_of_omap. exists y. split; [by eapply list_elem_of_lookup_2|done]. }
  assert (forall n y, evs !! n = Some y -> own_set x ## own_set y) as Hhead.
  { intros n y Hn t Hx Hy. unfold own_set in *. destruct (owned x) as [tx|] eqn:Ex; [|set_solver].
    destruct (owned y) as [ty|] eqn:Ey; [|set_solver]. apply elem_of_singleton in Hx, Hy. subst tx ty.
    cbn in Hnd. rewrite Ex in Hnd. apply NoDup_cons in Hnd as [Hnd _]. by eapply Hnd, Hin. }
  destruct i as [|i], j as [|j]; cbn in Hi, Hj; [done| | |].
  - simplify_eq. by eapply Hhead.
  - simplify_eq. symmetry. by eapply Hhead.
  - apply (IH i j); [|done|done|lia]. cbn in Hnd. destruct (owned x); [by apply NoDup_cons in Hnd as [_ ?]|done].
Qed.

Lemma start_pool evs w : starts evs w -> pool_safe (staying evs) (goroutine <$> evs, w).
Proof.
  intros [Hrest Hpos Honce].
  pose proof (pool_start (staying evs) ((fun e => (goroutine e, own_set e)) <$> evs) w (first_tokens evs)) as Hp.
  rewrite <- !list_fmap_compose in Hp. apply Hp; clear Hp.
  - by apply at_rest_good.
  - intros t. unfold first_tokens. by rewrite elem_of_union.
  - intros i j x y Hi Hj Hne. apply list_lookup_fmap_Some in Hi as (e & -> & He), Hj as (f & -> & Hf). cbn.
    by eapply owned_apart.
  - apply Forall_fmap, Forall_forall. intros e He. cbn. rewrite Forall_forall in Hpos. split.
    + intros t Ht Hs. apply elem_of_staying in Hs as (p & -> & Hp & Hn). unfold own_set in Ht.
      destruct (owned e) as [t|] eqn:Eo; [|set_solver]. apply elem_of_singleton in Ht as <-.
      destruct e as [q|q r|q|q|q o d|q|q|q|q]; cbn in Eo; try discriminate. destruct (decide (q ∈ tracked)); [|done].
      simplify_eq. by apply Hn.
    + by apply goroutine_safe, Hpos.
Qed.

Lemma staying_lock_free evs : lock_free (staying evs).
Proof. intros t Ht. apply elem_of_staying in Ht as (p & -> & _). by intros []. Qed.

(** ** What holds of every run *)

(** C2: Any number of handlers side by side - business connections that send whatever bytes,
    connections that open, close, send, ping and fall silent, event loops that upgrade
    connections and go through what upgraded ones have sent, as long as it holds no declared
    length that wraps around, business connections for events that send whatever bytes,
    register, fail and go - in any order of their actions, and whatever the surroundings do
    in between: no goroutine panics, not even where a recover would hide it, and none comes
    to the end of the turns that the model allows a loop (a run of the model is one of the
    program, then: the loops over what has arrived end by themselves). Unless all goroutines
    have ended one of them can go on, so that the locks do not block them for ever; and
    as each of them has only so many actions left, every run ends with all of them ended. *)
Theorem handlers_end evs w ts w' :
  starts evs w -> star (gstep surroundings) (goroutine <$> evs, w) (ts, w') ->
  no_panic (ts, w') /\ (over ts \/ exists q, gstep no_env (ts, w') q) /\
  Acc (fun q p => gstep no_env p q) (ts, w').
Proof.
  intros Hs Hrun. pose proof (pool_star _ _ _ _ surroundings_ok Hrun (start_pool evs w Hs)) as Hp.
  split_and!; [by eapply pool_no_panic|by apply (pool_goes_on (staying evs)); [|apply staying_lock_free]|apply runs_end].
Qed.

(** A connection that is registered under its names and no others. *)
Definition in_step (w : world) (p : ptr) : Prop :=
  exists c, heap w !! p = Some c /\ is_online (reg w) p c /\
    forall k, entry (reg w) k (id (c_info c)) =
      if decide (k = customerId (c_info c) /\ k <> EmptyString) then Some p else None.

Lemma linked_in_step w G p c :
  Owner.good w G -> p ∈ tracked -> heap w !! p = Some c -> TOnline p ∈ G -> locked (c_info c) = false -> in_step w p.
Proof.
  intros Hi Ht Hp Hon Hl. destruct (gd_linked _ _ Hi p Ht) as (d & Hd & [L1 L2 L3 L4]). simplify_eq.
  assert (TLock p ∉ G) as Hn.
  { intros Hx. apply (gd_lock _ _ Hi) in Hx as (c0 & Hc0 & Hl0). congruence. }
  exists c. split_and!; [done|by apply L4|]. intros k. case_decide as Hk.
  - destruct Hk as [-> Hk]. apply L2; [by left|done|done].
  - destruct (entry (reg w) k (id (c_info c))) as [q|] eqn:E; [|done].
    destruct (L1 k q E) as (E1 & _ & [E3|[_ E3]]); [by destruct Hk|done].
Qed.

(** C1: In every state that the handlers reach, the event loops among them, in any order of
    their actions, the three registries are well formed and hold existing connections under
    their own names, and the lists of the events hold existing business connections.
    Of the connections whose opening was over when the run began ([tracked]) the manager and
    the binder are in step: as long as the close event of one has not begun, it is in the
    manager, and in the binder under its customerId and nothing else, whenever its lock is
    free; and when all goroutines have ended every lock is free, and one whose close event
    took place is marked closed and is in neither of the two. Nothing of the kind holds of a
    connection that opens while it closes ([Races.open_close_race]), nor of the topics
    ([Races.delete_subscribe_race]). *)
Theorem handlers_settle evs w ts w' :
  starts evs w -> star (gstep surroundings) (goroutine <$> evs, w) (ts, w') ->
  registered (heap w') (reg w') /\ workers_ok cf w' /\
  (forall p c, p ∈ tracked -> ~ closing evs p -> heap w' !! p = Some c -> locked (c_info c) = false -> in_step w' p) /\
  (over ts -> unlocked (heap w') /\
     forall p, p ∈ tracked -> closing evs p ->
       exists c, heap w' !! p = Some c /\ IsClosedOnSafe (c_codec c) = true /\
         m_lookup (reg w') (uniqId (c_info c)) <> Some p /\
         forall k, entry (reg w') k (id (c_info c)) = None).
Proof.
  intros Hs Hrun. pose proof (pool_star _ _ _ _ surroundings_ok Hrun (start_pool evs w Hs)) as Hp.
  split_and!.
  - destruct Hp as (own & G & Hp). apply (po_inv _ _ _ _ _ Hp).
  - destruct Hp as (own & G & Hp). apply (po_inv _ _ _ _ _ Hp).
  - destruct Hp as (own & G & Hp). intros p c Ht Hn Hc Hl.
    apply (linked_in_step w' G p c); [apply (po_inv _ _ _ _ _ Hp)|done|done| |done].
    apply (po_tokens _ _ _ _ _ Hp). left. apply elem_of_staying. eauto.
  - intros Hover. pose proof (pool_over _ _ _ Hp Hover) as Hi. change (Owner.good w' (staying evs)) in Hi. split.
    + intros p c Hc. destruct (locked (c_info c)) eqn:El; [|done].
      assert (TLock p ∈ staying evs) as Hx by (apply (gd_lock _ _ Hi); eauto).
      by apply elem_of_staying in Hx as (q & [=] & _).
    + intros p Ht Hcl. destruct (gd_linked _ _ Hi p Ht) as (c & Hc & [L1 L2 L3 L4]).
      assert (~ alive (staying evs) p) as Hna.
      { intros [Hx|Hx]; apply elem_of_staying in Hx as (q & [=] & _ & Hq). by subst q. }
      exists c. split_and!; [done|by apply L3| |].
      * rewrite L4. intros Hx. apply Hna. by left.
      * intros k. destruct (entry _ k _) as [q|] eqn:E; [|done]. destruct (L1 k q E) as (_ & [Hx|Hx] & _); [done|].
        by apply elem_of_staying in Hx as (q' & [=] & _).
Qed.
End Interleave.
