(* ===== verification/InterleaveRun.v ===== *)
(** A run of eight handlers side by side: a business connection that changes the info
    of a connection and deletes a topic, the close event of another connection, one that
    is upgraded and opens, one that sends, the event loop on two messages, a heartbeat check, and two
    business connections for events: one registers and goes, one fails. *)

From S2P Require Export ServerProps Interleave.

Open Scope string_scope.
Open Scope Z_scope.
Open Scope list_scope.

(** [demo_config] with a server for the business connections. *)
Definition served_config : config :=
  mkConfig false "/" [] 100 60 64 OpText [104] 1 3 2
           EmptyString EmptyString EmptyString "127.0.0.1:6061" 1024 16 [112] 1024 [113] [] [].

#[export] Instance demo_serving : Serving :=
  {| sv_config := served_config; tracked := {[1%nat; 2%nat]}; busy := {[2%nat; 3%nat]}; reading := {[4%nat]} |}.

Definition demo_reading : workerConn :=
  set_net (mkNet (packet_of Cmd_Register [] ++ packet_of Cmd_Unregister []) [] false [] [] []) (demo_worker "w1").

Definition demo_get : bytes := [71; 13; 10; 13; 10].

Definition demo_busy : world :=
  with_workers (insert 4%nat demo_reading)
    (with_tasks (fun _ => {[9%nat := mkNet (packet_of Cmd_ConnInfoUpdate [] ++ packet_of Cmd_TopicDelete []) [] false [] [] []]})
             (with_client 3 (demo_new demo_get) (demo_heard (mjoin (cm_wire <$> demo_messages))))).

Definition demo_events : list event :=
  [EvTask 9; EvClose 1; EvTraffic 3; EvMessage 2 OpText [1; 2]; EvHeartbeat 2; EvTraffic 2;
   EvWorker 4; EvWorkerClose 5].

(** By turns, [last] was the last one: whose turn it is, until nobody can go on. *)
Definition can_go (w : world) (t : prog unit) : bool :=
  match t with Act f _ => match f w with AOk _ _ => true | _ => false end | Spawn _ _ => true | _ => false end.

Fixpoint by_turns (fuel last : nat) (ts : list (prog unit)) (w : world) : list nat :=
  match fuel with
  | O => []
  | S fuel =>
      let order := seq (S last) (length ts - S last) ++ seq 0 (S last) in
      match List.filter (fun i => match ts !! i with Some t => can_go w t | None => false end) order with
      | [] => []
      | i :: _ => match schedule [i] ts w with Some (ts', w') => i :: by_turns fuel i ts' w' | None => [] end
      end
  end.

Definition demo_schedule : list nat := by_turns 400 7 (goroutine <$> demo_events) demo_busy.

(** The connections that are there, one by one. *)
Lemma demo_heap (P : ptr -> Conn -> bool) :
  forallb (fun x => P x.1 x.2) (map_to_list (heap demo_busy)) = true ->
  forall p c, heap demo_busy !! p = Some c -> P p c = true.
Proof. intros HP p c Hp. rewrite forallb_forall in HP. apply (HP (p, c)), list_elem_of_In, elem_of_map_to_list, Hp. Qed.

Lemma Inv_with_tasks f w : Inv w -> Inv (with_tasks f w).
Proof. intros (Hc & Hu & Hp). by split_and!. Qed.

Lemma Inv_with_workers f w : Inv w -> Inv (with_workers f w).
Proof. intros (Hc & Hu & Hp). by split_and!. Qed.

Lemma demo_calls_Inv : Inv (with_client 3 (demo_new demo_get) (demo_heard (mjoin (cm_wire <$> demo_messages)))).
Proof. apply (with_client_Inv 3%nat (demo_client 3 "u3")); [apply demo_heard_Inv|vm_compute; reflexivity|reflexivity]. Qed.

Lemma demo_lists : workers_ok served_config demo_busy.
Proof.
  intros _ v Hv. assert (exists k, collects demo_busy !! v = Some k /\ Forall (fun p => p = 4%nat \/ p = 5%nat) (k_conn k)) as (k & Hk & Hl).
  { destruct Hv as [->|[-> | ->]]; eexists; (split; [vm_compute; reflexivity|repeat first [apply Forall_nil_2|apply Forall_cons_2; [first [by left|by right]|]]]). }
  exists k. split; [exact Hk|]. eapply Forall_impl; [exact Hl|]. intros p [-> | ->]; eexists; vm_compute; reflexivity.
Qed.

Lemma demo_at_rest : at_rest demo_busy.
Proof.
  split.
  - exact (Inv_with_workers _ _ (Inv_with_tasks _ _ demo_calls_Inv)).
  - intros p c Hp. apply (demo_heap (fun _ c => bool_decide (closed (c_codec c) = 0) || bool_decide (closed (c_codec c) = 1))) in Hp;
      [|vm_compute; reflexivity].
    apply orb_true_iff in Hp as [Hp|Hp]; apply bool_decide_eq_true in Hp; [by left|by right].
  - intros p q c d Hp Hq E. set (names := [""; "u1"; "u2"; "u3"]).
    apply (demo_heap (fun p c => bool_decide (uniqId (c_info c) = nth p names "" /\ (1 <= p <= 3)%nat))) in Hp;
      [|vm_compute; reflexivity].
    apply (demo_heap (fun p c => bool_decide (uniqId (c_info c) = nth p names "" /\ (1 <= p <= 3)%nat))) in Hq;
      [|vm_compute; reflexivity].
    apply bool_decide_eq_true in Hp as [Ep Lp], Hq as [Eq Lq].
    rewrite Ep, Eq in E. destruct p as [|[|[|[|p]]]], q as [|[|[|[|q]]]]; try lia; done.
  - exact demo_lists.
  - intros p [->%elem_of_singleton| ->%elem_of_singleton]%elem_of_union; eexists; (split; [vm_compute; reflexivity|vm_compute; reflexivity]).
Qed.

#[export] Instance overflowing_dec l : Decision (overflowing l).
Proof. unfold overflowing. apply _. Defined.

Lemma no_overflow l :
  forallb (fun n => negb (bool_decide (overflowing (drop n l)))) (seq 0 (S (length l))) = true -> ~ holds_overflow l.
Proof.
  intros Hl (x & y & E & Hy). rewrite forallb_forall in Hl. specialize (Hl (length x)).
  rewrite E, drop_app_length, bool_decide_true in Hl by done. discriminate Hl.
  apply in_seq. rewrite length_app. lia.
Qed.

Lemma heap_with_workers f w : heap (with_workers f w) = heap w.
Proof. by destruct w. Qed.
Lemma heap_with_heap f w : heap (with_heap f w) = f (heap w).
Proof. by destruct w. Qed.
Lemma heap_with_tasks f w : heap (with_tasks f w) = heap w.
Proof. by destruct w. Qed.

Lemma demo_loop_possible : possible demo_busy (EvTraffic 2).
Proof.
  split; [apply (bool_decide_eq_true_1 (2%nat ∈ busy)); vm_compute; reflexivity|].
  exists (heard (mjoin (cm_wire <$> demo_messages))). split.
  { unfold demo_busy. rewrite heap_with_workers, heap_with_tasks. unfold with_client. rewrite heap_with_heap, lookup_insert_ne by done.
    apply with_client_lookup. }
  split; [|intros E; vm_compute in E; discriminate E]. intros _. split; [apply check_wf_inbound; vm_compute; reflexivity|].
  apply no_overflow. vm_compute. reflexivity.
Qed.

Lemma demo_upgrade_possible : possible demo_busy (EvTraffic 3).
Proof.
  split; [apply (bool_decide_eq_true_1 (3%nat ∈ busy)); vm_compute; reflexivity|].
  exists (demo_new demo_get). split; [unfold demo_busy; rewrite heap_with_workers, heap_with_tasks; apply with_client_lookup|].
  split; [intros E; vm_compute in E; discriminate E|]. intros _. apply (bool_decide_eq_true_1 (3%nat ∉ tracked)). vm_compute. reflexivity.
Qed.

Lemma demo_starts : starts demo_events demo_busy.
Proof.
  split; [apply demo_at_rest| |].
  - repeat (apply Forall_cons; split); [..|constructor]; cbn [possible].
    + eexists. vm_compute. reflexivity.
    + eexists. split; [vm_compute; reflexivity|]. intros _. vm_compute. reflexivity.
    + apply demo_upgrade_possible.
    + eexists. vm_compute. reflexivity.
    + eexists. vm_compute. reflexivity.
    + apply demo_loop_possible.
    + split; [reflexivity|]. split; [apply (bool_decide_eq_true_1 (4%nat ∈ reading)); vm_compute; reflexivity|].
      eexists. vm_compute. reflexivity.
    + split; [reflexivity|]. eexists. vm_compute. reflexivity.
  - apply (bool_decide_eq_true_1 _). vm_compute. reflexivity.
Qed.

Lemma demo_run : exists ts w, star (gstep surroundings) (goroutine <$> demo_events, demo_busy) (ts, w) /\ over ts.
Proof.
  assert (exists r, schedule demo_schedule (goroutine <$> demo_events) demo_busy = Some r /\
            r.1 = replicate 15 (Ret tt)) as ([ts w] & Hs & Hts)
    by (eexists; split; [vm_compute; reflexivity|vm_compute; reflexivity]).
  exists ts, w. split; [by eapply schedule_star|]. cbn [fst] in Hts. subst ts.
  intros i m Hi. by apply lookup_replicate in Hi as [-> _].
Qed.

Example handlers_end_witness :
  exists ts w, star (gstep surroundings) (goroutine <$> demo_events, demo_busy) (ts, w) /\ over ts /\
    no_panic (ts, w) /\ (over ts \/ exists q, gstep no_env (ts, w) q) /\ Acc (fun q p => gstep no_env p q) (ts, w).
Proof.
  destruct demo_run as (ts & w & Hrun & Hover). exists ts, w. split; [exact Hrun|]. split; [exact Hover|].
  exact (handlers_end demo_events demo_busy ts w demo_starts Hrun).
Defined.

Example handlers_settle_witness :
  exists ts w, star (gstep surroundings) (goroutine <$> demo_events, demo_busy) (ts, w) /\ over ts /\
    registered (heap w) (reg w) /\ workers_ok served_config w /\
    (forall c, heap w !! 2%nat = Some c -> locked (c_info c) = false -> in_step w 2) /\
    exists c, heap w !! 1%nat = Some c /\ IsClosedOnSafe (c_codec c) = true /\
      m_lookup (reg w) (uniqId (c_info c)) <> Some 1%nat /\ forall k, entry (reg w) k (id (c_info c)) = None.
Proof.
  destruct demo_run as (ts & w & Hrun & Hover). exists ts, w. split; [exact Hrun|]. split; [exact Hover|].
  destruct (handlers_settle demo_events demo_busy ts w demo_starts Hrun) as (Hreg & Hlists & Hstep & Hend).
  assert (1%nat ∈ tracked /\ 2%nat ∈ tracked) as [H1 H2]
    by (split; [apply (bool_decide_eq_true_1 (1%nat ∈ tracked))|apply (bool_decide_eq_true_1 (2%nat ∈ tracked))]; vm_compute; reflexivity).
  split; [exact Hreg|]. split; [exact Hlists|]. split.
  - intros c Hc Hl. apply (Hstep 2%nat c H2); [|exact Hc|exact Hl].
    intros Hcl. apply (bool_decide_eq_true_2 (closing demo_events 2)) in Hcl. vm_compute in Hcl. discriminate Hcl.
  - destruct (Hend Hover) as [_ Hclosed]. apply Hclosed; [exact H1|].
    apply (bool_decide_eq_true_1 (closing demo_events 1)). vm_compute. reflexivity.
Defined.
