(* ===== verification/Main.v ===== *)
(** src/cmd/netsvr.go: the start and the stop of the program, with what it calls to start
    and stop the servers (customer/websocket.go, worker/tcp.go, task/tcp.go) and the
    queues (redisQueue/manager.go, amqp091/manager.go); and src/pkg/quit/quit.go, the
    request to stop, its reason, and the signals. The status that the process ends with is
    that of [os.Exit], or 2 for a panic. *)

From stdpp Require Import pretty.
From S2P Require Export Logging Startup.

Module Quit.

(** Both are guarded by one lock: every operation is one step. [ClosedCh] is true when
    the channel is closed; [None] stands for closing it twice, a panic. *)
Record state := mkState { ClosedCh : bool; closeReason : string }.

Definition start : state := mkState false EmptyString.

Definition close_ch (st : state) : option state := if ClosedCh st then None else Some (mkState true (closeReason st)).

Definition Execute (reason : string) (st : state) : option state :=
  if ClosedCh st then Some st else close_ch (mkState (ClosedCh st) reason).

Definition GetReason (st : state) : string := closeReason st.

(** The signals that are listened for. *)
Inductive signal := SIGHUP | SIGINT | SIGQUIT | SIGTERM.

Definition number (s : signal) : Z := match s with SIGHUP => 1 | SIGINT => 2 | SIGQUIT => 3 | SIGTERM => 15 end.
Definition name (s : signal) : string :=
  match s with SIGHUP => "hangup" | SIGINT => "interrupt" | SIGQUIT => "quit" | SIGTERM => "terminated" end.

Definition signal_reason (s : signal) : string :=
  ("receive signal(" ++ pretty (number s) ++ " " ++ name s ++ ")")%string.

Definition on_signal (s : signal) (st : state) : option state :=
  match s with SIGHUP => Some st | _ => Execute (signal_reason s) st end.

(** Signals and calls of [Execute], in the order of the lock. *)
Inductive event := Signal (s : signal) | Call (reason : string).

Definition handle (e : event) (st : state) : option state :=
  match e with Signal s => on_signal s st | Call r => Execute r st end.

Fixpoint handle_all (l : list event) (st : state) : option state :=
  match l with [] => Some st | e :: l' => st' ← handle e st; handle_all l' st' end.

Definition reason_of (e : event) : option string :=
  match e with Signal SIGHUP => None | Signal s => Some (signal_reason s) | Call r => Some r end.

Lemma handle_closed e r : handle e (mkState true r) = Some (mkState true r).
Proof. by destruct e as [[]|]. Qed.

(** The channel is closed once, by the first event that is no hangup, whose reason
    stays. *)
Theorem quit_once l :
  handle_all l start = Some (match omap reason_of l with r :: _ => mkState true r | [] => start end).
Proof.
  assert (forall k r, handle_all k (mkState true r) = Some (mkState true r)) as Hc.
  { intros k r. induction k as [|e k IH]; [done|]. cbn [handle_all]. by rewrite handle_closed. }
  induction l as [|e l IH]; [done|]. cbn [handle_all omap list_omap].
  destruct e as [[]|r]; cbn [reason_of]; [exact IH|..]; exact (Hc _ _).
Qed.
End Quit.

Module Main.
Import Config Startup.

(** ** The process

    [None] for a server is the nil pointer. *)
Inductive engine := Starting | Running | Stopped.

Record queues := mkQs { table : manager; objects : gmap string EventQueue.state }.

Definition no_queues : queues := mkQs (mkManager None None None) ∅.

Record proc := mkProc {
  quitting : Quit.state;
  Cancelled : bool;                        (* quit.Ctx *)
  logger : Logging.logger;                 (* with quit.Wg *)
  stdout : list string;
  redis : queues;
  amqp : queues;
  group : Z;                               (* the wait group of a Shutdown *)
  customer_server : option engine;
  worker_server : option bool;             (* listening *)
  task_server : option bool;
  exitcode : option Z;
}.

Definition set_quit q p := mkProc q (Cancelled p) (logger p) (stdout p) (redis p) (amqp p) (group p) (customer_server p) (worker_server p) (task_server p) (exitcode p).
Definition set_cancelled p := mkProc (quitting p) true (logger p) (stdout p) (redis p) (amqp p) (group p) (customer_server p) (worker_server p) (task_server p) (exitcode p).
Definition set_logger l p := mkProc (quitting p) (Cancelled p) l (stdout p) (redis p) (amqp p) (group p) (customer_server p) (worker_server p) (task_server p) (exitcode p).
Definition set_stdout l p := mkProc (quitting p) (Cancelled p) (logger p) l (redis p) (amqp p) (group p) (customer_server p) (worker_server p) (task_server p) (exitcode p).
Definition set_group n p := mkProc (quitting p) (Cancelled p) (logger p) (stdout p) (redis p) (amqp p) n (customer_server p) (worker_server p) (task_server p) (exitcode p).
Definition set_customer e p := mkProc (quitting p) (Cancelled p) (logger p) (stdout p) (redis p) (amqp p) (group p) (Some e) (worker_server p) (task_server p) (exitcode p).
Definition set_worker b p := mkProc (quitting p) (Cancelled p) (logger p) (stdout p) (redis p) (amqp p) (group p) (customer_server p) (Some b) (task_server p) (exitcode p).
Definition set_task b p := mkProc (quitting p) (Cancelled p) (logger p) (stdout p) (redis p) (amqp p) (group p) (customer_server p) (worker_server p) (Some b) (exitcode p).
Definition set_exit n p := mkProc (quitting p) (Cancelled p) (logger p) (stdout p) (redis p) (amqp p) (group p) (customer_server p) (worker_server p) (task_server p) (Some n).

(** The two kinds of queues. *)
Inductive kind := OnRedis | OnAMQP.

#[export] Instance kind_eq_dec : EqDecision kind.
Proof. solve_decision. Defined.

Definition queues_of (k : kind) (p : proc) : queues := match k with OnRedis => redis p | OnAMQP => amqp p end.
Definition set_queues (k : kind) (q : queues) (p : proc) : proc :=
  match k with
  | OnRedis => mkProc (quitting p) (Cancelled p) (logger p) (stdout p) q (amqp p) (group p) (customer_server p) (worker_server p) (task_server p) (exitcode p)
  | OnAMQP => mkProc (quitting p) (Cancelled p) (logger p) (stdout p) (redis p) q (group p) (customer_server p) (worker_server p) (task_server p) (exitcode p)
  end.
Definition alter_queue (k : kind) (id : string) (f : EventQueue.state -> EventQueue.state) (p : proc) : proc :=
  set_queues k (mkQs (table (queues_of k p)) (alter f id (objects (queues_of k p)))) p.

(** ** What the goroutines do *)

Inductive op :=
  | Queues_Start (k : kind)
  | Go (l : list op)                       (* go func() *)
  | Wait_closed                            (* <-quit.ClosedCh *)
  | Log (l : Level) (msg : string)
  | Cancel
  | Sleep (d : Z)
  | Exit (n : Z)
  | Wg_Wait
  | Queues_Shutdown (k : kind)
  | Queue_Close (k : kind) (id : string)   (* a goroutine of Queues_Shutdown *)
  | Group_Done
  | Group_Wait
  | Customer_New                           (* server = &wsServer.Server *)
  | Gnet_Run (fails : list op)
  | Gnet_Wait
  | Customer_Shutdown
  | Worker_Listen (serve fails : list op)
  | Worker_Serve
  | Worker_Shutdown
  | Task_Listen (serve fails : list op)
  | Task_Serve
  | Task_Shutdown.

Section Main.
(** [s] are the settings, [logs_to] the logger, [render] the line that zerolog makes.
    Then what the libraries and the system answer at the start of the queues, to the
    servers and to closing. *)
Context (s : settings) (logs_to : Level * Logging.sink) (render : string -> bytes).
Context (Ping : Z -> redisClient -> bool) (cpu : Z) (Dial : Z -> string -> bool)
  (Open : Z -> channelPool -> bool) (Declare_ok : Z -> declaration -> bool).
Context (gnet_fails worker_fails task_fails worker_close_fails task_close_fails : bool).

Definition Millisecond : Z := 10 ^ 6.

(** What [gnet.Run], [Listen] or a server's start do when they fail. *)
Definition failed (msg : string) : list op := [Log ErrorLevel msg; Sleep (100 * Millisecond); Exit 1].

Definition customer_Start : list op :=
  [Customer_New; Go [Sleep Second; Log InfoLevel "Customer websocket start"]; Gnet_Run (failed "Customer websocket start failed"); Gnet_Wait].

Definition StartAutobahn : list op :=
  [Customer_New; Go [Sleep (2 * Second); Log InfoLevel "Autobahn websocket start"]; Gnet_Run (failed "Autobahn websocket start failed"); Gnet_Wait].

Definition worker_Start : list op :=
  if is_empty (s_ListenAddress (Worker s)) then []
  else [Worker_Listen [Log InfoLevel "Worker tcp start"; Worker_Serve] (failed "Worker tcp start failed")].

Definition task_Start : list op :=
  [Task_Listen [Log InfoLevel "Task tcp start"; Task_Serve] (failed "Task tcp start failed")].

Definition pprof : list op :=
  if is_empty (PprofListenAddress s) then [] else [Go [Log InfoLevel "gops start"]].

Definition forced : list op :=
  [Sleep (ShutdownWaitTime s); Log InfoLevel "Forced shutdown of netsvr process successfully"; Exit 1].

Definition main_stop : list op :=
  Wait_closed :: Log InfoLevel "Start shutting down the netsvr process" :: Cancel ::
  (if 0 <? ShutdownWaitTime s then [Go forced] else []) ++
  [Wg_Wait; Worker_Shutdown; Queues_Shutdown OnRedis; Queues_Shutdown OnAMQP; Task_Shutdown; Customer_Shutdown;
   Log InfoLevel "Shutdown the netsvr process successfully"; Exit 0].

Definition main : list op :=
  pprof ++
  [Queues_Start OnRedis; Queues_Start OnAMQP; Go (if Autobahn s then StartAutobahn else customer_Start);
   Go worker_Start; Go task_Start] ++ main_stop.

(** ** One operation: the process, what the goroutine does next, and the goroutines that
    it starts. *)
Inductive outcome :=
  | Next (p : proc) (now : list op) (started : list (list op))
  | Wait
  | Panics.

Definition log (l : Level) (msg : string) (p : proc) : proc :=
  if Logging.enabled logs_to l then
    match logs_to.2 with
    | Logging.Console => set_stdout (stdout p ++ [msg]) p
    | Logging.File => set_logger (Logging.set_lj (Logging.lj (logger p) ++ [render msg]) (logger p)) p
    | Logging.Async =>
        let l := logger p in
        let b := base.fresh (dom (Logging.bufs l)) in
        set_logger (Logging.Write b (Logging.set_bufs (<[b := render msg]> (Logging.bufs l)) l)).2 p
    end
  else p.

(** The queues that a manager has, event by event. *)
Definition entries (m : manager) : list string :=
  omap (Manager_Get m) [Event_OnOpen; Event_OnClose; Event_OnMessage].

Definition redis_Start_queues (p : proc) : outcome :=
  match redis_Start Ping (Redis s) with
  | None => Panics
  | Some (m, mp) =>
      Next (set_queues OnRedis (mkQs m ((fun _ => EventQueue.new_state) <$> mp)) p)
           (replicate (size mp) (Log InfoLevel "RedisQueue start")) []
  end.

Definition amqp_Start_queues (p : proc) : outcome :=
  let '(m, mp, _) := amqp_Start cpu Dial Open Declare_ok (Config.AMQP s) in
  Next (set_queues OnAMQP (mkQs m ((fun _ => EventQueue.new_state) <$> mp)) p)
       (replicate (size mp) (Log InfoLevel "AMQP091 Queue start")) [].

(** [Shutdown] of either kind: a goroutine for each queue, and the wait for them. *)
Definition queues_Shutdown (k : kind) (p : proc) : outcome :=
  let l := entries (table (queues_of k p)) in
  Next (set_group (len l) p) [Group_Wait] ((fun id => [Queue_Close k id; Group_Done]) <$> l).

Definition queue_Close (k : kind) (id : string) (p : proc) : outcome :=
  let first := match objects (queues_of k p) !! id with Some st => (EventQueue.Close st).1 | None => false end in
  Next (alter_queue k id (fun st => (EventQueue.Close st).2) p)
       (if first then [Log InfoLevel (match k with OnRedis => "RedisQueue shutdown" | OnAMQP => "AMQP091 Queue shutdown" end)] else []) [].

Definition exec_queues (o : op) (p : proc) : outcome :=
  match o with
  | Queues_Start OnRedis => redis_Start_queues p
  | Queues_Start OnAMQP => amqp_Start_queues p
  | Queues_Shutdown k => queues_Shutdown k p
  | Queue_Close k id => queue_Close k id p
  | Group_Done => Next (set_group (group p - 1) p) [] []
  | Group_Wait => if group p =? 0 then Next p [] [] else Wait
  | _ => Panics
  end.

Definition close_log (fails : bool) (name : string) : list op :=
  if fails then [Log ErrorLevel (name ++ " shutdown failed")%string] else [Log InfoLevel (name ++ " shutdown")%string].

(** The three servers' [Shutdown]; [eng.Stop] fails when the engine does not run. *)
Definition customer_Shutdown (p : proc) : outcome :=
  match customer_server p with
  | None => Panics
  | Some Running => Next (set_customer Stopped p) (close_log false "Customer websocket") []
  | Some _ => Next p (close_log true "Customer websocket") []
  end.

Definition worker_Shutdown (p : proc) : outcome :=
  if is_empty (s_ListenAddress (Worker s)) then Next p [] []
  else match worker_server p with
       | None => Next p [] []
       | Some _ => Next (set_worker false p) (close_log worker_close_fails "Worker tcp") []
       end.

Definition task_Shutdown (p : proc) : outcome :=
  match task_server p with
  | None => Panics
  | Some _ => Next (set_task false p) (close_log task_close_fails "Task tcp") []
  end.

Definition exec_server (o : op) (p : proc) : outcome :=
  match o with
  | Customer_New => Next (set_customer Starting p) [] []
  | Gnet_Run fails => if gnet_fails then Next p fails [] else Next (set_customer Running p) [] []
  | Gnet_Wait => match customer_server p with Some Stopped => Next p [] [] | _ => Wait end
  | Customer_Shutdown => customer_Shutdown p
  | Worker_Listen serve fails => if worker_fails then Next p fails [] else Next (set_worker true p) serve []
  | Worker_Serve => match worker_server p with Some false => Next p [] [] | _ => Wait end
  | Worker_Shutdown => worker_Shutdown p
  | Task_Listen serve fails => if task_fails then Next p fails [] else Next (set_task true p) serve []
  | Task_Serve => match task_server p with Some false => Next p [] [] | _ => Wait end
  | Task_Shutdown => task_Shutdown p
  | _ => Panics
  end.

Definition exec (o : op) (p : proc) : outcome :=
  match o with
  | Go l => Next p [] [l]
  | Wait_closed => if Quit.ClosedCh (quitting p) then Next p [] [] else Wait
  | Log l msg => Next (log l msg p) [] []
  | Cancel => Next (set_cancelled p) [] []
  | Sleep _ => Next p [] []
  | Exit n => Next (set_exit n p) [] []
  | Wg_Wait => if Logging.Wg (logger p) =? 0 then Next p [] [] else Wait
  | Queues_Start _ | Queues_Shutdown _ | Queue_Close _ _ | Group_Done | Group_Wait => exec_queues o p
  | _ => exec_server o p
  end.

(** ** The whole program

    The main goroutine, the others, and what happens besides: signals and calls of
    [quit.Execute], the goroutine of the log, what other goroutines log, and the work of
    the queues. A panic that nothing recovers, of main, of another goroutine or of the
    handler of the signals, ends the process at once with status 2. Nothing happens after
    the exit. [did] is what main has done. *)
Record sys := mkSys { process : proc; todo : list op; others : list (list op); did : list op }.

Inductive step : sys -> sys -> Prop :=
  | s_main p o rest ts d p' now st :
      exitcode p = None -> exec o p = Next p' now st ->
      step (mkSys p (o :: rest) ts d) (mkSys p' (now ++ rest) (ts ++ st) (d ++ [o]))
  | s_other p l ts i o rest d p' now st :
      exitcode p = None -> ts !! i = Some (o :: rest) -> exec o p = Next p' now st ->
      step (mkSys p l ts d) (mkSys p' l (<[i := now ++ rest]> ts ++ st) d)
  | s_signal p l ts d e q :
      exitcode p = None -> Quit.handle e (quitting p) = Some q -> step (mkSys p l ts d) (mkSys (set_quit q p) l ts d)
  | s_writer p l ts d q g :
      exitcode p = None -> Logging.coroutine_step (Cancelled p) q (logger p) = Some g ->
      step (mkSys p l ts d) (mkSys (set_logger g p) l ts d)
  | s_log p l ts d lv msg : exitcode p = None -> step (mkSys p l ts d) (mkSys (log lv msg p) l ts d)
  | s_queue p l ts d k id f :
      exitcode p = None -> (forall st, EventQueue.closeLock (f st) = EventQueue.closeLock st) ->
      step (mkSys p l ts d) (mkSys (alter_queue k id f p) l ts d)
  | s_panic p o rest ts d :
      exitcode p = None -> exec o p = Panics ->
      step (mkSys p (o :: rest) ts d) (mkSys (set_exit 2 p) (o :: rest) ts d)
  | s_panic_other p l ts i o rest d :
      exitcode p = None -> ts !! i = Some (o :: rest) -> exec o p = Panics ->
      step (mkSys p l ts d) (mkSys (set_exit 2 p) l ts d)
  | s_panic_signal p l ts d e :
      exitcode p = None -> Quit.handle e (quitting p) = None ->
      step (mkSys p l ts d) (mkSys (set_exit 2 p) l ts d).

Definition first_logger : Logging.logger :=
  match logs_to.2 with
  | Logging.Async => Logging.NewAsyncWriter ∅ 0
  | _ => Logging.mkLogger ∅ [] [] 0 Logging.WReturned
  end.

Definition start : sys :=
  mkSys (mkProc Quit.start false first_logger [] no_queues no_queues 0 None None None None) main [] [].

Definition reachable (x : sys) : Prop := star step start x.
End Main.
End Main.
