(* ===== verification/MainProps.v ===== *)
(** What the stop of the program does, in which order, and what it loses. *)

From Stdlib Require Import Sorted.
From S2P Require Export Main StartupProps Demo.

Module MainProps.
Import StartupProps Config Startup Main.

(** ** The order of main *)

Definition keep (o : op) : bool := match o with Log _ _ | Group_Wait => false | _ => true end.
Arguments entries : simpl never.
Definition kept (l : list op) : list op := filter (fun o => keep o = true) l.

Arguments kept : simpl never.

Lemma kept_app l k : kept (l ++ k) = kept l ++ kept k.
Proof. apply filter_app. Qed.

Lemma kept_cons o l : kept (o :: l) = if keep o then o :: kept l else kept l.
Proof. unfold kept. rewrite filter_cons. case_decide as E; destruct (keep o); done. Qed.

Lemma kept_next d o now rest : kept now = [] -> kept ((d ++ [o]) ++ now ++ rest) = kept (d ++ o :: rest).
Proof. intros Hn. rewrite <- app_assoc, !kept_app, Hn. cbn [app]. by rewrite <- !kept_app. Qed.

Lemma elem_of_kept o l : o ∈ kept l <-> keep o = true /\ o ∈ l.
Proof. unfold kept. by rewrite list_elem_of_filter. Qed.

Definition rank (o : op) : nat :=
  match o with
  | Go (Log _ _ :: _) => 0
  | Queues_Start OnRedis => 1
  | Queues_Start OnAMQP => 2
  | Go (Sleep _ :: _) => 6
  | Go _ => 3
  | Wait_closed => 4
  | Cancel => 5
  | Wg_Wait => 7
  | Worker_Shutdown => 8
  | Queues_Shutdown OnRedis => 9
  | Queues_Shutdown OnAMQP => 10
  | Task_Shutdown => 11
  | Customer_Shutdown => 12
  | Exit _ => 13
  | _ => 14
  end%nat.

Definition sorted (l : list op) : Prop := StronglySorted (fun a b => rank a <= rank b)%nat l.

Lemma sorted_app l k a b : sorted (l ++ k) -> a ∈ l -> b ∈ k -> (rank a <= rank b)%nat.
Proof.
  intros Hs Ha Hb. induction l as [|x l IH]; [by apply elem_of_nil in Ha|].
  inversion_clear Hs as [|? ? Hs1 Hf]. apply elem_of_cons in Ha as [->|Ha]; [|by apply IH].
  rewrite Forall_forall in Hf. apply Hf, elem_of_app. by right.
Qed.

Section Props.
Context (s : settings) (logs_to : Level * Logging.sink) (render : string -> bytes).
Context (Ping : Z -> redisClient -> bool) (cpu : Z) (Dial : Z -> string -> bool)
  (Open : Z -> channelPool -> bool) (Declare_ok : Z -> declaration -> bool).
Context (gnet_fails worker_fails task_fails worker_close_fails task_close_fails : bool).

#[local] Ltac ops := unfold redis_Start_queues, amqp_Start_queues, queues_Shutdown, queue_Close, customer_Shutdown, worker_Shutdown, task_Shutdown.
#[local] Ltac ops_in H := unfold redis_Start_queues, amqp_Start_queues, queues_Shutdown, queue_Close, customer_Shutdown, worker_Shutdown, task_Shutdown in H.

Abbreviation execm := (exec s logs_to render Ping cpu Dial Open Declare_ok gnet_fails worker_fails task_fails worker_close_fails task_close_fails).
Abbreviation stepm := (step s logs_to render Ping cpu Dial Open Declare_ok gnet_fails worker_fails task_fails worker_close_fails task_close_fails).
Abbreviation reachablem := (reachable s logs_to render Ping cpu Dial Open Declare_ok gnet_fails worker_fails task_fails worker_close_fails task_close_fails).
Abbreviation startm := (start s logs_to).

(** What main does, without its logs. *)
Definition order : list op :=
  pprof s ++
  [Queues_Start OnRedis; Queues_Start OnAMQP; Go (if Autobahn s then StartAutobahn else customer_Start);
   Go (worker_Start s); Go task_Start; Wait_closed; Cancel] ++
  (if 0 <? ShutdownWaitTime s then [Go (forced s)] else []) ++
  [Wg_Wait; Worker_Shutdown; Queues_Shutdown OnRedis; Queues_Shutdown OnAMQP; Task_Shutdown; Customer_Shutdown; Exit 0].

Lemma order_main : kept (main s) = order.
Proof. unfold main, main_stop, order, pprof. destruct (is_empty _), (0 <? _); reflexivity. Qed.

Lemma order_sorted : sorted order.
Proof.
  unfold sorted, order, pprof, worker_Start, customer_Start, StartAutobahn.
  destruct (is_empty _), (is_empty _), (Autobahn s), (0 <? _); cbn; repeat constructor; cbn; lia.
Qed.

(** ** The other goroutines *)

(** One that ends the program. *)
Definition ending (o : op) : bool :=
  match o with Log _ _ | Sleep _ => true | Exit n => n =? 1 | _ => false end.

(** One of the servers. *)
Fixpoint side (o : op) : bool :=
  match o with
  | Go l => forallb side l
  | Log _ _ | Sleep _ | Customer_New | Gnet_Wait | Worker_Serve | Task_Serve => true
  | Gnet_Run fails => forallb ending fails
  | Worker_Listen serve fails | Task_Listen serve fails => forallb side serve && forallb ending fails
  | _ => false
  end.

(** One of a Shutdown: it closes a queue. *)
Inductive closer : list op -> Prop :=
  | closer_close k id : closer [Queue_Close k id; Group_Done]
  | closer_log lv msg : closer [Log lv msg; Group_Done]
  | closer_done : closer [Group_Done].

Definition closes (l : list op) : bool := match last l with Some Group_Done => true | _ => false end.

Definition may_fail (p : proc) : Prop :=
  gnet_fails || worker_fails || task_fails = true \/ Cancelled p = true /\ 0 < ShutdownWaitTime s.

(** What main may panic at: closing a server that has not been made, or a Redis that does
    not answer at the start. *)
Definition main_panics (o : op) (p : proc) : Prop :=
  o = Task_Shutdown /\ task_server p = None \/ o = Customer_Shutdown /\ customer_server p = None \/
  o = Queues_Start OnRedis /\ redis_Start Ping (Redis s) = None.

(** A goroutine that may come to end the program does so for a reason. *)
Definition goroutine_ok (p : proc) (l : list op) : Prop :=
  forallb side l = true \/ closer l \/ forallb (fun o => side o || ending o) l = true /\ may_fail p.

Lemma other_open (f : op -> bool) l : f Group_Done = false -> forallb f l = true -> closes l = false.
Proof.
  intros Hf Hl. unfold closes. destruct (last l) as [o|] eqn:E; [|done]. apply last_Some_elem_of, list_elem_of_In in E.
  rewrite forallb_forall in Hl. specialize (Hl o E). destruct o; try done. congruence.
Qed.

Lemma closer_closes l : closer l -> closes l = true.
Proof. by destruct 1. Qed.

Definition closers (ts : list (list op)) : Z := len (filter (fun l => closes l = true) ts).
Arguments closers : simpl never.

(** ** What an operation of the others changes of the process *)

(** [p'] differs from [p] in the servers and the log only. *)
Record near (p p' : proc) : Prop := mkNear {
  nr_quit : quitting p' = quitting p;
  nr_cancel : Cancelled p' = Cancelled p;
  nr_Wg : Logging.Wg (logger p') = Logging.Wg (logger p);
  nr_pc : Logging.coroutine (logger p') = Logging.coroutine (logger p);
  nr_ch : (length (Logging.ch (logger p)) <= length (Logging.ch (logger p')))%nat;
  nr_redis : redis p' = redis p;
  nr_amqp : amqp p' = amqp p;
  nr_group : group p' = group p;
  nr_exit : exitcode p' = exitcode p;
}.

Lemma near_refl p : near p p.
Proof. by split. Qed.

Lemma near_log lv msg p : near p (log logs_to render lv msg p).
Proof.
  unfold log. destruct (Logging.enabled _ _); [|apply near_refl]. destruct logs_to.2; [by split|by split|].
  unfold Logging.Write. destruct (_ <? _)%nat; split; cbn; rewrite ?length_app; done || lia.
Qed.

#[local] Hint Resolve near_refl near_log : core.

Lemma side_exec o p p' now st :
  side o = true -> execm o p = Next p' now st ->
  near p p' /\ (forallb side now = true \/ forallb ending now = true /\ gnet_fails || worker_fails || task_fails = true) /\
  Forall (fun l => forallb side l = true) st.
Proof.
  destruct o; cbn; try done; intros Hs He; simplify_eq.
  - split_and!; [done|by left|by constructor].
  - split_and!; [done|by left|by constructor].
  - split_and!; [done|by left|by constructor].
  - split_and!; [by split|by left|by constructor].
  - destruct gnet_fails; simplify_eq; split_and!; try done; [by right|by left].
  - destruct (customer_server p) as [[]|]; simplify_eq; split_and!; try done; by left.
  - apply andb_true_iff in Hs as [H1 H2].
    destruct worker_fails; simplify_eq; split_and!; try done; [right; by rewrite orb_true_r|by left].
  - destruct (worker_server p) as [[]|]; simplify_eq; split_and!; try done; by left.
  - apply andb_true_iff in Hs as [H1 H2].
    destruct task_fails; simplify_eq; split_and!; try done; [right; by rewrite !orb_true_r|by left].
  - destruct (task_server p) as [[]|]; simplify_eq; split_and!; try done; by left.
Qed.

(** ** The invariant *)

Definition closed (k : kind) (id : string) (p : proc) : Prop :=
  forall st, objects (queues_of k p) !! id = Some st -> EventQueue.closeLock st <> 0.

(** The goroutine that ends the program after a time is on its way. *)
Definition armed (ts : list (list op)) : Prop :=
  exists l, l ∈ ts /\ l ∈ [forced s; drop 1 (forced s); drop 2 (forced s)].

Lemma armed_app ts us : armed ts -> armed (ts ++ us).
Proof. intros (l & Hl & Hf). exists l. split; [|done]. apply elem_of_app. by left. Qed.

Lemma armed_insert ts i g g' :
  armed ts -> ts !! i = Some g ->
  (g ∈ [forced s; drop 1 (forced s); drop 2 (forced s)] -> g' ∈ [forced s; drop 1 (forced s); drop 2 (forced s)]) ->
  armed (<[i := g']> ts).
Proof.
  intros (l & Hl & Hf) Hi Hg. apply list_elem_of_lookup in Hl as [j Hj]. destruct (decide (i = j)) as [<-|Hne].
  - simplify_eq. exists g'. split; [|auto]. apply list_elem_of_lookup. exists i.
    apply list_lookup_insert_eq. by eapply lookup_lt_Some.
  - exists l. split; [|done]. apply list_elem_of_lookup. exists j. by rewrite list_lookup_insert_ne.
Qed.

Record inv (x : sys) : Prop := mkInv {
  i_order : kept (did x ++ todo x) = order;
  i_quit : Wait_closed ∈ did x -> Quit.ClosedCh (quitting (process x)) = true;
  i_cancel : Cancel ∈ did x <-> Cancelled (process x) = true;
  i_Wg : Logging.Wg (logger (process x)) =
         match Logging.coroutine (logger (process x)) with Logging.WReturned => 0 | _ => 1 end;
  i_owed : (Logging.owed (Logging.coroutine (logger (process x))) <= length (Logging.ch (logger (process x))))%nat;
  i_waited : Wg_Wait ∈ did x -> Logging.coroutine (logger (process x)) = Logging.WReturned;
  i_others : Forall (goroutine_ok (process x)) (others x);
  i_group : group (process x) = closers (others x);
  i_wait : group (process x) = 0 \/ exists rest, todo x = Group_Wait :: rest;
  i_queues k id : Queues_Shutdown k ∈ did x -> id ∈ entries (table (queues_of k (process x))) ->
                  closed k id (process x) \/ [Queue_Close k id; Group_Done] ∈ others x;
  i_forced : Go (forced s) ∈ did x -> exitcode (process x) = None -> armed (others x);
  i_exit : match exitcode (process x) with
           | None => Exit 0 ∉ did x
           | Some n => n = 0 /\ Exit 0 ∈ did x /\ group (process x) = 0 \/ n = 1 /\ may_fail (process x) \/
                       n = 2 /\ Exit 0 ∉ did x /\ exists o rest, todo x = o :: rest /\ main_panics o (process x)
           end;
}.

Lemma closers_cons l ts : closers (l :: ts) = (if closes l then 1 else 0) + closers ts.
Proof. unfold closers. rewrite filter_cons. case_decide as E; destruct (closes l); try done. by rewrite len_cons. Qed.

Lemma closers_app ts us : closers (ts ++ us) = closers ts + closers us.
Proof. unfold closers. by rewrite filter_app, len_app. Qed.

Lemma closers_insert ts i l l' :
  ts !! i = Some l -> closers (<[i := l']> ts) = closers ts - (if closes l then 1 else 0) + (if closes l' then 1 else 0).
Proof.
  intros Hi. rewrite <- (take_drop_middle ts i l Hi) at 2. rewrite (insert_take_drop ts i l') by (by eapply lookup_lt_Some).
  rewrite !closers_app, !closers_cons. lia.
Qed.

Lemma closers_none ts : Forall (fun l => closes l = false) ts -> closers ts = 0.
Proof. induction 1 as [|l ts Hl _ IH]; [done|]. by rewrite closers_cons, Hl, IH. Qed.

Lemma may_fail_near p p' : near p p' -> may_fail p -> may_fail p'.
Proof. intros []. unfold may_fail. by rewrite nr_cancel0. Qed.

Lemma ok_near p p' l : near p p' -> goroutine_ok p l -> goroutine_ok p' l.
Proof. intros Hn [?|[?|[? Hm]]]; [by left|by right; left|right; right]. split; [done|by eapply may_fail_near]. Qed.

Lemma queues_near k p p' : near p p' -> queues_of k p' = queues_of k p.
Proof. intros []. by destruct k. Qed.

(** The order of main tells what it has done. *)
Lemma order_split d o rest :
  kept (d ++ o :: rest) = order -> keep o = true ->
  (forall a, a ∈ d -> keep a = true -> (rank a <= rank o)%nat) /\
  (forall a, a ∈ order -> (rank a < rank o)%nat -> a ∈ d).
Proof.
  intros Ho Hk. pose proof order_sorted as Hs. rewrite <- Ho, kept_app, kept_cons, Hk in Hs. split.
  - intros a Ha Hka. eapply sorted_app; [exact Hs|by apply elem_of_kept|constructor].
  - intros a Ha Hlt. rewrite <- Ho, kept_app, kept_cons, Hk in Ha. apply elem_of_app in Ha as [Ha|Ha]; [by apply elem_of_kept in Ha as [_ ?]|].
    exfalso. assert (rank o <= rank a)%nat; [|lia].
    change (kept d ++ o :: kept rest) with (kept d ++ [o] ++ kept rest) in Hs. rewrite app_assoc in Hs.
    apply elem_of_cons in Ha as [->|Ha]; [done|].
    eapply sorted_app; [exact Hs| |exact Ha]. apply elem_of_app. right. constructor.
Qed.


Lemma elem_of_order o :
  o ∈ order ->
  o ∈ [Queues_Start OnRedis; Queues_Start OnAMQP; Wait_closed; Cancel; Wg_Wait; Worker_Shutdown; Queues_Shutdown OnRedis;
       Queues_Shutdown OnAMQP; Task_Shutdown; Customer_Shutdown; Exit 0] \/
  exists l, o = Go l /\ (forallb side l = true \/ l = forced s /\ 0 < ShutdownWaitTime s).
Proof.
  unfold order, pprof, worker_Start.
  destruct (is_empty (PprofListenAddress s)), (is_empty (s_ListenAddress _)), (Autobahn s), (Z.ltb_spec 0 (ShutdownWaitTime s));
    rewrite ?elem_of_app, ?elem_of_cons, ?elem_of_nil; intuition subst; eauto 20.
Qed.

(** ** Every step keeps it *)

Lemma stop_start_inv : inv startm.
Proof.
  split; cbn; try (by intros ?%elem_of_nil).
  - apply order_main.
  - split; [by intros ?%elem_of_nil|done].
  - unfold first_logger. by destruct logs_to.2.
  - unfold first_logger. destruct logs_to.2; cbn; lia.
  - constructor.
  - done.
  - by left.
  - by intros k id ?%elem_of_nil.
Qed.

Lemma closed_near k id p p' : near p p' -> closed k id p -> closed k id p'.
Proof. intros Hn Hc. unfold closed. by rewrite (queues_near k p p' Hn). Qed.

(** Main does something that concerns the servers and the log only. *)
Lemma main_near p o rest ts d p' now st :
  inv (mkSys p (o :: rest) ts d) -> exitcode p = None -> near p p' -> kept now = [] ->
  Forall (goroutine_ok p') st -> Forall (fun l => closes l = false) st ->
  (o = Wait_closed -> Quit.ClosedCh (quitting p) = true) ->
  (o = Wg_Wait -> Logging.coroutine (logger p) = Logging.WReturned) ->
  (o = Group_Wait -> group p = 0) -> (o = Go (forced s) -> forced s ∈ st) ->
  (o <> Cancel /\ o <> Exit 0 /\ forall k, o <> Queues_Shutdown k) ->
  inv (mkSys p' (now ++ rest) (ts ++ st) (d ++ [o])).
Proof.
  intros [Ho Hq Hc HW Hd0 Hw Hot Hg Hwt Hqs Hf He] Hex Hn Hnow Hst Hcl H1 H2 H3 Hfo (H4 & H5 & H6). cbn in *. rewrite Hex in He.
  pose proof (fun k => queues_near k p p' Hn) as Hqn. pose proof (fun k id => closed_near k id p p' Hn) as Hcn.
  pose proof (fun l => ok_near p p' l Hn) as Hok. destruct Hn as [N1 N2 N3 N4 Nc N5 N6 N7 N8].
  assert (forall a, a <> o -> (a ∈ d ++ [o] <-> a ∈ d)) as Hd by (intros a Ha; rewrite elem_of_app, list_elem_of_singleton; naive_solver).
  split; cbn.
  - by rewrite kept_next.
  - rewrite N1, elem_of_app, list_elem_of_singleton. intros [Hd1|E]; auto.
  - rewrite N2, <- Hc. apply Hd. congruence.
  - by rewrite N3, N4.
  - rewrite N4. lia.
  - rewrite N4, elem_of_app, list_elem_of_singleton. intros [Hd1|E]; auto.
  - apply Forall_app. split; [|done]. eapply Forall_impl; [exact Hot|]. auto.
  - rewrite N7, Hg, closers_app, (closers_none st Hcl). lia.
  - left. rewrite N7. destruct Hwt as [|[r Hr]]; [done|simplify_eq; auto].
  - intros k id Hk Hid. rewrite Hd in Hk by (by intros <-; eapply H6). rewrite Hqn in Hid.
    destruct (Hqs k id Hk Hid); [left; auto|right; apply elem_of_app; by left].
  - rewrite elem_of_app, list_elem_of_singleton. intros [Hd1|E] _; [by apply armed_app, Hf|].
    exists (forced s). split; [apply elem_of_app; right; auto|constructor].
  - rewrite N8, Hex, Hd; congruence.
Qed.

Lemma queue_tables k q p : queues_of k (set_queues k q p) = q.
Proof. by destruct k. Qed.

Lemma queue_others k k' q p : k <> k' -> queues_of k' (set_queues k q p) = queues_of k' p.
Proof. by destruct k, k'. Qed.

Lemma set_queues_rest k q p :
  let p' := set_queues k q p in
  quitting p' = quitting p /\ Cancelled p' = Cancelled p /\ logger p' = logger p /\ group p' = group p /\ exitcode p' = exitcode p.
Proof. by destruct k. Qed.

Lemma ok_cancelled p p' l : Cancelled p' = Cancelled p -> goroutine_ok p l -> goroutine_ok p' l.
Proof. intros E. unfold goroutine_ok, may_fail. by rewrite E. Qed.

Lemma main_started p k rest ts d q n lv msg :
  inv (mkSys p (Queues_Start k :: rest) ts d) -> exitcode p = None ->
  inv (mkSys (set_queues k q p) (replicate n (Log lv msg) ++ rest) (ts ++ []) (d ++ [Queues_Start k])).
Proof.
  intros [Ho Hq Hc HW Hd0 Hw Hot Hg Hwt Hqs Hf He] Hex. cbn in *. rewrite Hex in He. rewrite app_nil_r.
  destruct (order_split d _ rest Ho eq_refl) as [Hbef _].
  destruct (set_queues_rest k q p) as (E1 & E2 & E3 & E4 & E5).
  assert (forall a, a <> Queues_Start k -> (a ∈ d ++ [Queues_Start k] <-> a ∈ d)) as Hd
    by (intros a Ha; rewrite elem_of_app, list_elem_of_singleton; naive_solver).
  assert (forall a, a ∈ d ++ [Queues_Start k] -> a <> Queues_Start k -> a ∈ d) as Hd' by (intros; by apply Hd).
  split; cbn; rewrite ?E1, ?E2, ?E3, ?E4, ?E5.
  - assert (kept (replicate n (Log lv msg)) = []) as En by (clear; induction n; done).
    by rewrite kept_next.
  - intros Hx. by apply Hq, Hd'.
  - rewrite <- Hc. by apply Hd.
  - done.
  - done.
  - intros Hx. by apply Hw, Hd'.
  - eapply Forall_impl; [exact Hot|]. intros l. by apply ok_cancelled.
  - done.
  - left. by destruct Hwt as [|[r [=]]].
  - intros k' id Hk Hid. rewrite Hd in Hk by done. destruct (decide (k = k')) as [<-|Hne].
    + exfalso. specialize (Hbef _ Hk eq_refl). destruct k; cbn in Hbef; lia.
    + unfold closed. rewrite queue_others in * by done. by apply Hqs.
  - intros Hx _. by apply Hf, Hex; apply Hd'.
  - rewrite Hex. by rewrite Hd.
Qed.

Lemma main_cancel p rest ts d :
  inv (mkSys p (Cancel :: rest) ts d) -> exitcode p = None -> inv (mkSys (set_cancelled p) ([] ++ rest) (ts ++ []) (d ++ [Cancel])).
Proof.
  intros [Ho Hq Hc HW Hd0 Hw Hot Hg Hwt Hqs Hf He] Hex. cbn in *. rewrite Hex in He. rewrite app_nil_r.
  assert (forall a, a <> Cancel -> (a ∈ d ++ [Cancel] <-> a ∈ d)) as Hd
    by (intros a Ha; rewrite elem_of_app, list_elem_of_singleton; naive_solver).
  split; cbn; rewrite ?Hex; try done.
  - by rewrite <- app_assoc.
  - intros Hx. by apply Hq, Hd.
  - split; [done|]. intros _. apply elem_of_app. right. constructor.
  - intros Hx. by apply Hw, Hd.
  - eapply Forall_impl; [exact Hot|]. intros l [?|[?|[? Hm]]]; [by left|by right; left|right; right]. split; [done|].
    destruct Hm as [|[_ ?]]; [by left|by right].
  - left. by destruct Hwt as [|[r [=]]].
  - intros k id Hk Hid. rewrite Hd in Hk by done. unfold closed. destruct k; by apply (Hqs _ id Hk).
  - intros Hx _. apply Hf; [by apply Hd|done].
  - by rewrite Hd.
Qed.

Lemma main_shutdown p k rest ts d :
  inv (mkSys p (Queues_Shutdown k :: rest) ts d) -> exitcode p = None ->
  let l := entries (table (queues_of k p)) in
  inv (mkSys (set_group (len l) p) ([Group_Wait] ++ rest) (ts ++ ((fun id => [Queue_Close k id; Group_Done]) <$> l))
             (d ++ [Queues_Shutdown k])).
Proof.
  intros [Ho Hq Hc HW Hd0 Hw Hot Hg Hwt Hqs Hf He] Hex l. cbn in *. rewrite Hex in He.
  assert (forall a, (forall k, a <> Queues_Shutdown k) -> (a ∈ d ++ [Queues_Shutdown k] <-> a ∈ d)) as Hd
    by (intros a Ha; rewrite elem_of_app, list_elem_of_singleton; naive_solver).
  assert (group p = 0) as Hg0 by (by destruct Hwt as [|[r [=]]]).
  split; cbn; rewrite ?Hex; try done.
  - change (Group_Wait :: rest) with ([Group_Wait] ++ rest). by rewrite kept_next.
  - intros Hx. by apply Hq, Hd.
  - rewrite <- Hc. by apply Hd.
  - intros Hx. by apply Hw, Hd.
  - apply Forall_app. split; [eapply Forall_impl; [exact Hot|]; intros r; by apply ok_cancelled|].
    apply Forall_fmap, Forall_forall. intros id _. right. left. constructor.
  - rewrite closers_app, <- Hg, Hg0. clear. induction l as [|id l IH]; [done|].
    cbn [fmap list_fmap]. rewrite closers_cons, len_cons. cbn -[closers]. cbn in IH. lia.
  - right. by exists rest.
  - intros k' id [Hk|E%list_elem_of_singleton]%elem_of_app Hid.
    + replace (queues_of k' (set_group (len l) p)) with (queues_of k' p) in Hid by (by destruct k').
      unfold closed. replace (queues_of k' (set_group (len l) p)) with (queues_of k' p) by (by destruct k').
      destruct (Hqs k' id Hk Hid); [by left|right; apply elem_of_app; by left].
    + injection E as ->. right. apply elem_of_app. right. apply list_elem_of_fmap. exists id. split; [done|].
      unfold l. by destruct k.
  - intros Hx _. apply armed_app, Hf; [by apply Hd|done].
  - by rewrite Hd.
Qed.

Lemma main_exit p rest ts d :
  inv (mkSys p (Exit 0 :: rest) ts d) -> exitcode p = None -> inv (mkSys (set_exit 0 p) ([] ++ rest) (ts ++ []) (d ++ [Exit 0])).
Proof.
  intros [Ho Hq Hc HW Hd0 Hw Hot Hg Hwt Hqs Hf He] Hex. cbn in *. rewrite app_nil_r.
  assert (forall a, a <> Exit 0 -> (a ∈ d ++ [Exit 0] <-> a ∈ d)) as Hd
    by (intros a Ha; rewrite elem_of_app, list_elem_of_singleton; naive_solver).
  split; cbn; try done.
  - change rest with ([] ++ rest). by rewrite kept_next.
  - intros Hx. by apply Hq, Hd.
  - rewrite <- Hc. by apply Hd.
  - intros Hx. by apply Hw, Hd.
  - left. by destruct Hwt as [|[r [=]]].
  - intros k id Hk Hid. rewrite Hd in Hk by done. unfold closed. destruct k; by apply (Hqs _ id Hk).
  - left. split_and!; [done|apply elem_of_app; right; constructor|]. by destruct Hwt as [|[r [=]]].
Qed.

Lemma side_ok p l : forallb side l = true -> goroutine_ok p l /\ closes l = false.
Proof. intros Hl. split; [by left|by apply (other_open side)]. Qed.

#[local] Ltac near_step := eapply main_near; try done; try (by constructor).

Lemma main_step p o rest ts d p' now st :
  inv (mkSys p (o :: rest) ts d) -> exitcode p = None -> execm o p = Next p' now st ->
  inv (mkSys p' (now ++ rest) (ts ++ st) (d ++ [o])).
Proof.
  intros Hi Hex He. pose proof (i_order _ Hi) as Ho. cbn in Ho.
  destruct (keep o) eqn:Hk.
  - assert (o ∈ order) as Hin by (rewrite <- Ho, kept_app, kept_cons, Hk, elem_of_app; right; constructor).
    apply elem_of_order in Hin as [Hin|(l & -> & Hl)].
    + rewrite !elem_of_cons, elem_of_nil in Hin.
      destruct Hin as [->|[->|[->|[->|[->|[->|[->|[->|[->|[->|[->|[]]]]]]]]]]]]; cbn in He; ops_in He.
      * destruct (redis_Start _ _) as [[m mp]|]; simplify_eq. by apply (main_started p OnRedis).
      * destruct (amqp_Start _ _ _ _ _) as [[m mp] dc]. simplify_eq. by apply (main_started p OnAMQP).
      * destruct (Quit.ClosedCh _) eqn:E; simplify_eq. near_step.
      * simplify_eq. by apply main_cancel.
      * destruct (Logging.Wg _ =? 0) eqn:E; simplify_eq. near_step.
        intros _. pose proof (i_Wg _ Hi) as HW. cbn in HW. destruct (Logging.coroutine _); lia || done.
      * destruct (is_empty _); [|destruct (worker_server p)]; simplify_eq; near_step;
          by destruct worker_close_fails.
      * simplify_eq. by apply (main_shutdown p OnRedis).
      * simplify_eq. by apply (main_shutdown p OnAMQP).
      * destruct (task_server p); simplify_eq. near_step. by destruct task_close_fails.
      * destruct (customer_server p) as [[]|]; simplify_eq; near_step.
      * simplify_eq. by apply main_exit.
    + cbn in He. simplify_eq. near_step.
      * constructor; [|constructor]. destruct Hl as [Hl|[-> Hl]]; [by left|right; right]. split; [done|]. right. split; [|done].
        apply (i_cancel _ Hi). apply (order_split d _ rest Ho eq_refl); [|cbn; lia].
        unfold order. rewrite !elem_of_app, !elem_of_cons. tauto.
      * constructor; [|constructor]. destruct Hl as [Hl|[-> _]]; [by apply side_ok|done].
      * intros E. injection E as ->. constructor.
  - destruct o; try done; cbn in He; simplify_eq; [near_step|].
    destruct (Z.eqb_spec (group p) 0); simplify_eq. near_step.
Qed.

(** What the process does besides leaves main where it is. *)
Lemma same_near p p' l ts d :
  inv (mkSys p l ts d) -> exitcode p <> Some 2 -> near p p' -> inv (mkSys p' l ts d).
Proof.
  intros [Ho Hq Hc HW Hd0 Hw Hot Hg Hwt Hqs Hf He] H2 Hn. cbn in *.
  pose proof (fun k => queues_near k p p' Hn) as Hqn. pose proof (fun k id => closed_near k id p p' Hn) as Hcn.
  pose proof (fun l => ok_near p p' l Hn) as Hok. pose proof (may_fail_near p p' Hn) as Hm. destruct Hn as [N1 N2 N3 N4 Nc N5 N6 N7 N8].
  split; cbn; rewrite ?N1, ?N2, ?N3, ?N4, ?N7, ?N8; try done.
  - lia.
  - eapply Forall_impl; [exact Hot|]. auto.
  - intros k id Hk Hid. rewrite Hqn in Hid. destruct (Hqs k id Hk Hid); auto.
  - destruct (exitcode p); [|done]. destruct He as [|[[-> ?]|[-> _]]]; [auto..|done].
Qed.

(** One goroutine besides main is another after a step, in a process that main does not
    notice. *)
Lemma other_near p l ts d i g g' st p' :
  inv (mkSys p l ts d) -> exitcode p <> Some 2 -> ts !! i = Some g -> near p p' ->
  goroutine_ok p' g' -> Forall (goroutine_ok p') st ->
  closes g' = closes g -> Forall (fun l => closes l = false) st ->
  (forall k id, g <> [Queue_Close k id; Group_Done]) ->
  (exitcode p' = None -> g ∈ [forced s; drop 1 (forced s); drop 2 (forced s)] -> g' ∈ [forced s; drop 1 (forced s); drop 2 (forced s)]) ->
  inv (mkSys p' l (<[i := g']> ts ++ st) d).
Proof.
  intros Hi H2 Hg Hn Hg' Hst Hcl Hcs Hng Hfo. apply (same_near p p') in Hi; [|done..].
  destruct Hi as [Ho Hq Hc HW Hd0 Hw Hot Hgr Hwt Hqs Hf He]. cbn in *. split; cbn; try done.
  - apply Forall_app. split; [|done]. by apply Forall_insert.
  - rewrite closers_app, (closers_none st Hcs), (closers_insert ts i g) by done. rewrite Hcl, Hgr. lia.
  - intros k id Hk Hid. destruct (Hqs k id Hk Hid) as [|Hin]; [by left|right].
    apply elem_of_app. left. apply list_elem_of_lookup in Hin as [j Hj]. apply list_elem_of_lookup. exists j.
    rewrite list_lookup_insert_ne; [done|]. intros ->. simplify_eq. by eapply Hng.
  - intros Hx Hex. apply armed_app. eapply armed_insert; [by apply Hf|done|by apply Hfo].
Qed.

(** A queue is closed. *)
Lemma closed_Close k id k' id' p :
  closed k' id' p \/ (k, id) = (k', id') -> closed k' id' (alter_queue k id (fun st => (EventQueue.Close st).2) p).
Proof.
  assert (forall st, EventQueue.closeLock (EventQueue.Close st).2 <> 0) as Hcl.
  { intros st. unfold EventQueue.Close. destruct (Z.eqb_spec (EventQueue.closeLock st) 0); done. }
  unfold closed, alter_queue. intros Hc st. destruct (decide (k = k')) as [<-|Hne].
  - rewrite queue_tables. cbn. destruct (decide (id = id')) as [<-|Hne].
    + rewrite lookup_alter_eq. intros (st0 & _ & ->)%fmap_Some. apply Hcl.
    + rewrite lookup_alter_ne by done. destruct Hc as [Hc|[=]]; [apply Hc|done].
  - rewrite queue_others by done. destruct Hc as [Hc|[= -> _]]; [apply Hc|done].
Qed.

Lemma table_alter k id f k' p : table (queues_of k' (alter_queue k id f p)) = table (queues_of k' p).
Proof. by destruct k, k'. Qed.

Lemma alter_rest k id f p :
  let p' := alter_queue k id f p in
  quitting p' = quitting p /\ Cancelled p' = Cancelled p /\ logger p' = logger p /\ group p' = group p /\ exitcode p' = exitcode p.
Proof. apply set_queues_rest. Qed.

Lemma close_step p l ts d i k id now :
  inv (mkSys p l ts d) -> exitcode p = None -> ts !! i = Some [Queue_Close k id; Group_Done] -> closer (now ++ [Group_Done]) ->
  inv (mkSys (alter_queue k id (fun st => (EventQueue.Close st).2) p) l (<[i := now ++ [Group_Done]]> ts ++ []) d).
Proof.
  intros [Ho Hq Hc HW Hd0 Hw Hot Hgr Hwt Hqs Hf He] Hex Hi Hcl. cbn in *. rewrite Hex in He. rewrite app_nil_r.
  destruct (alter_rest k id (fun st => (EventQueue.Close st).2) p) as (E1 & E2 & E3 & E4 & E5).
  pose proof (fun g => ok_cancelled p _ g E2) as Hok.
  split; cbn; rewrite ?E1, ?E2, ?E3, ?E4, ?E5; try done.
  - apply Forall_insert; [|by right; left]. eapply Forall_impl; [exact Hot|]. auto.
  - rewrite (closers_insert ts i _ _ Hi), (closer_closes _ Hcl), Hgr. cbn. lia.
  - intros k' id' Hk Hid. rewrite table_alter in Hid. destruct (Hqs k' id' Hk Hid) as [Hx|Hin].
    + left. apply closed_Close. by left.
    + apply list_elem_of_lookup in Hin as [j Hj]. destruct (decide (i = j)) as [<-|Hne].
      * left. apply closed_Close. right. by simplify_eq.
      * right. apply list_elem_of_lookup. exists j. by rewrite list_lookup_insert_ne.
  - intros Hx _. eapply armed_insert; [by apply Hf|done|]. unfold forced. cbn. rewrite !elem_of_cons. intros [|[|[|?%elem_of_nil]]]; done.
  - by rewrite Hex.
Qed.

Lemma done_step p l ts d i :
  inv (mkSys p l ts d) -> exitcode p = None -> ts !! i = Some [Group_Done] ->
  inv (mkSys (set_group (group p - 1) p) l (<[i := []]> ts ++ []) d).
Proof.
  intros [Ho Hq Hc HW Hd0 Hw Hot Hgr Hwt Hqs Hf He] Hex Hi. cbn in *. rewrite Hex in He. rewrite app_nil_r. split; cbn; try done.
  - apply Forall_insert; [|by left]. eapply Forall_impl; [exact Hot|]. intros g. by apply ok_cancelled.
  - rewrite (closers_insert ts i _ _ Hi), Hgr. cbn. lia.
  - right. destruct Hwt as [Hz|]; [|done]. exfalso.
    pose proof (closers_insert ts i _ [] Hi) as E. cbn in E. rewrite <- Hgr, Hz in E. unfold closers in E. pose proof (len_nonneg (filter (fun l => closes l = true) (<[i := []]> ts))). lia.
  - intros k id Hk Hid. assert (queues_of k (set_group (group p - 1) p) = queues_of k p) as E by (by destruct k).
    unfold closed. rewrite E in *. destruct (Hqs k id Hk Hid) as [|Hin]; [by left|right].
    apply list_elem_of_lookup in Hin as [j Hj]. apply list_elem_of_lookup. exists j.
    rewrite list_lookup_insert_ne; [done|]. intros ->. by simplify_eq.
  - intros Hx _. eapply armed_insert; [by apply Hf|done|]. unfold forced. cbn. rewrite !elem_of_cons. intros [|[|[|?%elem_of_nil]]]; done.
  - by rewrite Hex.
Qed.

Definition loose (o : op) : bool := side o || ending o.

Lemma loose_weaken (f : op -> bool) l : (forall o, f o = true -> loose o = true) -> forallb f l = true -> forallb loose l = true.
Proof. rewrite !forallb_forall. auto. Qed.

Lemma loose_ok p l : forallb loose l = true -> may_fail p -> goroutine_ok p l /\ closes l = false.
Proof. intros Hl Hm. split; [right; right; by split|by apply (other_open loose)]. Qed.

Lemma loose_step p l ts i o rest d p' now st :
  inv (mkSys p l ts d) -> exitcode p = None -> ts !! i = Some (o :: rest) -> execm o p = Next p' now st -> side o = true ->
  forallb loose rest = true -> forallb side rest = true \/ may_fail p ->
  inv (mkSys p' l (<[i := now ++ rest]> ts ++ st) d).
Proof.
  intros Hi Hex Hg He Ho Hl Hr. destruct (side_exec o p p' now st Ho He) as (Hn & Hnow & Hst).
  assert (forall l, forallb side l = true -> forallb loose l = true) as Hsl.
  { intros k. apply loose_weaken. intros x Hx. unfold loose. by rewrite Hx. }
  assert (goroutine_ok p' (now ++ rest) /\ closes (now ++ rest) = false) as [Hok Hcl].
  { destruct Hnow as [Hnow|[Hnow Hf]], Hr as [Hr|Hr].
    - apply side_ok. rewrite forallb_app. by rewrite Hnow, Hr.
    - apply loose_ok; [rewrite forallb_app; by rewrite (Hsl now Hnow), Hl|by eapply may_fail_near].
    - apply loose_ok; [|by left]. rewrite forallb_app, Hl, (loose_weaken ending now); [done| |done]. intros x Hx. unfold loose. by rewrite Hx, orb_true_r.
    - apply loose_ok; [|by left]. rewrite forallb_app, Hl, (loose_weaken ending now); [done| |done]. intros x Hx. unfold loose. by rewrite Hx, orb_true_r. }
  assert (closes (o :: rest) = false) as Hco.
  { apply (other_open loose); [done|]. cbn. rewrite Hl. unfold loose. by rewrite Ho. }
  eapply other_near; [done|congruence|exact Hg|done|done| |by rewrite Hcl, Hco| | |].
  - eapply Forall_impl; [exact Hst|]. intros k Hk. by left.
  - eapply Forall_impl; [exact Hst|]. cbn beta. intros k Hk. by apply (side_ok p').
  - intros k id E. by rewrite E in Hco.
  - intros _. rewrite !elem_of_cons, elem_of_nil. intros [E|[E|[E|[]]]]; injection E as -> ->; cbn in He, Ho; simplify_eq; cbn; tauto.
Qed.

Lemma exit_step p l ts d g : inv (mkSys p l ts d) -> exitcode p = None -> g = set_exit 1 p -> may_fail p -> inv (mkSys g l ts d).
Proof.
  intros [Ho Hq Hc HW Hd0 Hw Hot Hgr Hwt Hqs Hf He] Hex -> Hm. cbn in *. split; cbn; try done.
  right. by left.
Qed.

Lemma other_step p l ts i o rest d p' now st :
  inv (mkSys p l ts d) -> exitcode p = None -> ts !! i = Some (o :: rest) -> execm o p = Next p' now st ->
  inv (mkSys p' l (<[i := now ++ rest]> ts ++ st) d).
Proof.
  intros Hi Hex Hg He. pose proof (i_others _ Hi) as Hot. cbn in Hot. rewrite Forall_forall in Hot.
  destruct (Hot _ (list_elem_of_lookup_2 _ _ _ Hg)) as [Hs|[Hc|[Hs Hm]]].
  - cbn in Hs. apply andb_true_iff in Hs as [Ho Hr]. eapply loose_step; try done; [|by left].
    eapply loose_weaken; [|exact Hr]. intros x Hx. unfold loose. by rewrite Hx.
  - inversion Hc as [k id E|lv msg E|E]; subst; cbn in He; ops_in He; simplify_eq.
    + apply (close_step p l ts d i k id); [done|done|done|]. by case_match; [case_match|]; constructor.
    + eapply other_near; try done; [congruence|right; left; constructor|].
      intros _. rewrite !elem_of_cons. intros [|[|[|?%elem_of_nil]]]; done.
    + by apply done_step.
  - cbn in Hs. apply andb_true_iff in Hs as [Ho Hr]. destruct (side o) eqn:Hso; [by eapply loose_step; [..|right]|].
    destruct o; cbn in Ho; try done. apply Z.eqb_eq in Ho as ->. cbn in He. simplify_eq.
    eapply (other_near (set_exit 1 p)); [by eapply exit_step|done|done|apply near_refl|by apply loose_ok|by constructor| |by constructor|done|done].
    destruct (loose_ok p _ Hr Hm) as [_ E]. cbn [app]. rewrite E. symmetry. by apply (other_open loose).
Qed.

Lemma quit_step p l ts d e q : inv (mkSys p l ts d) -> Quit.handle e (quitting p) = Some q -> inv (mkSys (set_quit q p) l ts d).
Proof.
  intros [Ho Hq Hc HW Hd0 Hw Hot Hgr Hwt Hqs Hf He] Hh. cbn in *. split; cbn; try done.
  intros Hx. specialize (Hq Hx). destruct (quitting p) as [b r]. cbn in Hq. subst b. rewrite Quit.handle_closed in Hh. by simplify_eq.
Qed.

Lemma writer_step p l ts d q g :
  inv (mkSys p l ts d) -> Logging.coroutine_step (Cancelled p) q (logger p) = Some g -> inv (mkSys (set_logger g p) l ts d).
Proof.
  intros [Ho Hq Hc HW Hd0 Hw Hot Hgr Hwt Hqs Hf He] Hh. cbn in *. split; cbn; try done.
  - unfold Logging.coroutine_step in Hh. destruct (logger p) as [m c j w pc]. cbn in *.
    destruct pc as [|b|[|i]|i [|n]|i n b|i|]; try done; try (destruct q, (Cancelled p)); try (destruct c); simplify_eq; cbn; lia.
  - by eapply Logging.coroutine_owed.
  - intros Hx. specialize (Hw Hx). unfold Logging.coroutine_step in Hh. by rewrite Hw in Hh.
Qed.

Lemma queue_step p l ts d k id f :
  inv (mkSys p l ts d) -> exitcode p = None -> (forall st, EventQueue.closeLock (f st) = EventQueue.closeLock st) ->
  inv (mkSys (alter_queue k id f p) l ts d).
Proof.
  intros [Ho Hq Hc HW Hd0 Hw Hot Hgr Hwt Hqs Hfo He] Hex Hf. cbn in *. rewrite Hex in He.
  destruct (alter_rest k id f p) as (E1 & E2 & E3 & E4 & E5). pose proof (fun g => ok_cancelled p _ g E2) as Hok.
  split; cbn; rewrite ?E1, ?E2, ?E3, ?E4, ?E5; try done.
  - eapply Forall_impl; [exact Hot|]. auto.
  - intros k' id' Hk Hid. rewrite table_alter in Hid. destruct (Hqs k' id' Hk Hid) as [Hx|]; [left|by right].
    unfold closed, alter_queue in *. intros st. destruct (decide (k = k')) as [<-|Hne]; [|rewrite queue_others by done; apply Hx].
    rewrite queue_tables. cbn. destruct (decide (id = id')) as [<-|Hne]; [|rewrite lookup_alter_ne by done; apply Hx].
    rewrite lookup_alter_eq. intros (st0 & Hst & ->)%fmap_Some. rewrite Hf. by apply Hx.
  - by rewrite Hex.
Qed.

(** Only main panics, and only there. *)
Lemma main_panic p o rest ts d :
  inv (mkSys p (o :: rest) ts d) -> exitcode p = None -> execm o p = Panics -> main_panics o p /\ Exit 0 ∉ d.
Proof.
  intros Hi Hex He. pose proof (i_exit _ Hi) as Hd. pose proof (i_order _ Hi) as Ho. cbn in Hd, Ho. rewrite Hex in Hd.
  split; [|done]. destruct (keep o) eqn:Hk.
  - assert (o ∈ order) as Hin by (rewrite <- Ho, kept_app, kept_cons, Hk, elem_of_app; right; constructor).
    apply elem_of_order in Hin as [Hin|(l & -> & _)]; [|done]. rewrite !elem_of_cons, elem_of_nil in Hin. unfold main_panics.
    destruct Hin as [->|[->|[->|[->|[->|[->|[->|[->|[->|[->|[->|[]]]]]]]]]]]]; cbn in He; ops_in He; repeat case_match; simplify_eq; tauto.
  - destruct o; try done; cbn in He; by case_match.
Qed.

Lemma other_no_panic p l ts i o rest d :
  inv (mkSys p l ts d) -> ts !! i = Some (o :: rest) -> execm o p <> Panics.
Proof.
  intros Hi Hg. pose proof (i_others _ Hi) as Hot. cbn in Hot. rewrite Forall_forall in Hot.
  assert (side o || ending o = true -> execm o p <> Panics) as Hs.
  { destruct o; cbn; try done; intros _; repeat case_match; done. }
  destruct (Hot _ (list_elem_of_lookup_2 _ _ _ Hg)) as [H|[H|[H _]]].
  - cbn in H. apply andb_true_iff in H as [H _]. apply Hs. by rewrite H.
  - inversion H; subst; cbn; done.
  - cbn in H. apply andb_true_iff in H as [H _]. by apply Hs.
Qed.

Lemma panic_step p o rest ts d :
  inv (mkSys p (o :: rest) ts d) -> exitcode p = None -> execm o p = Panics -> inv (mkSys (set_exit 2 p) (o :: rest) ts d).
Proof.
  intros Hi Hex He. destruct (main_panic _ _ _ _ _ Hi Hex He) as [Hm Hd].
  destruct Hi as [Ho Hq Hc HW Hd0 Hw Hot Hgr Hwt Hqs Hf _]. cbn in *. split; cbn; try done.
  do 2 right. split_and!; eauto.
Qed.

Lemma stop_step_inv x y : inv x -> stepm x y -> inv y.
Proof.
  intros Hi Hs. destruct Hs.
  - by eapply main_step.
  - by eapply other_step.
  - by eapply quit_step.
  - by eapply writer_step.
  - eapply same_near; [done|congruence|apply near_log].
  - by apply queue_step.
  - by apply panic_step.
  - by edestruct other_no_panic.
  - exfalso. unfold Quit.handle, Quit.on_signal, Quit.Execute, Quit.close_ch in *. repeat case_match; done.
Qed.

Lemma stop_reachable_inv x : reachablem x -> inv x.
Proof. intros Hr. eapply star_invariant; [exact stop_step_inv|exact Hr|apply stop_start_inv]. Qed.

(** ** What the invariant says *)




Lemma order_has o :
  o ∈ [Wait_closed; Cancel; Wg_Wait; Queues_Shutdown OnRedis; Queues_Shutdown OnAMQP; Exit 0] -> o ∈ order.
Proof.
  unfold order. rewrite !elem_of_app, !elem_of_cons, elem_of_nil. naive_solver.
Qed.


(** What main waits for goes on. *)
Lemma waited_goes_on x rest :
  inv x -> todo x = Wg_Wait :: rest -> Logging.Wg (logger (process x)) <> 0 ->
  exists q g, Logging.coroutine_step (Cancelled (process x)) q (logger (process x)) = Some g.
Proof.
  intros Hi Ht Hw. rewrite (i_Wg _ Hi) in Hw. pose proof (i_order _ Hi) as Ho. rewrite Ht in Ho.
  assert (Cancelled (process x) = true) as Hc.
  { apply (i_cancel _ Hi). apply (proj2 (order_split _ _ _ Ho eq_refl)); [by apply order_has; set_solver|cbn; lia]. }
  rewrite Hc. destruct (Logging.stopping (Logging.coroutine (logger (process x)))) eqn:E.
  - destruct (Logging.stopping_goes_on true _ (i_owed _ Hi) E) as [Hr|[g Hg]]; [by rewrite Hr in Hw|by exists false, g].
  - exists true. unfold Logging.coroutine_step. destruct (Logging.coroutine _); try done; eauto.
Qed.

Lemma group_goes_on x :
  inv x -> group (process x) <> 0 ->
  exists i o l p' now st, others x !! i = Some (o :: l) /\ closer (o :: l) /\ execm o (process x) = Next p' now st.
Proof.
  intros Hi Hg. rewrite (i_group _ Hi) in Hg.
  destruct (list_find (fun l => closes l = true) (others x)) as [[i g]|] eqn:Ef.
  - apply list_find_Some in Ef as (Hl & Hc & _). pose proof (i_others _ Hi) as Hot. rewrite Forall_forall in Hot.
    destruct (Hot g (list_elem_of_lookup_2 _ _ _ Hl)) as [Hs|[Hc'|[Hs Hm]]].
    + by rewrite (proj2 (side_ok (process x) _ Hs)) in Hc.
    + exists i. destruct Hc'; do 5 eexists; (split; [exact Hl|split; [constructor|cbn; reflexivity]]).
    + by rewrite (proj2 (loose_ok _ _ Hs Hm)) in Hc.
  - exfalso. apply Hg, closers_none. apply list_find_None in Ef. eapply Forall_impl; [exact Ef|].
    cbn. intros l Hl. by destruct (closes l).
Qed.

(** C25: When the program has been asked to stop and has not ended, main never waits for
    nothing: its next operation can be done, or it waits for the goroutine of the log or
    for one that closes a queue, and that one has a step; only a server that has not been
    made, or a Redis that does not answer at the start, makes it panic instead. And with a
    time to shut down, once main has come past that point, the program can end by itself
    whatever main waits for. *)
Theorem shutdown_goes_on x :
  reachablem x -> exitcode (process x) = None -> Quit.ClosedCh (quitting (process x)) = true ->
  (exists o rest, todo x = o :: rest /\
     ((exists p' now st, execm o (process x) = Next p' now st) \/
      (o = Wg_Wait /\ exists q g, Logging.coroutine_step (Cancelled (process x)) q (logger (process x)) = Some g) \/
      (o = Group_Wait /\ exists i a l p' now st, others x !! i = Some (a :: l) /\ closer (a :: l) /\ execm a (process x) = Next p' now st) \/
      (execm o (process x) = Panics /\
        (o = Task_Shutdown /\ task_server (process x) = None \/ o = Customer_Shutdown /\ customer_server (process x) = None \/
         o = Queues_Start OnRedis /\ redis_Start Ping (Redis s) = None)))) /\
  (Go (forced s) ∈ did x -> exists y, star stepm x y /\ exitcode (process y) = Some 1).
Proof.
  intros Hi%stop_reachable_inv Hex Hq. pose proof (i_order _ Hi) as Ho. split.
  - pose proof (i_exit _ Hi) as He. rewrite Hex in He.
    destruct (todo x) as [|o rest] eqn:Ht.
    { exfalso. apply He. rewrite app_nil_r in Ho. assert (Exit 0 ∈ order) as Hin by (apply order_has; set_solver).
      rewrite <- Ho in Hin. by apply elem_of_kept in Hin as [_ ?]. }
    exists o, rest. split; [done|]. destruct (keep o) eqn:Hk.
    + assert (o ∈ order) as Hin by (rewrite <- Ho, kept_app, kept_cons, Hk, elem_of_app; right; constructor).
      apply elem_of_order in Hin as [Hin|(l & -> & _)]; [|left; cbn; eauto].
      rewrite !elem_of_cons, elem_of_nil in Hin.
      destruct Hin as [->|[->|[->|[->|[->|[->|[->|[->|[->|[->|[->|[]]]]]]]]]]]]; cbn; ops.
      * destruct (redis_Start _ _) as [[m mp]|] eqn:E; [left; eauto|]. do 3 right. split; [done|]. by do 2 right.
      * left. destruct (amqp_Start _ _ _ _ _) as [[m mp] dc]. eauto.
      * rewrite Hq. left. eauto.
      * left. eauto.
      * destruct (Z.eqb_spec (Logging.Wg (logger (process x))) 0) as [E|E]; [left; eauto|right; left]. split; [done|]. by eapply waited_goes_on.
      * left. destruct (is_empty _); [eauto|]. destruct (worker_server _); eauto.
      * left. eauto.
      * left. eauto.
      * destruct (task_server _) eqn:E; [left; eauto|]. do 3 right. split; [done|]. by left.
      * destruct (customer_server _) as [[]|] eqn:E; [left; eauto..|]. do 3 right. split; [done|]. by right; left.
      * left. eauto.
    + destruct o; try done; cbn; [left; eauto|].
      destruct (Z.eqb_spec (group (process x)) 0) as [E|E]; [left; eauto|do 2 right; left]. split; [done|]. by apply group_goes_on.
  - intros Hf. destruct (i_forced _ Hi Hf Hex) as (l & Hl & Hfl). apply list_elem_of_lookup in Hl as [i Hl].
    clear Hi Ho Hf Hq. destruct x as [p t ts d]. cbn in *.
    assert (forall p ts, exitcode p = None -> ts !! i = Some [Exit 1] ->
              exists y, star stepm (mkSys p t ts d) y /\ exitcode (process y) = Some 1) as H1.
    { intros p0 ts0 Hp Hts. eexists. split; [apply star_one; eapply s_other; [done|exact Hts|reflexivity]|done]. }
    assert (forall p ts, exitcode p = None -> ts !! i = Some (drop 1 (forced s)) ->
              exists y, star stepm (mkSys p t ts d) y /\ exitcode (process y) = Some 1) as H2.
    { intros p0 ts0 Hp Hts. eassert (stepm (mkSys p0 t ts0 d) _) as Hst by (eapply s_other; [done|exact Hts|reflexivity]).
      destruct (H1 (log logs_to render InfoLevel "Forced shutdown of netsvr process successfully" p0) (<[i := [Exit 1]]> ts0)) as (y & Hy & Hey).
      - by rewrite (nr_exit _ _ (near_log _ _ _)).
      - apply list_lookup_insert_eq. by eapply lookup_lt_Some.
      - exists y. split; [|done]. eapply star_cons; [exact Hst|]. by rewrite app_nil_r. }
    rewrite !elem_of_cons, elem_of_nil in Hfl. destruct Hfl as [->|[->|[->|[]]]]; [|by apply H2|by apply H1].
    eassert (stepm (mkSys p t ts d) _) as Hst by (eapply s_other; [done|exact Hl|reflexivity]).
    destruct (H2 p (<[i := drop 1 (forced s)]> ts)) as (y & Hy & Hey); [done|apply list_lookup_insert_eq; by eapply lookup_lt_Some|].
    exists y. split; [|done]. eapply star_cons; [exact Hst|]. by rewrite app_nil_r.
Qed.

(** ** What is lost *)

Lemma exec_logger o p p' now st :
  execm o p = Next p' now st -> logger p' = logger p \/ exists lv msg, p' = log logs_to render lv msg p.
Proof.
  destruct o; cbn; ops; intros He; simplify_eq; eauto;
    repeat case_match; simplify_eq; eauto; left; by destruct k.
Qed.

(** Once main has waited for the goroutine of the log, nothing that is logged reaches the
    file: not the stop of the servers and the queues, not the last line. *)
Theorem last_words_lost x y :
  logs_to.2 = Logging.Async -> reachablem x -> Wg_Wait ∈ did x -> star stepm x y ->
  Logging.lj (logger (process y)) = Logging.lj (logger (process x)).
Proof.
  intros Ha Hr Hw Hs. pose proof (i_waited _ (stop_reachable_inv _ Hr) Hw) as Hpc. clear Hr Hw.
  assert (forall lv msg p, Logging.coroutine (logger (log logs_to render lv msg p)) = Logging.coroutine (logger p) /\
                           Logging.lj (logger (log logs_to render lv msg p)) = Logging.lj (logger p)) as Hlog.
  { intros lv msg p. unfold log. destruct (Logging.enabled _ _); [|done]. rewrite Ha.
    unfold Logging.Write. by destruct (_ <? _)%nat. }
  apply (star_invariant stepm (fun z => Logging.coroutine (logger (process z)) = Logging.WReturned /\
           Logging.lj (logger (process z)) = Logging.lj (logger (process x))) x y); [|done|done].
  clear -Hlog. intros a b [Hp Hl] Hab. destruct Hab as [p o rest ts d p' now st _ He|p l ts i o rest d p' now st _ _ He| |p l ts d q g _ Hg| |p l ts d k id g _ _| | |]; cbn in *.
  - destruct (exec_logger _ _ _ _ _ He) as [->|(lv & msg & ->)]; [done|]. destruct (Hlog lv msg p) as [-> ->]. done.
  - destruct (exec_logger _ _ _ _ _ He) as [->|(lv & msg & ->)]; [done|]. destruct (Hlog lv msg p) as [-> ->]. done.
  - done.
  - unfold Logging.coroutine_step in Hg. by rewrite Hp in Hg.
  - match goal with |- context [log _ _ ?a ?b ?c] => destruct (Hlog a b c) as [-> ->] end. done.
  - destruct (alter_rest k id g p) as (_ & _ & -> & _). done.
  - done.
  - done.
  - done.
Qed.

(** ** Concrete runs *)

Inductive act := AMain | AOther (i : nat) | ASignal (e : Quit.event) | AWriter (q : bool).

Definition perform (a : act) (x : sys) : option sys :=
  match exitcode (process x) with
  | Some _ => None
  | None =>
      match a with
      | AMain => match todo x with
                 | o :: rest => match execm o (process x) with
                                | Next p' now st => Some (mkSys p' (now ++ rest) (others x ++ st) (did x ++ [o]))
                                | Panics => Some (mkSys (set_exit 2 (process x)) (o :: rest) (others x) (did x))
                                | Wait => None
                                end
                 | [] => None
                 end
      | AOther i => match others x !! i with
                    | Some (o :: rest) => match execm o (process x) with
                                          | Next p' now st => Some (mkSys p' (todo x) (<[i := now ++ rest]> (others x) ++ st) (did x))
                                          | Panics => Some (mkSys (set_exit 2 (process x)) (todo x) (others x) (did x))
                                          | Wait => None
                                          end
                    | _ => None
                    end
      | ASignal e => q ← Quit.handle e (quitting (process x)); Some (mkSys (set_quit q (process x)) (todo x) (others x) (did x))
      | AWriter q => g ← Logging.coroutine_step (Cancelled (process x)) q (logger (process x));
                     Some (mkSys (set_logger g (process x)) (todo x) (others x) (did x))
      end
  end.

Fixpoint perform_all (l : list act) (x : sys) : option sys :=
  match l with [] => Some x | a :: l' => y ← perform a x; perform_all l' y end.

Lemma perform_step a x y : perform a x = Some y -> stepm x y.
Proof.
  destruct x as [p t ts d]. unfold perform. cbn. destruct (exitcode p) eqn:Hex; [done|]. destruct a as [|i|e|q].
  - destruct t as [|o rest]; [done|]. destruct (execm o p) eqn:E; try done; intros [= <-]; [by apply s_main|by apply s_panic].
  - destruct (ts !! i) as [[|o rest]|] eqn:Hi; try done. destruct (execm o p) eqn:E; try done; intros [= <-]; [by eapply s_other|by eapply s_panic_other].
  - destruct (Quit.handle e _) eqn:E; [|done]. intros [= <-]. by eapply s_signal.
  - destruct (Logging.coroutine_step _ _ _) eqn:E; [|done]. intros [= <-]. by eapply s_writer.
Qed.

Lemma queue_does x k id f :
  exitcode (process x) = None -> (forall st, EventQueue.closeLock (f st) = EventQueue.closeLock st) ->
  stepm x (mkSys (alter_queue k id f (process x)) (todo x) (others x) (did x)).
Proof. destruct x. apply s_queue. Qed.

Lemma perform_star l x y : perform_all l x = Some y -> star stepm x y.
Proof.
  revert x. induction l as [|a l IH]; intros x; cbn; [intros [= <-]; constructor|].
  destruct (perform a x) as [z|] eqn:E; [|done]. intros Hl. eapply star_cons; [by eapply perform_step|]. by apply IH.
Qed.
End Props.

Definition with_wait (n : Z) (s : settings) : settings :=
  mkSettings (LogLevel s) (LogFile s) n (PprofListenAddress s) (Autobahn s) (Limit_OnOpen s) (Limit_OnMessage s) (Customer s)
    (OnOpenApi s) (OnMessageApi s) (OnCloseApi s) (CallbackTimeout s) (Redis s) (Config.AMQP s) (Worker s) (Task s) (MetricsItem s).

(** Redis answers, there is no broker, every server starts. *)
Definition demo_reachable : sys -> Prop :=
  reachable (with_wait (10 * Second) demo_checked) (InfoLevel, Logging.Async) str_bytes (fun _ _ => true) 8
    (fun _ _ => false) (fun _ _ => true) (fun _ _ => true) false false false false false.

Definition cold_start : sys := start (with_wait (10 * Second) demo_checked) (InfoLevel, Logging.Async).

Definition demo_perform (l : list act) : sys -> option sys :=
  perform_all (with_wait (10 * Second) demo_checked) (InfoLevel, Logging.Async) str_bytes (fun _ _ => true) 8
    (fun _ _ => false) (fun _ _ => true) (fun _ _ => true) false false false false false l.

Definition servers_start : list act := [AOther 0; AOther 0; AOther 0; AOther 1; AOther 2].
Definition main_starts : list act := ASignal (Quit.Signal Quit.SIGTERM) :: replicate 8 AMain.
(** To the end of the wait for the log. *)
Definition main_waits : list act := replicate 4 AMain ++ AWriter true :: replicate 18 (AWriter false) ++ [AMain].
(** Three queues on Redis, none on AMQP. *)
Definition main_closes (first : nat) : list act :=
  [AMain; AMain] ++ flat_map (fun i => replicate 3 (AOther (first + i))) [0; 1; 2]%nat ++ [AMain; AMain; AMain].

Definition after (l : list act) : sys := default cold_start (demo_perform l cold_start).

Definition possible {A} (o : option A) : bool := match o with Some _ => true | None => false end.

Lemma not_did (f : op -> bool) o l : f o = true -> existsb f l = false -> o ∉ l.
Proof. intros Hf Hl Hin%list_elem_of_In. assert (existsb f l = true) as E by (apply existsb_exists; eauto). by rewrite E in Hl. Qed.

Lemma demo_after_reachable l : possible (demo_perform l cold_start) = true -> demo_reachable (after l).
Proof. intros Hx. unfold after. destruct (demo_perform l cold_start) as [x|] eqn:E; [|done]. by apply perform_star in E. Qed.

(** A request to stop that comes before the goroutine of the tasks' server has made it:
    main panics when it comes to close it, and the program ends with 2, the customers'
    server never closed. *)
Theorem stop_before_start :
  exists x, demo_reachable x /\ exitcode (process x) = Some 2 /\ Task_Shutdown ∉ did x /\ Customer_Shutdown ∉ did x.
Proof.
  exists (after (main_starts ++ main_waits ++ main_closes 4 ++ [AMain])). split_and!.
  - apply demo_after_reachable. vm_compute. reflexivity.
  - vm_compute. reflexivity.
  - by apply (not_did (fun o => match o with Task_Shutdown => true | _ => false end)); [|vm_compute].
  - by apply (not_did (fun o => match o with Customer_Shutdown => true | _ => false end)); [|vm_compute].
Qed.

Definition all_up : sys := after (main_starts ++ servers_start ++ main_waits).

(** The queue of the messages on Redis. *)
Definition demo_queue : string := default EmptyString (m_OnMessage (table (redis (process all_up)))).

(** A customer's message goes into it. *)
Definition event_sent : sys :=
  mkSys (alter_queue OnRedis demo_queue (EventQueue.Redis_Send (MConnOpen (mkConnOpen "u1" "" "" "" "")) Cmd_ConnOpen) (process all_up))
        (todo all_up) (others all_up) (did all_up).

(** From there to the exit: the servers' and the queues' Shutdown, one after the other. *)
Definition to_exit : list act :=
  replicate 3 AMain ++ flat_map (fun i => replicate 3 (AOther (5 + i))) [0; 1; 2]%nat ++ replicate 9 AMain.

Definition exited : sys := default event_sent (demo_perform to_exit event_sent).

Lemma Send_closeLock (failed : Z) m cmd st : EventQueue.closeLock (EventQueue.Send_counting failed m cmd st) = EventQueue.closeLock st.
Proof.
  unfold EventQueue.Send_counting. destruct st as [pk [|q fr] sl ch cl mk se an cm]; cbn; destruct ch as [cp it []]; cbn;
    repeat (case_match; cbn); done.
Qed.

Lemma exited_reachable : demo_reachable exited.
Proof.
  eapply star_app; [apply (demo_after_reachable (main_starts ++ servers_start ++ main_waits)); vm_compute; reflexivity|].
  eapply star_cons; [apply (queue_does _ _ _ _ _ _ _ _ _ _ _ _ _ all_up OnRedis demo_queue); [vm_compute; reflexivity|intros st; apply Send_closeLock]|].
  assert (possible (demo_perform to_exit event_sent) = true) as Hp by (vm_compute; reflexivity).
  unfold exited. destruct (demo_perform to_exit event_sent) as [y|] eqn:E; [|done]. by apply perform_star in E.
Qed.

(** The program ends with 0 while an event waits in a queue that is still open: the timer
    that closes it, and the goroutine that would send what it holds, are not waited for. *)
Theorem exit_leaves_events :
  demo_reachable exited /\ exitcode (process exited) = Some 0 /\
  exists st, objects (redis (process exited)) !! demo_queue = Some st /\
    length (q_items (EventQueue.sendCh st)) = 1%nat /\ q_closed (EventQueue.sendCh st) = false /\ EventQueue.cmds st = [].
Proof.
  split_and!.
  - exact exited_reachable.
  - vm_compute. reflexivity.
  - assert (exists st, objects (redis (process exited)) !! demo_queue = Some st) as [st Hst].
    { destruct (objects (redis (process exited)) !! demo_queue) eqn:E; [by eexists|]. exfalso. revert E. vm_compute. discriminate. }
    exists st. split; [done|].
    assert (forall P : EventQueue.state -> bool, match objects (redis (process exited)) !! demo_queue with Some x => P x | None => false end = true -> P st = true) as HP
      by (intros P; by rewrite Hst).
    split_and!.
    + apply Nat.eqb_eq, (HP (fun x => length (q_items (EventQueue.sendCh x)) =? 1)%nat). vm_compute. reflexivity.
    + apply negb_true_iff, (HP (fun x => negb (q_closed (EventQueue.sendCh x)))). vm_compute. reflexivity.
    + assert (length (EventQueue.cmds st) = 0%nat) as E; [|by destruct (EventQueue.cmds st)].
      apply Nat.eqb_eq, (HP (fun x => length (EventQueue.cmds x) =? 0)%nat). vm_compute. reflexivity.
Qed.

Lemma all_up_reachable : demo_reachable all_up.
Proof. apply demo_after_reachable. vm_compute. reflexivity. Qed.


Lemma shutdown_goes_on_witness :
  exists o rest, todo all_up = o :: rest /\ o <> Wg_Wait /\ o <> Group_Wait.
Proof.
  destruct (shutdown_goes_on _ _ _ _ _ _ _ _ _ _ _ _ _ all_up all_up_reachable) as [(o & rest & Ht & _) _];
    [vm_compute; reflexivity|vm_compute; reflexivity|].
  exists o, rest. split; [exact Ht|]. assert (head (todo all_up) = Some Worker_Shutdown) as E by (vm_compute; reflexivity).
  rewrite Ht in E. injection E as ->. by split.
Defined.
End MainProps.
