(* ===== verification/Metrics.v ===== *)
(** src/internal/metrics: the table of the meters, and what it answers a business
    process. The handlers of the development count in a map of the items that are
    configured ([meters] of the shared state): the table refines that map. A meter of
    go-metrics is its count. *)

From S2P Require Export Process.

Module Metrics.

Inductive Meter := NilMeter | StandardMeter (count : Z).

Record Status := mkStatus { Item : Z; meter : Meter }.

(** A nil pointer is [None]. *)
Abbreviation registry := (list (option Status)).

Definition inMetricsItem (items : list Z) (i : Z) : bool := existsb (Z.eqb i) items.

Definition init_item (items : list Z) (item : Z) : option Status :=
  if item =? 0 then None
  else Some (mkStatus item (if inMetricsItem items item then StandardMeter 0 else NilMeter)).

(** [init]: from the items of the settings. *)
Definition init (items : list Z) : registry := init_item items <$> seqZ 0 itemLen.

Definition Meter_Mark (n : Z) (m : Meter) : Meter :=
  match m with NilMeter => NilMeter | StandardMeter c => StandardMeter (n + c) end.

(** [Registry[item].Meter.Mark(n)]: [None] is a panic, of the index or the nil pointer. *)
Definition Mark (item n : Z) (r : registry) : option registry :=
  if item <? 0 then None else
  o ← r !! Z.to_nat item;
  v ← o;
  Some (<[Z.to_nat item := Some (mkStatus (Item v) (Meter_Mark n (meter v)))]> r).

Definition ToStatusResp (v : Status) : option MetricsRespItem :=
  match meter v with
  | NilMeter => None
  | StandardMeter c => Some (mkMetricsRespItem (i32 (Item v)) c)
  end.

(** The items of the answer: the loop of process/metrics.go. *)
Fixpoint collect (item : Z) (r : registry) (items : gmap Z MetricsRespItem) : option (gmap Z MetricsRespItem) :=
  match r with
  | [] => Some items
  | o :: r' =>
      if item =? 0 then collect (item + 1) r' items
      else v ← o;
           collect (item + 1) r' (match ToStatusResp v with Some x => <[mi_Item x := x]> items | None => items end)
  end.

Definition answer (r : registry) : option (gmap Z MetricsRespItem) := collect 0 r ∅.

(** ** What the table stands for *)

Definition count (m : Meter) : option Z := match m with NilMeter => None | StandardMeter c => Some c end.

Record stands_for (r : registry) (m : gmap Z Z) : Prop := {
  sf_length : length r = Z.to_nat itemLen;
  sf_zero : r !! 0%nat = Some None;
  sf_item i : 1 <= i < itemLen -> exists x, r !! Z.to_nat i = Some (Some (mkStatus i x)) /\ count x = m !! i;
  sf_none i : ~ 1 <= i < itemLen -> m !! i = None;
}.

(** The map of the handlers at the start. *)
Definition meters_init (items : list Z) : gmap Z Z :=
  list_to_map ((fun i => (i, 0)) <$> filter (fun i => inMetricsItem items i = true) (seqZ 1 (itemLen - 1))).

Lemma inMetricsItem_spec items i : inMetricsItem items i = true <-> i ∈ items.
Proof.
  unfold inMetricsItem. rewrite existsb_exists. split.
  - intros (x & Hx & ->%Z.eqb_eq). by apply list_elem_of_In.
  - intros Hi. exists i. split; [by apply list_elem_of_In|apply Z.eqb_refl].
Qed.

Lemma meters_init_lookup items i :
  meters_init items !! i = if decide (1 <= i < itemLen /\ i ∈ items) then Some 0 else None.
Proof.
  unfold meters_init. set (l := filter _ _).
  assert (i ∈ l <-> 1 <= i < itemLen /\ i ∈ items) as Hl.
  { unfold l. rewrite list_elem_of_filter, elem_of_seqZ, inMetricsItem_spec. unfold itemLen. split; intros []; split; done || lia. }
  case_decide as Hd.
  - apply elem_of_list_to_map.
    + rewrite <- list_fmap_compose. cbn. rewrite list_fmap_id. unfold l. apply NoDup_filter, NoDup_seqZ.
    + apply list_elem_of_fmap. exists i. split; [done|]. by apply Hl.
  - apply not_elem_of_list_to_map. rewrite <- list_fmap_compose. cbn. rewrite list_fmap_id. by rewrite Hl.
Qed.

Lemma init_stands items : stands_for (init items) (meters_init items).
Proof.
  unfold init. split.
  - by rewrite length_fmap, length_seqZ.
  - done.
  - intros i Hi. rewrite list_lookup_fmap. rewrite (lookup_seqZ_lt 0 itemLen (Z.to_nat i)) by lia. cbn.
    rewrite Z.add_0_l, Z2Nat.id by lia. unfold init_item. case Z.eqb_spec; [lia|intros _]. eexists. split; [done|].
    rewrite meters_init_lookup. destruct (inMetricsItem items i) eqn:E; case_decide as Hd; cbn; try done.
    + by apply inMetricsItem_spec in E; destruct Hd.
    + destruct Hd as [_ Hd%inMetricsItem_spec]. congruence.
  - intros i Hi. rewrite meters_init_lookup. by rewrite decide_False by tauto.
Qed.

Lemma Mark_stands r m item n :
  stands_for r m -> 1 <= item < itemLen -> exists r', Mark item n r = Some r' /\ stands_for r' (alter (Z.add n) item m).
Proof.
  intros [Hl H0 Hi Hn] Hit. destruct (Hi item Hit) as (x & Hx & Hc). unfold Mark.
  case Z.ltb_spec; [lia|intros _]. rewrite Hx. cbn. eexists. split; [done|].
  assert (Z.to_nat item < length r)%nat as Hlt by (rewrite Hl; unfold itemLen in *; lia).
  split.
  - by rewrite length_insert.
  - rewrite list_lookup_insert_ne by lia. done.
  - intros i Hii. destruct (decide (i = item)) as [->|Hne].
    + rewrite list_lookup_insert_eq by done. eexists. split; [done|]. rewrite lookup_alter_eq, <- Hc. by destruct x.
    + rewrite list_lookup_insert_ne, lookup_alter_ne by lia. by apply Hi.
  - intros i Hii. rewrite lookup_alter_ne by (intros <-; done). by apply Hn.
Qed.

(** The loop finds every item that is counted, under its own number. *)
Lemma collect_spec r k items :
  0 <= k -> (forall j o, r !! j = Some o -> k + Z.of_nat j = 0 \/ exists x, o = Some (mkStatus (k + Z.of_nat j) x)) ->
  k + len r <= itemLen ->
  exists its, collect k r items = Some its /\
    forall i, its !! i = match (if decide (k <= i /\ 1 <= i) then r !! Z.to_nat (i - k) else None) with
                         | Some (Some (mkStatus _ (StandardMeter c))) => Some (mkMetricsRespItem i c)
                         | _ => items !! i
                         end.
Proof.
  revert k items. induction r as [|o r IH]; intros k items Hk Hr Hlen.
  { exists items. split; [done|]. intros i. by case_decide. }
  rewrite len_cons in Hlen. pose proof (len_nonneg r).
  assert (forall j o, r !! j = Some o -> k + 1 + Z.of_nat j = 0 \/ exists x, o = Some (mkStatus (k + 1 + Z.of_nat j) x)) as Hr'.
  { intros j o' Hj. right. destruct (Hr (S j) o' Hj) as [|[x ->]]; [lia|]. exists x. do 2 f_equal. lia. }
  assert (forall i, k < i -> (o :: r) !! Z.to_nat (i - k) = r !! Z.to_nat (i - (k + 1))) as Hshift.
  { intros i Hi. replace (Z.to_nat (i - k)) with (S (Z.to_nat (i - (k + 1)))) by lia. done. }
  cbn [collect]. case Z.eqb_spec; intros E.
  - subst k. destruct (IH (0 + 1) items ltac:(lia) Hr' ltac:(lia)) as (its & -> & Hits). exists its. split; [done|].
    intros i. rewrite Hits. destruct (decide (1 <= i)) as [Hi|Hi].
    + rewrite !decide_True by lia. by rewrite Hshift by lia.
    + by rewrite !decide_False by lia.
  - destruct (Hr 0%nat o eq_refl) as [|[x ->]]; [lia|]. rewrite Z.add_0_r in *. cbn.
    set (items' := match ToStatusResp _ with Some x => _ | None => _ end).
    destruct (IH (k + 1) items' ltac:(lia) Hr' ltac:(lia)) as (its & -> & Hits). exists its. split; [done|].
    assert (i32 k = k) as Hi32 by (apply i32_small; unfold itemLen in *; lia).
    intros i. rewrite Hits. destruct (decide (i = k)) as [->|Hne].
    + rewrite decide_False, decide_True by lia. rewrite Z.sub_diag. cbn. unfold items', ToStatusResp. cbn.
      destruct x; cbn; rewrite ?Hi32; by rewrite ?lookup_insert_eq.
    + assert (items' !! i = items !! i) as ->.
      { unfold items', ToStatusResp. cbn. destruct x; cbn; [done|]. rewrite Hi32. by apply lookup_insert_ne. }
      destruct (decide (k <= i /\ 1 <= i)) as [Hi|Hi].
      * rewrite decide_True by lia. by rewrite Hshift by lia.
      * by rewrite decide_False by lia.
Qed.

Lemma answer_stands r m :
  stands_for r m ->
  exists its, answer r = Some its /\ forall i, its !! i = if decide (1 <= i < itemLen) then mkMetricsRespItem i <$> m !! i else None.
Proof.
  intros [Hl H0 Hi Hn]. destruct (collect_spec r 0 ∅) as (its & Ha & Hits).
  - lia.
  - intros j o Hj. destruct (decide (j = 0%nat)) as [->|Hne]; [by left|right].
    pose proof (lookup_lt_Some _ _ _ Hj) as Hlt. rewrite Hl in Hlt. unfold itemLen in *.
    destruct (Hi (Z.of_nat j) ltac:(lia)) as (x & Hx & _). rewrite Nat2Z.id in Hx. exists x. rewrite Z.add_0_l. congruence.
  - unfold len. rewrite Hl. unfold itemLen. lia.
  - exists its. split; [done|]. intros i. rewrite Hits, Z.sub_0_r. destruct (decide (1 <= i < itemLen)) as [Hii|Hii].
    + rewrite decide_True by lia. destruct (Hi i Hii) as (x & -> & <-). by destruct x.
    + case_decide as Hd; [|done]. rewrite lookup_ge_None_2; [done|]. rewrite Hl. unfold itemLen in *. lia.
Qed.

(** ** From the settings to the answer *)

Fixpoint Mark_all (marks : list (Z * Z)) (r : registry) : option registry :=
  match marks with [] => Some r | (item, n) :: l => r' ← Mark item n r; Mark_all l r' end.

(** What was marked of an item. *)
Definition sum_of (i : Z) (marks : list (Z * Z)) : Z := foldr (fun x n => (if x.1 =? i then x.2 else 0) + n) 0 marks.

Definition marked (marks : list (Z * Z)) (m : gmap Z Z) : gmap Z Z := foldl (fun m x => alter (Z.add x.2) x.1 m) m marks.

Lemma sum_of_cons i j n marks : sum_of i ((j, n) :: marks) = (if j =? i then n else 0) + sum_of i marks.
Proof. done. Qed.

Lemma marked_lookup marks m i : marked marks m !! i = Z.add (sum_of i marks) <$> m !! i.
Proof.
  revert m. induction marks as [|[j n] marks IH]; intros m; [by cbn; destruct (m !! i)|].
  change (marked ((j, n) :: marks) m) with (marked marks (alter (Z.add n) j m)). rewrite IH, sum_of_cons.
  case Z.eqb_spec; intros E; [subst j; rewrite lookup_alter_eq|rewrite lookup_alter_ne by done];
    destruct (m !! i); cbn [fmap option_fmap option_map]; [f_equal; lia|done|f_equal; lia|done].
Qed.

Lemma Mark_all_stands marks r m :
  stands_for r m -> Forall (fun x => 1 <= x.1 < itemLen) marks ->
  exists r', Mark_all marks r = Some r' /\ stands_for r' (marked marks m).
Proof.
  revert r m. induction marks as [|[item n] marks IH]; intros r m Hs Hm; [by exists r|].
  apply Forall_cons in Hm as [Hit Hm]. destruct (Mark_stands r m item n Hs Hit) as (r' & Hr & Hs'). cbn. rewrite Hr. cbn. by apply IH.
Qed.

(** C28: From the settings on, whatever the handlers mark of the items that exist: no mark
    and no answer touches a nil pointer or an index out of range; the table stands for the
    map in which the handlers count; and the answer has exactly the items that the settings
    name and that exist, each under its own number with the sum of its marks. *)
Theorem registry_refines items marks :
  Forall (fun x => 1 <= x.1 < itemLen) marks ->
  exists r its, Mark_all marks (init items) = Some r /\ stands_for r (marked marks (meters_init items)) /\ answer r = Some its /\
    forall i, its !! i = if decide (1 <= i < itemLen /\ i ∈ items) then Some (mkMetricsRespItem i (sum_of i marks)) else None.
Proof.
  intros Hm. destruct (Mark_all_stands marks _ _ (init_stands items) Hm) as (r & Hr & Hs).
  destruct (answer_stands r _ Hs) as (its & Ha & Hits). exists r, its. split_and!; [done|done|done|].
  intros i. rewrite Hits, marked_lookup, meters_init_lookup.
  destruct (decide (1 <= i < itemLen)) as [Hi|Hi]; [|by rewrite decide_False by tauto].
  repeat case_decide; try tauto. cbn [fmap option_fmap option_map]. by rewrite Z.add_0_r.
Qed.

Lemma registry_refines_witness :
  Forall (fun x => 1 <= x.1 < itemLen) [(6, 1); (7, 40); (6, 1)] /\
  exists r its, Mark_all [(6, 1); (7, 40); (6, 1)] (init [6; 8; 99]) = Some r /\ answer r = Some its /\
    its !! 6 = Some (mkMetricsRespItem 6 2) /\ its !! 7 = None /\ its !! 8 = Some (mkMetricsRespItem 8 0).
Proof.
  assert (Forall (fun x => 1 <= x.1 < itemLen) [(6, 1); (7, 40); (6, 1)]) as Hm
    by (unfold itemLen; repeat constructor; cbn; lia).
  split; [exact Hm|]. destruct (registry_refines [6; 8; 99] _ Hm) as (r & its & Hr & _ & Ha & Hits).
  exists r, its. split; [exact Hr|]. split; [exact Ha|]. rewrite !Hits. split_and!; vm_compute; reflexivity.
Defined.
End Metrics.
