(* ===== verification/ObjPool.v ===== *)
(** Pools of objects: src/internal/objPool, one for each message that is decoded or made
    often, and those of wsServer/bufReader.go and worker/packet.go. [sync.Pool] hands out
    any object put into it, forgets what it likes, and makes a new one when it has none to
    give. *)

From S2P Require Export Proto.

Module ObjPool.

(** What an object is when it is made and after its [Reset], and what its users may rely
    on when they get one. *)
Class Poolable (M : Type) := {
  zero : M;
  reset : M -> M;
  clean : M -> Prop;
  zero_clean : clean zero;
  reset_clean m : clean (reset m);
}.

Section Pool.
Context `{Poolable M}.

(** [heap] are the objects by address, [idle] those in the pool. *)
Record pool := mkPool { heap : gmap nat M; idle : list nat }.

Definition new : pool := mkPool ∅ [].

(** [Get]: [choice] says which of the objects is handed out, if any; [fresh] is an address
    that is not in use. *)
Definition Get (choice : option nat) (fresh : nat) (p : pool) : nat * pool :=
  match choice with
  | Some i => match idle p !! i with
              | Some m => (m, mkPool (heap p) (delete i (idle p)))
              | None => (fresh, mkPool (<[fresh := zero]> (heap p)) (idle p))
              end
  | None => (fresh, mkPool (<[fresh := zero]> (heap p)) (idle p))
  end.

Definition Put (m : nat) (p : pool) : pool := mkPool (alter reset m (heap p)) (m :: idle p).

(** Its users; [held] are the objects that they have, and they write to those only. *)
Inductive step : pool * list nat -> pool * list nat -> Prop :=
  | s_get p held choice fresh : fresh ∉ dom (heap p) ->
      step (p, held) ((Get choice fresh p).2, (Get choice fresh p).1 :: held)
  | s_put p held1 m held2 : step (p, held1 ++ m :: held2) (Put m p, held1 ++ held2)
  | s_use p held m f : m ∈ held -> step (p, held) (mkPool (alter f m (heap p)) (idle p), held)
  | s_forget p held l1 m l2 : idle p = l1 ++ m :: l2 -> step (p, held) (mkPool (heap p) (l1 ++ l2), held).

Definition reachable (st : pool * list nat) : Prop := star step (new, []) st.

(** Every object is in one place, and clean in the pool. *)
Record inv (st : pool * list nat) : Prop := mkInv {
  i_once : NoDup (st.2 ++ idle st.1);
  i_dom m : m ∈ st.2 ++ idle st.1 -> m ∈ dom (heap st.1);
  i_clean m x : m ∈ idle st.1 -> heap st.1 !! m = Some x -> clean x;
}.

Lemma objpool_inv_perm h l l' held held' :
  held' ++ l' ≡ₚ held ++ l -> l' ⊆ l -> inv (mkPool h l, held) -> inv (mkPool h l', held').
Proof.
  intros Hp Hs [Ho Hd Hc]. cbn in *. split; cbn.
  - by rewrite Hp.
  - intros m Hm. apply Hd. by rewrite <- Hp.
  - intros m x Hm. apply Hc. by apply Hs.
Qed.

Lemma inv_less h l l' held : l' `sublist_of` l -> inv (mkPool h l, held) -> inv (mkPool h l', held).
Proof.
  intros Hs [Ho Hd Hc]. cbn in *. split; cbn.
  - eapply sublist_NoDup; [exact Ho|]. by apply sublist_app.
  - intros m Hm. apply Hd. eapply sublist_subseteq; [|exact Hm]. by apply sublist_app.
  - intros m x Hm. apply Hc. by eapply sublist_subseteq.
Qed.

Lemma inv_alter h l held m f : m ∉ l -> inv (mkPool h l, held) -> inv (mkPool (alter f m h) l, held).
Proof.
  intros Hm [Ho Hd Hc]. cbn in *. split; cbn; [done|intros x Hx; rewrite dom_alter; auto|].
  intros x y Hx. rewrite lookup_alter_ne by (by intros ->). by apply Hc.
Qed.

Lemma Get_inv p held choice fresh :
  inv (p, held) -> fresh ∉ dom (heap p) ->
  let '(m, p') := Get choice fresh p in
  inv (p', m :: held) /\ exists x, heap p' !! m = Some x /\ clean x.
Proof.
  destruct p as [h l]. intros Hi Hf. cbn in Hf.
  assert (inv (mkPool (<[fresh := zero]> h) l, fresh :: held) /\
          exists x, <[fresh := zero]> h !! fresh = Some x /\ clean x) as Hnew.
  { split; [|exists zero; rewrite lookup_insert_eq; split; [done|apply zero_clean]].
    destruct Hi as [Ho Hd Hc]. cbn in *. split; cbn.
    - constructor; [|done]. by intros Hm%Hd.
    - intros m Hm. rewrite dom_insert. apply elem_of_cons in Hm as [->|Hm]; [set_solver|]. apply elem_of_union. right. auto.
    - intros m x Hm. assert (m <> fresh) as Hne by (intros ->; apply Hf, Hd, elem_of_app; by right).
      rewrite lookup_insert_ne by done. by apply Hc. }
  unfold Get. destruct choice as [i|]; [|exact Hnew]. cbn [idle heap]. destruct (l !! i) as [m|] eqn:El; [|exact Hnew].
  split.
  - eapply (objpool_inv_perm h l (delete i l) held (m :: held)); [|apply sublist_subseteq, sublist_delete|exact Hi].
    cbn. rewrite Permutation_middle. f_equiv. symmetry. by apply delete_Permutation.
  - cbn. assert (m ∈ l) as Hm by (by eapply list_elem_of_lookup_2).
    assert (m ∈ dom h) as [x Hx]%elem_of_dom by (apply (i_dom _ Hi); apply elem_of_app; by right).
    exists x. split; [done|]. by eapply (i_clean _ Hi).
Qed.

Lemma objpool_step_inv st st' : inv st -> step st st' -> inv st'.
Proof.
  intros Hi Hs. destruct Hs as [p held choice fresh Hf|[h l] held1 m held2|[h l] held m f Hm|[h l] held l1 m l2 Hl]; cbn in *.
  - pose proof (Get_inv p held choice fresh Hi Hf) as Hg. destruct (Get choice fresh p). apply Hg.
  - assert (m ∉ l) as Hml.
    { intros Hin. pose proof (i_once _ Hi) as Ho. cbn in Ho. apply NoDup_app in Ho as (_ & Ho & _). apply (Ho m); [|done]. set_solver. }
    apply (inv_alter h l (held1 ++ m :: held2) m reset Hml) in Hi. destruct Hi as [Ho Hd Hc]. cbn in *.
    assert ((held1 ++ held2) ++ m :: l ≡ₚ (held1 ++ m :: held2) ++ l) as E
      by (rewrite <- !app_assoc; f_equiv; cbn; by rewrite Permutation_middle).
    split; cbn.
    + by rewrite E.
    + intros x Hx. apply Hd. by rewrite <- E.
    + intros x y [->|Hx]%elem_of_cons; [|by apply Hc]. rewrite lookup_alter_eq. intros (z & _ & ->)%fmap_Some. apply reset_clean.
  - apply inv_alter; [|done]. intros Hin. pose proof (i_once _ Hi) as Ho. cbn in Ho. apply NoDup_app in Ho as (_ & Ho & _). by apply (Ho m).
  - subst l. eapply inv_less; [|exact Hi]. apply sublist_app; [done|by constructor].
Qed.

Lemma objpool_reachable_inv st : reachable st -> inv st.
Proof.
  intros Hr. eapply star_invariant; [exact objpool_step_inv|exact Hr|]. split; cbn; [constructor|by intros m ?%elem_of_nil|by intros m x ?%elem_of_nil].
Qed.

(** Whatever was taken, written, put back and forgotten before, by any number of users:
    the object that [Get] hands out is clean, nobody else has it, and it is in the pool no
    more. *)
Theorem objpool_correct p held choice fresh :
  reachable (p, held) -> fresh ∉ dom (heap p) ->
  let '(m, p') := Get choice fresh p in
  (m ∉ held) /\ (m ∉ idle p') /\ exists x, heap p' !! m = Some x /\ clean x.
Proof.
  intros Hr%objpool_reachable_inv Hf. pose proof (Get_inv p held choice fresh Hr Hf) as Hg. destruct (Get choice fresh p) as [m p'].
  destruct Hg as [Hi Hx]. pose proof (i_once _ Hi) as Ho. cbn in Ho. apply NoDup_cons in Ho as [Ho _].
  split_and!; [|set_solver|done]. set_solver.
Qed.
End Pool.
Arguments pool : clear implicits.

(** ** The messages: the empty one is new and after [Reset] *)

Record UniqIdCountResp := mkUniqIdCountResp { uc_Count : Z }.

Definition message_pool {M} (empty : M) : Poolable M :=
  {| zero := empty; reset := fun _ => empty; clean := fun m => m = empty; zero_clean := eq_refl; reset_clean := fun _ => eq_refl |}.

#[export] Instance BroadcastBulk_new : Poolable BroadcastBulk := message_pool (mkBroadcastBulk []).
Definition BroadcastBulk_pool : pool BroadcastBulk := new.
Definition BroadcastBulk_Get : option nat -> nat -> pool BroadcastBulk -> nat * pool BroadcastBulk := Get.
Definition BroadcastBulk_Put : nat -> pool BroadcastBulk -> pool BroadcastBulk := Put.

#[export] Instance ConnClose_new : Poolable ConnClose := message_pool (mkConnClose EmptyString EmptyString EmptyString []).
Definition ConnClose_pool : pool ConnClose := new.
Definition ConnClose_Get : option nat -> nat -> pool ConnClose -> nat * pool ConnClose := Get.
Definition ConnClose_Put : nat -> pool ConnClose -> pool ConnClose := Put.

#[export] Instance ConnInfoDelete_new : Poolable ConnInfoDelete := message_pool (mkConnInfoDelete EmptyString false false false []).
Definition ConnInfoDelete_pool : pool ConnInfoDelete := new.
Definition ConnInfoDelete_Get : option nat -> nat -> pool ConnInfoDelete -> nat * pool ConnInfoDelete := Get.
Definition ConnInfoDelete_Put : nat -> pool ConnInfoDelete -> pool ConnInfoDelete := Put.

#[export] Instance ConnInfoUpdate_new : Poolable ConnInfoUpdate := message_pool (mkConnInfoUpdate EmptyString EmptyString EmptyString [] []).
Definition ConnInfoUpdate_pool : pool ConnInfoUpdate := new.
Definition ConnInfoUpdate_Get : option nat -> nat -> pool ConnInfoUpdate -> nat * pool ConnInfoUpdate := Get.
Definition ConnInfoUpdate_Put : nat -> pool ConnInfoUpdate -> pool ConnInfoUpdate := Put.

#[export] Instance ConnOpen_new : Poolable ConnOpen := message_pool (mkConnOpen EmptyString EmptyString EmptyString EmptyString EmptyString).
Definition ConnOpen_pool : pool ConnOpen := new.
Definition ConnOpen_Get : option nat -> nat -> pool ConnOpen -> nat * pool ConnOpen := Get.
Definition ConnOpen_Put : nat -> pool ConnOpen -> pool ConnOpen := Put.

#[export] Instance SingleCastBulk_new : Poolable SingleCastBulk := message_pool (mkSingleCastBulk []).
Definition SingleCastBulk_pool : pool SingleCastBulk := new.
Definition SingleCastBulk_Get : option nat -> nat -> pool SingleCastBulk -> nat * pool SingleCastBulk := Get.
Definition SingleCastBulk_Put : nat -> pool SingleCastBulk -> pool SingleCastBulk := Put.

#[export] Instance SingleCastBulkByCustomerId_new : Poolable SingleCastBulkByCustomerId := message_pool (mkSingleCastBulkByCustomerId []).
Definition SingleCastBulkByCustomerId_pool : pool SingleCastBulkByCustomerId := new.
Definition SingleCastBulkByCustomerId_Get : option nat -> nat -> pool SingleCastBulkByCustomerId -> nat * pool SingleCastBulkByCustomerId := Get.
Definition SingleCastBulkByCustomerId_Put : nat -> pool SingleCastBulkByCustomerId -> pool SingleCastBulkByCustomerId := Put.

#[export] Instance TopicDelete_new : Poolable TopicDelete := message_pool (mkTopicDelete [] []).
Definition TopicDelete_pool : pool TopicDelete := new.
Definition TopicDelete_Get : option nat -> nat -> pool TopicDelete -> nat * pool TopicDelete := Get.
Definition TopicDelete_Put : nat -> pool TopicDelete -> pool TopicDelete := Put.

#[export] Instance TopicPublishBulk_new : Poolable TopicPublishBulk := message_pool (mkTopicPublishBulk []).
Definition TopicPublishBulk_pool : pool TopicPublishBulk := new.
Definition TopicPublishBulk_Get : option nat -> nat -> pool TopicPublishBulk -> nat * pool TopicPublishBulk := Get.
Definition TopicPublishBulk_Put : nat -> pool TopicPublishBulk -> pool TopicPublishBulk := Put.

#[export] Instance TopicSubscribe_new : Poolable TopicSubscribe := message_pool (mkTopicSubscribe EmptyString [] []).
Definition TopicSubscribe_pool : pool TopicSubscribe := new.
Definition TopicSubscribe_Get : option nat -> nat -> pool TopicSubscribe -> nat * pool TopicSubscribe := Get.
Definition TopicSubscribe_Put : nat -> pool TopicSubscribe -> pool TopicSubscribe := Put.

#[export] Instance Transfer_new : Poolable Transfer := message_pool (mkTransfer EmptyString EmptyString EmptyString [] []).
Definition Transfer_pool : pool Transfer := new.
Definition Transfer_Get : option nat -> nat -> pool Transfer -> nat * pool Transfer := Get.
Definition Transfer_Put : nat -> pool Transfer -> pool Transfer := Put.

#[export] Instance TopicUnsubscribe_new : Poolable TopicUnsubscribe := message_pool (mkTopicUnsubscribe EmptyString [] []).
Definition TopicUnsubscribe_pool : pool TopicUnsubscribe := new.
Definition TopicUnsubscribe_Get : option nat -> nat -> pool TopicUnsubscribe -> nat * pool TopicUnsubscribe := Get.
Definition TopicUnsubscribe_Put : nat -> pool TopicUnsubscribe -> pool TopicUnsubscribe := Put.

#[export] Instance UniqIdCountResp_new : Poolable UniqIdCountResp := message_pool (mkUniqIdCountResp 0).
Definition UniqIdCountResp_pool : pool UniqIdCountResp := new.
Definition UniqIdCountResp_Get : option nat -> nat -> pool UniqIdCountResp -> nat * pool UniqIdCountResp := Get.
Definition UniqIdCountResp_Put : nat -> pool UniqIdCountResp -> pool UniqIdCountResp := Put.

(** ** [bufio.Reader]: what it reads from and what it has buffered *)

Record Reader := mkReader { rd : option nat; buffered : bytes }.

Definition Reader_Reset (r : option nat) (_ : Reader) : Reader := mkReader r [].

#[export] Instance bufReader_new : Poolable Reader :=
  {| zero := mkReader None []; reset := Reader_Reset None; clean := fun b => b = mkReader None [];
     zero_clean := eq_refl; reset_clean := fun _ => eq_refl |}.
Definition bufReader_Get : option nat -> nat -> pool Reader -> nat * pool Reader := Get.
Definition bufReader_Put : nat -> pool Reader -> pool Reader := Put.

(** ** The packets of the business connections: the header stays, the body goes back to
    the library's pool *)

Record packet := mkPacket { header : bytes; body : option bytes; bodyFromPool : bool }.

Definition packet_reset (pkg : packet) : packet := mkPacket (take 8 (header pkg)) None false.

#[export] Instance packet_new : Poolable packet := {|
  zero := mkPacket (replicate 8 0) None false;
  reset := packet_reset;
  clean := fun pkg => body pkg = None /\ bodyFromPool pkg = false /\ (length (header pkg) <= 8)%nat;
  zero_clean := conj eq_refl (conj eq_refl (le_n 8));
  reset_clean := fun pkg => conj eq_refl (conj eq_refl (firstn_le_length 8 (header pkg)));
|}.
Definition packet_Get : option nat -> nat -> pool packet -> nat * pool packet := Get.
Definition packet_Put : nat -> pool packet -> pool packet := Put.

(** ** The headers of the task connections *)

#[export] Instance header_new : Poolable bytes := {|
  zero := replicate 8 0;
  reset := take 8;
  clean := fun h => (length h <= 8)%nat;
  zero_clean := le_n 8;
  reset_clean := firstn_le_length 8;
|}.
Definition header_Get : option nat -> nat -> pool bytes -> nat * pool bytes := Get.
Definition header_Put : nat -> pool bytes -> pool bytes := Put.

(** A request is taken, decoded into and put back; the next one is empty again. *)
Lemma objpool_correct_witness :
  exists p x, heap (M := TopicDelete) p !! 1%nat = Some x /\ x = mkTopicDelete [] [].
Proof.
  set (p1 := (TopicDelete_Get None 1 new).2).
  set (p2 := mkPool (alter (fun _ => mkTopicDelete ["news"%string] [5]) 1%nat (heap p1)) (idle p1)).
  set (p3 := TopicDelete_Put 1 p2).
  assert (reachable (p3, [])) as Hr.
  { eapply star_cons; [apply (s_get new [] None 1); vm_compute; by inversion 1|].
    eapply star_cons; [apply (s_use _ [1%nat] 1 (fun _ => mkTopicDelete ["news"%string] [5])); by left|].
    eapply star_cons; [apply (s_put p2 [] 1 [])|]. apply star_nil. }
  assert (2%nat ∉ dom (heap p3)) as Hf by (apply not_elem_of_dom; reflexivity).
  destruct (objpool_correct p3 [] (Some 0%nat) 2 Hr Hf) as (_ & _ & x & Hx & Hc).
  exists (Get (Some 0%nat) 2 p3).2, x. split; [exact Hx|exact Hc].
Defined.
End ObjPool.
