(* ===== verification/Byteslice.v ===== *)
(** The byte slices of gnet's pool (pkg/pool/byteslice of the vendored library), which the
    gateway encodes its messages into, and the bodies of the callbacks that are made of them
    ([marshalAppendPooled] of src/internal/callback/callback.go). *)

From S2P Require Export Prelude.

Module Byteslice.

(** A slice that is not nil: its array, its length and its capacity. *)
Record slice := mkSlice { arr : nat; s_len : Z; s_cap : Z }.

(** The arrays by address, and those that lie in the 32 pools, with the number of the pool. *)
Record memory := mkMemory { arrays : gmap nat bytes; idle : list (Z * nat) }.

Definition MaxInt32 : Z := 2 ^ 31 - 1.

Definition Len32 (n : Z) : Z := if n =? 0 then 0 else Z.log2 n + 1.
Definition index (n : Z) : Z := Len32 (u32 (n - 1)).

Definition make (fresh : nat) (size cap : Z) (m : memory) : slice * memory :=
  (mkSlice fresh size cap, mkMemory (<[fresh := replicate (Z.to_nat cap) 0]> (arrays m)) (idle m)).

(** [choice] says which of the arrays is handed out, if one lies in the pool. *)
Definition Get (choice : option nat) (fresh : nat) (size : Z) (m : memory) : option slice * memory :=
  if size <=? 0 then (None, m)
  else
    let made cap := let '(s, m') := make fresh size cap m in (Some s, m') in
    if MaxInt32 <? size then made size
    else
      let idx := index (u32 size) in
      match choice with
      | None => made (Z.shiftl 1 idx)
      | Some i =>
          match idle m !! i with
          | Some (k, a) => if k =? idx then (Some (mkSlice a size (Z.shiftl 1 idx)), mkMemory (arrays m) (delete i (idle m)))
                           else made (Z.shiftl 1 idx)
          | None => made (Z.shiftl 1 idx)
          end
      end.

Definition Put (buf : slice) (m : memory) : memory :=
  let size := s_cap buf in
  if (size =? 0) || (MaxInt32 <? size) then m
  else
    let idx := index (u32 size) in
    mkMemory (arrays m) ((if size =? Z.shiftl 1 idx then idx else idx - 1, arr buf) :: idle m).

Definition contents (s : slice) (m : memory) : bytes := take (Z.to_nat (s_len s)) (default [] (arrays m !! arr s)).

(** [MarshalAppend(buf[:0], message)], which is [append] of the encoding: in the array of
    [buf] if it has room, else in a new one. *)
Definition MarshalAppend (fresh : nat) (buf : option slice) (data : bytes) (m : memory) : option slice * memory :=
  match buf with
  | Some s =>
      if len data <=? s_cap s
      then (Some (mkSlice (arr s) (len data) (s_cap s)),
            mkMemory (alter (fun a => data ++ drop (length data) a) (arr s) (arrays m)) (idle m))
      else (Some (mkSlice fresh (len data) (len data)), mkMemory (<[fresh := data]> (arrays m)) (idle m))
  | None =>
      if len data <=? 0 then (None, m)
      else (Some (mkSlice fresh (len data) (len data)), mkMemory (<[fresh := data]> (arrays m)) (idle m))
  end.

(** [None] is the error; else the data and what [cleanup] puts back. [encoding] is what the
    message is encoded as, [size] what [Size] has announced. *)
Definition marshalAppendPooled (choice : option nat) (fresh fresh' : nat) (size : Z) (encoding : option bytes) (m : memory)
    : option (option slice * option slice) * memory :=
  if 0 <? size then
    let '(pooled, m1) := Get choice fresh size m in
    match pooled with
    | None => (None, m1)
    | Some buf =>
        match encoding with
        | None => (None, Put buf m1)
        | Some e =>
            match MarshalAppend fresh' (Some buf) e m1 with
            | (Some data, m2) => if decide (arr data <> arr buf) then (Some (Some data, None), Put buf m2) else (Some (Some data, Some buf), m2)
            | (None, m2) => (None, m2)
            end
        end
    end
  else
    match encoding with
    | None => (None, m)
    | Some e => let '(data, m1) := MarshalAppend fresh None e m in (Some (data, None), m1)
    end.

(** *** The pool never gives more than there is *)

Lemma index_bounds n : 0 < n <= MaxInt32 -> 0 <= index n <= 31 /\ n <= 2 ^ index n /\ (n <> 2 ^ index n -> 0 < index n /\ 2 ^ (index n - 1) <= n).
Proof.
  unfold MaxInt32, index. intros Hn. rewrite u32_small by lia. unfold Len32. destruct (Z.eqb_spec (n - 1) 0) as [E|E].
  { assert (n = 1) as -> by lia. cbn. lia. }
  pose proof (Z.log2_spec (n - 1) ltac:(lia)) as [Hlo Hhi]. pose proof (Z.log2_nonneg (n - 1)).
  assert (Z.log2 (n - 1) < 31) by (apply Z.log2_lt_pow2; lia). rewrite Z.add_simpl_r. change (Z.log2 (n - 1) + 1) with (Z.succ (Z.log2 (n - 1))). lia.
Qed.

(** A slice lies within its array. *)
Definition fits (s : slice) (m : memory) : Prop :=
  0 <= s_len s <= s_cap s /\ exists b, arrays m !! arr s = Some b /\ s_cap s <= len b.

(** The arrays in the pools and those of [held] are all different, and each is as long as
    its pool says. *)
Record pool_ok (m : memory) (held : list nat) : Prop := {
  po_once : NoDup ((idle m).*2 ++ held);
  po_there a : a ∈ held -> is_Some (arrays m !! a);
  po_class k a : (k, a) ∈ idle m -> 0 <= k /\ exists b, arrays m !! a = Some b /\ 2 ^ k <= len b;
}.

Lemma pool_ok_perm m held held' : held ≡ₚ held' -> pool_ok m held -> pool_ok m held'.
Proof. intros E [Ho Ht Hc]. split; [by rewrite <- E|intros a Ha; apply Ht; by rewrite E|done]. Qed.

Lemma new_ok fresh b m held :
  pool_ok m held -> arrays m !! fresh = None ->
  pool_ok (mkMemory (<[fresh := b]> (arrays m)) (idle m)) (fresh :: held) /\
  forall a, a ∈ held -> <[fresh := b]> (arrays m) !! a = arrays m !! a.
Proof.
  intros [Ho Ht Hc] Hf.
  assert (forall a, is_Some (arrays m !! a) -> a <> fresh) as Hne by (intros a [x Hx] ->; congruence).
  assert (forall k a, (k, a) ∈ idle m -> a <> fresh) as Hne' by (intros k a (_ & x & Hx & _)%Hc; eauto).
  assert (forall a, a ∈ held -> <[fresh := b]> (arrays m) !! a = arrays m !! a) as Hsame.
  { intros a Ha. rewrite lookup_insert_ne; [done|]. intros <-. by apply (Hne fresh); [apply Ht|]. }
  split; [split; cbn|done].
  - rewrite <- Permutation_middle. constructor; [|done]. intros [(x & -> & Hx)%list_elem_of_fmap|Hx]%elem_of_app.
    + destruct x as [k a]. by eapply Hne'.
    + by apply (Hne fresh); [apply Ht|].
  - intros a [->|Ha]%elem_of_cons; [by rewrite lookup_insert_eq|]. rewrite Hsame by done. auto.
  - intros k a Ha. rewrite lookup_insert_ne by (intros <-; by eapply Hne'). by apply Hc.
Qed.

Lemma make_ok fresh size cap m held :
  pool_ok m held -> arrays m !! fresh = None -> 0 <= size <= cap ->
  pool_ok (make fresh size cap m).2 (fresh :: held) /\ fits (make fresh size cap m).1 (make fresh size cap m).2 /\
  forall a, a ∈ held -> arrays (make fresh size cap m).2 !! a = arrays m !! a.
Proof.
  intros Hp Hf Hs. destruct (new_ok fresh (replicate (Z.to_nat cap) 0) m held Hp Hf) as [H1 H2].
  split_and!; [done| |done]. split; [done|]. exists (replicate (Z.to_nat cap) 0). cbn. rewrite lookup_insert_eq.
  split; [done|]. unfold len. rewrite length_replicate. lia.
Qed.

Lemma Get_ok choice fresh size m held s m' :
  pool_ok m held -> arrays m !! fresh = None -> Get choice fresh size m = (Some s, m') ->
  pool_ok m' (arr s :: held) /\ fits s m' /\ s_len s = size /\
  (forall a, a ∈ held -> arrays m' !! a = arrays m !! a) /\ (forall a, a <> fresh -> arrays m' !! a = arrays m !! a).
Proof.
  intros Hp Hf. unfold Get. destruct (Z.leb_spec size 0) as [|Hpos]; [done|].
  assert (forall cap, size <= cap -> (let '(s0, m0) := make fresh size cap m in (Some s0, m0)) = (Some s, m') ->
    pool_ok m' (arr s :: held) /\ fits s m' /\ s_len s = size /\
    (forall a, a ∈ held -> arrays m' !! a = arrays m !! a) /\ (forall a, a <> fresh -> arrays m' !! a = arrays m !! a)) as Hmake.
  { intros cap Hcap [= <- <-]. destruct (make_ok fresh size cap m held Hp Hf) as (H1 & H2 & H3); [lia|]. cbn in *.
    split_and!; [done|done|done|done|]. intros a Ha. by rewrite lookup_insert_ne. }
  destruct (Z.ltb_spec MaxInt32 size) as [|Hsmall]; [by apply Hmake|].
  rewrite u32_small by (unfold MaxInt32 in *; lia). destruct (index_bounds size) as (Hi & Hle & _); [lia|].
  rewrite Z.shiftl_1_l. destruct choice as [i|]; [|by apply Hmake]. destruct (idle m !! i) as [[k a]|] eqn:Ei; [|by apply Hmake].
  destruct (Z.eqb_spec k (index size)) as [->|]; [|by apply Hmake]. intros [= <- <-]. destruct Hp as [Ho Ht Hc].
  destruct (Hc (index size) a) as (_ & b & Hb & Hlb); [by eapply list_elem_of_lookup_2|]. cbn.
  split; [split; cbn|split_and!].
  - rewrite <- Permutation_middle. rewrite (delete_Permutation _ _ _ Ei) in Ho. exact Ho.
  - intros x [->|Hx]%elem_of_cons; [by exists b|auto].
  - intros k x Hx. apply Hc. eapply sublist_subseteq; [apply sublist_delete|exact Hx].
  - split; cbn; [lia|]. by exists b.
  - done.
  - done.
  - done.
Qed.

Lemma Put_ok s m held : pool_ok m (arr s :: held) -> fits s m -> pool_ok (Put s m) held /\ arrays (Put s m) = arrays m.
Proof.
  intros [Ho Ht Hc] (Hl & b & Hb & Hcap). assert (pool_ok m held) as Hm.
  { split; [|intros a Ha; apply Ht; by right|done]. rewrite <- Permutation_middle in Ho. by apply NoDup_cons in Ho as [_ ?]. }
  unfold Put. destruct (Z.eqb_spec (s_cap s) 0) as [|Hz]; [done|]. destruct (Z.ltb_spec MaxInt32 (s_cap s)) as [|Hs]; [done|].
  cbn [orb]. rewrite u32_small by (unfold MaxInt32 in *; lia). rewrite Z.shiftl_1_l.
  destruct (index_bounds (s_cap s)) as (Hi & Hle & Hlow); [lia|].
  split; [|done]. split; cbn; [by rewrite Permutation_middle|apply Hm|].
  intros k a [[= -> ->]|Ha]%elem_of_cons; [|by apply Hc].
  destruct (Z.eqb_spec (s_cap s) (2 ^ index (s_cap s))) as [E|E]; [split; [lia|exists b; split; [done|lia]]|].
  destruct (Hlow E) as [? ?]. split; [lia|]. exists b. split; [done|lia].
Qed.

Lemma write_ok a f m held :
  pool_ok m (a :: held) -> (forall b, arrays m !! a = Some b -> len (f b) = len b) ->
  pool_ok (mkMemory (alter f a (arrays m)) (idle m)) (a :: held) /\
  forall x, x ∈ held -> alter f a (arrays m) !! x = arrays m !! x.
Proof.
  intros [Ho Ht Hc] Hf. split; [split; cbn; [done| |]|].
  - intros x Hx. destruct (decide (a = x)) as [<-|Hne]; [rewrite lookup_alter_eq; apply fmap_is_Some, Ht, Hx|].
    rewrite lookup_alter_ne by done. auto.
  - intros k x (Hk & b & Hb & Hl)%Hc. split; [done|]. destruct (decide (a = x)) as [<-|Hne].
    + exists (f b). rewrite lookup_alter_eq, Hb. split; [done|]. by rewrite Hf.
    + exists b. by rewrite lookup_alter_ne.
  - intros x Hx. rewrite lookup_alter_ne; [done|]. intros <-. rewrite <- Permutation_middle in Ho.
    apply NoDup_cons in Ho as [Ho _]. apply Ho, elem_of_app. by right.
Qed.

(** *** The bodies of the requests *)

(** What a caller may rely on: the data are the encoding, in an array that is nobody
    else's, and what goes back to the pool is that array. *)
Definition data_ok (e : bytes) (d c : option slice) (m : memory) : Prop :=
  match d with
  | Some s => contents s m = e /\ fits s m /\ (forall s', c = Some s' -> arr s' = arr s /\ fits s' m)
  | None => e = [] /\ c = None
  end.

Definition arr_of (d : option slice) : list nat := match d with Some s => [arr s] | None => [] end.

Lemma data_ok_same e d c m m' :
  (forall a, a ∈ arr_of d -> arrays m' !! a = arrays m !! a) -> data_ok e d c m -> data_ok e d c m'.
Proof.
  intros Ha. destruct d as [s|]; [|done]. cbn in *. specialize (Ha (arr s) (list_elem_of_here _ _)).
  intros (Hc & (Hl & b & Hb & Hcap) & Hs). unfold contents, fits. rewrite Ha. split_and!; [done|lia|lia|by exists b|].
  intros s' ->. destruct (Hs s' eq_refl) as (E & Hl' & b' & Hb' & Hcap'). rewrite E in Hb'. split; [done|]. split; [done|].
  exists b'. by rewrite E, Ha.
Qed.

Lemma take_all (e : bytes) x : take (Z.to_nat (len e)) (e ++ x) = e.
Proof. unfold len. rewrite Nat2Z.id. apply take_app_length. Qed.

(** [append] to a slice, or to nil, of a caller that holds it. *)
Lemma append_new_ok fresh e m held :
  pool_ok m held -> arrays m !! fresh = None ->
  let s := mkSlice fresh (len e) (len e) in
  let m' := mkMemory (<[fresh := e]> (arrays m)) (idle m) in
  pool_ok m' (fresh :: held) /\ data_ok e (Some s) None m' /\ forall a, a ∈ held -> arrays m' !! a = arrays m !! a.
Proof.
  intros Hp Hf. destruct (new_ok fresh e m held Hp Hf) as [H1 H2]. split_and!; [done| |done]. cbn.
  unfold contents, fits. cbn. rewrite lookup_insert_eq. pose proof (len_nonneg e). split_and!; [|lia|lia|by exists e|done].
  cbn. rewrite <- (app_nil_r e) at 2. apply take_all.
Qed.

Lemma append_in_ok s e m held :
  pool_ok m (arr s :: held) -> fits s m -> len e <= s_cap s ->
  let m' := mkMemory (alter (fun a => e ++ drop (length e) a) (arr s) (arrays m)) (idle m) in
  pool_ok m' (arr s :: held) /\ data_ok e (Some (mkSlice (arr s) (len e) (s_cap s))) (Some s) m' /\
  forall a, a ∈ held -> arrays m' !! a = arrays m !! a.
Proof.
  intros Hp (Hl & b & Hb & Hcap) He. pose proof (len_nonneg e).
  assert (len (e ++ drop (length e) b) = len b) as Hlen by (unfold len in *; rewrite length_app, length_drop; lia).
  destruct (write_ok (arr s) (fun a => e ++ drop (length e) a) m held Hp) as [H1 H2].
  { intros b' Hb'. simplify_eq. done. }
  split_and!; [done| |done]. cbn. unfold contents, fits. cbn. rewrite lookup_alter_eq, Hb. cbn. rewrite take_all.
  split_and!; [done|lia|lia|by eexists; split; [reflexivity|lia]|]. intros s' [= <-]. split; [done|]. split; [done|].
  rewrite lookup_alter_eq, Hb. eexists. split; [reflexivity|lia].
Qed.

Lemma marshal_ok choice fresh fresh' size e m held d c m' :
  pool_ok m held -> arrays m !! fresh = None -> arrays m !! fresh' = None -> fresh' <> fresh ->
  marshalAppendPooled choice fresh fresh' size (Some e) m = (Some (d, c), m') ->
  pool_ok m' (arr_of d ++ held) /\ data_ok e d c m' /\ (forall a, a ∈ held -> arrays m' !! a = arrays m !! a).
Proof.
  intros Hp Hf Hf' Hne. unfold marshalAppendPooled. destruct (Z.ltb_spec 0 size) as [Hpos|Hneg].
  - destruct (Get choice fresh size m) as [[s|] m1] eqn:Eg; [|done].
    destruct (Get_ok _ _ _ _ _ _ _ Hp Hf Eg) as (Hp1 & Hfit & Hlen & Hsame & Hall).
    rewrite <- (Hall fresh' Hne) in Hf'. unfold MarshalAppend. destruct (Z.leb_spec (len e) (s_cap s)) as [Hle|Hgt].
    + cbn [arr]. rewrite decide_False by tauto. intros [= <- <- <-].
      destruct (append_in_ok s e m1 held Hp1 Hfit Hle) as (H1 & H2 & H3). split_and!; [done|done|]. intros a Ha.
      rewrite <- Hsame by done. by apply H3.
    + cbn [arr]. assert (fresh' <> arr s) as Hd by (intros ->; destruct Hfit as (_ & b & Hb & _); congruence).
      rewrite decide_True by done. intros [= <- <- <-].
      destruct (append_new_ok fresh' e m1 _ Hp1 Hf') as (H1 & H2 & H3). cbn in H3.
      set (m2 := mkMemory (<[fresh' := e]> (arrays m1)) (idle m1)) in *.
      assert (pool_ok m2 (arr s :: fresh' :: held)) as H1'.
      { eapply pool_ok_perm; [apply Permutation_swap|exact H1]. }
      assert (fits s m2) as Hfit'.
      { destruct Hfit as (L & b & Hb & Hcap). split; [done|]. exists b. split; [|done]. rewrite <- Hb. apply H3. by left. }
      destruct (Put_ok s m2 _ H1' Hfit') as [H4 H5]. split_and!; [done| |].
      * eapply data_ok_same; [|exact H2]. intros a _. by rewrite H5.
      * intros a Ha. rewrite H5, <- Hsame by done. apply H3. by right.
  - destruct (MarshalAppend fresh None e m) as [d1 m1] eqn:Em. intros [= <- <- <-]. unfold MarshalAppend in Em.
    destruct (Z.leb_spec (len e) 0) as [He|He]; injection Em as <- <-; [|by apply append_new_ok].
    split_and!; [done| |done]. unfold len in He. by destruct e.
Qed.

(** A callback that has its data: [p_reads] while the HTTP library may read the body,
    [p_over] once the callback has returned, which is when [cleanup] has run; [p_sent] is
    what has been read for it. *)
Record post := mkPost {
  p_encoding : bytes;
  p_data : option slice;
  p_cleanup : option slice;
  p_reads : bool;
  p_over : bool;
  p_sent : list bytes;
}.

Definition body (m : memory) (p : post) : bytes := match p_data p with Some s => contents s m | None => [] end.

Definition cleanup (m : memory) (p : post) : memory := match p_cleanup p with Some s => Put s m | None => m end.

Definition read (m : memory) (p : post) : post :=
  mkPost (p_encoding p) (p_data p) (p_cleanup p) (p_reads p) (p_over p) (p_sent p ++ [body m p]).
Definition close_body (p : post) : post := mkPost (p_encoding p) (p_data p) (p_cleanup p) false (p_over p) (p_sent p).
Definition return_ (p : post) : post := mkPost (p_encoding p) (p_data p) (p_cleanup p) (p_reads p) true (p_sent p).

(** Callbacks side by side. The library closes the body in its own time, [Do] and [Post]
    may return before; with [waits] they do not. *)
Inductive step (waits : bool) : memory * list post -> memory * list post -> Prop :=
  | s_begin m ps choice fresh fresh' size e d c m' :
      arrays m !! fresh = None -> arrays m !! fresh' = None -> fresh' <> fresh ->
      marshalAppendPooled choice fresh fresh' size (Some e) m = (Some (d, c), m') ->
      step waits (m, ps) (m', ps ++ [mkPost e d c true false []])
  | s_failed m ps choice fresh fresh' size :
      arrays m !! fresh = None ->
      step waits (m, ps) ((marshalAppendPooled choice fresh fresh' size None m).2, ps)
  | s_read m ps1 p ps2 : p_reads p = true -> step waits (m, ps1 ++ p :: ps2) (m, ps1 ++ read m p :: ps2)
  | s_close m ps1 p ps2 : step waits (m, ps1 ++ p :: ps2) (m, ps1 ++ close_body p :: ps2)
  | s_return m ps1 p ps2 : p_over p = false -> (waits = true -> p_reads p = false) ->
      step waits (m, ps1 ++ p :: ps2) (cleanup m p, ps1 ++ return_ p :: ps2)
  | s_forget m ps l1 x l2 : idle m = l1 ++ x :: l2 -> step waits (m, ps) (mkMemory (arrays m) (l1 ++ l2), ps).

Definition holds (p : post) : list nat := if p_over p then [] else arr_of (p_data p).

Definition holdings (ps : list post) : list nat := mjoin (holds <$> ps).

Arguments holdings : simpl never.

(** Each callback's data are its own as long as they are read. *)
Record post_ok (m : memory) (p : post) : Prop := {
  ok_data : p_over p = false -> data_ok (p_encoding p) (p_data p) (p_cleanup p) m;
  ok_reads : p_reads p = true -> p_over p = false;
  ok_sent x : x ∈ p_sent p -> x = p_encoding p;
}.

Definition posts_ok (st : memory * list post) : Prop := pool_ok st.1 (holdings st.2) /\ Forall (post_ok st.1) st.2.

Lemma holdings_cons ps1 p ps2 : holdings (ps1 ++ p :: ps2) ≡ₚ holds p ++ holdings (ps1 ++ ps2).
Proof.
  unfold holdings. rewrite !fmap_app, fmap_cons, !join_app. change (mjoin (?x :: ?l)) with (x ++ mjoin l).
  rewrite !app_assoc. by rewrite (Permutation_app_comm (mjoin _) (holds p)).
Qed.

Lemma post_ok_same m m' p : (forall a, a ∈ holds p -> arrays m' !! a = arrays m !! a) -> post_ok m p -> post_ok m' p.
Proof.
  intros Ha [H1 H2 H3]. split; [|done|done]. intros Ho. eapply data_ok_same; [|by apply H1].
  intros a Hin. apply Ha. unfold holds. by rewrite Ho.
Qed.

Lemma posts_ok_same m m' ps :
  (forall a, a ∈ holdings ps -> arrays m' !! a = arrays m !! a) -> Forall (post_ok m) ps -> Forall (post_ok m') ps.
Proof.
  intros Ha Hps. rewrite Forall_forall in *. intros p Hp. eapply post_ok_same; [|by apply Hps].
  intros a Hin. apply Ha. unfold holdings. apply list_elem_of_join. exists (holds p). split; [done|]. apply list_elem_of_fmap. eauto.
Qed.

(** A callback that changes and holds what it held. *)
Lemma posts_ok_change m ps1 p p' ps2 :
  holds p' = holds p -> (post_ok m p -> post_ok m p') -> posts_ok (m, ps1 ++ p :: ps2) -> posts_ok (m, ps1 ++ p' :: ps2).
Proof.
  intros Eh Hp [Hok Hps]. split; cbn in *.
  - eapply pool_ok_perm; [|exact Hok]. by rewrite !holdings_cons, Eh.
  - apply Forall_app in Hps as [H1 H2]. apply Forall_cons in H2 as [H2 H3]. apply Forall_app. split; [done|]. constructor; auto.
Qed.

Lemma body_own m p : post_ok m p -> p_reads p = true -> body m p = p_encoding p.
Proof.
  intros [H1 H2 _] Hr. specialize (H1 (H2 Hr)). unfold body, data_ok in *. destruct (p_data p); [by destruct H1|by destruct H1 as [-> _]].
Qed.

Lemma failed_ok choice fresh fresh' size m held :
  pool_ok m held -> arrays m !! fresh = None ->
  pool_ok (marshalAppendPooled choice fresh fresh' size None m).2 held /\
  forall a, a ∈ held -> arrays (marshalAppendPooled choice fresh fresh' size None m).2 !! a = arrays m !! a.
Proof.
  intros Hp Hf. unfold marshalAppendPooled. destruct (0 <? size) eqn:E; [|done].
  destruct (Get choice fresh size m) as [[s|] m1] eqn:Eg; cbn.
  - destruct (Get_ok _ _ _ _ _ _ _ Hp Hf Eg) as (Hp1 & Hfit & _ & Hsame & _). destruct (Put_ok s m1 held Hp1 Hfit) as [H1 H2].
    split; [done|]. intros a Ha. rewrite H2. by apply Hsame.
  - revert Eg. unfold Get. apply Z.ltb_lt in E. destruct (Z.leb_spec size 0); [lia|]. intros Eg.
    repeat case_match; discriminate.
Qed.

Lemma return_ok m ps1 p ps2 :
  p_over p = false -> p_reads p = false -> posts_ok (m, ps1 ++ p :: ps2) -> posts_ok (cleanup m p, ps1 ++ return_ p :: ps2).
Proof.
  intros Ho Hr [Hok Hps]. cbn in *. apply Forall_app in Hps as [H1 [Hp H2]%Forall_cons].
  pose proof (pool_ok_perm _ _ _ (holdings_cons ps1 p ps2) Hok) as Hok'. unfold holds at 1 in Hok'. rewrite Ho in Hok'.
  assert (pool_ok (cleanup m p) (holdings (ps1 ++ ps2)) /\ arrays (cleanup m p) = arrays m) as [Hc Ea].
  { unfold cleanup. pose proof (ok_data _ _ Hp Ho) as Hd. destruct (p_cleanup p) as [s|] eqn:Ec.
    - unfold data_ok in Hd. destruct (p_data p) as [d|]; [|by destruct Hd]. destruct Hd as (_ & _ & Hd).
      destruct (Hd s eq_refl) as [E Hfit]. apply Put_ok; [|done]. cbn in Hok'. by rewrite E.
    - split; [|done]. destruct Hok' as [A1 A2 A3]. split; [|intros a Ha; apply A2; set_solver|done].
      eapply sublist_NoDup; [exact A1|]. apply sublist_app; [done|]. by apply sublist_inserts_l. }
  split; cbn.
  - eapply pool_ok_perm; [|exact Hc]. by rewrite holdings_cons.
  - assert (Forall (post_ok (cleanup m p)) (ps1 ++ ps2)) as [G1 G2]%Forall_app.
    { eapply posts_ok_same; [by rewrite Ea|]. by apply Forall_app. }
    apply Forall_app. split; [done|]. constructor; [|done]. split; cbn; [done|congruence|apply Hp].
Qed.

Lemma forget_ok m held l1 x l2 : idle m = l1 ++ x :: l2 -> pool_ok m held -> pool_ok (mkMemory (arrays m) (l1 ++ l2)) held.
Proof.
  intros E [Ho Ht Hc]. rewrite E in Ho, Hc. split; cbn; [|done|].
  - rewrite <- Permutation_middle in Ho. by apply NoDup_cons in Ho as [_ ?].
  - intros k a Ha. apply Hc. set_solver.
Qed.

Lemma posts_step st st' : posts_ok st -> step true st st' -> posts_ok st'.
Proof.
  intros Hi Hs. destruct Hs as [m ps choice fresh fresh' size e d c m' Hf Hf' Hne Em|m ps choice fresh fresh' size Hf|
    m ps1 p ps2 Hr|m ps1 p ps2|m ps1 p ps2 Ho Hw|m ps l1 x l2 E].
  - destruct Hi as [Hok Hps]. cbn in *. destruct (marshal_ok _ _ _ _ _ _ _ _ _ _ Hok Hf Hf' Hne Em) as (H1 & H2 & H3). split; cbn.
    + eapply pool_ok_perm; [symmetry; etrans; [apply (holdings_cons ps _ [])|]|exact H1]. by rewrite app_nil_r.
    + apply Forall_app. split; [by eapply posts_ok_same|]. apply Forall_singleton. split; [done|done|by intros x Hx%elem_of_nil].
  - destruct Hi as [Hok Hps]. cbn in *. destruct (failed_ok choice fresh fresh' size m _ Hok Hf) as [H1 H2]. split; [done|].
    by eapply posts_ok_same.
  - eapply posts_ok_change; [| |exact Hi]; [done|]. intros Hp. pose proof (body_own m p Hp Hr) as Hb. destruct Hp as [H1 H2 H3].
    split; cbn; [exact H1|exact H2|]. intros x [Hx|Hx%list_elem_of_singleton]%elem_of_app; [by apply H3|congruence].
  - eapply posts_ok_change; [| |exact Hi]; [done|]. intros [H1 H2 H3]. split; cbn; [exact H1|discriminate|exact H3].
  - apply return_ok; auto.
  - destruct Hi as [Hok Hps]. split; cbn in *; [by eapply forget_ok|]. eapply posts_ok_same; [|exact Hps]. done.
Qed.

Lemma posts_reachable st : star (step true) (mkMemory ∅ [], []) st -> posts_ok st.
Proof.
  intros Hr. eapply star_invariant; [exact posts_step|exact Hr|]. split; cbn; [|constructor].
  split; cbn; [constructor|by intros a ?%elem_of_nil|by intros k a ?%elem_of_nil].
Qed.

(** Any number of callbacks that share the pool, each with its array: if none returns
    before the library has closed the body of its request, then what is read for a request
    is always the encoding of its own message. *)
Theorem callbacks_send_own m ps p :
  star (step true) (mkMemory ∅ [], []) (m, ps) -> p ∈ ps -> forall x, x ∈ p_sent p -> x = p_encoding p.
Proof.
  intros [_ Hps]%posts_reachable Hp. rewrite Forall_forall in Hps. apply (ok_sent _ _ (Hps p Hp)).
Qed.

(** Package net/http lets [Do] return before: then the array of a body that is still read
    is handed to the next callback, and the bytes of its message go out with the request of
    the first. *)
Theorem callback_sends_others :
  exists m ps p, star (step false) (mkMemory ∅ [], []) (m, ps) /\ p ∈ ps /\ p_encoding p = [1; 2] /\ p_sent p = [[3; 4]].
Proof.
  set (m1 := (marshalAppendPooled None 0 9 2 (Some [1; 2]) (mkMemory ∅ [])).2).
  set (s := mkSlice 0 2 2). set (p := mkPost [1; 2] (Some s) (Some s) true false []).
  set (m2 := cleanup m1 p). set (m3 := (marshalAppendPooled (Some 0%nat) 7 9 2 (Some [3; 4]) m2).2).
  set (q := mkPost [3; 4] (Some s) (Some s) true false []).
  exists m3, [read m3 (return_ p); q], (read m3 (return_ p)). split; [|split_and!; [by left|reflexivity|vm_compute; reflexivity]].
  eapply star_cons; [eapply (s_begin false (mkMemory ∅ []) [] None 0 9 2 [1; 2]); [reflexivity|reflexivity|done|vm_compute; reflexivity]|].
  eapply star_cons; [apply (s_return false _ [] p []); [reflexivity|done]|].
  eapply star_cons; [eapply (s_begin false _ [return_ p] (Some 0%nat) 7 9 2 [3; 4]); [reflexivity|reflexivity|done|vm_compute; reflexivity]|].
  eapply star_cons; [apply (s_read false m3 [] (return_ p) [q]); reflexivity|]. apply star_nil.
Qed.
End Byteslice.
