(* ===== verification/Ids.v ===== *)
(** The identifiers that the gateway gives: what src/internal/wsServer/uniqIdGen and
    src/internal/worker/connId.go make of the addresses they listen on, and how the reader
    that the comment on [New] describes takes an identifier apart. *)

From S2P Require Export Worker Net.

Module Ids.
Import Net.

(** ** Helpers of the standard library *)

Definition is_digit (c : ascii) : bool := (48 <=? Z.of_nat (nat_of_ascii c)) && (Z.of_nat (nat_of_ascii c) <=? 57).

(** The value of [strconv.Atoi], whose error the callers ignore: 0 where the text is no
    number, and the nearest int where it is out of range. *)
Definition Atoi (s : string) : Z :=
  let l := String.list_ascii_of_string s in
  let '(neg, ds) := match l with
                    | "-"%char :: ds => (true, ds)
                    | "+"%char :: ds => (false, ds)
                    | _ => (false, l)
                    end in
  if isNil ds || negb (forallb is_digit ds) then 0
  else let n := foldl (fun acc c => acc * 10 + (Z.of_nat (nat_of_ascii c) - 48)) 0 ds in
       if neg then Z.max (- n) (- 2 ^ 63) else Z.min n (2 ^ 63 - 1).

(** [hex.Encode]. *)
Definition hex (l : bytes) : list ascii :=
  mjoin ((fun b => [UniqIdGen.hexDigit (Z.shiftr b 4); UniqIdGen.hexDigit (Z.land b 15)]) <$> l).

Section Ids.
Context `{Network}.

(** ** Address and port in six bytes

    [ip[12:16]] of an address that could not be parsed panics: [None]. *)
Definition put_address (hostport : string) : option bytes :=
  let '(host, portStr) := default (EmptyString, EmptyString) (SplitHostPort hostport) in
  let port := Atoi portStr in
  match ParseIP host with
  | None => None
  | Some ip => if len ip <? 16 then None
               else Some (put_be 4 (be (take 4 (drop 12 ip))) ++ put_be 2 (u16 port))
  end.

(** [init] of uniqIdGen: [templateHex], from the address of the task server. *)
Definition templateHex (ListenAddress : string) : option (list ascii) := hex <$> put_address ListenAddress.

(** [init] of connId.go: [connIdTemplate], from the address of the worker server. *)
Definition connIdTemplate (ListenAddress : string) : option bytes :=
  if is_empty ListenAddress then Some (replicate 6 0) else put_address ListenAddress.

(** [newConnId] as a whole, from the remote address as text. *)
Definition newConnId_of (template : bytes) (hostPort : string) (now : Z) : option string :=
  let '(host, portStr) := default (EmptyString, EmptyString) (SplitHostPort hostPort) in
  let port := Atoi portStr in
  match ParseIP host with
  | None => None
  | Some ip => if len ip <? 16 then None else Some (newConnId template (take 4 (drop 12 ip)) port now)
  end.

End Ids.

(** ** The reader: [pack('H*', id)] *)

Fixpoint unhex (l : list ascii) : bytes :=
  match l with
  | a :: b :: l' => (UniqIdGen.digit_value a * 16 + UniqIdGen.digit_value b) :: unhex l'
  | _ => []
  end.

(** [unpack('Nip/nport/Ntimestamp/NincrId', ...)]. *)
Definition unpack_uniqId (id : string) : Z * Z * Z * Z :=
  let b := unhex (String.list_ascii_of_string id) in
  (be (take 4 b), be (take 2 (drop 4 b)), be (take 4 (drop 6 b)), be (take 4 (drop 10 b))).

(** The fields of a [connId]: both ends and the time. *)
Definition unpack_connId (id : string) : (Z * Z) * (Z * Z) * Z :=
  let b := unhex (String.list_ascii_of_string id) in
  (be (take 4 b), be (take 2 (drop 4 b)), (be (take 4 (drop 6 b)), be (take 2 (drop 10 b))), be (take 4 (drop 12 b))).

(** ** Lemmas *)

Lemma unhex_hex l : wf_bytes l -> unhex (hex l) = l.
Proof.
  intros Hw. induction Hw as [|b l Hb Hw IH]; [done|].
  change (hex (b :: l)) with (UniqIdGen.hexDigit (Z.shiftr b 4) :: UniqIdGen.hexDigit (Z.land b 15) :: hex l).
  cbn [unhex]. f_equal; [|exact IH]. unfold is_byte in Hb.
  change 15 with (Z.ones 4). rewrite Z.land_ones, Z.shiftr_div_pow2 by lia. change (2 ^ 4) with 16.
  rewrite !UniqIdGen.digit_value_hexDigit; divlia.
Qed.

Lemma hex_app l k : hex (l ++ k) = hex l ++ hex k.
Proof. unfold hex. by rewrite fmap_app, join_app. Qed.

Lemma length_hex l : length (hex l) = (2 * length l)%nat.
Proof. induction l as [|b l IH]; [done|]. change (hex (b :: l)) with (hex [b] ++ hex l). rewrite length_app, IH. cbn [length]. change (length (hex [b])) with 2%nat. lia. Qed.

Lemma encode_hex val : 0 <= val < 2 ^ 32 -> UniqIdGen.encodeUint32ToHex val = hex (put_be 4 val).
Proof.
  intros Hv. unfold UniqIdGen.encodeUint32ToHex, hex.
  replace (put_be 4 val) with ((fun i => u8 (Z.shiftr val (24 - i * 8))) <$> [0; 1; 2; 3]); [done|].
  cbn [fmap list_fmap put_be app]. rewrite !UniqIdGen.byte_at_position by lia. rewrite !Z.div_div by lia.
  change (24 - 0 * 8) with 24. change (24 - 1 * 8) with 16. change (24 - 2 * 8) with 8. change (24 - 3 * 8) with 0.
  by rewrite Z.pow_0_r, Z.div_1_r.
Qed.

Lemma put_address_of `{Network} h p a ip4 :
  SplitHostPort a = Some (h, p) -> ParseIP h = Some (v4InV6Prefix ++ ip4) -> length ip4 = 4%nat -> wf_bytes ip4 ->
  put_address a = Some (ip4 ++ put_be 2 (u16 (Atoi p))).
Proof.
  intros Hs Hp Hl Hw. unfold put_address. rewrite Hs.
  change (default (EmptyString, EmptyString) (Some (h, p))) with (h, p). cbv iota beta zeta. rewrite Hp.
  rewrite len_app. unfold len at 2. rewrite Hl. change (len v4InV6Prefix + Z.of_nat 4 <? 16) with false. cbn iota.
  change (drop 12 (v4InV6Prefix ++ ip4)) with ip4. rewrite take_ge by lia.
  rewrite <- Hl at 1. by rewrite put_be_be.
Qed.

Lemma length_text l : String.length (String.string_of_list_ascii l) = length l.
Proof. induction l as [|c l IH]; [done|]. cbn. by rewrite IH. Qed.

Lemma be_put_small n v : 0 <= v < 256 ^ Z.of_nat n -> be (put_be n v) = v.
Proof. intros Hv. rewrite be_put_be. by apply Z.mod_small. Qed.

Lemma wf_app l k : wf_bytes l -> wf_bytes k -> wf_bytes (l ++ k).
Proof. apply Forall_app_2. Qed.

(** Two byte strings of known lengths, cut where the first ends. *)
Lemma take_first {A} n (l k : list A) : length l = n -> take n (l ++ k) = l.
Proof. intros <-. apply take_app_length. Qed.

Lemma drop_first {A} n (l k : list A) : length l = n -> drop n (l ++ k) = k.
Proof. intros <-. apply drop_app_length. Qed.

Lemma drop_past {A} n m (l k : list A) : length l = n -> drop (n + m) (l ++ k) = drop m k.
Proof. intros <-. rewrite <- drop_drop. by rewrite drop_app_length. Qed.

(** ** The identifiers *)

(** The address and the port that a server listens on. *)
Definition listens `{Network} (a : string) (ip4 : bytes) (port : Z) : Prop :=
  exists h p, SplitHostPort a = Some (h, p) /\ ParseIP h = Some (v4InV6Prefix ++ ip4) /\
    length ip4 = 4%nat /\ wf_bytes ip4 /\ port = u16 (Atoi p).

Lemma template_of `{Network} a ip4 port : listens a ip4 port -> templateHex a = Some (hex (ip4 ++ put_be 2 port)).
Proof.
  intros (h & p & Hs & Hp & Hl & Hw & ->). unfold templateHex. by rewrite (put_address_of h p a ip4 Hs Hp Hl Hw).
Qed.

Lemma uniqId_read ip4 port timestamp incrId :
  length ip4 = 4%nat -> wf_bytes ip4 -> 0 <= port < 2 ^ 16 ->
  let '((id, _), incr) := UniqIdGen.New (hex (ip4 ++ put_be 2 port)) timestamp incrId in
  String.length id = 28%nat /\ unpack_uniqId id = (be ip4, port, u32 timestamp, incr) /\ incr = u32 (incrId + 1).
Proof.
  intros Hl Hw Hport. unfold UniqIdGen.New. pose proof (u32_range timestamp). pose proof (u32_range (incrId + 1)).
  rewrite !encode_hex by lia. rewrite take_ge by (rewrite length_hex, length_app, length_put_be; lia).
  rewrite <- !hex_app, <- app_assoc. split_and!; [|unfold unpack_uniqId|done].
  - rewrite length_text, length_hex, !length_app, !length_put_be. lia.
  - rewrite String.list_ascii_of_string_of_list_ascii, unhex_hex by eauto using wf_app, wf_put_be.
    rewrite (drop_past 4 2), (drop_past 4 6), (drop_past 2 4), (drop_first 4), (drop_first 2), (drop_first 4) by done.
    rewrite !take_first, take_ge by done.
    by rewrite !be_put_small by (cbn; lia).
Qed.

Lemma be_inj l k : length l = length k -> wf_bytes l -> wf_bytes k -> be l = be k -> l = k.
Proof. intros Hl Hwl Hwk E. rewrite <- (put_be_be l), <- (put_be_be k) by done. by rewrite Hl, E. Qed.

(** C29: A uniqId has 28 digits and is read the way the comment on [New] shows: address
    and port of the task server of the gateway, the second it was made in, and the
    counter. Two identifiers, of one gateway or of two, are the same exactly when they
    agree in these four: when the servers of the tasks listen on different addresses or
    ports they never are, and with the same address (two machines that are both set to
    127.0.0.1:6062, as in the example of the settings) nothing but the second and the
    counter tells them apart. *)
Theorem uniqId_decodes `{Network} a ip4 port timestamp incrId a' ip4' port' timestamp' incrId' :
  listens a ip4 port -> listens a' ip4' port' ->
  exists t t', templateHex a = Some t /\ templateHex a' = Some t' /\
    let '((id, _), incr) := UniqIdGen.New t timestamp incrId in
    let '((id', _), incr') := UniqIdGen.New t' timestamp' incrId' in
    String.length id = 28%nat /\ unpack_uniqId id = (be ip4, port, u32 timestamp, incr) /\ incr = u32 (incrId + 1) /\
    (id = id' <-> ip4 = ip4' /\ port = port' /\ u32 timestamp = u32 timestamp' /\ incr = incr').
Proof.
  intros L L'. do 2 eexists. split_and!; [by apply template_of|by apply template_of|].
  destruct L as (h & p & _ & _ & Hl & Hw & Hp), L' as (h' & p' & _ & _ & Hl' & Hw' & Hp').
  assert (forall x, 0 <= u16 x < 2 ^ 16) as Hr by (intros; apply Z.mod_pos_bound; lia).
  pose proof (uniqId_read ip4 port timestamp incrId Hl Hw ltac:(rewrite Hp; apply Hr)) as H1.
  pose proof (uniqId_read ip4' port' timestamp' incrId' Hl' Hw' ltac:(rewrite Hp'; apply Hr)) as H2.
  unfold UniqIdGen.New in *. cbv zeta beta iota in *. destruct H1 as (H1 & H3 & _), H2 as (_ & H4 & _).
  split_and!; [done|done|done|]. split.
  - intros E. rewrite E, H4 in H3. injection H3 as E1 E2 E3 E4. split_and!; try done. apply be_inj; congruence.
  - by intros (-> & -> & -> & ->).
Qed.

(** The connections of the business processes: both ends and the time. *)
Theorem connId_decodes `{Network} a h p ip4 a' h' p' ip4' now :
  SplitHostPort a = Some (h, p) -> ParseIP h = Some (v4InV6Prefix ++ ip4) -> length ip4 = 4%nat -> wf_bytes ip4 ->
  SplitHostPort a' = Some (h', p') -> ParseIP h' = Some (v4InV6Prefix ++ ip4') -> length ip4' = 4%nat -> wf_bytes ip4' ->
  a <> EmptyString ->
  exists t id, connIdTemplate a = Some t /\ newConnId_of t a' now = Some id /\
    unpack_connId id = ((be ip4, u16 (Atoi p)), (be ip4', u16 (Atoi p')), u32 now).
Proof.
  intros Hs Hp Hl Hw Hs' Hp' Hl' Hw' Hne. set (port := u16 (Atoi p)). set (port' := u16 (Atoi p')).
  exists (ip4 ++ put_be 2 port), (newConnId (ip4 ++ put_be 2 port) ip4' (Atoi p') now). split_and!.
  - unfold connIdTemplate. apply is_empty_false in Hne. rewrite Hne. by apply (put_address_of h p a ip4).
  - unfold newConnId_of. rewrite Hs'. change (default (EmptyString, EmptyString) (Some (h', p'))) with (h', p'). cbv iota beta zeta.
    rewrite Hp', len_app. unfold len at 2. rewrite Hl'. change (len v4InV6Prefix + Z.of_nat 4 <? 16) with false. cbn iota.
    change (drop 12 (v4InV6Prefix ++ ip4')) with ip4'. by rewrite take_ge by lia.
  - assert (0 <= port < 2 ^ 16) by (apply Z.mod_pos_bound; lia). assert (0 <= port' < 2 ^ 16) by (apply Z.mod_pos_bound; lia).
    pose proof (u32_range now). unfold unpack_connId, newConnId.
    change (hex_encode ?l) with (String.string_of_list_ascii (hex l)).
    rewrite (take_ge (ip4 ++ put_be 2 port)) by (rewrite length_app, length_put_be; lia).
    rewrite String.list_ascii_of_string_of_list_ascii, unhex_hex by eauto using wf_app, wf_put_be.
    rewrite <- app_assoc, (drop_past 4 2), (drop_past 4 6), (drop_past 4 8), (drop_first 4), (drop_first 2) by done.
    rewrite (drop_past 2 4), (drop_past 2 6), (drop_first 4), (drop_past 4 2), (drop_first 2) by done.
    rewrite !take_first, take_ge by done.
    by rewrite !be_put_small by (cbn; lia).
Qed.

Lemma uniqId_decodes_witness :
  exists t t', templateHex (H := NetText.machine) "127.0.0.1:6061" = Some t /\ templateHex (H := NetText.machine) "10.0.0.7:6061" = Some t' /\
    let '((id, _), incr) := UniqIdGen.New t 3829762945 713923481 in
    let '((id', _), incr') := UniqIdGen.New t' 3829762945 713923481 in
    String.length id = 28%nat /\ unpack_uniqId id = (be [127; 0; 0; 1], 6061, 3829762945, incr) /\ incr = 713923482 /\
    (id = id' <-> [127; 0; 0; 1] = [10; 0; 0; 7] /\ 6061 = 6061 /\ 3829762945 = 3829762945 /\ incr = incr').
Proof.
  apply (uniqId_decodes (H := NetText.machine) "127.0.0.1:6061" [127; 0; 0; 1] 6061 3829762945 713923481
           "10.0.0.7:6061" [10; 0; 0; 7] 6061 3829762945 713923481).
  - exists "127.0.0.1"%string, "6061"%string. split_and!; [vm_compute; reflexivity..| |reflexivity]. repeat constructor; lia.
  - exists "10.0.0.7"%string, "6061"%string. split_and!; [vm_compute; reflexivity..| |reflexivity]. repeat constructor; lia.
Defined.
End Ids.
