(* ===== verification/Helpers.v ===== *)
(** The small helpers: what is logged of an event that could not be handed over
    (src/internal/queue/internal/fn.go, its copy in src/internal/worker/conn.go and
    [formatCustomerData] of src/internal/customer/websocket.go), the buffer that the
    library of compressed messages writes to (src/internal/utils/buffer/buffer.go) and the
    root of the relative paths (src/pkg/wd/wd.go). *)

From S2P Require Export Worker EventQueue.

(** ** The fields of a log line, in order *)
Module Text.

Inductive field := Str (key value : string) | Strs (key : string) (values : list string) | Hex (key : string) (value : bytes).

Abbreviation event := (list field).

(** [string(b)] of a byte slice. *)
Definition string_of (b : bytes) : string :=
  String.string_of_list_ascii ((fun x => ascii_of_N (Z.to_N x)) <$> b).

Section Text.
(** The decoding of the three events, and the names of the commands, which are generated. *)
Context `{Proto} (unmarshal_Transfer : bytes -> option Transfer) (unmarshal_ConnOpen : bytes -> option ConnOpen)
  (unmarshal_ConnClose : bytes -> option ConnClose) (Cmd_String : Z -> string) (SendMessageType : Z).

Definition FormatSendToBusinessData (cmdBytes body : bytes) (ev : event) : event :=
  let cmd := i32 (be cmdBytes) in
  if cmd =? Cmd_Transfer then
    match unmarshal_Transfer body with
    | None => ev
    | Some tf =>
        let ev := ev ++ [Str "cmd" (Cmd_String cmd); Str "uniqId" (tf_UniqId tf); Str "session" (tf_Session tf);
                         Str "customerId" (tf_CustomerId tf); Strs "topics" (tf_Topics tf)] in
        if SendMessageType =? OpText then ev ++ [Str "data" (string_of (tf_Data tf))]
        else ev ++ [Hex "dataHex" (tf_Data tf)]
    end
  else if cmd =? Cmd_ConnOpen then
    match unmarshal_ConnOpen body with
    | None => ev
    | Some co => ev ++ [Str "cmd" (Cmd_String cmd); Str "uniqId" (op_UniqId co); Str "rawQuery" (op_RawQuery co);
                        Str "xForwardedFor" (op_XForwardedFor co); Str "xRealIp" (op_XRealIp co);
                        Str "remoteAddr" (op_RemoteAddr co)]
    end
  else if cmd =? Cmd_ConnClose then
    match unmarshal_ConnClose body with
    | None => ev
    | Some cl => ev ++ [Str "cmd" (Cmd_String cmd); Str "uniqId" (cl_UniqId cl); Str "customerId" (cl_CustomerId cl);
                        Str "session" (cl_Session cl); Strs "topics" (cl_Topics cl)]
    end
  else ev ++ [Str "cmd" (Cmd_String cmd)].

(** The copy of the worker: [header] up to its capacity; [header[4:8]] of a shorter one
    panics. *)
Definition formatSendToBusinessData (header body : bytes) (ev : event) : option event :=
  if len header <? 8 then None else Some (FormatSendToBusinessData (take 4 (drop 4 header)) body ev).

Definition formatCustomerData (customerData : bytes) (ev : event) : event :=
  if SendMessageType =? OpText then ev ++ [Str "customerData" (string_of customerData)]
  else ev ++ [Hex "customerDataHex" customerData].

(** What is to be read in the log of an event. *)
Definition data_field (d : bytes) : field :=
  if SendMessageType =? OpText then Str "data" (string_of d) else Hex "dataHex" d.

Definition told (m : Proto.message) : option (Z * list field) :=
  match m with
  | MTransfer tf => Some (Cmd_Transfer, [Str "uniqId" (tf_UniqId tf); Str "session" (tf_Session tf);
      Str "customerId" (tf_CustomerId tf); Strs "topics" (tf_Topics tf); data_field (tf_Data tf)])
  | MConnOpen co => Some (Cmd_ConnOpen, [Str "uniqId" (op_UniqId co); Str "rawQuery" (op_RawQuery co);
      Str "xForwardedFor" (op_XForwardedFor co); Str "xRealIp" (op_XRealIp co); Str "remoteAddr" (op_RemoteAddr co)])
  | MConnClose cl => Some (Cmd_ConnClose, [Str "uniqId" (cl_UniqId cl); Str "customerId" (cl_CustomerId cl);
      Str "session" (cl_Session cl); Strs "topics" (cl_Topics cl)])
  | _ => None
  end.

(** The decoders undo the encoding. *)
Definition decodes : Prop :=
  (forall m b, marshal (MTransfer m) = Some b -> unmarshal_Transfer b = Some m) /\
  (forall m b, marshal (MConnOpen m) = Some b -> unmarshal_ConnOpen b = Some m) /\
  (forall m b, marshal (MConnClose m) = Some b -> unmarshal_ConnClose b = Some m).

Lemma format_event m cmd fields body ev :
  decodes -> told m = Some (cmd, fields) -> marshal m = Some body ->
  FormatSendToBusinessData (put_be 4 (u32 cmd)) body ev = ev ++ Str "cmd" (Cmd_String cmd) :: fields.
Proof.
  intros (Ht & Ho & Hc) Hm Hb. unfold FormatSendToBusinessData.
  destruct m; try discriminate; injection Hm as <- <-.
  - by rewrite (Ho _ _ Hb).
  - by rewrite (Hc _ _ Hb).
  - change (i32 (be (put_be 4 (u32 Cmd_Transfer)))) with Cmd_Transfer. rewrite Z.eqb_refl, (Ht _ _ Hb). unfold data_field.
    destruct (SendMessageType =? OpText); by rewrite <- app_assoc.
Qed.

(** An event that was put into a packet of a queue, or of a business connection, and
    could not be handed over is logged with its command and all that it says. *)
Theorem dropped_event_told m cmd fields p st ev :
  decodes -> told m = Some (cmd, fields) ->
  let '(err, st') := EventQueue.Packet_Set p m cmd st in
  (err = true /\ marshal m = None) \/
  exists msg, EventQueue.message st' p = msg /\
    FormatSendToBusinessData (take 4 msg) (drop 4 msg) ev = ev ++ Str "cmd" (Cmd_String cmd) :: fields.
Proof.
  intros Hd Hm. unfold EventQueue.Packet_Set. destruct (marshal m) as [body|] eqn:Hb; [|by left]. right.
  exists (put_be 4 (u32 cmd) ++ body). split.
  - unfold EventQueue.message, EventQueue.packet. case_match; cbn; by rewrite lookup_insert_eq.
  - rewrite (take_app_length' _ _ 4), (drop_app_length' _ _ 4) by done. by eapply format_event.
Qed.

Theorem dropped_packet_told m cmd fields body ev :
  decodes -> told m = Some (cmd, fields) -> marshal m = Some body ->
  formatSendToBusinessData (put_be 4 (u32 (len body + 4)) ++ put_be 4 (u32 cmd)) body ev =
  Some (ev ++ Str "cmd" (Cmd_String cmd) :: fields).
Proof.
  intros Hd Hm Hb.
  unfold formatSendToBusinessData. rewrite len_app. unfold len. rewrite !length_put_be.
  change (Z.of_nat 4 + Z.of_nat 4 <? 8) with false. cbn iota. rewrite (drop_app_length' _ _ 4), take_ge by done.
  f_equal. by eapply format_event.
Qed.
End Text.
End Text.

(** ** The buffer *)
Module Buffer.

(** A nil slice is [None]. *)
Definition New (buf : option bytes) : option (option bytes) := if buf then Some buf else None.

Definition Set_ (buf : option bytes) (_ : option bytes) : option (option bytes) := if buf then Some buf else None.

Definition Len (b : option bytes) : Z := len (default [] b).

Definition Bytes (b : option bytes) : option bytes := b.

Definition Discard (_ : option bytes) : option bytes := None.

(** [append] of nothing to nil is nil. *)
Definition Write (p : bytes) (b : option bytes) : Z * option bytes :=
  (len p, match b, p with None, [] => None | _, _ => Some (default [] b ++ p) end).

Fixpoint Write_all (l : list bytes) (b : option bytes) : option bytes :=
  match l with [] => b | p :: l' => Write_all l' (Write p b).2 end.

(** However the writer cuts what it writes, the buffer holds all of it in order. *)
Theorem buffer_collects l b : default [] (Write_all l b) = default [] b ++ mjoin l.
Proof.
  revert b. induction l as [|p l IH]; intros b; cbn; [by rewrite app_nil_r|]. rewrite IH, app_assoc. f_equal.
  destruct b, p; done.
Qed.
End Buffer.

(** ** wd.go: [Getwd] with slashes; [None] is the exit of the program *)
Module Wd.

Definition slash : ascii := "/"%char.

Definition TrimSuffix (s : list ascii) : list ascii :=
  match last s with Some c => if decide (c = slash) then removelast s else s | None => s end.

Definition RootPath (Getwd : option string) : option string :=
  (fun dir => String.string_of_list_ascii (TrimSuffix (String.list_ascii_of_string dir) ++ [slash])) <$> Getwd.

(** A root that ends in a slash stays as it is, so [RootPath] always ends in just the
    slash that is needed. *)
Theorem RootPath_idempotent d r : RootPath (Some d) = Some r -> RootPath (Some r) = Some r.
Proof.
  intros [= <-]. unfold RootPath. cbn [fmap option_fmap option_map]. f_equal.
  rewrite !String.list_ascii_of_string_of_list_ascii. unfold TrimSuffix at 1. rewrite last_snoc, decide_True, removelast_last by done. done.
Qed.
End Wd.
