(* ===== verification/Boot.v ===== *)
(** From the start of the program to main: what the initialisation of the packages does,
    from the working directory and the settings file on (src/pkg/wd, src/configs and the
    packages that read the settings), and how it can end. *)

From S2P Require Import Ws.
From S2P Require Export Logging ConfigProps Startup Metrics Ids Helpers.

Module Boot.
Import Net Config ConfigProps Startup.

Inductive outcome (A : Type) :=
  | Loaded (x : A)
  | Exits (code : Z)
  | Panics.
Arguments Loaded {A}. Arguments Exits {A}. Arguments Panics {A}.

(** One initialisation, then the next: a panic or an exit is the end. *)
Definition andThen {A B} (x : outcome A) (f : A -> outcome B) : outcome B :=
  match x with Loaded a => f a | Exits n => Exits n | Panics => Panics end.

Definition or_panic {A} (x : option A) : outcome A := match x with Some a => Loaded a | None => Panics end.

(** The tables by event have [managerLen] entries. *)
Definition managerLen : Z := Event_OnMessage + 1.

(** The check of [init] in each of the four managers: [false] is the panic. *)
Definition manager_init : bool := negb (managerLen <=? foldl Z.max 0 Event_values).

(** [init] of worker/manager.go: an empty list for each event, which starts its turns
    anywhere ([rand.Uint32]), if there is a worker server. *)
Definition workers_init (rand : Z -> Z) (ListenAddress : string) : gmap Z collect :=
  if is_empty ListenAddress then ∅
  else list_to_map ((fun v => (v, mkCollect [] (u32 (rand v)))) <$> filter (fun v => v <> Event_Placeholder) Event_values).

(** What the packages hold when main begins. *)
Record packages := mkPackages {
  Conf : settings;
  Log : Level * Logging.sink;
  Registry : list (option Metrics.Status);
  Limiters : gmap Z Z;
  IncrId : Z;                            (* uniqIdGen *)
  TemplateHex : list ascii;
  ConnIdTemplate : bytes;                (* worker *)
  Workers : gmap Z collect;
}.

Section Boot.
Context `{Network}.
(** The working directory, filepath.Join, the command line (the flags -version and -config
    with its default, or the status that package flag exits with), the text of the time the
    program was built at, the file system, the TOML decoder, which fills in a value, the
    first address that is not in use, the numbers of package math/rand, the four bytes that
    crypto/rand gives or its failure, and which of the packages uniqIdGen and worker, which
    do not import each other, is initialised first. *)
Context (Getwd : option string) (Join : string -> string -> string) (flag_Parse : string -> Z + bool * string)
  (ParseInt_BuildTimestamp : bool) (ReadFile : string -> option string) (Decode : string -> settings -> option settings)
  (next : nat)
  (rand : Z -> Z) (random : option (Z * Z * Z * Z)) (worker_first : bool).

Definition internal_dir : string := "/internal/".

(** Where the settings are: beside src/internal in a test, else where the flags say. *)
Definition configFile (RootPath : string) : Z + bool * string :=
  match String.index 0 internal_dir RootPath with
  | Some n => inr (false, Join (String.substring 0 n RootPath) "configs/netsvr.toml")
  | None => flag_Parse (Join RootPath "configs/netsvr.toml")
  end.

(** [new(config)] with the default that is not zero. *)
Definition new_config : settings :=
  let server := mkServer "" 0 0 0 0 0 [] in
  let redis := mkRedisQueue "" None None "" "" in
  let amqp := mkAMQPQueue "" "" "" None "" "" None None None None in
  mkSettings "" "" 0 "" false 0 0 (mkCustomer 100 "" "" [] 0 0 0 0 0 [] 0 0 0 0 0) "" "" "" 0
    (mkQueues redis redis redis redis) (mkQueues amqp amqp amqp amqp) server server [].

(** [init] of package configs. *)
Definition load (RootPath : string) : outcome settings :=
  match configFile RootPath with
  | inl code => Exits code
  | inr (true, _) => if ParseInt_BuildTimestamp then Exits 0 else Exits 1
  | inr (false, file) =>
      match ReadFile file with
      | None => Exits 1
      | Some c =>
          match Decode c new_config with
          | None => Exits 1
          | Some s => match init next s with inl _ => Exits 1 | inr s' => Loaded s' end
          end
      end
  end.

(** [readRandomUint32], for [incrId] of package uniqIdGen. *)
Definition readRandomUint32 : outcome Z :=
  match random with
  | None => Exits 1
  | Some (b0, b1, b2, b3) =>
      Loaded (Z.lor (Z.lor (Z.lor (Z.shiftl b0 0) (Z.shiftl b1 8)) (Z.shiftl b2 16)) (Z.shiftl b3 24))
  end.

(** The variables of package uniqIdGen, then its [init]. *)
Definition uniqIdGen_init (s : settings) : outcome (Z * list ascii) :=
  andThen readRandomUint32 (fun i =>
  andThen (or_panic (Ids.templateHex (s_ListenAddress (Task s)))) (fun th => Loaded (i, th))).

(** [init] of connId.go and of manager.go in package worker. *)
Definition worker_init (s : settings) : outcome (bytes * gmap Z collect) :=
  andThen (or_panic (Ids.connIdTemplate (s_ListenAddress (Worker s)))) (fun ct =>
  if manager_init then Loaded (ct, workers_init rand (s_ListenAddress (Worker s))) else Panics).

(** The packages that read the settings, that of the log before those that log; the two
    packages without a dependency between them in either order. The checks of the three
    other managers only need the events. *)
Definition init_packages (RootPath : string) (s : settings) : outcome packages :=
  andThen (or_panic (Logging.Logger Join RootPath s)) (fun l =>
  if manager_init then
    let loaded '(i, th) '(ct, ws) :=
      Loaded (mkPackages s l (Metrics.init (MetricsItem s)) (limit_init s) i th ct ws) in
    if worker_first
    then andThen (worker_init s) (fun w => andThen (uniqIdGen_init s) (fun u => loaded u w))
    else andThen (uniqIdGen_init s) (fun u => andThen (worker_init s) (fun w => loaded u w))
  else Panics).

Definition process_init : outcome packages :=
  match Wd.RootPath Getwd with
  | None => Exits 1
  | Some RootPath => andThen (load RootPath) (init_packages RootPath)
  end.

(** ** What can go wrong, and what is right otherwise *)

(** The name of the log file is one character, and no slash. *)
Definition short_name (s : settings) : Prop :=
  exists c, LogFile s = String.string_of_list_ascii [c] /\ c <> "/"%char.

(** The listen address has the host that no IPv4 address is written as. *)
Definition nil_host (a : string) : Prop := exists p, SplitHostPort a = Some ("<nil>"%string, p).

(** The six bytes of an address. *)
Definition written (a : string) (t : bytes) : Prop :=
  exists h p ip4, SplitHostPort a = Some (h, p) /\ ParseIP h = Some (v4InV6Prefix ++ ip4) /\ length ip4 = 4%nat /\
    t = ip4 ++ put_be 2 (u16 (Ids.Atoi p)).

Lemma manager_init_fits : manager_init = true.
Proof. reflexivity. Qed.

Lemma Logger_none RootPath s : Logging.Logger Join RootPath s = None <-> short_name s.
Proof.
  unfold Logging.Logger, GetLogFile, short_name. destruct (LogFile s) as [|c [|c' r]]; cbn -[String.prefix].
  - split; [done|]. intros (c & ? & _). done.
  - destruct (String.prefix "/" _) eqn:E; cbn -[String.prefix].
    + split; [done|]. intros (c' & Ec & Hc). exfalso. apply Hc. revert E. cbn in Ec. injection Ec as <-. cbn [String.prefix].
      destruct (ascii_dec "/" c) as [<-|]; [done|by intros [=]].
    + split; [|done]. intros _. exists c. split; [done|]. intros ->. done.
  - destruct (String.prefix "/" _); cbn; (split; [done|]); intros (d & Ed & _); by cbn in Ed.
Qed.

Lemma workers_init_events a v :
  is_Some (workers_init rand a !! v) <-> a <> EmptyString /\ v ∈ [Event_OnOpen; Event_OnClose; Event_OnMessage].
Proof.
  unfold workers_init. destruct (is_empty a) eqn:E.
  - apply is_empty_true in E. rewrite lookup_empty. split; [by intros []|by intros []].
  - apply is_empty_false in E. cbn [Event_values]. rewrite <- elem_of_dom, dom_list_to_map_L. cbn. set_solver.
Qed.

Section Good.
Context `{!IPText}.

Lemma good_address a :
  (exists h p, SplitHostPort a = Some (h, p) /\ good_host h) ->
  (nil_host a /\ Ids.put_address a = None) \/ (~ nil_host a /\ exists t, Ids.put_address a = Some t /\ written a t).
Proof.
  intros (h & p & Hs & [Hv|Hn]); [right|left].
  - unfold IsValidIPv4 in Hv. destruct (ParseIP h) as [ip|] eqn:Ep; [|done]. apply bool_decide_eq_true in Hv as [ip4 E4].
    destruct (To4_bytes _ _ E4 (ip_parsed _ _ Ep)) as [Hl Hw]. pose proof (ip_length _ _ Ep) as H16.
    assert (ip = v4InV6Prefix ++ ip4) as ->.
    { unfold To4 in E4. rewrite H16 in E4. cbn in E4. case_bool_decide as Hpre; [|done]. injection E4 as <-.
      rewrite <- Hpre at 1. by rewrite take_drop. }
    split.
    + intros (p' & Hs'). rewrite Hs in Hs'. injection Hs' as -> ->. by rewrite ip_nil in Ep.
    + eexists. split; [by apply (Ids.put_address_of h p)|]. by exists h, p, ip4.
  - subst h. split; [by exists p|]. unfold Ids.put_address. rewrite Hs. cbn. by rewrite ip_nil.
Qed.

(** Why the start ends with a status: nothing to read the settings from, or settings that
    the checks refuse, or the command line. *)
Definition ends_with (RootPath : string) (n : Z) : Prop :=
  configFile RootPath = inl n \/
  (exists file, configFile RootPath = inr (true, file) /\ n = if ParseInt_BuildTimestamp then 0 else 1) \/
  exists file, configFile RootPath = inr (false, file) /\ n = 1 /\
    (ReadFile file = None \/ exists c, ReadFile file = Some c /\
      (Decode c new_config = None \/ exists s msg, Decode c new_config = Some s /\ init next s = inl msg)).

Lemma load_cases RootPath :
  match load RootPath with
  | Exits n => ends_with RootPath n
  | Panics => False
  | Loaded s => exists file c s0, configFile RootPath = inr (false, file) /\ ReadFile file = Some c /\
                  Decode c new_config = Some s0 /\ init next s0 = inr s
  end.
Proof.
  unfold load, ends_with. destruct (configFile RootPath) as [n|[[] file]]; [by left| |].
  - destruct ParseInt_BuildTimestamp; right; left; by exists file.
  - destruct (ReadFile file) as [c|] eqn:Ec; [|right; right; exists file; tauto].
    destruct (Decode c new_config) as [s|] eqn:Es; [|right; right; exists file; naive_solver].
    destruct (init next s) as [msg|s'] eqn:Ei; [right; right; exists file; naive_solver|]. by exists file, c, s.
Qed.

(** What the packages hold. *)
Record well_started (RootPath : string) (pk : packages) : Prop := {
  w_settings : valid_settings (Conf pk);
  w_read : exists file c s, configFile RootPath = inr (false, file) /\ ReadFile file = Some c /\
             Decode c new_config = Some s /\ init next s = inr (Conf pk);
  w_random : exists b0 b1 b2 b3, random = Some (b0, b1, b2, b3) /\
             (wf_bytes [b0; b1; b2; b3] -> IncrId pk = be [b3; b2; b1; b0]);
  w_template : exists t, TemplateHex pk = Ids.hex t /\ written (s_ListenAddress (Task (Conf pk))) t;
  w_worker : s_ListenAddress (Worker (Conf pk)) = EmptyString \/
             written (s_ListenAddress (Worker (Conf pk))) (ConnIdTemplate pk);
  w_registry : Metrics.stands_for (Registry pk) (Metrics.meters_init (MetricsItem (Conf pk)));
  w_level : (Log pk).1 = GetLogLevel (Conf pk);
  w_workers v : is_Some (Workers pk !! v) <->
    s_ListenAddress (Worker (Conf pk)) <> EmptyString /\ v ∈ [Event_OnOpen; Event_OnClose; Event_OnMessage];
}.

(** The settings with which a package cannot start. *)
Definition unusable (s : settings) : Prop :=
  short_name s \/ nil_host (s_ListenAddress (Task s)) \/ nil_host (s_ListenAddress (Worker s)).

Lemma empty_not_nil_host : ~ nil_host EmptyString.
Proof. by intros (p & ?). Qed.

(** The four bytes, the last the highest. *)
Lemma random_value b0 b1 b2 b3 :
  wf_bytes [b0; b1; b2; b3] ->
  Z.lor (Z.lor (Z.lor (Z.shiftl b0 0) (Z.shiftl b1 8)) (Z.shiftl b2 16)) (Z.shiftl b3 24) = be [b3; b2; b1; b0].
Proof.
  unfold wf_bytes. rewrite !Forall_cons. unfold is_byte. intros (B0 & B1 & B2 & B3 & _). rewrite Z.shiftl_0_r.
  rewrite <- (Cipher.lor_low_high b0), <- (Cipher.lor_low_high (b0 + _)), <- (Cipher.lor_low_high (b0 + _ + _)) by lia.
  unfold be. cbn [foldl]. lia.
Qed.

Lemma uniqIdGen_cases s :
  valid_settings s ->
  match uniqIdGen_init s with
  | Exits n => random = None /\ n = 1
  | Panics => nil_host (s_ListenAddress (Task s))
  | Loaded (i, th) => ~ nil_host (s_ListenAddress (Task s)) /\ (exists t, th = Ids.hex t /\ written (s_ListenAddress (Task s)) t) /\
      exists b0 b1 b2 b3, random = Some (b0, b1, b2, b3) /\ (wf_bytes [b0; b1; b2; b3] -> i = be [b3; b2; b1; b0])
  end.
Proof.
  intros Hv. unfold uniqIdGen_init, readRandomUint32, Ids.templateHex. destruct random as [[[[b0 b1] b2] b3]|]; [|done]. cbn [andThen].
  destruct (good_address _ (proj1 (v_TaskAddress _ Hv))) as [[Hn ->]|(Hn & t & -> & Ht)]; [done|]. cbn -[Z.shiftl].
  split_and!; [done|by exists t|]. exists b0, b1, b2, b3. split; [done|apply random_value].
Qed.

Lemma worker_cases s :
  valid_settings s ->
  match worker_init s with
  | Exits n => False
  | Panics => nil_host (s_ListenAddress (Worker s))
  | Loaded (ct, ws) => ~ nil_host (s_ListenAddress (Worker s)) /\
      (s_ListenAddress (Worker s) = EmptyString \/ written (s_ListenAddress (Worker s)) ct) /\
      forall v, is_Some (ws !! v) <-> s_ListenAddress (Worker s) <> EmptyString /\ v ∈ [Event_OnOpen; Event_OnClose; Event_OnMessage]
  end.
Proof.
  intros Hv. unfold worker_init, Ids.connIdTemplate. rewrite manager_init_fits.
  pose proof (workers_init_events (s_ListenAddress (Worker s))) as Hws.
  destruct (is_empty _) eqn:Ee; [apply is_empty_true in Ee|]; cbn [or_panic andThen].
  - split_and!; [rewrite Ee; apply empty_not_nil_host|by left|apply Hws].
  - destruct (v_WorkerAddress _ Hv) as [Hw|[Hw _]]; [by rewrite Hw in Ee|].
    destruct (good_address _ Hw) as [[Hn ->]|(Hn & ct & -> & Hc)]; [done|]. cbn [or_panic andThen]. split_and!; [done|by right|apply Hws].
Qed.

Lemma init_packages_cases RootPath s :
  valid_settings s ->
  match init_packages RootPath s with
  | Exits n => random = None /\ n = 1
  | Panics => unusable s
  | Loaded pk => ~ unusable s /\ Conf pk = s /\
      (exists b0 b1 b2 b3, random = Some (b0, b1, b2, b3) /\ (wf_bytes [b0; b1; b2; b3] -> IncrId pk = be [b3; b2; b1; b0])) /\
      (exists t, TemplateHex pk = Ids.hex t /\ written (s_ListenAddress (Task s)) t) /\
      (s_ListenAddress (Worker s) = EmptyString \/ written (s_ListenAddress (Worker s)) (ConnIdTemplate pk)) /\
      Metrics.stands_for (Registry pk) (Metrics.meters_init (MetricsItem s)) /\ (Log pk).1 = GetLogLevel s /\
      (forall v, is_Some (Workers pk !! v) <-> s_ListenAddress (Worker s) <> EmptyString /\ v ∈ [Event_OnOpen; Event_OnClose; Event_OnMessage])
  end.
Proof.
  intros Hv. unfold init_packages, unusable. destruct (Logging.Logger Join RootPath s) as [l|] eqn:El; [|left; by apply (Logger_none RootPath)].
  assert (~ short_name s) as Hsn by (rewrite <- (Logger_none RootPath), El; done).
  assert (l.1 = GetLogLevel s) as Hlv by (unfold Logging.Logger in El; destruct (GetLogFile Join RootPath s); [|done]; by injection El as <-).
  rewrite manager_init_fits. cbn [or_panic andThen]. pose proof (uniqIdGen_cases s Hv) as Hu. pose proof (worker_cases s Hv) as Hw.
  destruct worker_first, (worker_init s) as [[ct ws]|n|], (uniqIdGen_init s) as [[i th]|m|]; cbn [andThen]; try tauto;
    destruct Hu as (? & ? & ?), Hw as (? & ? & ?); cbn; split_and!; try done; [tauto|apply Metrics.init_stands|tauto|apply Metrics.init_stands].
Qed.

(** C39: The initialisation of the packages ends in one of three ways. It exits with a
    status because the working directory, the command line, the settings file or the checks
    of the settings say so, or with 1 because there is no random number for the identifiers;
    or it panics, with settings that the checks let through, because the name of the log
    file is a single character or a server's host is the text "<nil>" that a name with IPv6
    addresses only is resolved to; or main begins with settings that are well formed and
    not of that kind, templates that hold the addresses and ports which the servers listen
    on, a counter that starts at the random number, and the meters that the settings name. *)
Theorem process_init_ends :
  match process_init with
  | Exits n => Getwd = None /\ n = 1 \/ exists RootPath, Wd.RootPath Getwd = Some RootPath /\
      (ends_with RootPath n \/ (exists s, load RootPath = Loaded s /\ valid_settings s) /\ random = None /\ n = 1)
  | Panics => exists RootPath s, Wd.RootPath Getwd = Some RootPath /\ load RootPath = Loaded s /\ valid_settings s /\ unusable s
  | Loaded pk => exists RootPath, Wd.RootPath Getwd = Some RootPath /\ well_started RootPath pk /\ ~ unusable (Conf pk)
  end.
Proof.
  unfold process_init. destruct (Wd.RootPath Getwd) as [r|] eqn:Er.
  2: { left. by destruct Getwd. }
  pose proof (load_cases r) as Hl. destruct (load r) as [s|n|] eqn:El; cbn [andThen]; [|right; exists r; tauto|done].
  destruct Hl as (file & c & s0 & Hf & Hc & Hd & Hi). pose proof (init_valid next s0 s Hi) as Hv.
  pose proof (init_packages_cases r s Hv) as Hp. destruct (init_packages r s) as [pk|n|]; [|right; exists r; eauto 8|by exists r, s].
  destruct Hp as (Hu & <- & Hn & Ht & Hw & Hr & Hg & Hwk). exists r. split_and!; [done| |done]. split; try done. by exists file, c, s0.
Qed.
End Good.
End Boot.

(** A program that is started in a directory with the settings of [demo_settings]. *)
Definition demo_join (a b : string) : string := (a ++ b)%string.

Definition demo_init : outcome packages :=
  @process_init NetText.machine (Some "/srv/netsvr"%string) demo_join (fun file => inr (false, file)) true
    (fun file => if String.eqb file "/srv/netsvr/configs/netsvr.toml" then Some "..."%string else None)
    (fun _ _ => Some demo_settings) 0 (fun v => v) (Some (154, 27, 141, 42)) true.

Definition demo_loaded : bool := match demo_init with Loaded _ => true | _ => false end.

Lemma process_init_ends_witness :
  exists pk, demo_init = Loaded pk /\ @valid_settings NetText.machine (Conf pk) /\
    TemplateHex pk = Ids.hex [192; 168; 1; 5; 23; 174] /\ ConnIdTemplate pk = [10; 0; 0; 7; 23; 173].
Proof.
  assert (demo_loaded = true) as Hl by (vm_compute; reflexivity). unfold demo_loaded in Hl.
  assert (match demo_init with Loaded pk => TemplateHex pk = Ids.hex [192; 168; 1; 5; 23; 174] /\ ConnIdTemplate pk = [10; 0; 0; 7; 23; 173] | _ => True end)
    as Ht by (vm_compute; split; reflexivity).
  pose proof (process_init_ends (H := NetText.machine) (H0 := NetText.machine_text) (Some "/srv/netsvr"%string) demo_join (fun file => inr (false, file)) true
    (fun file => if String.eqb file "/srv/netsvr/configs/netsvr.toml" then Some "..."%string else None)
    (fun _ _ => Some demo_settings) 0 (fun v => v) (Some (154, 27, 141, 42)) true) as Hp. fold demo_init in Hp.
  destruct demo_init as [pk|n|]; [|discriminate Hl..]. destruct Hp as (r & _ & Hw & _).
  exists pk. split; [reflexivity|]. split; [apply Hw|exact Ht].
Defined.
End Boot.
